(** * XXMITools exporter: typed buffer encoding and outline normals

    A shallow embedding of the numeric and combinatorial core of
    [migoto/export_ops.py] and [migoto/exporter.py], with the properties
    of the buffer codec, the vertex de-duplication and the outline
    optimizer stated over it.

    Conventions.
    - numpy scalars of dtype float16 / float32 / float64 are IEEE binary
      floats: [spec_float] of the standard library, with the operations
      [SFmul], [SFadd], ... at the precision of the dtype, so that every
      rounding of the source is present in the model.
    - numpy integer dtypes are [Z] reduced to the width of the dtype.
    - ordered dictionaries are association lists in insertion order.
    - the outline optimizer computes in float64; the sum of products of
      [numpy.einsum] and [numpy.arccos] are parameters of its model. *)

From Stdlib Require Import ZArith List Bool Lia QArith Qround Qabs Qpower String Ascii.
From Stdlib Require Import SpecFloat DecimalString.
Import ListNotations.

Local Open Scope Z_scope.

(* ================================================================== *)
(** * Part I.  Definitions                                             *)
(* ================================================================== *)

(** ** Floating point scalars *)

Module NumpyFloat.

(** A numpy floating dtype, given by the precision and the exponent bound
    of its IEEE format. *)
Inductive float_dtype := float16 | float32 | float64.

Definition prec (d : float_dtype) : Z :=
  match d with float16 => 11 | float32 => 24 | float64 => 53 end.

Definition emax (d : float_dtype) : Z :=
  match d with float16 => 16 | float32 => 128 | float64 => 1024 end.

(** Conversion of a Python integer to the dtype (round to nearest even,
    overflow to infinity), as numpy does for the scalar operand of
    [array * 255]. *)
Definition of_int (d : float_dtype) (n : Z) : spec_float :=
  binary_normalize (prec d) (emax d) n 0 false.

Definition mul (d : float_dtype) (x y : spec_float) : spec_float :=
  SFmul (prec d) (emax d) x y.

Definition add (d : float_dtype) (x y : spec_float) : spec_float :=
  SFadd (prec d) (emax d) x y.

Definition sub (d : float_dtype) (x y : spec_float) : spec_float :=
  SFsub (prec d) (emax d) x y.

Definition div (d : float_dtype) (x y : spec_float) : spec_float :=
  SFdiv (prec d) (emax d) x y.

Definition neg (x : spec_float) : spec_float := SFopp x.




(** The exact rational value of a finite float ([0] for the others). *)
Definition to_Q (x : spec_float) : Q :=
  match x with
  | S754_finite s m e =>
      let v := (inject_Z (Z.pos m) * Qpower 2 e)%Q in
      if s then Qopp v else v
  | _ => 0%Q
  end.

(** [numpy.round] (rint): the nearest integer, a tie going to the even
    neighbour.  The float [±m·2^e] is split into its integer part and
    the remainder over [2^(-e)]. *)
Definition rint_pos (m : positive) (e : Z) : Z :=
  if 0 <=? e then Z.pos m * 2 ^ e
  else
    let d := 2 ^ (- e) in
    let q := Z.pos m / d in
    let r := Z.pos m mod d in
    match 2 * r ?= d with
    | Lt => q
    | Gt => q + 1
    | Eq => if Z.even q then q else q + 1
    end.

Definition numpy_round (x : spec_float) : option Z :=
  match x with
  | S754_zero _ => Some 0
  | S754_finite s m e => Some (if s then - rint_pos m e else rint_pos m e)
  | _ => None
  end.

(** Rounding of a rational, a tie going away from zero: the rule the
    import side is documented to use. *)
Definition round_half_away (q : Q) : Z :=
  if Qle_bool 0 q then Qfloor (q + (1 # 2)) else Qceiling (q - (1 # 2)).

End NumpyFloat.

(** ** Formats, elements and typed cells *)

Module Layout.
Import NumpyFloat.

(** The numeric classes told apart by the format patterns
    ([f32_pattern], ..., [snorm8_pattern]) of the dtype chain of
    [blender_to_migoto_vertices]; a format none of them matches is
    [Unsupported]. *)
Inductive FormatKind :=
  | F32 | F16 | U32 | U16 | U8 | S32 | S16 | S8
  | UNORM16 | UNORM8 | SNORM16 | SNORM8
  | Unsupported.

Definition FormatKind_eqb (a b : FormatKind) : bool :=
  match a, b with
  | F32, F32 | F16, F16 | U32, U32 | U16, U16 | U8, U8
  | S32, S32 | S16, S16 | S8, S8
  | UNORM16, UNORM16 | UNORM8, UNORM8 | SNORM16, SNORM16 | SNORM8, SNORM8
  | Unsupported, Unsupported => true
  | _, _ => false
  end.

(** [elem.Format.upper().endswith("_UNORM")] *)
Definition ends_with_UNORM (f : FormatKind) : bool :=
  match f with UNORM16 | UNORM8 => true | _ => false end.

Inductive SlotClass := per_vertex | per_instance.

Record InputElement := {
  name : string;
  SemanticIndex : nat;
  Format : FormatKind;
  format_len : nat;
  InputSlotClass : SlotClass;
  reused_offset : bool
}.

Record InputLayout := {
  elems : list InputElement;
  (** [get_semantic_remap()]: element name -> (semantic, index) *)
  semantic_remap : list (string * (string * nat))
}.

(** [elem.InputSlotClass != "per-vertex" or elem.reused_offset] *)
Definition skipped (e : InputElement) : bool :=
  match InputSlotClass e with
  | per_vertex => reused_offset e
  | per_instance => true
  end.

(** The numpy dtype of a field: a float dtype or an integer of a width. *)
Inductive field_dtype :=
  | DFloat (d : float_dtype)
  | DInt (bits : Z) (signed : bool).

(** The dtype chain of lines 1084-1133; [None] is the [Fatal] of an
    unsupported format. *)
Definition dtype_of (f : FormatKind) : option field_dtype :=
  match f with
  | F32 => Some (DFloat float32)
  | F16 => Some (DFloat float16)
  | U32 => Some (DInt 32 false)
  | U16 => Some (DInt 16 false)
  | U8 => Some (DInt 8 false)
  | S32 => Some (DInt 32 true)
  | S16 => Some (DInt 16 true)
  | S8 => Some (DInt 8 true)
  | UNORM16 => Some (DInt 16 false)
  | UNORM8 => Some (DInt 8 false)
  | SNORM16 => Some (DInt 16 true)
  | SNORM8 => Some (DInt 8 true)
  | Unsupported => None
  end.

(** A scalar of a numpy array. *)
Inductive cell :=
  | CF (d : float_dtype) (x : spec_float)
  | CI (bits : Z) (signed : bool) (n : Z).

(** Reduction of an integer to a [bits]-wide numpy integer. *)
Definition wrap (bits : Z) (signed : bool) (n : Z) : Z :=
  let m := n mod 2 ^ bits in
  if signed && (2 ^ (bits - 1) <=? m) then m - 2 ^ bits else m.

(** Conversion of a float to another float dtype (round to nearest). *)
Definition cast_float (d : float_dtype) (x : spec_float) : spec_float :=
  match x with
  | S754_finite s m e =>
      binary_normalize (prec d) (emax d) (if s then Z.neg m else Z.pos m) e s
  | _ => x
  end.

(** Truncation of a finite float towards zero. *)
Definition trunc (x : spec_float) : option Z :=
  match x with
  | S754_zero _ => Some 0
  | S754_finite s m e =>
      let a := if 0 <=? e then Z.pos m * 2 ^ e else Z.pos m / 2 ^ (- e) in
      Some (if s then - a else a)
  | _ => None
  end.

(** The conversion instruction of x86-64 behind the C cast of a float
    to an integer ([cvttss2si], [cvttsd2si]) into a register of [reg]
    bits: the truncated value when the register holds it, and else, as
    for a NaN or an infinity, the "integer indefinite" value, the
    minimum of the register. *)
Definition cvtt (reg : Z) (x : spec_float) : Z :=
  match trunc x with
  | Some n =>
      if (- 2 ^ (reg - 1) <=? n) && (n <? 2 ^ (reg - 1)) then n else - 2 ^ (reg - 1)
  | None => - 2 ^ (reg - 1)
  end.

(** The register the cast to an integer dtype converts into: 32 bits
    for the dtypes of 8 and 16 bits and for int32, 64 bits for uint32
    (the program has no dtype of 64 bits). *)
Definition register (bits : Z) (signed : bool) : Z :=
  if (bits <? 32) || (signed && (bits =? 32)) then 32 else 64.

(** The cast of a float to an integer dtype: the low [bits] bits of
    the register.  A value out of the range of the dtype wraps as long
    as the register holds it; past that, and for a NaN or an infinity,
    the low bits of the indefinite value are stored, which are 0 for
    every dtype but int32. *)
Definition float_to_int (bits : Z) (signed : bool) (x : spec_float) : Z :=
  wrap bits signed (cvtt (register bits signed) x).

(** [array.astype(dtype)] and the implicit cast of
    [migoto_verts[elem.name] = result], on one scalar.  No clamping is
    done. *)
Definition astype (t : field_dtype) (c : cell) : cell :=
  match t, c with
  | DFloat d, CF _ x => CF d (cast_float d x)
  | DFloat d, CI _ _ n => CF d (of_int d n)
  | DInt b s, CF _ x => CI b s (float_to_int b s x)
  | DInt b s, CI _ _ n => CI b s (wrap b s n)
  end.

(** The float of dtype [d] whose value is the integer [n], of at most
    [prec d] binary digits, in canonical form. *)
Definition integral_float (d : float_dtype) (s : bool) (n : Z) : spec_float :=
  match n with
  | Z.pos p =>
      let k := Z.pos (digits2_pos p) in
      if prec d <? k then S754_finite s p 0
      else S754_finite s (Z.to_pos (Z.pos p * 2 ^ (prec d - k))) (k - prec d)
  | _ => S754_zero s
  end.

(** [numpy.round(a)] on one float: the nearest integral float, ties to
    even; a float without fractional bits is its own rounding. *)
Definition np_round_float (d : float_dtype) (x : spec_float) : spec_float :=
  match x with
  | S754_finite s m e =>
      if 0 <=? e then x else integral_float d s (rint_pos m e)
  | _ => x
  end.

Definition np_round (c : cell) : cell :=
  match c with
  | CF d x => CF d (np_round_float d x)
  | CI _ _ _ => c
  end.

(** [numpy.min_scalar_type(k)] of a Python integer, by its width: the
    smallest unsigned type holding [k], the smallest signed one for a
    negative [k]. *)
Definition min_scalar_bits (k : Z) : Z :=
  if 0 <=? k then
    if k <? 2 ^ 8 then 8 else if k <? 2 ^ 16 then 16 else if k <? 2 ^ 32 then 32 else 64
  else
    if - 2 ^ 7 <=? k then 8 else if - 2 ^ 15 <=? k then 16
    else if - 2 ^ 31 <=? k then 32 else 64.

(** [numpy.promote_types] of a float dtype and an integer dtype of a
    width: the smallest float dtype that holds every integer of that
    width. *)
Definition promote_float_int (d : float_dtype) (bits : Z) : float_dtype :=
  match d with
  | float16 => if bits <=? 8 then float16 else if bits <=? 16 then float32 else float64
  | float32 => if bits <=? 16 then float32 else float64
  | float64 => float64
  end.

(** The dtype of [a * k] for an integer array [a]: [numpy.promote_types]
    of the dtype of [a] and of the smallest type of [k], a non-negative
    [k] that fits the signed type of its width counting as signed next
    to a signed array.  (For the int32 arrays of the program and the
    constants 127, 255, 32767 and 65535 this is int32; no width of the
    program reaches 64 bits, past which numpy turns to float64.) *)
Definition promote_int_int (bits : Z) (signed : bool) (k : Z) : Z * bool :=
  let u := min_scalar_bits k in
  if 0 <=? k then
    if signed then
      if k <? 2 ^ (u - 1) then (Z.max bits u, true)
      else if u <? bits then (bits, true) else (2 * u, true)
    else (Z.max bits u, false)
  else
    if signed then (Z.max bits u, true)
    else if bits <? u then (u, true) else (2 * bits, true).

(** The dtype in which [a * k] is computed for a float array [a] of
    dtype [d] and a Python integer [k] (numpy 1.x, where the value of the
    scalar decides): float16 is kept for the 8-bit constants 127 and 255
    and widened to float32 for 32767 and 65535. *)
Definition product_dtype (d : float_dtype) (k : Z) : float_dtype :=
  promote_float_int d (min_scalar_bits k).

(** One component of [a * k]: both operands are converted to the dtype
    of the product, in which the product is rounded. *)
Definition float_product (d : float_dtype) (x : spec_float) (k : Z) : spec_float :=
  let p := product_dtype d k in
  mul p (cast_float p x) (of_int p k).

(** [a * k] for a Python integer [k], on one scalar. *)
Definition mul_int (c : cell) (k : Z) : cell :=
  match c with
  | CF d x => CF (product_dtype d k) (float_product d x k)
  | CI b s n =>
      let (b', s') := promote_int_int b s k in
      CI b' s' (wrap b' s' (n * k))
  end.

(** The quantization step, lines 1365-1373:
    [numpy.round(result * MAX).astype(inttype)] for the four normalized
    formats, nothing for the others. *)
Definition quant_max (f : FormatKind) : option Z :=
  match f with
  | UNORM16 => Some 65535
  | UNORM8 => Some 255
  | SNORM16 => Some 32767
  | SNORM8 => Some 127
  | _ => None
  end.

Definition quantize (f : FormatKind) (c : cell) : cell :=
  match quant_max f, dtype_of f with
  | Some M, Some t => astype t (np_round (mul_int c M))
  | _, _ => c
  end.

(** The integer stored for a float component [x] of dtype [d]. *)
Definition encode (f : FormatKind) (d : float_dtype) (x : spec_float) : option Z :=
  match quantize f (CF d x) with
  | CI _ _ n => Some n
  | CF _ _ => None
  end.

End Layout.

(** ** Exceptions *)

Module Py.

Inductive exn :=
  | Fatal (msg : string)
  | KeyError
  | IndexError
  | ValueError
  | NameError.

Inductive outcome (A : Type) :=
  | Ok (a : A)
  | Raise (e : exn).
Arguments Ok {A} a.
Arguments Raise {A} e.

Definition bind {A B : Type} (m : outcome A) (k : A -> outcome B) : outcome B :=
  match m with
  | Ok a => k a
  | Raise e => Raise e
  end.

Definition of_option {A : Type} (e : exn) (o : option A) : outcome A :=
  match o with
  | Some a => Ok a
  | None => Raise e
  end.

Fixpoint mapM {A B : Type} (f : A -> outcome B) (l : list A) : outcome (list B) :=
  match l with
  | [] => Ok []
  | a :: l' =>
      bind (f a) (fun b => bind (mapM f l') (fun bs => Ok (b :: bs)))
  end.

Definition raises {A : Type} (m : outcome A) : bool :=
  match m with
  | Ok _ => false
  | Raise _ => true
  end.

(** Lookup in a dictionary kept as an association list, first binding
    of a key. *)
Fixpoint lookup {V : Type} (k : string) (d : list (string * V)) : option V :=
  match d with
  | [] => None
  | (k', v) :: d' => if String.eqb k k' then Some v else lookup k d'
  end.

End Py.

Declare Scope py_scope.
Notation "x <- m ;; k" := (Py.bind m (fun x => k))
  (at level 61, m at next level, right associativity) : py_scope.

(** ** The evaluated mesh and the object properties *)

Module Blender.

(** A [mathutils.Vector] of size 3. *)
Definition Vector : Type := spec_float * spec_float * spec_float.

Definition to_list (v : Vector) : list spec_float :=
  let '(x, y, z) := v in [x; y; z].

Record MeshLoop := {
  vertex_index : nat;
  normal : Vector;
  tangent : Vector;
  bitangent_sign : spec_float
}.

(** The part of a triangulated, evaluated [bpy.types.Mesh] read by the
    assembler.  The index of a loop is its position in [loops].  The mesh
    carries no custom vertex layers ([POSITION.w], [NORMAL.w],
    [<semantic>.x]). *)
Record Mesh := {
  (** [undeformed_co] of every vertex *)
  vertices : list Vector;
  loops : list MeshLoop;
  n_polygons : nat;
  (** [bm.verts.layers.deform.active] with, per vertex, its
      (group index, weight) items; [None] without a deform layer *)
  deform : option (list (list (nat * spec_float)));
  vertex_colors : list (string * list (list spec_float));
  uv_layers : list (string * list (list spec_float))
}.

Record Object := {
  (** [len(obj.data.polygons)] *)
  data_polygons : nat;
  FlipMesh : bool;
  FlipNormal : bool;
  FlipWinding : bool;
  vertex_groups : list string;
  (** [obj["3DMigoto:" + uv]["flip_v"]], a [KeyError] when absent *)
  flip_v : list (string * bool)
}.

(** The object with its [3DMigoto:FlipWinding] property set to [b]. *)
Definition set_FlipWinding (b : bool) (o : Object) : Object :=
  {| data_polygons := data_polygons o;
     FlipMesh := FlipMesh o;
     FlipNormal := FlipNormal o;
     FlipWinding := b;
     vertex_groups := vertex_groups o;
     flip_v := flip_v o |}.

Inductive GameEnum :=
  | GenshinImpact
  | HonkaiStarRail
  | ZenlessZoneZero
  | HonkaiImpactPart2.

End Blender.

(** ** The vertex assembler: [blender_to_migoto_vertices] *)

Module Assembler.
Import NumpyFloat Layout Py Blender.
Local Open Scope py_scope.

(** A numpy array of shape [(len(mesh.loops), k)]: one row per loop. *)
Definition column : Type := list (list cell).

Definition fzero (d : float_dtype) : cell := CF d (S754_zero false).
Definition fone (d : float_dtype) : cell := CF d (of_int d 1).

Definition neg_cell (c : cell) : cell :=
  match c with
  | CF d x => CF d (neg x)
  | CI b s n => CI b s (wrap b s (- n))
  end.

(** [a - k] for a Python integer [k]. *)
Definition sub_int (c : cell) (k : Z) : cell :=
  match c with
  | CF d x => CF d (sub d x (of_int d k))
  | CI b s n => CI b s (wrap b s (n - k))
  end.

Definition div_cell (a b : cell) : cell :=
  match a, b with
  | CF d x, CF _ y => CF d (div d x y)
  | _, _ => a
  end.

Definition add_cell (a b : cell) : cell :=
  match a, b with
  | CF d x, CF _ y => CF d (add d x y)
  | _, _ => a
  end.

(** [-(2 * main_obj.get("3DMigoto:FlipMesh", False) - 1)] *)
Definition flip_sign (flag : bool) : Z := - (2 * (if flag then 1 else 0) - 1).

(** [result[:, 0] *= k] on one row. *)
Definition mul_first (k : Z) (row : list cell) : list cell :=
  match row with
  | [] => []
  | c :: r => mul_int c k :: r
  end.

(** Reading Blender floats into an array of dtype [d]. *)
Definition load (d : float_dtype) (l : list spec_float) : list cell :=
  map (fun x => CF d (cast_float d x)) l.

(** [result * 2 - 1] *)
Definition times2_minus1 (c : cell) : cell := sub_int (mul_int c 2) 1.

(** POSITION, lines 1172-1185, for one loop whose vertex has the
    coordinates [co]. *)
Definition position_row (fl : nat) (main_obj : Object) (co : Vector)
  : outcome (list cell) :=
  if (fl <? 3)%nat then Raise ValueError
  else
    Ok (mul_first (flip_sign (FlipMesh main_obj))
          (load float32 (to_list co) ++ repeat (fone float32) (fl - 3))).

(** NORMAL, lines 1186-1210, for one loop. *)
Definition normal_row (e : InputElement) (main_obj : Object) (l : MeshLoop)
  : outcome (list cell) :=
  let fl := format_len e in
  if (fl <? 3)%nat then Raise ValueError
  else
    let r0 := load float16 (to_list (normal l)) ++ repeat (fzero float16) (fl - 3) in
    let r1 := mul_first (flip_sign (FlipMesh main_obj)) r0 in
    let r2 := if FlipNormal main_obj then map neg_cell r1 else r1 in
    let r3 := if ends_with_UNORM (Format e) then map times2_minus1 r2 else r2 in
    Ok r3.

Definition is_game (a b : GameEnum) : bool :=
  match a, b with
  | GenshinImpact, GenshinImpact
  | HonkaiStarRail, HonkaiStarRail
  | ZenlessZoneZero, ZenlessZoneZero
  | HonkaiImpactPart2, HonkaiImpactPart2 => true
  | _, _ => false
  end.

(** TANGENT, lines 1211-1238, for one loop.  [outline] is
    [outline_properties[0]] and [export_outline] the map returned by
    [optimized_outline_generation]. *)
Definition tangent_row (e : InputElement) (game : GameEnum) (main_obj : Object)
    (outline : bool) (export_outline : nat -> option Vector) (l : MeshLoop)
  : outcome (list cell) :=
  let fl := format_len e in
  let t0 := load float16 (to_list (tangent l)) in
  let t1 :=
    if outline then
      match export_outline (vertex_index l) with
      | Some v => load float16 (to_list v)
      | None => t0
      end
    else if is_game game GenshinImpact then load float16 (to_list (normal l))
    else t0 in
  let t2 := if FlipNormal main_obj then map neg_cell t1 else t1 in
  let t3 := if ends_with_UNORM (Format e) then map times2_minus1 t2 else t2 in
  let w := CF float16 (cast_float float16 (bitangent_sign l)) in
  let w' := if is_game game ZenlessZoneZero then neg_cell w else w in
  match firstn fl (t3 ++ [w']) with
  | [] => Raise IndexError
  | r => Ok (mul_first (flip_sign (FlipMesh main_obj)) r)
  end.

(** *** Bone weights *)

(** [masked_vgs]: the indices of the vertex groups whose name starts
    with MASK. *)
Definition masked_vgs (obj : Object) : list nat :=
  map fst
    (filter (fun p => String.prefix "MASK" (snd p))
       (combine (seq 0 (List.length (vertex_groups obj))) (vertex_groups obj))).

(** [sorted(w.items(), key=lambda item: item[1], reverse=True)]: a stable
    sort, heaviest first. *)
Fixpoint insert_by_weight (x : nat * spec_float) (l : list (nat * spec_float))
  : list (nat * spec_float) :=
  match l with
  | [] => [x]
  | y :: l' =>
      if SFltb (snd y) (snd x) then x :: l
      else y :: insert_by_weight x l'
  end.

Definition sort_by_weight (l : list (nat * spec_float)) : list (nat * spec_float) :=
  fold_left (fun acc x => insert_by_weight x acc) l [].

(** The list [weights] of lines 1143-1157, [None] without deform layer. *)
Definition weights (mesh : Mesh) (obj : Object)
  : option (list (list (nat * spec_float))) :=
  match deform mesh with
  | None => None
  | Some per_vertex_items =>
      Some (map (fun items =>
                   sort_by_weight
                     (filter (fun p => negb (existsb (Nat.eqb (fst p)) (masked_vgs obj)))
                        items))
              per_vertex_items)
  end.

(** One entry of [weights_np]: the INDEX (int32) and WEIGHT (float32)
    fields of a vertex. *)
Definition weight_entry : Type := list Z * list spec_float.

Definition pad {A : Type} (n : nat) (d : A) (l : list A) : list A :=
  firstn n l ++ repeat d (n - List.length l).

(** The filling loop of lines 1257-1267 for one vertex.  With more than
    one component the items beyond [format_len] are dropped (the
    [IndexError] is swallowed); with a single component every item
    overwrites the scalar. *)
Definition fill_vertex (fl : nat) (items : list (nat * spec_float)) : weight_entry :=
  if (1 <? fl)%nat then
    (pad fl 0 (map (fun p => wrap 32 true (Z.of_nat (fst p))) items),
     pad fl (S754_zero false) (map (fun p => cast_float float32 (snd p)) items))
  else
    match rev items with
    | [] => ([0], [S754_zero false])
    | p :: _ => ([wrap 32 true (Z.of_nat (fst p))], [cast_float float32 (snd p)])
    end.

(** The state shared by the BLENDWEIGHT and BLENDINDICES branches:
    [blend_len] and [weights_np]. *)
Definition blend_state : Type := option (nat * list weight_entry).

Definition missing_weights : exn :=
  Fatal "The export format is expecting weights and the model has none. Aborting.".

(** Lines 1240-1267 and 1278-1304: build [weights_np] on first use. *)
Definition ensure_weights_np (fl : nat)
    (ws : option (list (list (nat * spec_float)))) (st : blend_state)
  : outcome (nat * list weight_entry) :=
  match st with
  | Some w => Ok w
  | None =>
      match ws with
      | None => Raise missing_weights
      | Some items => Ok (fl, map (fill_vertex fl) items)
      end
  end.

(** [numpy.sum(row)] in float32. *)
Definition sum_row (row : list cell) : cell :=
  fold_left add_cell row (fzero float32).

(** BLENDWEIGHT, lines 1268-1276, for one loop. *)
Definition blendweight_row (fl : nat) (normalize_weights : bool)
    (wnp : nat * list weight_entry) (l : MeshLoop) : outcome (list cell) :=
  entry <- of_option IndexError (nth_error (snd wnp) (vertex_index l)) ;;
  if negb (fst wnp =? fl)%nat then Raise ValueError
  else
    let r := map (CF float32) (snd entry) in
    if normalize_weights then
      if (1 <? fl)%nat then Ok (map (fun c => div_cell c (sum_row r)) r)
      else Ok (map (fun c => div_cell c c) r)
    else Ok r.

(** BLENDINDICES, lines 1305-1308, for one loop. *)
Definition blendindices_row (fl : nat) (wnp : nat * list weight_entry)
    (l : MeshLoop) : outcome (list cell) :=
  entry <- of_option IndexError (nth_error (snd wnp) (vertex_index l)) ;;
  if negb (fst wnp =? fl)%nat then Raise ValueError
  else Ok (map (fun g => CF float32 (of_int float32 g)) (fst entry)).

(** *** Colours and texture coordinates *)

(** COLOR, lines 1309-1312: the column of all loops. *)
Definition color_column (e : InputElement) (mesh : Mesh) : outcome column :=
  data <- of_option KeyError (lookup (name e) (vertex_colors mesh)) ;;
  mapM (fun i =>
          rgba <- of_option IndexError (nth_error data i) ;;
          Ok (firstn (format_len e) (pad 4 (fzero float32) (load float32 rgba))))
       (seq 0 (List.length (loops mesh))).

(** [temp_uv[:, 1] = 1.0 - temp_uv[:, 1]] when the layer is flagged. *)
Definition flip_uv (main_obj : Object) (uv : string) (p : list cell) : list cell :=
  match lookup uv (flip_v main_obj) with
  | Some true =>
      match p with
      | [u; v] =>
          [u; match v with
              | CF d x => CF d (sub d (of_int d 1) x)
              | _ => v
              end]
      | _ => p
      end
  | _ => p
  end.

(** [result[:, count:count+2] = temp_uv] on one row. *)
Definition set_pair (count : nat) (p : list cell) (row : list cell)
  : outcome (list cell) :=
  if (List.length row <? count + 2)%nat then Raise ValueError
  else Ok (firstn count row ++ p ++ skipn (count + 2) row).

(** TEXCOORD of a float format, lines 1313-1334, for the loop [i]. *)
Definition texcoord_row (e : InputElement) (mesh : Mesh) (main_obj : Object)
    (i : nat) : outcome (list cell) :=
  let step (uv : string) (acc : outcome (list cell * nat)) :=
    a <- acc ;;
    match lookup uv (uv_layers mesh) with
    | None => Ok a
    | Some data =>
        p <- of_option IndexError (nth_error data i) ;;
        r <- set_pair (snd a) (flip_uv main_obj uv (pad 2 (fzero float32) (load float32 p))) (fst a) ;;
        Ok (r, (snd a + 2)%nat)
    end in
  a <- step (name e ++ ".zw")%string
         (step (name e ++ ".xy")%string
            (Ok (repeat (fzero float32) (format_len e), 0%nat))) ;;
  match lookup (name e ++ ".x")%string (uv_layers mesh),
        lookup (name e ++ ".z")%string (uv_layers mesh) with
  | None, None => Ok (fst a)
  | _, _ => Raise IndexError
  end.

(** *** The element loop *)

(** [elem.is_float()] and [elem.is_int()] of [datastructures.InputElement]:
    the FLOAT, UNORM and SNORM formats count as float, the UINT and SINT
    formats as int. *)
Definition is_float (e : InputElement) : bool :=
  match Format e with
  | F32 | F16 | UNORM16 | UNORM8 | SNORM16 | SNORM8 => true
  | _ => false
  end.

Definition is_int (e : InputElement) : bool :=
  match Format e with
  | U32 | U16 | U8 | S32 | S16 | S8 => true
  | _ => false
  end.

(** [semantic_translations.get(elem.name, (elem.name, elem.SemanticIndex))] *)
Definition translated_elem_name (fmt_layout : InputLayout) (e : InputElement) : string :=
  match lookup (name e) (semantic_remap fmt_layout) with
  | Some (n, _) => n
  | None => name e
  end.

(** The [if / elif] chain of lines 1172-1335 on the translated name. *)
Inductive branch :=
  | BPosition | BNormal | BTangent | BBlendWeight | BBlendIndices
  | BColor | BTexcoord | BOther.

Definition classify (e : InputElement) (tname : string) : branch :=
  if String.eqb tname "POSITION" then BPosition
  else if String.eqb tname "NORMAL" then BNormal
  else if String.prefix "TANGENT" tname then BTangent
  else if String.prefix "BLENDWEIGHT" tname then BBlendWeight
  else if String.prefix "BLENDINDICES" tname then BBlendIndices
  else if String.prefix "COLOR" tname then BColor
  else if String.prefix "TEXCOORD" tname && is_float e then BTexcoord
  else BOther.

Definition indexed_loops (mesh : Mesh) : list (nat * MeshLoop) :=
  combine (seq 0 (List.length (loops mesh))) (loops mesh).

Record loop_state := {
  st_blend : blend_state;
  (** the variable [result], kept from one element to the next *)
  st_result : option column
}.

Record Settings := {
  normalize_weights : bool;       (** [operator.normalize_weights] *)
  game : GameEnum;
  outline : bool;                 (** [outline_properties[0]] *)
  (** the lookup in the map [optimized_outline_generation] returns; the
      call itself is not part of the element loop of the model, which
      admits every map *)
  export_outline : nat -> option Vector
}.

(** The body of one branch: the new [weights_np] state and [result]. *)
Definition element_result (cfg : Settings) (mesh : Mesh) (obj main_obj : Object)
    (fmt_layout : InputLayout) (e : InputElement) (st : loop_state)
  : outcome (blend_state * column) :=
  let fl := format_len e in
  let keep (c : outcome column) := r <- c ;; Ok (st_blend st, r) in
  match classify e (translated_elem_name fmt_layout e) with
  | BPosition =>
      keep (mapM (fun l =>
                    co <- of_option IndexError (nth_error (vertices mesh) (vertex_index l)) ;;
                    position_row fl main_obj co)
                 (loops mesh))
  | BNormal => keep (mapM (normal_row e main_obj) (loops mesh))
  | BTangent =>
      keep (mapM (tangent_row e (game cfg) main_obj (outline cfg) (export_outline cfg))
                 (loops mesh))
  | BBlendWeight =>
      wnp <- ensure_weights_np fl (weights mesh obj) (st_blend st) ;;
      r <- mapM (blendweight_row fl (normalize_weights cfg) wnp) (loops mesh) ;;
      Ok (Some wnp, r)
  | BBlendIndices =>
      wnp <- ensure_weights_np fl (weights mesh obj) (st_blend st) ;;
      r <- mapM (blendindices_row fl wnp) (loops mesh) ;;
      Ok (Some wnp, r)
  | BColor => keep (color_column e mesh)
  | BTexcoord =>
      keep (mapM (fun p => texcoord_row e mesh main_obj (fst p)) (indexed_loops mesh))
  | BOther =>
      if is_float e then
        Ok (st_blend st, map (fun _ => repeat (fzero float32) fl) (loops mesh))
      else if is_int e then
        Ok (st_blend st, map (fun _ => repeat (CI 32 true 0) fl) (loops mesh))
      else keep (of_option NameError (st_result st))
  end.

(** Lines 1365-1374: quantization (skipped for BLENDINDICES) and the
    store into the field of [migoto_verts], which casts to its dtype. *)
Definition quantized (fmt_layout : InputLayout) (e : InputElement) (r : column) : column :=
  if String.prefix "BLENDINDICES" (translated_elem_name fmt_layout e) then r
  else map (map (quantize (Format e))) r.

Definition store (e : InputElement) (t : field_dtype) (r : column) : outcome column :=
  mapM (fun row =>
          if (List.length row =? format_len e)%nat then Ok (map (astype t) row)
          else Raise ValueError) r.

Definition unsupported_format : exn := Fatal "File uses an unsupported DXGI Format".

(** The structured array [migoto_verts]: its fields in dtype order, each
    with one row of components per loop. *)
Definition table : Type := list (string * column).

Fixpoint element_loop (cfg : Settings) (mesh : Mesh) (obj main_obj : Object)
    (fmt_layout : InputLayout) (es : list InputElement) (st : loop_state)
  : outcome table :=
  match es with
  | [] => Ok []
  | e :: es' =>
      if skipped e then element_loop cfg mesh obj main_obj fmt_layout es' st
      else
        br <- element_result cfg mesh obj main_obj fmt_layout e st ;;
        let r := quantized fmt_layout e (snd br) in
        t <- of_option unsupported_format (dtype_of (Format e)) ;;
        col <- store e t r ;;
        rest <- element_loop cfg mesh obj main_obj fmt_layout es'
                  {| st_blend := fst br; st_result := Some r |} ;;
        Ok ((name e, col) :: rest)
  end.

(** The dtype chain of lines 1078-1133 over the whole layout. *)
Fixpoint build_dtype (es : list InputElement) : outcome (list (string * (field_dtype * nat))) :=
  match es with
  | [] => Ok []
  | e :: es' =>
      if skipped e then build_dtype es'
      else
        t <- of_option unsupported_format (dtype_of (Format e)) ;;
        rest <- build_dtype es' ;;
        Ok ((name e, (t, format_len e)) :: rest)
  end.

Definition zero_cell (t : field_dtype) : cell :=
  match t with
  | DFloat d => fzero d
  | DInt b s => CI b s 0
  end.

Definition blender_to_migoto_vertices (cfg : Settings) (mesh : Mesh)
    (obj : Object) (fmt_layout : InputLayout) (main_obj : Object)
  : outcome table :=
  dtype <- build_dtype (elems fmt_layout) ;;
  if (n_polygons mesh =? 0)%nat then
    Ok (map (fun f =>
               (fst f, map (fun _ => repeat (zero_cell (fst (snd f))) (snd (snd f)))
                           (loops mesh)))
            dtype)
  else
    element_loop cfg mesh obj main_obj fmt_layout (elems fmt_layout)
      {| st_blend := None; st_result := None |}.

(** *** Predicates on the outcome of the assembly *)

(** An element the blend branches run for. *)
Definition blend_element (fmt_layout : InputLayout) (e : InputElement) : Prop :=
  skipped e = false /\
  (classify e (translated_elem_name fmt_layout e) = BBlendWeight \/
   classify e (translated_elem_name fmt_layout e) = BBlendIndices).

(** An outcome that is not a [Fatal]. *)
Definition no_fatal {A : Type} (m : outcome A) : Prop :=
  forall msg, m <> Raise (Fatal msg).

(** The only [Fatal] of a layout without blend element is the one of an
    unsupported format. *)
Definition fatal_only_unsupported {A : Type} (m : outcome A) : Prop :=
  forall msg, m = Raise (Fatal msg) -> Fatal msg = unsupported_format.

End Assembler.

(** ** Records as bytes *)

Module Bytes.
Import NumpyFloat Layout.

Definition bytes : Type := list Byte.byte.

Definition byte_of_Z (z : Z) : Byte.byte :=
  match Byte.of_N (Z.to_N (z mod 256)) with
  | Some b => b
  | None => Byte.x00
  end.

(** The [n] low bytes of [z], least significant first. *)
Fixpoint le_bytes (n : nat) (z : Z) : bytes :=
  match n with
  | O => []
  | S k => byte_of_Z z :: le_bytes k (z / 256)
  end.

Definition width (d : float_dtype) : Z :=
  match d with float16 => 16 | float32 => 32 | float64 => 64 end.

(** The IEEE interchange encoding of a float of dtype [d]. *)
Definition bits_of_float (d : float_dtype) (x : spec_float) : Z :=
  let p := prec d in
  let sign (s : bool) := if s then 2 ^ (width d - 1) else 0 in
  let top := (2 ^ (width d - p) - 1) * 2 ^ (p - 1) in
  match x with
  | S754_zero s => sign s
  | S754_infinity s => sign s + top
  | S754_nan => top + 2 ^ (p - 2)
  | S754_finite s m e =>
      sign s +
      (if Z.pos m <? 2 ^ (p - 1) then Z.pos m
       else (e - emin p (emax d) + 1) * 2 ^ (p - 1) + (Z.pos m - 2 ^ (p - 1)))
  end.

Definition cell_bytes (c : cell) : bytes :=
  match c with
  | CF d x => le_bytes (Z.to_nat (width d / 8)) (bits_of_float d x)
  | CI b _ n => le_bytes (Z.to_nat (b / 8)) (n mod 2 ^ b)
  end.

Definition bytes_eqb (a b : bytes) : bool :=
  if list_eq_dec Byte.byte_eq_dec a b then true else false.

End Bytes.

(** ** Ordered dictionaries *)

Module OrderedDict.

Section Dict.
Context {K : Type} (eqb : K -> K -> bool).

(** An ordered dictionary from keys to indices, in insertion order. *)
Definition t : Type := list (K * nat).

Fixpoint get (d : t) (k : K) : option nat :=
  match d with
  | [] => None
  | (k', v) :: d' => if eqb k k' then Some v else get d' k
  end.

(** [d.setdefault(k, v)]: the dictionary afterwards and the value
    returned. *)
Definition setdefault (d : t) (k : K) (v : nat) : t * nat :=
  match get d k with
  | Some v' => (d, v')
  | None => (d ++ [(k, v)], v)
  end.

(** [[d.setdefault(k, len(d)) for k in ks]], threading [d]. *)
Fixpoint index_all (d : t) (ks : list K) : t * list nat :=
  match ks with
  | [] => (d, [])
  | k :: ks' =>
      let '(d1, i) := setdefault d k (List.length d) in
      let '(d2, rest) := index_all d1 ks' in
      (d2, i :: rest)
  end.

Definition keys (d : t) : list K := map fst d.

(** The dictionaries built by [setdefault(k, len(d))]: distinct keys,
    the value of a key is its position. *)
Definition well_formed (d : t) : Prop :=
  NoDup (keys d) /\ map snd d = seq 0 (List.length d).
End Dict.

End OrderedDict.

(** ** The index builder: [mesh_to_bin] and [export_3dmigoto] *)

Module IndexBuilder.
Import NumpyFloat Layout Py Blender Assembler Bytes.
Local Open Scope py_scope.

(** [migoto_verts[i].tobytes()]: the bytes of the fields of row [i], an
    [IndexError] past the [n] rows of the array. *)
Definition tobytes (migoto_verts : table) (n : nat) (i : nat) : outcome bytes :=
  if (i <? n)%nat then
    Ok (List.concat
          (map (fun f => List.concat (map cell_bytes (nth i (snd f) []))) migoto_verts))
  else Raise IndexError.

(** Modelled from the spec: [NumpyBuffer.fromlist] of the index layout is
    not in the sources; the index buffer holds "3 per triangle, in face
    order", so the flat list is cut into rows of three. *)
Fixpoint fromlist (l : list nat) : list (list nat) :=
  match l with
  | a :: b :: c :: r => [a; b; c] :: fromlist r
  | [] => []
  | _ => [l]
  end.

(** [numpy.fliplr]: every row reversed. *)
Definition fliplr (rows : list (list nat)) : list (list nat) := map (@rev nat) rows.

(** The keys looked up by the list comprehension of lines 1436-1441. *)
Definition lookup_keys (migoto_verts : table) (mesh : Mesh) : outcome (list bytes) :=
  mapM (fun l => tobytes migoto_verts (List.length (loops mesh)) (vertex_index l))
       (loops mesh).

(** [mesh_to_bin], from the evaluated and triangulated mesh on, after
    [mesh.calc_tangents()] has returned (for a mesh without UV map it
    ends the call in a [Fatal] before anything is assembled): the index
    rows and the records of the vertex buffer. *)
Definition mesh_to_bin (cfg : Settings) (obj : Object) (mesh : Mesh)
    (migoto_format : InputLayout) (main_obj : Object)
  : outcome (list (list nat) * list bytes) :=
  if (data_polygons obj =? 0)%nat then Ok ([], [])
  else
    migoto_verts <- blender_to_migoto_vertices cfg mesh obj migoto_format main_obj ;;
    ks <- lookup_keys migoto_verts mesh ;;
    let '(indexed_vertices, ib_list) := OrderedDict.index_all bytes_eqb [] ks in
    let ib := fromlist ib_list in
    let ib' := if xorb (FlipMesh main_obj) (FlipWinding main_obj) then fliplr ib else ib in
    Ok (ib', OrderedDict.keys indexed_vertices).

(** What the de-duplication is specified over: the record assembled for
    the corner (loop) [i] itself. *)
Definition corner_record (migoto_verts : table) (mesh : Mesh) (i : nat) : outcome bytes :=
  tobytes migoto_verts (List.length (loops mesh)) i.

(** The triangle-list branch of [export_3dmigoto] with an index buffer,
    lines 2364-2402.  [vertex_of] is [blender_vertex_to_3dmigoto_vertex]
    on the loop of an index, [eqb] the equality of [HashableVertex]. *)
Section Export3dmigoto.
Context {V : Type} (eqb : V -> V -> bool) (vertex_of : nat -> V).

Record MeshPolygon := { loop_start : nat; loop_total : nat }.

(** [mesh.loops[poly.loop_start : poly.loop_start + poly.loop_total]] *)
Definition poly_loops (n_loops : nat) (p : MeshPolygon) : list nat :=
  firstn (loop_total p) (skipn (loop_start p) (seq 0 n_loops)).

Fixpoint export_faces (n_loops : nat) (flip_winding : bool)
    (d : OrderedDict.t) (polys : list MeshPolygon)
  : OrderedDict.t * list (list nat) :=
  match polys with
  | [] => (d, [])
  | p :: ps =>
      let '(d1, face) :=
        OrderedDict.index_all eqb d (map vertex_of (poly_loops n_loops p)) in
      let face' := if flip_winding then rev face else face in
      let '(d2, ib) := export_faces n_loops flip_winding d1 ps in
      (d2, face' :: ib)
  end.

Definition export_3dmigoto (n_loops : nat) (flip_winding : bool)
    (polys : list MeshPolygon) : list (list nat) * list V :=
  let '(indexed_vertices, ib) := export_faces n_loops flip_winding [] polys in
  (ib, OrderedDict.keys indexed_vertices).
End Export3dmigoto.

End IndexBuilder.

(** ** Python sets and dictionaries of the outline optimizer *)

Module PySet.

(** A set of vertex or face indices: a duplicate-free list.  The order
    in which Python iterates over a set is unspecified; the model iterates
    in the order of the list. *)
Definition t : Type := list nat.

Definition mem (x : nat) (s : t) : bool := existsb (Nat.eqb x) s.

Definition add (x : nat) (s : t) : t := if mem x s then s else s ++ [x].

(** [s.update(l)] *)
Definition update (s : t) (l : list nat) : t := fold_left (fun acc x => add x acc) l s.

(** [set(l)] *)
Definition of_list (l : list nat) : t := update [] l.

(** [s1 & s2] *)
Definition inter (s1 s2 : t) : t := filter (fun x => mem x s2) s1.

(** [s1 - s2] *)
Definition diff (s1 s2 : t) : t := filter (fun x => negb (mem x s2)) s1.

End PySet.

Module PyDict.

Section Dict.
Context {K V : Type} (eqb : K -> K -> bool).

(** A dictionary in insertion order. *)
Definition t : Type := list (K * V).

Fixpoint get (d : t) (k : K) : option V :=
  match d with
  | [] => None
  | (k', v) :: d' => if eqb k k' then Some v else get d' k
  end.

(** [d.setdefault(k, default)] followed by an in-place change [f] of
    the value returned. *)
Fixpoint upsert (d : t) (k : K) (default : V) (f : V -> V) : t :=
  match d with
  | [] => [(k, f default)]
  | (k', v) :: d' =>
      if eqb k k' then (k', f v) :: d'
      else (k', v) :: upsert d' k default f
  end.

(** [d.setdefault(k, default)] *)
Definition setdefault (d : t) (k : K) (default : V) : t :=
  upsert d k default (fun v => v).

(** [d.pop(k)] *)
Fixpoint pop (d : t) (k : K) : t :=
  match d with
  | [] => []
  | (k', v) :: d' => if eqb k k' then d' else (k', v) :: pop d' k
  end.

Definition keys (d : t) : list K := map fst d.
Definition values (d : t) : list V := map snd d.
End Dict.

End PyDict.

(** ** The outline optimizer: data preparation and edge detection *)

Module Outline.

(** Positions and face normals are Blender floats, each an exact
    rational; sums, products and roundings of the preparation phase are
    taken exactly. *)
Definition QVec : Type := Q * Q * Q.

Definition QVec_eqb (a b : QVec) : bool :=
  let '(a1, a2, a3) := a in
  let '(b1, b2, b3) := b in
  Qeq_bool a1 b1 && Qeq_bool a2 b2 && Qeq_bool a3 b3.

Record MeshPolygon := {
  vertices : list nat;   (** [poly.vertices] *)
  normal : QVec          (** [poly.normal] *)
}.

(** The mesh as read by [optimized_outline_generation]: [poly.index] is
    the position of the polygon, [verts_obj v] is
    [mesh.vertices[v].undeformed_co]. *)
Record Mesh := {
  verts_obj : nat -> QVec;
  polygons : list MeshPolygon
}.

Record OutlineProperties := {
  outline_optimization : bool;
  toggle_rounding_outline : bool;
  decimal_rounding_outline : Z;
  angle_weighted : bool;
  overlapping_faces : bool;
  detect_edges : bool;
  calculate_all_faces : bool;
  nearest_edge_distance : Q
}.

(** *** Rounding *)

Definition Qround_half_even (q : Q) : Z :=
  let f := Qfloor q in
  match Qcompare (q - inject_Z f) (1 # 2) with
  | Lt => f
  | Gt => f + 1
  | Eq => if Z.even f then f else f + 1
  end.

(** [10 ** n] *)
Definition pow10 (n : Z) : Q := Qpower 10 n.

(** Python's [round(x, ndigits)]. *)
Definition round_nd (x : Q) (ndigits : Z) : Q :=
  Qred (inject_Z (Qround_half_even (x * pow10 ndigits)) / pow10 ndigits).

Fixpoint search_log10 (fuel : nat) (k : Z) (x : Q) : Z :=
  match fuel with
  | O => k
  | S fuel' =>
      if Qle_bool (pow10 (k + 1)) x then search_log10 fuel' (k + 1) x
      else if Qle_bool (pow10 k) x then k
      else search_log10 fuel' (k - 1) x
  end.

(** [numpy.floor(numpy.log10(x))] for [x > 0]. *)
Definition floor_log10 (x : Q) : Z :=
  search_log10 (Pos.size_nat (Z.to_pos (Qnum x)) + Pos.size_nat (Qden x)) 0 x.

(** [precision(x)]: [-int(numpy.floor(numpy.log10(x)))]; the conversion
    raises for [x <= 0]. *)
Definition precision (x : Q) : option Z :=
  if Qle_bool x 0 then None else Some (- floor_log10 x).

(** [int(q)]: truncation towards zero. *)
Definition Qtrunc (q : Q) : Z :=
  if Qle_bool 0 q then Qfloor q else Qceiling q.

(** *** [recursive_connections] and [checkEnclosedFacesVertex] *)

Fixpoint recursive_connections_fuel (fuel : nat)
    (Over2_connected_points : @PyDict.t nat PySet.t) : bool :=
  match fuel with
  | O => true
  | S fuel' =>
      match find (fun kv =>
                    (List.length
                       (PySet.inter (snd kv) (PyDict.keys Over2_connected_points)) <? 2)%nat)
                 Over2_connected_points with
      | Some (entry, _) =>
          let d := PyDict.pop Nat.eqb Over2_connected_points entry in
          if (List.length d <? 3)%nat then false
          else recursive_connections_fuel fuel' d
      | None => true
      end
  end.

(** Every call removes one entry, so one more call than entries is
    enough. *)
Definition recursive_connections (Over2_connected_points : @PyDict.t nat PySet.t) : bool :=
  recursive_connections_fuel (S (List.length Over2_connected_points))
    Over2_connected_points.

Definition get_set (d : @PyDict.t nat PySet.t) (k : nat) : PySet.t :=
  match PyDict.get Nat.eqb d k with
  | Some s => s
  | None => []
  end.

Definition get_list (d : @PyDict.t nat (list nat)) (k : nat) : list nat :=
  match PyDict.get Nat.eqb d k with
  | Some s => s
  | None => []
  end.

Definition checkEnclosedFacesVertex (ConnectedFaces : list (list nat))
    (vg_set : PySet.t) (Same_Vertex : @PyDict.t nat PySet.t) : bool :=
  (* connected points non-same vertex *)
  let Main0 : @PyDict.t nat (list nat) :=
    fold_left
      (fun M face =>
         let non_vg_points := filter (fun p => negb (PySet.mem p vg_set)) face in
         if (1 <? List.length non_vg_points)%nat then
           fold_left
             (fun M' point =>
                PyDict.upsert Nat.eqb M' point []
                  (fun l => l ++ filter (fun x => negb (x =? point)%nat) non_vg_points))
             non_vg_points M
         else M)
      ConnectedFaces [] in
  (* connected points same vertex *)
  let New_Main_connect : @PyDict.t nat (list nat) :=
    fold_left
      (fun N ev =>
         fold_left
           (fun N' val =>
              let ivspv := PySet.diff (get_set Same_Vertex val) [val] in
              let intersect_sidevertex := PySet.inter ivspv (PyDict.keys Main0) in
              match intersect_sidevertex with
              | [] => N'
              | _ => PyDict.upsert Nat.eqb N' (fst ev) []
                       (fun l => l ++ intersect_sidevertex)
              end)
           (snd ev) N)
      Main0 [] in
  (* connected points same vertex reverse connection *)
  let Main1 :=
    fold_left
      (fun M kv =>
         let M1 := PyDict.upsert Nat.eqb M (fst kv) [] (fun l => l ++ snd kv) in
         fold_left
           (fun M' val => PyDict.upsert Nat.eqb M' val [] (fun l => l ++ [fst kv]))
           (snd kv) M1)
      New_Main_connect Main0 in
  (* exclude for only 2 way paths *)
  let Over2_connected_points : @PyDict.t nat PySet.t :=
    map (fun kv => (fst kv, PySet.of_list (snd kv)))
        (filter (fun kv => (1 <? List.length (snd kv))%nat) Main1) in
  recursive_connections Over2_connected_points.

(** *** The pre-dictionary loop, lines 275-328 *)

Record PreDict := {
  Connected_Faces : @PyDict.t nat (list nat);
  searched_vertex_pos : PySet.t;
  Pos_Same_Vertices : @PyDict.t QVec PySet.t;
  Pos_Close_Vertices : @PyDict.t QVec PySet.t;
  Numpy_Position : @PyDict.t nat QVec
}.

(** [tuple(round(coord, nd) for coord in vert_position)] *)
Definition round_key (p : QVec) (nd : Z) : QVec :=
  let '(x, y, z) := p in (round_nd x nd, round_nd y nd, round_nd z nd).

(** The body of [for vert in face_vertices]. *)
Definition visit_vertex (props : OutlineProperties) (mesh : Mesh) (i_nedd : Z)
    (i_poly : nat) (st : PreDict) (vert : nat) : PreDict :=
  let cf := PyDict.upsert Nat.eqb (Connected_Faces st) vert [] (fun l => l ++ [i_poly]) in
  if PySet.mem vert (searched_vertex_pos st) then
    {| Connected_Faces := cf;
       searched_vertex_pos := searched_vertex_pos st;
       Pos_Same_Vertices := Pos_Same_Vertices st;
       Pos_Close_Vertices := Pos_Close_Vertices st;
       Numpy_Position := Numpy_Position st |}
  else
    let vert_position := verts_obj mesh vert in
    let same_key :=
      if toggle_rounding_outline props
      then round_key vert_position (decimal_rounding_outline props)
      else vert_position in
    {| Connected_Faces := cf;
       searched_vertex_pos := PySet.add vert (searched_vertex_pos st);
       Pos_Same_Vertices :=
         PyDict.upsert QVec_eqb (Pos_Same_Vertices st) same_key [vert] (PySet.add vert);
       Pos_Close_Vertices :=
         if toggle_rounding_outline props && detect_edges props then
           PyDict.upsert QVec_eqb (Pos_Close_Vertices st)
             (round_key vert_position i_nedd) [vert] (PySet.add vert)
         else Pos_Close_Vertices st;
       Numpy_Position :=
         if angle_weighted props then
           PyDict.setdefault Nat.eqb (Numpy_Position st) vert vert_position
         else Numpy_Position st |}.

Definition indexed_polygons (mesh : Mesh) : list (nat * MeshPolygon) :=
  combine (seq 0 (List.length (polygons mesh))) (polygons mesh).

Definition pre_dictionary (props : OutlineProperties) (mesh : Mesh) (i_nedd : Z) : PreDict :=
  fold_left
    (fun st ip => fold_left (visit_vertex props mesh i_nedd (fst ip)) (vertices (snd ip)) st)
    (indexed_polygons mesh)
    {| Connected_Faces := []; searched_vertex_pos := [];
       Pos_Same_Vertices := []; Pos_Close_Vertices := []; Numpy_Position := [] |}.

(** [Face_Verts.get(i)] and [Face_Normals.get(i)] *)
Definition Face_Verts (mesh : Mesh) (i : nat) : list nat :=
  match nth_error (polygons mesh) i with
  | Some p => vertices p
  | None => []
  end.

Definition Face_Normals (mesh : Mesh) (i : nat) : QVec :=
  match nth_error (polygons mesh) i with
  | Some p => normal p
  | None => (0, 0, 0)%Q
  end.

(** Lines 324-328: every vertex gets its own copy of its position
    group. *)
Definition initial_Same_Vertex (pre : PreDict) : @PyDict.t nat PySet.t :=
  fold_left
    (fun S values =>
       fold_left (fun S' vertex => PyDict.setdefault Nat.eqb S' vertex values) values S)
    (PyDict.values (Pos_Same_Vertices pre)) [].

(** *** Edge detection, lines 330-398 *)

Record EdgeState := {
  Same_Vertex : @PyDict.t nat PySet.t;
  RepositionLocal : PySet.t
}.

(** The coordinates searched along one axis, lines 359-370. *)
Definition axis_coords (p d : Q) (i_nedd : Z) : list Q :=
  let i_nedd_increment := pow10 (- i_nedd) in
  let z := round_nd (p + d) i_nedd in
  let n := round_nd (p - d) i_nedd in
  let zndifference := Qtrunc ((z - n) / i_nedd_increment) in
  [z; n] ++
  (if 1 <? zndifference then
     map (fun r => Qred (z - inject_Z (Z.of_nat r) * i_nedd_increment))
         (seq 0 (Z.to_nat (zndifference - 1)))
   else []).

(** Lines 372-381: the vertices of the close-position buckets met in
    the box. *)
Definition search_closest_group (pre : PreDict) (p : QVec) (d : Q) (i_nedd : Z) : PySet.t :=
  let '(p1, p2, p3) := p in
  fold_left
    (fun acc pos1 =>
       fold_left
         (fun acc2 pos2 =>
            fold_left
              (fun acc3 pos3 =>
                 match PyDict.get QVec_eqb (Pos_Close_Vertices pre) (pos1, pos2, pos3) with
                 | Some s => PySet.update acc3 s
                 | None => acc3
                 end)
              (axis_coords p3 d i_nedd) acc2)
         (axis_coords p2 d i_nedd) acc)
    (axis_coords p1 d i_nedd) [].

(** [p1n >= o1 >= p1nn and p2n >= o2 >= p2nn and p3n >= o3 >= p3nn] *)
Definition in_box (p o : QVec) (d : Q) : bool :=
  let '(p1, p2, p3) := p in
  let '(o1, o2, o3) := o in
  Qle_bool o1 (p1 + d) && Qle_bool (p1 - d) o1 &&
  Qle_bool o2 (p2 + d) && Qle_bool (p2 - d) o2 &&
  Qle_bool o3 (p3 + d) && Qle_bool (p3 - d) o3.

(** Lines 395-398: [Same_Vertex.get(x).add(v_closest_pos)] for every
    member [x] of the group. *)
Definition add_to_group (v_closest_pos : nat) (vertex_group : PySet.t)
    (S : @PyDict.t nat PySet.t) : @PyDict.t nat PySet.t :=
  fold_left
    (fun S' x =>
       match PyDict.get Nat.eqb S' x with
       | Some _ => PyDict.upsert Nat.eqb S' x [] (PySet.add v_closest_pos)
       | None => S'
       end)
    vertex_group S.

(** Lines 387-398: the candidates outside the group whose position lies
    in the box are added to the sets of the group. *)
Definition merge_candidates (mesh : Mesh) (d : Q) (vertex_group closest_group : PySet.t)
    (p : QVec) (S : @PyDict.t nat PySet.t) : @PyDict.t nat PySet.t :=
  fold_left
    (fun S' v_closest_pos =>
       if negb (PySet.mem v_closest_pos vertex_group)
          && in_box p (verts_obj mesh v_closest_pos) d
       then add_to_group v_closest_pos vertex_group S'
       else S')
    closest_group S.

(** Lines 383-398: what is done with the result of the search. *)
Definition seam_update (mesh : Mesh) (d : Q) (vertex_group closest_group : PySet.t)
    (p : QVec) (st : EdgeState) : EdgeState :=
  if (List.length closest_group =? 1)%nat then st
  else
    {| RepositionLocal := PySet.update (RepositionLocal st) vertex_group;
       Same_Vertex := merge_candidates mesh d vertex_group closest_group p (Same_Vertex st) |}.

(** The sets of [S'] extend those of [S], key by key. *)
Definition grows (S S' : @PyDict.t nat PySet.t) : Prop :=
  forall x s,
    PyDict.get Nat.eqb S x = Some s ->
    exists s', PyDict.get Nat.eqb S' x = Some s' /\
               forall y, PySet.mem y s = true -> PySet.mem y s' = true.

(** The body of [for vertex_group in Pos_Same_Vertices.values()].  The
    vertex taken from the group is the first in the order of the model's
    sets, the order of insertion; the order in which CPython iterates a
    set is not fixed by the language. *)
Definition detect_group (props : OutlineProperties) (mesh : Mesh) (pre : PreDict)
    (i_nedd : Z) (st : EdgeState) (vertex_group : PySet.t) : EdgeState :=
  let FacesConnected := flat_map (get_list (Connected_Faces pre)) vertex_group in
  let ConnectedFaces := map (Face_Verts mesh) FacesConnected in
  if checkEnclosedFacesVertex ConnectedFaces vertex_group (Same_Vertex st) then st
  else
    match vertex_group with
    | [] => st
    | vertex :: _ =>
        let p := verts_obj mesh vertex in
        let d := nearest_edge_distance props in
        seam_update mesh d vertex_group (search_closest_group pre p d i_nedd) p st
    end.

Definition edge_detection (props : OutlineProperties) (mesh : Mesh) (pre : PreDict)
    (i_nedd : Z) (S0 : @PyDict.t nat PySet.t) : EdgeState :=
  fold_left (detect_group props mesh pre i_nedd)
    (PyDict.values (Pos_Same_Vertices pre))
    {| Same_Vertex := S0; RepositionLocal := [] |}.

(** Lines 400-405. *)
Definition Connected_Faces_bySameVertex (pre : PreDict)
    (S : @PyDict.t nat PySet.t) : @PyDict.t nat PySet.t :=
  map (fun kv =>
         (fst kv,
          fold_left (fun acc vertex => PySet.update acc (get_list (Connected_Faces pre) vertex))
                    (snd kv) []))
      S.

End Outline.

(** ** The outline optimizer: normal accumulation, lines 407-484 *)

Module OutlineCalc.
Import Outline NumpyFloat.

(** A one-dimensional numpy array of dtype float64. *)
Definition vec : Type := list spec_float.

Definition zero : spec_float := S754_zero false.

(** The float64 of a coordinate of the mesh.  A coordinate is the value
    of a float of Blender, which float64 holds exactly; for such a value
    numerator and denominator are exact in float64 and their quotient is
    the value itself. *)
Definition of_Q (q : Q) : spec_float :=
  div float64 (of_int float64 (Qnum q)) (of_int float64 (Z.pos (Qden q))).

(** [numpy.array(poly.normal)], [numpy.array(vert_position)] *)
Definition of_QVec (v : QVec) : vec :=
  let '(x, y, z) := v in [of_Q x; of_Q y; of_Q z].

(** [numpy.add.reduce] along a row of fewer than eight components: the
    components are added one after the other, from 0. *)
Definition add_reduce (v : vec) : spec_float := fold_left (add float64) v zero.

(** [numpy.linalg.norm(vector, axis=..., keepdims=True)] of one row:
    [sqrt(add.reduce(x * x))], every operation rounded to float64. *)
Definition norm (v : vec) : spec_float :=
  SFsqrt (prec float64) (emax float64) (add_reduce (map (fun x => mul float64 x x) v)).

(** [a != 0]: true of a NaN. *)
Definition nonzero (a : spec_float) : bool := negb (SFeqb a zero).

Definition zeros_like (v : vec) : vec := map (fun _ => zero) v.

(** [numpy.divide(vector, a, out=out, where=mask)] for one row and its
    norm [a]: where the mask holds the quotient is stored, elsewhere
    [out] is kept. *)
Definition np_divide (vector : vec) (a : spec_float) (out : vec) (mask : bool) : vec :=
  if mask then map (fun x => div float64 x a) vector else out.

(** [unit_vector] on an array of shape [(k,)]. *)
Definition unit_vector (vector : vec) : vec :=
  let a := norm vector in
  np_divide vector a (zeros_like vector) (nonzero a).

(** [unit_vector] on an array of shape [(n, k)]: [a] holds the norm of
    every row, and quotient and mask are broadcast row by row. *)
Definition unit_vector_rows (rows : list vec) : list vec :=
  let a := map norm rows in
  map (fun p => np_divide (fst p) (snd p) (zeros_like (fst p)) (nonzero (snd p)))
      (combine rows a).

(** *** Rows of [ConnectedWeightedNormal] *)

Definition Qscale (k : Q) (v : QVec) : QVec :=
  let '(x, y, z) := v in (k * x, k * y, k * z)%Q.

Definition Qdot3 (a b : QVec) : Q :=
  let '(a1, a2, a3) := a in
  let '(b1, b2, b3) := b in
  (a1 * b1 + a2 * b2 + a3 * b3)%Q.

(** [numpy.multiply(row, k)]: a new array, the operand is untouched. *)
Definition np_multiply (row : QVec) (k : Q) : QVec := Qscale k row.

(** [0.5 ** (1 - n)] *)
Definition influence_factor (n : nat) : Q := Qpower (1 # 2) (1 - Z.of_nat n).

(** Lines 449-455 for one face: the row is set to the face normal; for
    more than one group member among the corners the scaled row is
    computed by [numpy.multiply], whose result is not stored. *)
Definition weighted_row (face_normal : QVec) (influence_restriction : nat) : QVec :=
  let row := face_normal in
  let _unused :=
    if (1 <? influence_restriction)%nat
    then Some (np_multiply row (influence_factor influence_restriction))
    else None in
  row.

(** [vert0p = set(vlist) & vertex_group] *)
Definition vert0p (vlist : list nat) (vertex_group : PySet.t) : PySet.t :=
  PySet.inter (PySet.of_list vlist) vertex_group.

(** [antiparallel_search]: some pair of connected face normals has a
    cosine in the band around -1. *)
Definition antiparallel_search (ConnectedFaceNormals : list QVec) : bool :=
  existsb
    (fun a =>
       existsb
         (fun b =>
            let c := Qdot3 a b in
            negb (Qle_bool c (- (1000001 # 1000000))) &&
            negb (Qle_bool (- (999999 # 1000000)) c))
         ConnectedFaceNormals)
    ConnectedFaceNormals.

Definition sub_vec (a b : vec) : vec :=
  map (fun p => sub float64 (fst p) (snd p)) (combine a b).

(** Lines 443-448: the two edge vectors of the face at the group member
    met last; [None] is the [IndexError] or [TypeError] of a face without
    two other corners of known position. *)
Definition edge_vectors (pre : PreDict) (vlist : list nat) (vertex_group : PySet.t)
  : option (vec * vec) :=
  match rev (vert0p vlist vertex_group) with
  | [] => Some ([zero; zero; zero], [zero; zero; zero])
  | vert0 :: _ =>
      match PyDict.get Nat.eqb (Numpy_Position pre) vert0,
            map (PyDict.get Nat.eqb (Numpy_Position pre))
                (filter (fun x => negb (x =? vert0)%nat) vlist) with
      | Some v0, Some a :: Some b :: _ =>
          Some (sub_vec (of_QVec a) (of_QVec v0), sub_vec (of_QVec b) (of_QVec v0))
      | _, _ => None
      end
  end.

(** [numpy.clip(x, -1.0, 1.0)]; a NaN stays. *)
Definition clip (x : spec_float) : spec_float :=
  match SFcompare x (of_int float64 (-1)) with
  | Some Lt => of_int float64 (-1)
  | Some _ =>
      match SFcompare x (of_int float64 1) with
      | Some Gt => of_int float64 1
      | _ => x
      end
  | None => x
  end.

(** [row *= k] *)
Definition scale (k : spec_float) (v : vec) : vec := map (fun x => mul float64 x k) v.

Definition add_vec (a b : vec) : vec :=
  map (fun p => add float64 (fst p) (snd p)) (combine a b).

(** [numpy.sum(rows, axis=0)] for rows of three components: the rows are
    added one after the other, from 0. *)
Definition sum_rows (rows : list vec) : vec :=
  fold_left add_vec rows [zero; zero; zero].

(** *** The loop over [Same_Vertex.items()] *)

Record CalcState := {
  export_outline : @PyDict.t nat vec;
  IteratedValues : PySet.t
}.

(** [wSum != [0, 0, 0]]; a list holding a NaN differs from it, one
    holding [-0.0] does not. *)
Definition differs_from_zero (wSum : vec) : bool :=
  match wSum with
  | [x; y; z] => negb (SFeqb x zero && SFeqb y zero && SFeqb z zero)
  | _ => true
  end.

Fixpoint all_some {A : Type} (l : list (option A)) : option (list A) :=
  match l with
  | [] => Some []
  | Some a :: l' =>
      match all_some l' with
      | Some r => Some (a :: r)
      | None => None
      end
  | None :: _ => None
  end.

(** The rows of [ConnectedWeightedNormal] before the angle weighting. *)
Definition connected_rows (mesh : Mesh) (vertex_group : PySet.t) (faces : list nat)
  : list QVec :=
  map (fun facei =>
         weighted_row (Face_Normals mesh facei)
           (List.length (vert0p (Face_Verts mesh facei) vertex_group)))
      faces.

(** Lines 474-480: what is stored for a group whose [wSum] is [w]. *)
Definition store_wSum (RepositionLocal : option PySet.t) (key : nat)
    (vertex_group : PySet.t) (w : vec) (st : CalcState) : CalcState :=
  if differs_from_zero w then
    let local :=
      match RepositionLocal with
      | Some (x :: r) => PySet.mem key (x :: r)
      | _ => false
      end in
    if local then
      {| export_outline := PyDict.setdefault Nat.eqb (export_outline st) key w;
         IteratedValues := IteratedValues st |}
    else
      fold_left
        (fun s vertexf =>
           {| export_outline := PyDict.setdefault Nat.eqb (export_outline s) vertexf w;
              IteratedValues := PySet.add vertexf (IteratedValues s) |})
        vertex_group st
  else st.

Section AngleWeights.
(** Two operations of the angle weighting are parameters: the sum of
    products of [numpy.einsum("ij, ij->i", ...)] on one pair of rows,
    whose order of summation is left to the build of numpy, and
    [numpy.arccos], which is not correctly rounded. *)
Context (einsum_ij_ij : vec -> vec -> spec_float) (arccos : spec_float -> spec_float).

(** Lines 458-469: the angle at the vertex on every face. *)
Definition angles (VectorMatrix0 VectorMatrix1 : list vec) : list spec_float :=
  map (fun p => arccos (clip (einsum_ij_ij (fst p) (snd p))))
      (combine (unit_vector_rows VectorMatrix0) (unit_vector_rows VectorMatrix1)).

(** Lines 432-472: the sum of the weighted normals of one group; [None]
    is an exception. *)
Definition group_sum (props : OutlineProperties) (mesh : Mesh) (pre : PreDict)
    (vertex_group : PySet.t) (faces : list nat) : option vec :=
  let rows := map of_QVec (connected_rows mesh vertex_group faces) in
  if angle_weighted props then
    match all_some (map (fun facei => edge_vectors pre (Face_Verts mesh facei) vertex_group)
                        faces) with
    | None => None
    | Some evs =>
        let angle := angles (map fst evs) (map snd evs) in
        Some (sum_rows (map (fun p => scale (fst p) (snd p)) (combine angle rows)))
    end
  else Some (sum_rows rows).

(** Line 472: [wSum = unit_vector(numpy.sum(...)).tolist()]. *)
Definition group_wSum (props : OutlineProperties) (mesh : Mesh) (pre : PreDict)
    (vertex_group : PySet.t) (faces : list nat) : option vec :=
  option_map unit_vector (group_sum props mesh pre vertex_group faces).

(** The body of [for key, vertex_group in Same_Vertex.items()]. *)
Definition calc_group (props : OutlineProperties) (mesh : Mesh) (pre : PreDict)
    (by_same_vertex : @PyDict.t nat PySet.t) (RepositionLocal : option PySet.t)
    (st : CalcState) (kv : nat * PySet.t) : option CalcState :=
  let '(key, vertex_group) := kv in
  if PySet.mem key (IteratedValues st) then Some st
  else if negb (calculate_all_faces props) && (List.length vertex_group =? 1)%nat then Some st
  else
    let FacesConnectedbySameVertex := get_set by_same_vertex key in
    if overlapping_faces props
       && antiparallel_search (map (Face_Normals mesh) FacesConnectedbySameVertex)
    then Some st
    else
      match group_wSum props mesh pre vertex_group FacesConnectedbySameVertex with
      | None => None
      | Some wSum => Some (store_wSum RepositionLocal key vertex_group wSum st)
      end.

Fixpoint calc_loop (props : OutlineProperties) (mesh : Mesh) (pre : PreDict)
    (by_same_vertex : @PyDict.t nat PySet.t) (RepositionLocal : option PySet.t)
    (items : list (nat * PySet.t)) (st : CalcState) : option CalcState :=
  match items with
  | [] => Some st
  | kv :: rest =>
      match calc_group props mesh pre by_same_vertex RepositionLocal st kv with
      | None => None
      | Some st' => calc_loop props mesh pre by_same_vertex RepositionLocal rest st'
      end
  end.

(** [optimized_outline_generation]: the map from vertex index to
    direction; [None] when the run raises. *)
Definition optimized_outline_generation (mesh : Mesh) (props : OutlineProperties)
  : option (@PyDict.t nat vec) :=
  let edges := detect_edges props && toggle_rounding_outline props in
  match (if edges
         then option_map (fun p => (Z.min p (decimal_rounding_outline props) - 1)%Z)
                (precision (nearest_edge_distance props))
         else Some 0%Z) with
  | None => None
  | Some i_nedd =>
      let pre := pre_dictionary props mesh i_nedd in
      match Pos_Same_Vertices pre with
      | [] => None
      | _ =>
          let S0 := initial_Same_Vertex pre in
          let es :=
            if edges then edge_detection props mesh pre i_nedd S0
            else {| Same_Vertex := S0; RepositionLocal := [] |} in
          let reposition := if edges then Some (RepositionLocal es) else None in
          option_map export_outline
            (calc_loop props mesh pre
               (Connected_Faces_bySameVertex pre (Same_Vertex es)) reposition
               (Same_Vertex es)
               {| export_outline := []; IteratedValues := [] |})
      end
  end.

End AngleWeights.


(** What the map holds after the groups [items]: under a vertex, the
    normalized sum of the group of one of the items, whose key or member
    the vertex is, and never [[0, 0, 0]]. *)
Definition normalized_sums
    (einsum_ij_ij : vec -> vec -> spec_float) (arccos : spec_float -> spec_float)
    (props : OutlineProperties) (mesh : Mesh) (pre : PreDict)
    (by_same_vertex : @PyDict.t nat PySet.t) (items : list (nat * PySet.t))
    (export : @PyDict.t nat vec) : Prop :=
  forall (k : nat) (w : vec),
    In (k, w) export ->
    differs_from_zero w = true /\
    exists (key : nat) (vertex_group : PySet.t) (s : vec),
      In (key, vertex_group) items /\
      group_sum einsum_ij_ij arccos props mesh pre vertex_group
        (get_set by_same_vertex key) = Some s /\
      w = unit_vector s /\
      (k = key \/ In k vertex_group).

End OutlineCalc.

(** ** [ModExporter.optimize_outlines] *)

Module Exporter.
Import NumpyFloat Layout Py.

(** One record of the structured array [position_buffer]. *)
Record BufferRow := {
  POSITION : list cell;
  NORMAL : list cell;
  TANGENT : list cell;
  (** the remaining fields of the record, by name *)
  other_fields : list (string * list cell)
}.

Definition dtype_of_cell (c : cell) : field_dtype :=
  match c with
  | CF d _ => DFloat d
  | CI b s _ => DInt b s
  end.

(** The float dtype numpy computes in for a field: its own when it is a
    float field, float64 for an integer field. *)
Definition work_dtype (l : list cell) : float_dtype :=
  match l with
  | CF d _ :: _ => d
  | _ => float64
  end.

Definition to_float (d : float_dtype) (c : cell) : spec_float :=
  match astype (DFloat d) c with
  | CF _ x => x
  | CI _ _ n => of_int d n
  end.

(** [a[0:3] = b] on one row: the shapes have to agree, the values are
    cast to the dtype of the destination. *)
Definition assign_0_3 (dst src : list cell) : option (list cell) :=
  if (List.length (firstn 3 dst) =? List.length src)%nat then
    Some (map (fun p => astype (dtype_of_cell (fst p)) (snd p)) (combine (firstn 3 dst) src)
          ++ skipn 3 dst)
  else None.

Definition set_TANGENT (r : BufferRow) (t : list cell) : BufferRow :=
  {| POSITION := POSITION r; NORMAL := NORMAL r; TANGENT := t;
     other_fields := other_fields r |}.

(** [numpy.round(a, 3)] on one scalar: [rint(a * 1000) / 1000] in the
    dtype of the array. *)
Definition round3 (c : cell) : cell :=
  match c with
  | CF d x =>
      match np_round (CF d (mul d x (of_int d 1000))) with
      | CF _ y => CF d (div d y (of_int d 1000))
      | r => r
      end
  | CI _ _ _ => c
  end.

Definition cell_value (c : cell) : spec_float := to_float float64 c.

(** Equality and order of rows as [numpy.unique(axis=0)] sees them. *)
Fixpoint row_eqb (a b : list cell) : bool :=
  match a, b with
  | [], [] => true
  | x :: a', y :: b' =>
      SFeqb (cell_value x) (cell_value y) && row_eqb a' b'
  | _, _ => false
  end.

Fixpoint row_ltb (a b : list cell) : bool :=
  match a, b with
  | x :: a', y :: b' =>
      if SFltb (cell_value x) (cell_value y) then true
      else if SFltb (cell_value y) (cell_value x) then false
      else row_ltb a' b'
  | [], _ :: _ => true
  | _, _ => false
  end.

Fixpoint insert_unique (r : list cell) (u : list (list cell)) : list (list cell) :=
  match u with
  | [] => [r]
  | x :: u' =>
      if row_eqb r x then u
      else if row_ltb r x then r :: u
      else x :: insert_unique r u'
  end.

(** [u] of [numpy.unique(position, axis=0, ...)]: the distinct rows,
    sorted. *)
Definition unique (position : list (list cell)) : list (list cell) :=
  fold_left (fun u r => insert_unique r u) position [].

(** [counts[i] > 1] for the unique row [key]. *)
Definition shared (position : list (list cell)) (key : list cell) : bool :=
  (1 <? List.length (filter (row_eqb key) position))%nat.

Definition fadd (d : float_dtype) (x y : spec_float) : spec_float := add d x y.

Definition fsum (d : float_dtype) (l : list spec_float) : spec_float :=
  fold_left (fadd d) l (S754_zero false).

(** [numpy.linalg.norm] of one row. *)
Definition fnorm (d : float_dtype) (v : list spec_float) : spec_float :=
  SFsqrt (prec d) (emax d) (fsum d (map (fun x => mul d x x) v)).

Definition is_zero (x : spec_float) : bool :=
  match x with
  | S754_zero _ => true
  | _ => false
  end.

(** Lines 426-433 for the rows [vertex_normals] of one group: the
    normalized weighted average, [Ok None] when the average is the zero
    vector ([continue]). *)
Definition group_average (d : float_dtype) (vertex_normals : list (list spec_float))
  : outcome (option (list spec_float)) :=
  let normal_magnitudes := map (fnorm d) vertex_normals in
  let total := fsum d normal_magnitudes in
  let weights := map (fun m => div d m total) normal_magnitudes in
  let weighted_normals :=
    map (fun p => map (fun x => mul d x (snd p)) (fst p)) (combine vertex_normals weights) in
  let k := match vertex_normals with
           | v :: _ => List.length v
           | [] => 0%nat
           end in
  let avg_normal :=
    map (fun j => fsum d (map (fun v => nth j v (S754_zero false)) weighted_normals))
        (seq 0 k) in
  match avg_normal with
  | a0 :: a1 :: a2 :: _ =>
      if is_zero a0 && is_zero a1 && is_zero a2 then Ok None
      else Ok (Some (map (fun x => div d x (fnorm d avg_normal)) avg_normal))
  | [a0] => if is_zero a0 then Raise IndexError else Ok (Some [div d a0 (fnorm d avg_normal)])
  | [a0; a1] =>
      if is_zero a0 && is_zero a1 then Raise IndexError
      else Ok (Some (map (fun x => div d x (fnorm d avg_normal)) avg_normal))
  | [] => Raise IndexError
  end.

Local Open Scope py_scope.

(** A slice assignment [position_buffer["TANGENT"][mask, 0:3] = src] on
    the rows selected by [mask]; the shapes are checked before anything
    is written. *)
Definition assign_rows (mask : list bool) (src : BufferRow -> list cell)
    (buf : list BufferRow) : outcome (list BufferRow) :=
  mapM (fun p : bool * BufferRow =>
          if fst p then
            t <- of_option ValueError (assign_0_3 (TANGENT (snd p)) (src (snd p))) ;;
            Ok (set_TANGENT (snd p) t)
          else Ok (snd p))
       (combine mask buf).

(** The body of [for i in shared_indices] for the unique row [key]: the
    buffer afterwards and the exception raised, if any. *)
Definition average_group (position : list (list cell)) (key : list cell)
    (buf : list BufferRow) : list BufferRow * option exn :=
  let mask := map (row_eqb key) position in
  let members := map snd (filter fst (combine mask buf)) in
  let d := match members with
           | r :: _ => work_dtype (NORMAL r)
           | [] => float64
           end in
  let vertex_normals := map (fun r => map (to_float d) (firstn 3 (NORMAL r))) members in
  match group_average d vertex_normals with
  | Raise e => (buf, Some e)
  | Ok None => (buf, None)
  | Ok (Some normalized_avg) =>
      match assign_rows mask (fun _ => map (CF d) normalized_avg) buf with
      | Ok buf' => (buf', None)
      | Raise e => (buf, Some e)
      end
  end.

(** [normalized_avg] of lines 426-433 as it is assigned, for the records
    of [buf] whose rounded position equals [key]: the normalized average
    of their NORMAL rows in the dtype it is computed in; [Ok None] when
    the average is the zero vector. *)
Definition normalized_avg (position : list (list cell)) (key : list cell)
    (buf : list BufferRow) : outcome (option (list cell)) :=
  let mask := map (row_eqb key) position in
  let members := map snd (filter fst (combine mask buf)) in
  let d := match members with
           | r :: _ => work_dtype (NORMAL r)
           | [] => float64
           end in
  let vertex_normals := map (fun r => map (to_float d) (firstn 3 (NORMAL r))) members in
  match group_average d vertex_normals with
  | Raise e => Raise e
  | Ok None => Ok None
  | Ok (Some avg) => Ok (Some (map (CF d) avg))
  end.

Fixpoint average_groups (position : list (list cell)) (keys : list (list cell))
    (buf : list BufferRow) : list BufferRow * option exn :=
  match keys with
  | [] => (buf, None)
  | key :: keys' =>
      let r := average_group position key buf in
      match snd r with
      | None => average_groups position keys' (fst r)
      | Some _ => r
      end
  end.

(** [ModExporter.optimize_outlines]: the buffer is changed in place, so
    the result is its final state together with the exception that ended
    the call, if one did. *)
Definition optimize_outlines (outline_optimization : bool)
    (position_buffer : list BufferRow) : list BufferRow * option exn :=
  if negb outline_optimization then (position_buffer, None)
  else if (List.length position_buffer =? 0)%nat then (position_buffer, None)
  else
    let position := map (fun r => map round3 (POSITION r)) position_buffer in
    let u := unique position in
    match assign_rows (map (fun _ => true) position_buffer)
                      (fun r => firstn 3 (NORMAL r)) position_buffer with
    | Raise e => (position_buffer, Some e)
    | Ok buf1 => average_groups position (filter (shared position) u) buf1
    end.

(** The frame of a record: everything but the first three components
    of TANGENT. *)
Definition same_frame (r r' : BufferRow) : Prop :=
  POSITION r' = POSITION r /\
  NORMAL r' = NORMAL r /\
  other_fields r' = other_fields r /\
  skipn 3 (TANGENT r') = skipn 3 (TANGENT r) /\
  List.length (TANGENT r') = List.length (TANGENT r).

End Exporter.

(** ** [normal_export_translation] *)

Module Translation.
Import NumpyFloat Layout.

(** The semantics of [data.byte_buffer.Semantic] named in the sources. *)
Inductive Semantic := Position | Normal | Tangent | Blendweight | Blendindices | Color | TexCoord.

Definition Semantic_eqb (a b : Semantic) : bool :=
  match a, b with
  | Position, Position | Normal, Normal | Tangent, Tangent
  | Blendweight, Blendweight | Blendindices, Blendindices
  | Color, Color | TexCoord, TexCoord => true
  | _, _ => false
  end.

(** A [BufferLayout]: its elements with their [format.dxgi_type]. *)
Definition BufferLayout : Type := list (Semantic * FormatKind).

(** [layout.get_element(AbstractSemantic(semantic))]; [None] is the
    [ValueError] of a layout without the element. *)
Fixpoint get_element (layout : BufferLayout) (semantic : Semantic) : option FormatKind :=
  match layout with
  | [] => None
  | (s, f) :: layout' =>
      if Semantic_eqb semantic s then Some f else get_element layout' semantic
  end.

(** The loop of lines 64-72: the last layout holding the element
    decides. *)
Definition unorm_of (layouts : list BufferLayout) (semantic : Semantic) : bool :=
  fold_left
    (fun unorm layout =>
       match get_element layout semantic with
       | Some f => ends_with_UNORM f
       | None => unorm
       end)
    layouts false.

Definition two : spec_float := of_int float64 2.
Definition half : spec_float := div float64 (of_int float64 1) two.

(** The function returned, on Python floats. *)
Definition normal_export_translation (layouts : list BufferLayout)
    (semantic : Semantic) (flip : bool) : spec_float -> spec_float :=
  if unorm_of layouts semantic then
    (* Scale normal range -1:+1 to UNORM range 0:+1 *)
    if flip then fun x => add float64 (div float64 (neg x) two) half
    else fun x => add float64 (div float64 x two) half
  else if flip then fun x => neg x
  else fun x => x.

End Translation.

(** ** The specification's encoding rule *)

Module SpecCodec.
Import NumpyFloat Layout.

(** The range of the integer type of a normalized format. *)
Definition int_range (f : FormatKind) : option (Z * Z) :=
  match f with
  | UNORM16 => Some (0, 65535)
  | UNORM8 => Some (0, 255)
  | SNORM16 => Some (-32768, 32767)
  | SNORM8 => Some (-128, 127)
  | _ => None
  end.

Definition clamp (lo hi n : Z) : Z := Z.max lo (Z.min hi n).

(** The rule as the specification words it: [round(x * MAX)], a tie
    going away from zero, clamped to the range of the format. *)
Definition spec_encode (f : FormatKind) (x : Q) : option Z :=
  match quant_max f, int_range f with
  | Some M, Some (lo, hi) => Some (clamp lo hi (round_half_away (x * inject_Z M)))
  | _, _ => None
  end.

(** Modelled from the spec: the import-side inverse is not in the
    sources; "decode" of an integer code [k] is the quotient [k / MAX]
    in the float dtype. *)
Definition decode (f : FormatKind) (d : float_dtype) (k : Z) : spec_float :=
  match quant_max f with
  | Some M => div d (of_int d k) (of_int d M)
  | None => of_int d k
  end.

(** [encode (decode k) = k] for the [n] codes from [lo] on. *)
Definition codes_round_trip (f : FormatKind) (d : float_dtype) (lo : Z) (n : nat) : bool :=
  forallb (fun i =>
             match encode f d (decode f d (lo + Z.of_nat i)) with
             | Some k => k =? lo + Z.of_nat i
             | None => false
             end)
          (seq 0 n).

End SpecCodec.

(** ** Intermediate files: [collect_vb], [collect_vb_single], [collect_ib] *)

Module Intermediate.
Import Bytes.

(** A bound of a Python slice on a sequence of length [n]: a negative
    bound counts from the end, and the result is clamped to [0, n]. *)
Definition slice_bound (n : nat) (i : Z) : nat :=
  if i <? 0 then Z.to_nat (Z.max 0 (i + Z.of_nat n))
  else Nat.min n (Z.to_nat i).

(** [data[a:b]] *)
Definition slice {A : Type} (data : list A) (a b : Z) : list A :=
  let lo := slice_bound (List.length data) a in
  let hi := slice_bound (List.length data) b in
  firstn (hi - lo) (skipn lo data).

(** The [while i < len(data)] loop of [collect_vb_single], lines 726-729.
    [None] is a loop that has not ended after [fuel] rounds. *)
Fixpoint collect_vb_single_loop (fuel : nat) (stride : Z) (data : bytes)
    (i : Z) (result : bytes) : option bytes :=
  if i <? Z.of_nat (List.length data) then
    match fuel with
    | O => None
    | S fuel' =>
        collect_vb_single_loop fuel' stride data (i + stride)
          (result ++ slice data i (i + stride))
    end
  else Some result.

(** [collect_vb_single]; [file] is the content of the [.vb0] file,
    [None] when it does not exist. *)
Definition collect_vb_single (fuel : nat) (file : option bytes) (stride : Z)
  : option bytes :=
  match file with
  | None => Some []
  | Some data => collect_vb_single_loop fuel stride data 0 []
  end.

(** The loop of [collect_vb], lines 691-699. *)
Fixpoint collect_vb_loop (fuel : nat) (position_stride blend_stride texcoord_stride : Z)
    (data : bytes) (i : Z) (position blend texcoord : bytes)
  : option (bytes * bytes * bytes) :=
  if i <? Z.of_nat (List.length data) then
    match fuel with
    | O => None
    | S fuel' =>
        collect_vb_loop fuel' position_stride blend_stride texcoord_stride data
          (i + (position_stride + blend_stride + texcoord_stride))
          (position ++ slice data i (i + position_stride))
          (blend ++ slice data (i + position_stride)
                              (i + (position_stride + blend_stride)))
          (texcoord ++ slice data (i + (position_stride + blend_stride))
                                 (i + (position_stride + blend_stride + texcoord_stride)))
    end
  else Some (position, blend, texcoord).

Definition collect_vb (fuel : nat) (file : option bytes) (strides : Z * Z * Z)
  : option (bytes * bytes * bytes) :=
  let '(position_stride, blend_stride, texcoord_stride) := strides in
  match file with
  | None => Some ([], [], [])
  | Some data =>
      collect_vb_loop fuel position_stride blend_stride texcoord_stride data 0 [] [] []
  end.

(** The value of a byte string read least significant byte first. *)
Fixpoint le_value (b : bytes) : Z :=
  match b with
  | [] => 0
  | x :: b' => Z.of_N (Byte.to_N x) + 256 * le_value b'
  end.

(** What ends a call of [collect_ib] early. *)
Inductive struct_error :=
  | unpack_requires_4_bytes    (** [struct.unpack("1I", b)] with [len(b) != 4] *)
  | pack_out_of_range.         (** [struct.pack("1I", v)] with [v] outside [0, 2^32) *)

(** [struct.unpack("1I", b)[0]] on a little-endian machine. *)
Definition unpack_1I (b : bytes) : struct_error + Z :=
  if (List.length b =? 4)%nat then inr (le_value b) else inl unpack_requires_4_bytes.

(** [struct.pack("1I", v)] *)
Definition pack_1I (v : Z) : struct_error + bytes :=
  if (0 <=? v) && (v <? 2 ^ 32) then inr (le_bytes 4 v) else inl pack_out_of_range.

(** The loop of [collect_ib], lines 711-714; the index advances by four,
    so [fuel] rounds are enough for [4 * fuel] bytes. *)
Fixpoint collect_ib_loop (fuel : nat) (offset : Z) (data : bytes) (i : Z) (ib : bytes)
  : option (struct_error + bytes) :=
  if i <? Z.of_nat (List.length data) then
    match fuel with
    | O => None
    | S fuel' =>
        match unpack_1I (slice data i (i + 4)) with
        | inl e => Some (inl e)
        | inr v =>
            match pack_1I (v + offset) with
            | inl e => Some (inl e)
            | inr w => collect_ib_loop fuel' offset data (i + 4) (ib ++ w)
            end
        end
    end
  else Some (inr ib).

(** [collect_ib]; the loop gets one round per byte, more than it needs. *)
Definition collect_ib (file : option bytes) (offset : Z) : option (struct_error + bytes) :=
  match file with
  | None => Some (inr [])
  | Some data => collect_ib_loop (List.length data) offset data 0 []
  end.

(** The bytes of a list of 32-bit indices. *)
Definition index_bytes (idx : list Z) : bytes := List.concat (map (le_bytes 4) idx).

(** The bytes of a [.vb0] file: the records one after the other, each
    the position, blend and texcoord bytes of a vertex. *)
Definition vb0_bytes (records : list (bytes * bytes * bytes)) : bytes :=
  List.concat (map (fun r => fst (fst r) ++ snd (fst r) ++ snd r) records).

End Intermediate.

(** ** [shapekey_generation] *)

Module ShapeKeys.
Import NumpyFloat Blender.

(** One record of [sk_dtype]: a vertex index (uint32; Blender's indices
    are C ints, so the conversion is exact) and a float32 position. *)
Record sk_record := {
  VERTEX_INDEX : Z;
  POSITION : Vector
}.

(** A record of [numpy.zeros(total, dtype=sk_dtype)]. *)
Definition zero_record : sk_record :=
  {| VERTEX_INDEX := 0;
     POSITION := (S754_zero false, S754_zero false, S754_zero false) |}.

(** [numpy.all(a == b, axis=1)] on one row: the comparison of IEEE
    floats, under which a NaN differs from itself and the two zeros are
    equal. *)
Definition position_eqb (a b : Vector) : bool :=
  let '(a1, a2, a3) := a in
  let '(b1, b2, b3) := b in
  SFeqb a1 b1 && SFeqb a2 b2 && SFeqb a3 b3.

(** Lines 1480-1486: the records of one key block, whose [co] holds one
    point per vertex; [foreach_get] raises on another length. *)
Definition sk_rows (n_vertices : nat) (co : list Vector) : option (list sk_record) :=
  if (List.length co =? n_vertices)%nat then
    Some (map (fun p => {| VERTEX_INDEX := Z.of_nat (fst p); POSITION := snd p |})
              (combine (seq 0 n_vertices) co))
  else None.

(** Lines 1488-1494: [numpy.delete] of the rows whose position equals
    the one of the basis. *)
Definition delete_unmoved (basis sk_data : list sk_record) : list sk_record :=
  map snd
    (filter (fun p => negb (position_eqb (POSITION (snd p)) (POSITION (fst p))))
            (combine basis sk_data)).

(** The loop of lines 1478-1495, from the key block of index [i] on. *)
Fixpoint collect_keys (n_vertices : nat) (i : nat) (key_blocks : list (list Vector))
    (sk_datas : list (list sk_record)) : option (list (list sk_record)) :=
  match key_blocks with
  | [] => Some sk_datas
  | co :: rest =>
      match sk_rows n_vertices co with
      | None => None
      | Some sk_data =>
          if negb (i =? 0)%nat then   (* skip Basis *)
            match nth_error sk_datas 0 with
            | None => None
            | Some basis =>
                collect_keys n_vertices (S i) rest
                  (sk_datas ++ [delete_unmoved basis sk_data])
            end
          else collect_keys n_vertices (S i) rest (sk_datas ++ [sk_data])
      end
  end.

(** [buff[offset : offset + len(rows)] = rows]; the shapes have to
    agree. *)
Definition assign_slice (buff : list sk_record) (offset : nat) (rows : list sk_record)
  : option (list sk_record) :=
  if (offset + List.length rows <=? List.length buff)%nat then
    Some (firstn offset buff ++ rows ++ skipn (offset + List.length rows) buff)
  else None.

(** The loop of lines 1500-1505 over [enumerate(sk_datas)], from index
    [i] on; the state is [offset_count], [offset] and [shapekey_buff]. *)
Fixpoint fill_buffer (i : nat) (sk_datas : list (list sk_record))
    (st : list nat * nat * list sk_record)
  : option (list nat * nat * list sk_record) :=
  match sk_datas with
  | [] => Some st
  | sk_data :: rest =>
      if (i =? 0)%nat then fill_buffer (S i) rest st   (* skip Basis *)
      else
        let '(offset_count, offset, shapekey_buff) := st in
        match assign_slice shapekey_buff offset sk_data with
        | None => None
        | Some buff' =>
            fill_buffer (S i) rest
              (offset_count ++ [offset], (offset + List.length sk_data)%nat, buff')
        end
  end.

(** [shapekey_generation]; [shape_keys] is [mesh.shape_keys.key_blocks]
    with the [co] of every block, [None] for a mesh without shape keys
    (an [AttributeError]).  [None] as a result is an exception. *)
Definition shapekey_generation (n_vertices : nat)
    (shape_keys : option (list (list Vector)))
  : option (list nat * list sk_record) :=
  match shape_keys with
  | None => None
  | Some key_blocks =>
      match collect_keys n_vertices 0 key_blocks [] with
      | None => None
      | Some sk_datas =>
          let total := list_sum (map (@List.length sk_record) sk_datas) in
          let shapekey_buff := repeat zero_record total in
          match fill_buffer 0 sk_datas ([], 0%nat, shapekey_buff) with
          | None => None
          | Some (offset_count, _, buff) => Some (offset_count, buff)
          end
      end
  end.

(** The records of the vertices a key moves away from the basis, in the
    order of the vertices. *)
Definition moved (basis co : list Vector) : list sk_record :=
  map (fun p => {| VERTEX_INDEX := Z.of_nat (fst p); POSITION := snd (snd p) |})
      (filter (fun p => negb (position_eqb (snd (snd p)) (fst (snd p))))
              (combine (seq 0 (List.length basis)) (combine basis co))).

End ShapeKeys.

(** ** Sub-objects of a part: [ModExporter.obj_from_col] *)

Module Scene.

(** What is read of a [bpy.types.Object] while the sub-objects of a part
    are collected. *)
Record SceneObject := {
  obj_name : string;
  is_mesh : bool;        (** [obj.type == "MESH"] *)
  visible_get : bool;    (** [obj.visible_get()] *)
  selected : bool        (** [obj in bpy.context.selected_objects] *)
}.

(** A [bpy.types.Collection] with its objects and child collections. *)
#[local] Unset Elimination Schemes.
Inductive Collection := mkCollection {
  col_name : string;
  objects : list SceneObject;
  children : list Collection
}.
#[local] Set Elimination Schemes.

Record Flags := {
  ignore_hidden : bool;
  only_selected : bool
}.

(** [sorted(objs, key=lambda x: x.name)]: a stable sort, strings being
    compared by code points. *)
Fixpoint insert_by_name (x : SceneObject) (l : list SceneObject) : list SceneObject :=
  match l with
  | [] => [x]
  | y :: l' =>
      if String.ltb (obj_name x) (obj_name y) then x :: l
      else y :: insert_by_name x l'
  end.

Definition sorted_by_name (objs : list SceneObject) : list SceneObject :=
  fold_left (fun acc x => insert_by_name x acc) objs [].

Definition is_empty {A : Type} (l : list A) : bool :=
  match l with
  | [] => true
  | _ :: _ => false
  end.

Section ObjFromCol.
(** [process_mesh] evaluates, transforms and triangulates a mesh inside
    Blender; it is a parameter here, and one that returns: a run in which
    it raises ([to_mesh] of an object without geometry, the inverse of a
    singular matrix) is no run of the model, so that what holds of the
    runs of the model that return holds of the runs of the code that
    return. *)
Context {M : Type} (process_mesh : SceneObject -> SceneObject -> M).

Record SubObj := {
  collection_name : string;
  depth : nat;
  name : string;
  obj : SceneObject;
  mesh : M;
  vertex_count : nat;
  index_count : nat;
  index_offset : nat
}.

(** [SubObj(collection_name, depth, obj.name, obj, final_mesh)] *)
Definition sub_obj (collection_name : string) (depth : nat) (main_obj o : SceneObject)
  : SubObj :=
  {| collection_name := collection_name; depth := depth; name := obj_name o;
     obj := o; mesh := process_mesh main_obj o;
     vertex_count := 0; index_count := 0; index_offset := 0 |}.

(** Lines 188-190: the main object is added to an empty destination. *)
Definition with_main (main_obj : SceneObject) (destination : list SubObj) (depth : nat)
  : list SubObj :=
  if is_empty destination then destination ++ [sub_obj "" depth main_obj main_obj]
  else destination.

(** Lines 194-200: the mesh objects of a collection that pass the
    filters, sorted by name. *)
Definition listed_objects (flags : Flags) (collection_objects : list SceneObject)
  : list SceneObject :=
  let objs := filter is_mesh collection_objects in
  let objs := if ignore_hidden flags then filter visible_get objs else objs in
  let objs := if only_selected flags then filter selected objs else objs in
  sorted_by_name objs.

(** [obj_from_col] on a collection that is not [None]. *)
Fixpoint walk_collection (flags : Flags) (main_obj : SceneObject)
    (collection : Collection) (destination : list SubObj) (depth : nat)
  : list SubObj :=
  match collection with
  | mkCollection cname cobjects cchildren =>
      let destination := with_main main_obj destination depth in
      let destination :=
        destination
        ++ map (fun o => sub_obj cname depth main_obj o) (listed_objects flags cobjects) in
      fold_left
        (fun dst child => walk_collection flags main_obj child dst (S depth))
        cchildren destination
  end.

(** [obj_from_col]: the destination after the call. *)
Definition obj_from_col (flags : Flags) (main_obj : SceneObject)
    (collection : option Collection) (destination : list SubObj) (depth : nat)
  : list SubObj :=
  match collection with
  | None => with_main main_obj destination depth
  | Some c => walk_collection flags main_obj c destination depth
  end.

End ObjFromCol.

(** [nested c d c']: the collection [c'] lies [d] levels below [c]. *)
Inductive nested : Collection -> nat -> Collection -> Prop :=
  | nested_here (c : Collection) : nested c 0 c
  | nested_child (c child : Collection) (d : nat) (c' : Collection) :
      In child (children c) -> nested child d c' -> nested c (S d) c'.

(** The objects [obj_from_col] lists. *)
Definition listed (flags : Flags) (o : SceneObject) : bool :=
  is_mesh o
  && (negb (ignore_hidden flags) || visible_get o)
  && (negb (only_selected flags) || selected o).

End Scene.

(** ** [ModExporter.verify_mesh_requirements] *)

Module Requirements.
Import Py Translation.

(** A semantic of a [BufferLayout]: [sem.abstract.enum],
    [sem.abstract.get_name()] and [sem.format.get_num_values()]. *)
Record BufferSemantic := {
  enum : Semantic;
  abs_name : string;
  num_values : nat
}.

(** [buffers_format]: the layouts by buffer name, in the order of the
    dictionary. *)
Definition BuffersFormat : Type := list (string * list BufferSemantic).

(** What is read of the mesh and of the object. *)
Record MeshAttributes := {
  vertex_colors : list string;   (** the names of the colour attributes *)
  uv_layers : list string;       (** the names of the uv layers *)
  vertex_groups_of : list nat    (** [len(vertex.groups)] for every vertex *)
}.

Record ObjectInfo := {
  obj_name : string;
  n_vertex_groups : nat          (** [len(obj.vertex_groups)] *)
}.

(** The two warnings reported to the operator. *)
Inductive warning :=
  | requires_vertex_groups
  | more_groups_than_supported (max_groups : nat).

Definition has (names : list string) (n : string) : bool := existsb (String.eqb n) names.

Definition missing_color (obj : ObjectInfo) (abs_name : string) : exn :=
  Fatal ("Mesh(" ++ obj_name obj ++ ") needs to have a color attribute called '"
         ++ abs_name ++ "'!").

Definition missing_uv (obj : ObjectInfo) (abs_name : string) : exn :=
  Fatal ("Mesh(" ++ obj_name obj ++ ") needs to have a uv attribute called '"
         ++ abs_name ++ "'!").

(** Lines 344-349: the semantics of the buffers that are not excluded. *)
Definition semantics_to_check (buffers_format : BuffersFormat)
    (excluded_buffers : list string) : list BufferSemantic :=
  flat_map (fun kv => if has excluded_buffers (fst kv) then [] else snd kv)
           buffers_format.

(** The body of [for sem in semantics_to_check]: the warnings it
    reports, or the exception it raises. *)
Definition check_semantic (obj : ObjectInfo) (mesh : MeshAttributes)
    (sem : BufferSemantic) : outcome (list warning) :=
  if Semantic_eqb (enum sem) Color && negb (has (vertex_colors mesh) (abs_name sem))
  then Raise (missing_color obj (abs_name sem))
  else if Semantic_eqb (enum sem) TexCoord && negb (has (uv_layers mesh) (abs_name sem))
  then Raise (missing_uv obj (abs_name sem))
  else if Semantic_eqb (enum sem) Blendweight then
    let w1 :=
      if (0 <? List.length (vertex_groups_of mesh))%nat && (n_vertex_groups obj =? 0)%nat
      then [requires_vertex_groups] else [] in
    let max_groups := num_values sem in
    let w2 :=
      if existsb (fun g => (max_groups <? g)%nat) (vertex_groups_of mesh)
      then [more_groups_than_supported max_groups] else [] in
    Ok (w1 ++ w2)
  else Ok [].

Fixpoint check_all (obj : ObjectInfo) (mesh : MeshAttributes)
    (sems : list BufferSemantic) : outcome (list warning) :=
  match sems with
  | [] => Ok []
  | sem :: rest =>
      bind (check_semantic obj mesh sem)
           (fun w => bind (check_all obj mesh rest) (fun ws => Ok (w ++ ws)))
  end.

(** [verify_mesh_requirements]: the warnings reported, in order, or the
    [Fatal] raised. *)
Definition verify_mesh_requirements (obj : ObjectInfo) (mesh : MeshAttributes)
    (buffers_format : BuffersFormat) (excluded_buffers : list string)
  : outcome (list warning) :=
  check_all obj mesh (semantics_to_check buffers_format excluded_buffers).

End Requirements.

(** ** The shape of the assembled array *)

Module Shape.
Import NumpyFloat Layout Blender Assembler Exporter.

(** The field of [migoto_verts] for the element [e]: its name, one row
    per loop, [format_len] components per row, each of the dtype of the
    format. *)
Definition field_of (mesh : Mesh) (e : InputElement) (f : string * column) : Prop :=
  fst f = name e /\
  List.length (snd f) = List.length (loops mesh) /\
  Forall (fun row => List.length row = format_len e /\
                     Forall (fun c => dtype_of (Format e) = Some (dtype_of_cell c)) row)
         (snd f).

End Shape.

(** ** Graphs of connected points *)

Module Connections.
Import Outline.

(** A dictionary of connected points in which every point keeps at
    least two of its connected points among the keys. *)
Definition closed (d : @PyDict.t nat PySet.t) : Prop :=
  Forall (fun kv => (2 <= List.length (PySet.inter (snd kv) (PyDict.keys d)))%nat) d.

(** The entries of [d] whose key satisfies [keep]. *)
Definition restrict (keep : nat -> bool) (d : @PyDict.t nat PySet.t) : @PyDict.t nat PySet.t :=
  filter (fun kv => keep (fst kv)) d.

End Connections.

(** ** Position keys of the outline optimizer *)

Module Grouping.
Import Outline.

(** The key under which a vertex is filed in [Pos_Same_Vertices], lines
    304-318: its position, rounded when rounding is switched on. *)
Definition position_key (props : OutlineProperties) (mesh : Mesh) (v : nat) : QVec :=
  if toggle_rounding_outline props
  then round_key (verts_obj mesh v) (decimal_rounding_outline props)
  else verts_obj mesh v.

(** The keys of a dictionary differ pairwise under [eqb]. *)
Fixpoint keys_differ {K V : Type} (eqb : K -> K -> bool) (d : @PyDict.t K V) : Prop :=
  match d with
  | [] => True
  | (k, _) :: d' =>
      (forall k' v', In (k', v') d' -> eqb k k' = false) /\ keys_differ eqb d'
  end.

(** A vertex that is a corner of some polygon. *)
Definition corner (mesh : Mesh) (v : nat) : Prop :=
  exists p, In p (polygons mesh) /\ In v (vertices p).

(** What the pre-dictionary loop keeps true after the vertices [seen]:
    they are the searched ones, the keys of [Pos_Same_Vertices] differ,
    the group found for a key holds the vertices of [seen] filed under
    it, and a key that is not found is the key of none of them. *)
Definition groups_by_key (props : OutlineProperties) (mesh : Mesh)
    (st : PreDict) (seen : list nat) : Prop :=
  (forall v, In v (searched_vertex_pos st) <-> In v seen) /\
  keys_differ QVec_eqb (Pos_Same_Vertices st) /\
  (forall k,
      match PyDict.get QVec_eqb (Pos_Same_Vertices st) k with
      | Some g => forall v, In v g <->
                            In v seen /\ QVec_eqb (position_key props mesh v) k = true
      | None => forall v, In v seen -> QVec_eqb (position_key props mesh v) k = false
      end).

(** The members of a group of [S] have one entry in the map, and the
    members of a group that was not stored have none. *)
Definition one_entry_per_group (S : @PyDict.t nat PySet.t)
    (st : OutlineCalc.CalcState) : Prop :=
  (forall k g u, In (k, g) S -> In u g ->
                 PyDict.get Nat.eqb (OutlineCalc.export_outline st) u
                 = PyDict.get Nat.eqb (OutlineCalc.export_outline st) k) /\
  (forall k g, In (k, g) S -> ~ In k (OutlineCalc.IteratedValues st) ->
               PyDict.get Nat.eqb (OutlineCalc.export_outline st) k = None).

End Grouping.

(** ** Components and parts: [ModExporter.initialize_data] *)

Module Initialize.

(** What ends [initialize_data] early. *)
Inductive error :=
  | ValueError                 (** [raise ValueError("Hash data is empty!")] *)
  | Fatal (msg : string)
  | IndexError                 (** a list of [hash.json] read past its end *)
  | TypeError.                 (** [TextureData] called with other than three values *)

Definition bind {A B : Type} (m : error + A) (k : A -> error + B) : error + B :=
  match m with
  | inl e => inl e
  | inr a => k a
  end.

Fixpoint mapM {A B : Type} (f : A -> error + B) (l : list A) : error + list B :=
  match l with
  | [] => inr []
  | a :: l' => bind (f a) (fun b => bind (mapM f l') (fun bs => inr (b :: bs)))
  end.

(** An entry of [hash.json], with the keys [initialize_data] reads; a
    texture entry is the list of values handed to [TextureData]. *)
Module Hash.
Record Component := {
  component_name : string;
  root_vs : string;
  draw_vb : string;
  position_vb : string;
  blend_vb : string;
  texcoord_vb : string;
  ib : string;
  object_classifications : list string;
  texture_hashes : list (list (list string));
  object_indexes : list Z
}.
End Hash.

Record TextureData := {
  name : string;
  extension : string;
  hash : string
}.

(** [TextureData] called on the values of an entry. *)
Definition TextureData_of (entry : list string) : error + TextureData :=
  match entry with
  | [n; e; h] => inr {| name := n; extension := e; hash := h |}
  | _ => inl TypeError
  end.

(** What [initialize_data] reads of Blender: [context.scene.objects],
    [bpy.context.selected_objects] and [bpy.data.collections].  The flag
    [Scene.selected] of an object tells whether it is one of the selected
    objects. *)
Record BlendData := {
  scene_objects : list Scene.SceneObject;
  selected_objects : list Scene.SceneObject;
  collections : list Scene.Collection
}.

(** Lines 104-113. *)
Definition candidate_objs (flags : Scene.Flags) (data : BlendData)
  : list Scene.SceneObject :=
  let objs :=
    if Scene.only_selected flags then selected_objects data else scene_objects data in
  let objs := if Scene.ignore_hidden flags then filter Scene.visible_get objs else objs in
  if Scene.only_selected flags then filter Scene.selected objs else objs.

Record Part {M : Type} := {
  fullname : string;
  objects : list (@Scene.SubObj M);
  textures : list TextureData;
  first_index : Z;
  vertex_count : nat
}.

Module Mod.
Record Component {M : Type} := {
  fullname : string;
  parts : list (@Part M);
  root_vs : string;
  draw_vb : string;
  position_vb : string;
  blend_vb : string;
  texcoord_vb : string;
  ib : string;
  vertex_count : nat;
  strides : list (string * Z)
}.
End Mod.

Section InitializeData.
(** The mesh [process_mesh] builds inside Blender, the number of its
    polygons and Python's [str.lower] are parameters. *)
Context {M : Type} (process_mesh : Scene.SceneObject -> Scene.SceneObject -> M)
        (n_polygons : M -> nat) (lower : string -> string).

(** Lines 157-161: every entry gets its index count and the running
    offset. *)
Fixpoint assign_offsets (objects : list (@Scene.SubObj M)) (offset : nat)
  : list (@Scene.SubObj M) :=
  match objects with
  | [] => []
  | entry :: rest =>
      let count := (n_polygons (Scene.mesh entry) * 3)%nat in
      {| Scene.collection_name := Scene.collection_name entry;
         Scene.depth := Scene.depth entry;
         Scene.name := Scene.name entry;
         Scene.obj := Scene.obj entry;
         Scene.mesh := Scene.mesh entry;
         Scene.vertex_count := Scene.vertex_count entry;
         Scene.index_count := count;
         Scene.index_offset := offset |}
      :: assign_offsets rest (offset + count)
  end.

(** [obj.name.startswith(part_name)] *)
Definition matching_objs (candidates : list Scene.SceneObject) (part_name : string)
  : list Scene.SceneObject :=
  filter (fun obj => String.prefix part_name (Scene.obj_name obj)) candidates.

(** [c.name.lower().startswith((part_name).lower())] *)
Definition matching_collections (data : BlendData) (part_name : string)
  : list Scene.Collection :=
  filter (fun c => String.prefix (lower part_name) (lower (Scene.col_name c)))
         (collections data).

(** The body of [for j, part in enumerate(...)] past the test of
    [draw_vb], lines 131-169. *)
Definition make_part (flags : Scene.Flags) (data : BlendData)
    (candidates : list Scene.SceneObject) (current_name : string)
    (component : Hash.Component) (j : nat) (part : string) : error + @Part M :=
  let part_name := (current_name ++ part)%string in
  match matching_objs candidates part_name with
  | [] => inl (Fatal ("Cannot find object " ++ part_name ++ " in the scene."))
  | _ :: _ :: _ => inl (Fatal ("Found multiple objects with the name " ++ part_name ++ "."))
  | [obj] =>
      let collection_name := matching_collections data part_name in
      if (1 <? List.length collection_name)%nat then
        inl (Fatal ("ERROR: Found multiple collections with the name " ++ part_name
                    ++ ". Ensure only one collection exists with that name."))
      else
        bind (match nth_error (Hash.texture_hashes component) j with
              | Some entries => inr entries
              | None => inl IndexError
              end)
          (fun entries =>
        bind (mapM TextureData_of entries)
          (fun textures =>
        let objects :=
          Scene.obj_from_col process_mesh flags obj (hd_error collection_name) [] 0 in
        let objects := assign_offsets objects 0 in
        match nth_error (Hash.object_indexes component) j with
        | None => inl IndexError
        | Some first_index =>
            inr {| fullname := part_name; objects := objects; textures := textures;
                   first_index := first_index; vertex_count := 0 |}
        end))
  end.

(** The loop over [component["object_classifications"]] from index [j]
    on. *)
Fixpoint make_parts (flags : Scene.Flags) (data : BlendData)
    (candidates : list Scene.SceneObject) (current_name : string)
    (component : Hash.Component) (j : nat) (classifications : list string)
  : error + list (@Part M) :=
  match classifications with
  | [] => inr []
  | part :: rest =>
      if String.eqb (Hash.draw_vb component) EmptyString then
        make_parts flags data candidates current_name component (S j) rest
      else
        bind (make_part flags data candidates current_name component j part)
          (fun p =>
        bind (make_parts flags data candidates current_name component (S j) rest)
          (fun ps => inr (p :: ps)))
  end.

(** The body of [for i, component in enumerate(self.hash_data)]. *)
Definition make_component (flags : Scene.Flags) (data : BlendData)
    (candidates : list Scene.SceneObject) (mod_name : string)
    (component : Hash.Component) : error + @Mod.Component M :=
  let current_name := (mod_name ++ Hash.component_name component)%string in
  bind (make_parts flags data candidates current_name component 0
          (Hash.object_classifications component))
    (fun parts =>
       inr {| Mod.fullname := current_name;
              Mod.parts := parts;
              Mod.root_vs := Hash.root_vs component;
              Mod.draw_vb := Hash.draw_vb component;
              Mod.position_vb := Hash.position_vb component;
              Mod.blend_vb := Hash.blend_vb component;
              Mod.texcoord_vb := Hash.texcoord_vb component;
              Mod.ib := Hash.ib component;
              Mod.vertex_count := 0;
              Mod.strides := [] |}).

(** [initialize_data]: the components of [self.mod_file] after the
    call; the other fields of the mod file are copies of the fields of the
    exporter. *)
Definition initialize_data (flags : Scene.Flags) (data : BlendData)
    (mod_name : string) (hash_data : list Hash.Component)
  : error + list (@Mod.Component M) :=
  match hash_data with
  | [] => inl ValueError
  | _ :: _ =>
      mapM (make_component flags data (candidate_objs flags data) mod_name) hash_data
  end.

(** A part for which the loop body runs through: one candidate object
    carries the name, at most one collection does, and [hash.json] has
    well-formed textures and a first index for it. *)
Definition part_ready (data : BlendData) (candidates : list Scene.SceneObject)
    (current_name : string) (component : Hash.Component) (j : nat) (part : string)
  : Prop :=
  (exists obj, matching_objs candidates (current_name ++ part) = [obj]) /\
  (List.length (matching_collections data (current_name ++ part)) <= 1)%nat /\
  (exists entries,
      nth_error (Hash.texture_hashes component) j = Some entries /\
      Forall (fun entry => List.length entry = 3%nat) entries) /\
  (j < List.length (Hash.object_indexes component))%nat.

End InitializeData.

End Initialize.

(** ** Merging the parts of a component: [generate_mod_folder] *)

Module ModFolder.
Import Bytes Intermediate Blender.

(** What ends the loop over the objects of a component early. *)
Inductive error :=
  | IndexError
  | KeyError
  | ZeroDivisionError
  | FileNotFoundError
  | NameError                  (** [shutil], which the module never imports *)
  | struct_raised (e : struct_error).

Definition bind {A B : Type} (m : error + A) (k : A -> error + B) : error + B :=
  match m with
  | inl e => inl e
  | inr a => k a
  end.

(** The files of a folder, by name; the first binding of a name counts. *)
Definition folder : Type := list (string * bytes).

Fixpoint read (f : folder) (name : string) : option bytes :=
  match f with
  | [] => None
  | (n, data) :: f' => if String.eqb name n then Some data else read f' name
  end.

(** [open(name, "wb")] followed by [write(data)] *)
Definition write (f : folder) (name : string) (data : bytes) : folder :=
  (name, data) :: f.

(** [os.remove(name)] *)
Definition remove (f : folder) (name : string) : error + folder :=
  match read f name with
  | None => inl FileNotFoundError
  | Some _ => inr (filter (fun kv => negb (String.eqb name (fst kv))) f)
  end.

(** [str(n)] for an [n] that is not negative. *)
Definition str (n : nat) : string := NilEmpty.string_of_uint (Nat.to_uint n).

(** Lines 937-942: the name of the [i]-th object of a component. *)
Definition current_object (object_classifications : list string) (i : nat)
  : error + string :=
  if (List.length object_classifications <? i + 1)%nat then
    match rev object_classifications with
    | [] => inl IndexError
    | last :: _ => inr (last ++ str (i + 2 - List.length object_classifications))%string
    end
  else
    match nth_error object_classifications i with
    | Some part => inr part
    | None => inl IndexError
    end.

(** The strides read from the [.fmt] file, lines 880-932: the three
    strides of a component with a [blend_vb], the number [int(strides[0])]
    of a component without. *)
Inductive Strides :=
  | split_strides (position_stride blend_stride texcoord_stride : Z)
  | single_stride (stride : Z).

(** The three files removed with [delete_intermediate]. *)
Definition intermediate_files (fullname : string) : list string :=
  [(fullname ++ ".vb0")%string; (fullname ++ ".ib")%string; (fullname ++ ".fmt")%string].

Definition is_ramp (texture_name : string) : bool :=
  String.eqb texture_name "ShadowRamp" || String.eqb texture_name "MetalMap"
  || String.eqb texture_name "DiffuseGuide".

Fixpoint lookup {A : Type} (d : list (string * A)) (k : string) : option A :=
  match d with
  | [] => None
  | (k', v) :: d' => if String.eqb k k' then Some v else lookup d' k
  end.

(** A record of a [.vb0] file written with the three strides. *)
Definition whole_record (position_stride blend_stride texcoord_stride : Z)
    (r : bytes * bytes * bytes) : Prop :=
  Z.of_nat (List.length (fst (fst r))) = position_stride /\
  Z.of_nat (List.length (snd (fst r))) = blend_stride /\
  Z.of_nat (List.length (snd r)) = texcoord_stride.

Section Component.
(** The values of the dictionary [offsets] are handed on to the [.ini]
    file; their type is a parameter. *)
Context {O : Type}.

(** The variables of the loop over the objects of a component. *)
Record State := {
  offset : Z;
  position : bytes;
  blend : bytes;
  texcoord : bytes;
  objects : list (string * O);        (** [char_hash[num]["objects"]] *)
  path : folder;                      (** the files of the dump folder *)
  destination : folder;               (** the files of the mod folder *)
  texture_hashes_written : list (string * string)
}.

Variables (offsets : list (string * O))
          (no_ramps delete_intermediate copy_textures : bool)
          (game : GameEnum)
          (current_name : string)
          (object_classifications : list string)
          (texture_hashes : option (list (list (list string))))
          (strides : Strides).

(** The body of [for j, texture in enumerate(texture_hashes)], lines
    1002-1019, for the object [fullname].  The call [shutil.copy] raises
    a [NameError]: [export_ops.py] does not import [shutil]. *)
Definition copy_texture (fullname : string) (st : State) (texture : list string)
  : error + State :=
  bind (if no_ramps then
          match nth_error texture 0 with
          | Some t0 => inr (is_ramp t0)
          | None => inl IndexError
          end
        else inr false)
    (fun ramp =>
       if ramp then inr st
       else
         match texture with
         | t0 :: t1 :: t2 :: _ =>
             match lookup (texture_hashes_written st) t2 with
             | Some _ => inr st
             | None =>
                 let file := (fullname ++ t0 ++ t1)%string in
                 bind (if copy_textures then inl NameError else inr (destination st))
                   (fun destination' =>
                      inr {| offset := offset st; position := position st;
                             blend := blend st; texcoord := texcoord st;
                             objects := objects st; path := path st;
                             destination := destination';
                             texture_hashes_written :=
                               if Assembler.is_game game ZenlessZoneZero || Assembler.is_game game HonkaiStarRail
                               then texture_hashes_written st ++ [(t2, file)]
                               else texture_hashes_written st |})
             end
         | _ => inl IndexError
         end).

Fixpoint copy_textures_loop (fullname : string) (st : State)
    (textures : list (list string)) : error + State :=
  match textures with
  | [] => inr st
  | texture :: rest =>
      bind (copy_texture fullname st texture)
        (fun st' => copy_textures_loop fullname st' rest)
  end.

(** Lines 988-993. *)
Definition textures_of (i : nat) : error + list (list string) :=
  match texture_hashes with
  | Some l =>
      match nth_error l i with
      | Some t => inr t
      | None => inl IndexError
      end
  | None => inr [["Diffuse"; ".dds"; "_"]; ["LightMap"; ".dds"; "_"]]%string
  end.

(** Lines 944-968: the buffers after the [.vb0] file of the object is
    collected, and [position_stride].  The loops of [collect_vb] and
    [collect_vb_single] get one round per byte of the file. *)
Definition collect_buffers (st : State) (vb0 : option bytes)
  : option (bytes * bytes * bytes * Z) :=
  let fuel := match vb0 with Some data => List.length data | None => 0%nat end in
  match strides with
  | split_strides position_stride blend_stride texcoord_stride =>
      match collect_vb fuel vb0 (position_stride, blend_stride, texcoord_stride) with
      | Some (x, y, z) =>
          Some (position st ++ x, blend st ++ y, texcoord st ++ z, position_stride)
      | None => None
      end
  | single_stride stride =>
      match collect_vb_single fuel vb0 stride with
      | Some x => Some (position st ++ x, blend st, texcoord st, stride)
      | None => None
      end
  end.

(** Lines 975-979. *)
Definition remove_intermediate (p : folder) (fullname : string) : error + folder :=
  if delete_intermediate then
    bind (remove p (fullname ++ ".vb0"))
      (fun p1 => bind (remove p1 (fullname ++ ".ib"))
                   (fun p2 => remove p2 (fullname ++ ".fmt")))
  else inr p.

(** The body of [for i in range(len(component["object_indexes"]))], lines
    936-1019.  [None] is a run in which a loop of [collect_vb] does not
    end. *)
Definition collect_object (st : State) (i : nat) : option (error + State) :=
  match current_object object_classifications i with
  | inl e => Some (inl e)
  | inr object_name =>
      let fullname := (current_name ++ object_name)%string in
      match collect_buffers st (read (path st) (fullname ++ ".vb0")) with
      | None => None
      | Some (position', blend', texcoord', position_stride) =>
          match collect_ib (read (path st) (fullname ++ ".ib")) (offset st) with
          | None => None
          | Some (inl e) => Some (inl (struct_raised e))
          | Some (inr ib) =>
              Some
                (bind (remove_intermediate (path st) fullname)
                   (fun path' =>
                 if position_stride =? 0 then inl ZeroDivisionError
                 else
                   match lookup offsets fullname with
                   | None => inl KeyError
                   | Some o =>
                       bind (textures_of i)
                         (fun textures =>
                            copy_textures_loop fullname
                              {| offset :=
                                   offset st
                                   + Z.of_nat (List.length position') / position_stride;
                                 position := position';
                                 blend := blend';
                                 texcoord := texcoord';
                                 objects := objects st ++ [(fullname, o)];
                                 path := path';
                                 destination :=
                                   write (destination st) (fullname ++ ".ib") ib;
                                 texture_hashes_written := texture_hashes_written st |}
                              textures)
                   end))
          end
      end
  end.

Fixpoint collect_objects (st : State) (indexes : list nat) : option (error + State) :=
  match indexes with
  | [] => Some (inr st)
  | i :: rest =>
      match collect_object st i with
      | Some (inr st') => collect_objects st' rest
      | other => other
      end
  end.

(** Lines 933-1019 for a component with [n_objects] entries in
    [object_indexes]; the [offset] of the result is stored as
    [total_verts]. *)
Definition collect_component (n_objects : nat) (dump mod_folder : folder)
    (written : list (string * string)) : option (error + State) :=
  collect_objects
    {| offset := 0; position := []; blend := []; texcoord := []; objects := [];
       path := dump; destination := mod_folder; texture_hashes_written := written |}
    (seq 0 n_objects).

End Component.

End ModFolder.

(** ** Concrete inputs *)

Module Examples.
Import NumpyFloat Layout Py Blender.

(** The float32 nearest to 1/102: [0x1.414142p-7]. *)
Definition x_tie : spec_float := S754_finite false 10526881 (-30).

(** An object without any flip flag. *)
Definition plain_obj : Object :=
  {| data_polygons := 1; FlipMesh := false; FlipNormal := false; FlipWinding := false;
     vertex_groups := []; flip_v := [] |}.

Definition fzero : spec_float := S754_zero false.
Definition fone : spec_float := S754_finite false 1 0.

(** A corner whose normal and tangent point along +z. *)
Definition up_loop (v : nat) : MeshLoop :=
  {| vertex_index := v; normal := (fzero, fzero, fone);
     tangent := (fzero, fzero, fone); bitangent_sign := fone |}.




(** NORMAL and TANGENT elements of format R8G8B8A8_UNORM. *)
Definition normal_unorm8 : InputElement :=
  {| name := "NORMAL"; SemanticIndex := 0; Format := UNORM8; format_len := 4;
     InputSlotClass := per_vertex; reused_offset := false |}.

Definition tangent_unorm8 : InputElement :=
  {| name := "TANGENT"; SemanticIndex := 0; Format := UNORM8; format_len := 4;
     InputSlotClass := per_vertex; reused_offset := false |}.

(** A triangle over three vertices; its corners visit the vertices in
    the order 2, 1, 0.  The mesh has no deform layer. *)
Definition tri_mesh : Mesh :=
  {| Blender.vertices := [(fzero, fzero, fzero); (fone, fzero, fzero); (fzero, fone, fzero)];
     loops := [up_loop 2; up_loop 1; up_loop 0];
     n_polygons := 1;
     deform := None;
     vertex_colors := [];
     uv_layers := [] |}.

Definition position_f32 : InputElement :=
  {| name := "POSITION"; SemanticIndex := 0; Format := F32; format_len := 3;
     InputSlotClass := per_vertex; reused_offset := false |}.

Definition blendweight_per_vertex : InputElement :=
  {| name := "BLENDWEIGHT"; SemanticIndex := 0; Format := F32; format_len := 4;
     InputSlotClass := per_vertex; reused_offset := false |}.

Definition blendweight_per_instance : InputElement :=
  {| name := "BLENDWEIGHT"; SemanticIndex := 0; Format := F32; format_len := 4;
     InputSlotClass := per_instance; reused_offset := false |}.

Definition position_layout : InputLayout :=
  {| elems := [position_f32]; semantic_remap := [] |}.

Definition skinned_layout : InputLayout :=
  {| elems := [position_f32; blendweight_per_vertex]; semantic_remap := [] |}.

Definition instanced_layout : InputLayout :=
  {| elems := [blendweight_per_instance; position_f32]; semantic_remap := [] |}.

Definition plain_cfg : Assembler.Settings :=
  {| Assembler.normalize_weights := false;
     Assembler.game := HonkaiStarRail;
     Assembler.outline := false;
     Assembler.export_outline := fun _ => None |}.

(** The object with the mirror flag [3DMigoto:FlipMesh] alone. *)
Definition mirrored_obj : Object :=
  {| data_polygons := 1; FlipMesh := true; FlipNormal := false; FlipWinding := false;
     vertex_groups := []; flip_v := [] |}.

(** Three records of a position buffer; the first and the third share
    their position. *)
Definition f32 (n : Z) : cell := CF float32 (of_int float32 n).

Definition buffer_row (p n t : list Z) : Exporter.BufferRow :=
  {| Exporter.POSITION := map f32 p;
     Exporter.NORMAL := map f32 n;
     Exporter.TANGENT := map f32 t;
     Exporter.other_fields := [] |}.

Definition seam_buffer : list Exporter.BufferRow :=
  [ buffer_row [0; 0; 0] [1; 0; 0] [9; 9; 9; 7];
    buffer_row [1; 0; 0] [0; 0; 1] [9; 9; 9; 7];
    buffer_row [0; 0; 0] [0; 1; 0] [9; 9; 9; 7] ].

(** A vertex weighted by the bone group 0 and by the mask group 1. *)
Definition masked_obj : Object :=
  {| data_polygons := 1; FlipMesh := false; FlipNormal := false; FlipWinding := false;
     vertex_groups := ["Bone"%string; "MASK_hair"%string]; flip_v := [] |}.

Definition masked_mesh : Mesh :=
  {| Blender.vertices := [(fzero, fzero, fzero)];
     loops := [up_loop 0];
     n_polygons := 1;
     deform := Some [[(0%nat, fone); (1%nat, fone)]];
     vertex_colors := [];
     uv_layers := [] |}.

End Examples.

Module OutlineExamples.
Import Outline NumpyFloat.



(** An instance of the two parameters of the angle weighting, for runs
    without angle weighting, which call neither: the products added one
    after the other, and no arc cosine at all. *)
Definition einsum_in_order (a b : OutlineCalc.vec) : spec_float :=
  OutlineCalc.add_reduce (map (fun p => mul float64 (fst p) (snd p)) (combine a b)).

Definition no_arccos (x : spec_float) : spec_float := S754_nan.

(** The float64 direction (0, 0, 1). *)
Definition up : OutlineCalc.vec :=
  [OutlineCalc.zero; OutlineCalc.zero; of_int float64 1].

(** Two triangles facing +z that meet in one point, held by the two
    coincident vertices 0 and 1 (a seam). *)
Definition seam_mesh : Mesh :=
  {| verts_obj := fun v =>
       match v with
       | 0%nat | 1%nat => (0, 0, 0)
       | 2%nat => (1, 0, 0)
       | 3%nat => (0, 1, 0)
       | 4%nat => (-1, 0, 0)
       | _ => (0, -1, 0)
       end%Q;
     polygons := [ {| vertices := [0; 2; 3]%nat; normal := (0, 0, 1)%Q |};
                   {| vertices := [1; 4; 5]%nat; normal := (0, 0, 1)%Q |} ] |}.

(** The same two triangles folded onto each other: the faces at the
    coincident vertices 0 and 1 look in opposite directions. *)
Definition fold_mesh : Mesh :=
  {| verts_obj := verts_obj seam_mesh;
     polygons := [ {| vertices := [0; 2; 3]%nat; normal := (0, 0, 1)%Q |};
                   {| vertices := [1; 4; 5]%nat; normal := (0, 0, -1)%Q |} ] |}.

(** Exact position keys, no angle weighting, no edge detection. *)
Definition seam_props : OutlineProperties :=
  {| outline_optimization := true;
     toggle_rounding_outline := false;
     decimal_rounding_outline := 3;
     angle_weighted := false;
     overlapping_faces := false;
     detect_edges := false;
     calculate_all_faces := false;
     nearest_edge_distance := 1 # 1000 |}.

(** A sliver: the corners 0 and 1 of the triangle are 0.0004 apart and
    round to the same position at three decimals. *)
Definition sliver_mesh : Mesh :=
  {| verts_obj := fun v =>
       match v with
       | 0%nat => (0, 0, 0)
       | 1%nat => (4 # 10000, 0, 0)
       | _ => (0, 1, 0)
       end%Q;
     polygons := [ {| vertices := [0; 1; 2]%nat; normal := (0, 0, 1)%Q |} ] |}.

Definition sliver_props : OutlineProperties :=
  {| outline_optimization := true;
     toggle_rounding_outline := true;
     decimal_rounding_outline := 3;
     angle_weighted := false;
     overlapping_faces := false;
     detect_edges := false;
     calculate_all_faces := false;
     nearest_edge_distance := 1 # 1000 |}.

(** An open fan of two triangles around vertex 0 at the origin, and a
    third triangle whose corner 4 lies 0.006 away from the origin along
    every axis. *)
Definition gap_mesh : Mesh :=
  {| verts_obj := fun v =>
       match v with
       | 0%nat => (0, 0, 0)
       | 1%nat => (1, 0, 0)
       | 2%nat => (0, 1, 0)
       | 3%nat => (-1, 0, 0)
       | 4%nat => (6 # 1000, 6 # 1000, 6 # 1000)
       | 5%nat => (1, 1, 0)
       | _ => (0, 1, 1)
       end%Q;
     polygons := [ {| vertices := [0; 1; 2]%nat; normal := (0, 0, 1)%Q |};
                   {| vertices := [0; 2; 3]%nat; normal := (0, 0, 1)%Q |};
                   {| vertices := [4; 5; 6]%nat; normal := (0, 0, 1)%Q |} ] |}.

(** Edge detection with a tolerance of 0.009. *)
Definition gap_props : OutlineProperties :=
  {| outline_optimization := true;
     toggle_rounding_outline := true;
     decimal_rounding_outline := 3;
     angle_weighted := false;
     overlapping_faces := false;
     detect_edges := true;
     calculate_all_faces := false;
     nearest_edge_distance := 9 # 1000 |}.

End OutlineExamples.

Module SceneExamples.
Import Scene Initialize.
#[local] Open Scope string_scope.

(** [str.lower] on ASCII strings. *)
Definition lower_char (c : ascii) : ascii :=
  let n := nat_of_ascii c in
  if ((65 <=? n) && (n <=? 90))%nat then ascii_of_nat (n + 32) else c.

Fixpoint lower_ascii (s : string) : string :=
  match s with
  | EmptyString => EmptyString
  | String c s' => String (lower_char c) (lower_ascii s')
  end.

Definition mesh_object (n : string) : SceneObject :=
  {| obj_name := n; is_mesh := true; visible_get := true; selected := false |}.

(** A scene with the objects of a body part and a head, and a collection
    named after the body part in lower case that holds two more meshes. *)
Definition keqing_data : BlendData :=
  {| scene_objects := [mesh_object "KeqingHead"; mesh_object "KeqingBodyA";
                       mesh_object "Skirt"; mesh_object "Belt"];
     selected_objects := [];
     collections := [mkCollection "keqingbodya.001"
                       [mesh_object "Skirt"; mesh_object "Belt"] []] |}.

Definition keqing_flags : Flags := {| ignore_hidden := true; only_selected := false |}.

(** A body with one part and a component without [draw_vb], whose part
    has no object in the scene. *)
Definition keqing_hash : list Hash.Component :=
  [ {| Hash.component_name := "Body"; Hash.root_vs := "653c63ba4a73ca8b";
       Hash.draw_vb := "3ae5f0a6"; Hash.position_vb := "a5e2d1ab";
       Hash.blend_vb := "7b1e5f30"; Hash.texcoord_vb := "1d3e5a7c";
       Hash.ib := "cbf1894b";
       Hash.object_classifications := ["A"];
       Hash.texture_hashes := [[["Diffuse"; ".dds"; "ffa7b1e5"]]];
       Hash.object_indexes := [0] |};
    {| Hash.component_name := "Dress"; Hash.root_vs := "653c63ba4a73ca8b";
       Hash.draw_vb := EmptyString; Hash.position_vb := EmptyString;
       Hash.blend_vb := EmptyString; Hash.texcoord_vb := EmptyString;
       Hash.ib := "0f2c7b1e";
       Hash.object_classifications := ["A"];
       Hash.texture_hashes := [];
       Hash.object_indexes := [] |} ].

(** A mesh is given by the number of its polygons; here an object gets
    as many polygons as its name has characters. *)
Definition keqing_mesh (main_obj obj : SceneObject) : nat := String.length (obj_name obj).

Definition keqing_body_part : @Part nat :=
  {| fullname := "KeqingBodyA";
     objects :=
       assign_offsets (fun n => n)
         [sub_obj keqing_mesh EmptyString 0 (mesh_object "KeqingBodyA")
            (mesh_object "KeqingBodyA");
          sub_obj keqing_mesh "keqingbodya.001" 0 (mesh_object "KeqingBodyA")
            (mesh_object "Belt");
          sub_obj keqing_mesh "keqingbodya.001" 0 (mesh_object "KeqingBodyA")
            (mesh_object "Skirt")] 0;
     textures := [{| name := "Diffuse"; extension := ".dds"; hash := "ffa7b1e5" |}];
     first_index := 0;
     vertex_count := 0 |}.

Definition keqing_body : @Mod.Component nat :=
  {| Mod.fullname := "KeqingBody"; Mod.parts := [keqing_body_part];
     Mod.root_vs := "653c63ba4a73ca8b"; Mod.draw_vb := "3ae5f0a6";
     Mod.position_vb := "a5e2d1ab"; Mod.blend_vb := "7b1e5f30";
     Mod.texcoord_vb := "1d3e5a7c"; Mod.ib := "cbf1894b";
     Mod.vertex_count := 0; Mod.strides := [] |}.

Definition keqing_dress : @Mod.Component nat :=
  {| Mod.fullname := "KeqingDress"; Mod.parts := [];
     Mod.root_vs := "653c63ba4a73ca8b"; Mod.draw_vb := EmptyString;
     Mod.position_vb := EmptyString; Mod.blend_vb := EmptyString;
     Mod.texcoord_vb := EmptyString; Mod.ib := "0f2c7b1e";
     Mod.vertex_count := 0; Mod.strides := [] |}.

End SceneExamples.

Module FolderExamples.
Import Bytes Intermediate Blender ModFolder.
#[local] Open Scope string_scope.

(** A head of one vertex and a body of two, with records of two position
    bytes and one blend byte. *)
Definition merged_files : list (string * list (bytes * bytes * bytes)) :=
  [("Head", [([Byte.x01; Byte.x02], [Byte.x03], [])]);
   ("Body", [([Byte.x04; Byte.x05], [Byte.x06], []);
             ([Byte.x07; Byte.x08], [Byte.x09], [])])].

Definition merged_dump : folder :=
  [("CharHead.vb0", vb0_bytes [([Byte.x01; Byte.x02], [Byte.x03], [])]);
   ("CharHead.ib", index_bytes [0; 0; 0]);
   ("CharHead.fmt", []);
   ("CharBody.vb0", vb0_bytes [([Byte.x04; Byte.x05], [Byte.x06], []);
                               ([Byte.x07; Byte.x08], [Byte.x09], [])]);
   ("CharBody.ib", index_bytes [0; 1; 1]);
   ("CharBody.fmt", [])].

Definition merged_offsets : list (string * nat) :=
  [("CharHead", 0%nat); ("CharBody", 0%nat)].

(** The state after the two objects are collected, the intermediate
    files being removed. *)
Definition merged_state : @State nat :=
  {| offset := 4;
     position := [Byte.x01; Byte.x02; Byte.x04; Byte.x05; Byte.x07; Byte.x08];
     blend := [Byte.x03; Byte.x06; Byte.x09];
     texcoord := [];
     objects := [("CharHead", 0%nat); ("CharBody", 0%nat)];
     path := [];
     destination := [("CharBody.ib", index_bytes [1; 2; 2]);
                     ("CharHead.ib", index_bytes [0; 0; 0])];
     texture_hashes_written := [] |}.

(** The same run for Zenless Zone Zero with the default textures, which
    share the hash [_]: the first one is recorded. *)
Definition recorded_state : @State nat :=
  {| offset := 4;
     position := [Byte.x01; Byte.x02; Byte.x04; Byte.x05; Byte.x07; Byte.x08];
     blend := [Byte.x03; Byte.x06; Byte.x09];
     texcoord := [];
     objects := [("CharHead", 0%nat); ("CharBody", 0%nat)];
     path := [];
     destination := [("CharBody.ib", index_bytes [1; 2; 2]);
                     ("CharHead.ib", index_bytes [0; 0; 0])];
     texture_hashes_written := [("_", "CharHeadDiffuse.dds")] |}.

End FolderExamples.

(* ================================================================== *)
(** * Part II.  Properties                                             *)
(* ================================================================== *)

(** ** The normalized encodings (quantization step) *)

Section Quantization.
Import NumpyFloat Layout SpecCodec Examples.

Lemma rint_pos_exact (m : positive) (e : Z) :
  0 <= e -> rint_pos m e = Z.pos m * 2 ^ e.
Proof.
  intros He. unfold rint_pos.
  destruct (Z.leb_spec 0 e) as [_ | Hlt]; [reflexivity | lia].
Qed.

Lemma rint_pos_nearest (m : positive) (e : Z) :
  e < 0 ->
  2 * Z.abs (rint_pos m e * 2 ^ (- e) - Z.pos m) <= 2 ^ (- e) /\
  (2 * Z.abs (rint_pos m e * 2 ^ (- e) - Z.pos m) = 2 ^ (- e) ->
   Z.even (rint_pos m e) = true).
Proof.
  intros He. unfold rint_pos.
  destruct (Z.leb_spec 0 e) as [Hle | _]; [lia |].
  set (d := 2 ^ (- e)).
  assert (Hd : 0 < d) by (apply Z.pow_pos_nonneg; lia).
  pose proof (Z.div_mod (Z.pos m) d ltac:(lia)) as Hdm.
  pose proof (Z.mod_pos_bound (Z.pos m) d Hd) as Hr.
  set (q := Z.pos m / d) in *. set (r := Z.pos m mod d) in *.
  destruct (Z.compare_spec (2 * r) d) as [Heq | Hlt | Hgt].
  - destruct (Z.even q) eqn:Hev.
    + split; [nia | intros _; exact Hev].
    + split; [nia |].
      intros _. rewrite Z.add_1_r, Z.even_succ, <- Z.negb_even, Hev. reflexivity.
  - split; [nia | nia].
  - split; [nia | nia].
Qed.

Lemma digits2_pos_bounds (p : positive) :
  Z.pos p < 2 ^ Z.pos (digits2_pos p).
Proof.
  induction p as [p IH | p IH |]; cbn [digits2_pos].
  - rewrite Pos2Z.inj_succ, Z.pow_succ_r by lia. lia.
  - rewrite Pos2Z.inj_succ, Z.pow_succ_r by lia. lia.
  - reflexivity.
Qed.

(** The truncation of a rounded float recovers the rounding. *)
Lemma trunc_integral_float (d : float_dtype) (s : bool) (n : Z) :
  0 <= n -> trunc (integral_float d s n) = Some (if s then - n else n).
Proof.
  intros Hn. destruct n as [| p | p]; [destruct s; reflexivity | | lia].
  unfold integral_float.
  destruct (Z.ltb_spec (prec d) (Z.pos (digits2_pos p))) as [Hlt | Hge].
  - cbn [trunc]. cbn. rewrite Pos.mul_1_r. reflexivity.
  - cbn [trunc].
    set (k := Z.pos (digits2_pos p)) in *.
    assert (Hpow : 0 < 2 ^ (prec d - k)) by (apply Z.pow_pos_nonneg; lia).
    rewrite Z2Pos.id by nia.
    destruct (Z.leb_spec 0 (k - prec d)) as [H0 | H0].
    + assert (k - prec d = 0) by lia.
      replace (prec d - k) with 0 by lia.
      replace (k - prec d) with 0 by lia.
      rewrite Z.pow_0_r, !Z.mul_1_r. reflexivity.
    + replace (- (k - prec d)) with (prec d - k) by lia.
      rewrite Z.div_mul by lia. reflexivity.
Qed.

Lemma rint_pos_nonneg (m : positive) (e : Z) : 0 <= rint_pos m e.
Proof.
  unfold rint_pos.
  destruct (Z.leb_spec 0 e).
  - apply Z.mul_nonneg_nonneg; [lia | apply Z.pow_nonneg; lia].
  - assert (0 < 2 ^ (- e)) by (apply Z.pow_pos_nonneg; lia).
    assert (0 <= Z.pos m / 2 ^ (- e)) by (apply Z.div_pos; lia).
    destruct (2 * (Z.pos m mod 2 ^ (- e)) ?= 2 ^ (- e)); try lia.
    destruct (Z.even _); lia.
Qed.

Lemma trunc_np_round_float (d : float_dtype) (x : spec_float) :
  trunc (np_round_float d x) = numpy_round x.
Proof.
  destruct x as [s | s | | s m e]; cbn [numpy_round np_round_float]; try reflexivity.
  destruct (Z.leb_spec 0 e) as [He | He].
  - cbn [trunc]. rewrite rint_pos_exact by assumption.
    destruct (Z.leb_spec 0 e); [reflexivity | lia].
  - apply trunc_integral_float, rint_pos_nonneg.
Qed.

Lemma Qabs_diff_frac (r m : Z) (dp : positive) :
  (Qabs (inject_Z r - (m # dp)) <= 1 # 2)%Q <-> 2 * Z.abs (r * Z.pos dp - m) <= Z.pos dp.
Proof.
  unfold Qle, Qabs, Qminus, Qplus, Qopp, inject_Z. cbn [Qnum Qden].
  rewrite Pos.mul_1_l. lia.
Qed.

Lemma Qabs_diff_frac_eq (r m : Z) (dp : positive) :
  (Qabs (inject_Z r - (m # dp)) == 1 # 2)%Q <-> 2 * Z.abs (r * Z.pos dp - m) = Z.pos dp.
Proof.
  unfold Qeq, Qabs, Qminus, Qplus, Qopp, inject_Z. cbn [Qnum Qden].
  rewrite Pos.mul_1_l. lia.
Qed.

Lemma to_Q_pos_frac (m : positive) (e : Z) (dp : positive) :
  e < 0 -> 2 ^ (- e) = Z.pos dp ->
  (inject_Z (Z.pos m) * Qpower 2 e == Z.pos m # dp)%Q.
Proof.
  intros He Hd.
  assert (Hp : (Qpower 2 e == / inject_Z (Z.pos dp))%Q).
  { rewrite <- Hd, Zpower_Qpower by lia.
    replace e with (- (- e)) at 1 by lia.
    rewrite Qpower_opp. reflexivity. }
  rewrite Hp, (Qmake_Qdiv (Z.pos m) dp). reflexivity.
Qed.

Lemma to_Q_pos_int (m : positive) (e : Z) :
  0 <= e -> (inject_Z (Z.pos m) * Qpower 2 e == inject_Z (Z.pos m * 2 ^ e))%Q.
Proof.
  intros He. rewrite inject_Z_mult, Zpower_Qpower by lia. reflexivity.
Qed.

Lemma rint_pos_nearest_Q (m : positive) (e : Z) :
  (Qabs (inject_Z (rint_pos m e) - inject_Z (Z.pos m) * Qpower 2 e) <= 1 # 2)%Q /\
  ((Qabs (inject_Z (rint_pos m e) - inject_Z (Z.pos m) * Qpower 2 e) == 1 # 2)%Q ->
   Z.even (rint_pos m e) = true).
Proof.
  destruct (Z.leb_spec 0 e) as [He | He].
  - rewrite to_Q_pos_int, rint_pos_exact by assumption.
    assert (H0 : (inject_Z (Z.pos m * 2 ^ e) - inject_Z (Z.pos m * 2 ^ e) == 0)%Q) by ring.
    rewrite H0. split; [discriminate | intros H; discriminate H].
  - assert (Hd : 0 < 2 ^ (- e)) by (apply Z.pow_pos_nonneg; lia).
    destruct (2 ^ (- e)) as [| dp | dp] eqn:Hdp; try lia.
    rewrite (to_Q_pos_frac m e dp He Hdp).
    rewrite Qabs_diff_frac, Qabs_diff_frac_eq, <- Hdp.
    apply rint_pos_nearest; assumption.
Qed.

Lemma numpy_round_nearest_even (y : spec_float) (n : Z) :
  numpy_round y = Some n ->
  (Qabs (inject_Z n - to_Q y) <= 1 # 2)%Q /\
  ((Qabs (inject_Z n - to_Q y) == 1 # 2)%Q -> Z.even n = true).
Proof.
  destruct y as [s | s | | s m e]; cbn [numpy_round to_Q]; try discriminate.
  - intros [= <-]. split; [discriminate | intros H; discriminate H].
  - intros [= <-].
    destruct (rint_pos_nearest_Q m e) as [Hle Htie].
    destruct s.
    + assert (Heq : (inject_Z (- rint_pos m e) - - (inject_Z (Z.pos m) * Qpower 2 e)
                     == - (inject_Z (rint_pos m e) - inject_Z (Z.pos m) * Qpower 2 e))%Q).
      { rewrite inject_Z_opp. ring. }
      rewrite Heq, Qabs_opp, Z.even_opp. split; assumption.
    + split; assumption.
Qed.

Lemma wrap_in_range (f : FormatKind) (b : Z) (s : bool) (lo hi n : Z) :
  dtype_of f = Some (DInt b s) ->
  int_range f = Some (lo, hi) ->
  lo <= n <= hi -> wrap b s n = n.
Proof.
  intros Ht Hr Hn.
  destruct f; try discriminate; injection Ht as <- <-; injection Hr as <- <-;
    unfold wrap; cbn [andb].
  - change (2 ^ 16) with 65536. apply Z.mod_small; lia.
  - change (2 ^ 8) with 256. apply Z.mod_small; lia.
  - change (2 ^ 16) with 65536. change (2 ^ (16 - 1)) with 32768.
    destruct (Z.neg_nonneg_cases n) as [Hneg | Hpos].
    + assert (Hm : n mod 65536 = n + 65536)
        by (symmetry; apply Z.mod_unique with (q := -1); lia).
      rewrite Hm. destruct (Z.leb_spec 32768 (n + 65536)); lia.
    + rewrite Z.mod_small by lia. destruct (Z.leb_spec 32768 n); lia.
  - change (2 ^ 8) with 256. change (2 ^ (8 - 1)) with 128.
    destruct (Z.neg_nonneg_cases n) as [Hneg | Hpos].
    + assert (Hm : n mod 256 = n + 256)
        by (symmetry; apply Z.mod_unique with (q := -1); lia).
      rewrite Hm. destruct (Z.leb_spec 128 (n + 256)); lia.
    + rewrite Z.mod_small by lia. destruct (Z.leb_spec 128 n); lia.
Qed.

(** The integer types of the normalized formats are 8 or 16 bits wide:
    their casts convert into a 32-bit register, whose indefinite value
    has the low bits 0. *)
Lemma quantized_dtype (f : FormatKind) (M : Z) :
  quant_max f = Some M ->
  exists (b : Z) (s : bool),
    dtype_of f = Some (DInt b s) /\ register b s = 32 /\ wrap b s (- 2 ^ 31) = 0.
Proof.
  destruct f; try discriminate; intros _; cbn [dtype_of]; eauto.
Qed.

Lemma encode_stores_cast (f : FormatKind) (M : Z) (d : float_dtype)
    (x : spec_float) (b : Z) (s : bool) :
  quant_max f = Some M ->
  dtype_of f = Some (DInt b s) ->
  encode f d x
  = Some (float_to_int b s (np_round_float (product_dtype d M) (float_product d x M))).
Proof.
  intros HM Ht. unfold encode, quantize. rewrite HM, Ht. reflexivity.
Qed.

(** Claim C3, as amended.  For a UNorm or SNorm format of maximum [M] and
    a component [x] of float dtype [d], the product [x * M] is formed in
    the dtype numpy promotes to, float32 for a float16 component and the
    16-bit maxima.  When the product is finite, let [n] be its
    [numpy.round]: [n] is within one half of the floating product, and on
    a tie it is the even neighbour, so the rounding is half to even, not
    half away from zero.  The integer stored is [n] itself when [n] lies
    in the range of the format; it is [n] reduced to the width of the
    integer type, without any clamping, when [n] is a 32-bit signed
    integer; and it is 0 when [n] is not, or when the product is a NaN
    or an infinity. *)
Theorem encode_rounds_float_product_half_even :
  forall (f : FormatKind) (M : Z) (d : float_dtype) (x : spec_float),
    quant_max f = Some M ->
    exists (b : Z) (s : bool),
      dtype_of f = Some (DInt b s) /\
      match numpy_round (float_product d x M) with
      | Some n =>
          encode f d x
          = Some (if (- 2 ^ 31 <=? n) && (n <? 2 ^ 31) then wrap b s n else 0) /\
          (forall lo hi : Z,
              int_range f = Some (lo, hi) -> lo <= n <= hi -> encode f d x = Some n) /\
          (Qabs (inject_Z n - to_Q (float_product d x M)) <= 1 # 2)%Q /\
          ((Qabs (inject_Z n - to_Q (float_product d x M)) == 1 # 2)%Q ->
           Z.even n = true)
      | None => encode f d x = Some 0
      end.
Proof.
  intros f M d x HM.
  destruct (quantized_dtype f M HM) as (b & s & Ht & Hreg & Hind).
  exists b, s. split; [exact Ht |].
  rewrite (encode_stores_cast f M d x b s HM Ht).
  unfold float_to_int, cvtt. rewrite Hreg, trunc_np_round_float.
  change (2 ^ (32 - 1)) with (2 ^ 31).
  destruct (numpy_round (float_product d x M)) as [n |] eqn:Hn.
  - destruct (numpy_round_nearest_even _ _ Hn) as [Hle Htie].
    assert (Hstored :
              Some (wrap b s (if (- 2 ^ 31 <=? n) && (n <? 2 ^ 31) then n else - 2 ^ 31))
              = Some (if (- 2 ^ 31 <=? n) && (n <? 2 ^ 31) then wrap b s n else 0)).
    { destruct ((- 2 ^ 31 <=? n) && (n <? 2 ^ 31)); [reflexivity | rewrite Hind; reflexivity]. }
    repeat split.
    + exact Hstored.
    + intros lo hi Hr Hin. rewrite Hstored.
      assert (H32 : (- 2 ^ 31 <=? n) && (n <? 2 ^ 31) = true).
      { apply andb_true_intro.
        destruct f; try discriminate; injection Hr as <- <-;
          split; [apply Z.leb_le | apply Z.ltb_lt | apply Z.leb_le | apply Z.ltb_lt
                 | apply Z.leb_le | apply Z.ltb_lt | apply Z.leb_le | apply Z.ltb_lt];
          change (2 ^ 31) with 2147483648; lia. }
      rewrite H32, (wrap_in_range f b s lo hi n Ht Hr Hin). reflexivity.
    + exact Hle.
    + exact Htie.
  - rewrite Hind. reflexivity.
Qed.

(** Claim C3 as stated fails.  The float32 value [x_tie] (the float
    nearest to 1/102) times 255 is exactly 2.5 in float32; the code
    stores 2, while rounding half away from zero gives 3, for the
    floating product as for the exact one.  Out of range, the value 1.5
    is stored as 126 (382 reduced modulo 256), not clamped to 255, and
    2^24, whose product with 255 is not a 32-bit integer, is stored
    as 0. *)
Lemma encode_differs_from_spec_encode :
  mul float32 x_tie (of_int float32 255) = S754_finite false 10485760 (-22) /\
  encode UNORM8 float32 x_tie <> spec_encode UNORM8 (to_Q x_tie) /\
  encode UNORM8 float32 x_tie = Some 2 /\
  spec_encode UNORM8 (to_Q x_tie) = Some 3 /\
  spec_encode UNORM8 (to_Q (S754_finite false 10485760 (-22)) / 255) = Some 3 /\
  encode UNORM8 float32 (S754_finite false 3 (-1)) = Some 126 /\
  spec_encode UNORM8 (3 # 2) = Some 255 /\
  encode UNORM8 float32 (of_int float32 (2 ^ 24)) = Some 0 /\
  spec_encode UNORM8 (inject_Z (2 ^ 24)) = Some 255.
Proof.
  repeat split; try (vm_compute; reflexivity).
  vm_compute. discriminate.
Qed.

(** The theorem applies to [x_tie]: its product with 255 rounds to 2,
    which is in range and stored. *)
Lemma encode_rounds_float_product_half_even_witness :
  quant_max UNORM8 = Some 255 /\
  exists (b : Z) (s : bool),
    dtype_of UNORM8 = Some (DInt b s) /\
    match numpy_round (float_product float32 x_tie 255) with
    | Some n =>
        encode UNORM8 float32 x_tie
        = Some (if (- 2 ^ 31 <=? n) && (n <? 2 ^ 31) then wrap b s n else 0) /\
        (forall lo hi : Z,
            int_range UNORM8 = Some (lo, hi) -> lo <= n <= hi ->
            encode UNORM8 float32 x_tie = Some n) /\
        (Qabs (inject_Z n - to_Q (float_product float32 x_tie 255)) <= 1 # 2)%Q /\
        ((Qabs (inject_Z n - to_Q (float_product float32 x_tie 255)) == 1 # 2)%Q ->
         Z.even n = true)
    | None => encode UNORM8 float32 x_tie = Some 0
    end.
Proof.
  split; [reflexivity |].
  exact (encode_rounds_float_product_half_even UNORM8 255 float32 x_tie eq_refl).
Defined.

(** A float16 component of value 1 and the maximum 32767: the product
    is formed in float32, where 32767 is exact, and 32767 is stored; in
    float16, where 32767 rounds to 32768, the result would be -32768.
    With 65535 a float16 component of value 1 gives 65535. *)
Lemma half_component_is_widened :
  product_dtype float16 32767 = float32 /\
  product_dtype float16 127 = float16 /\
  encode SNORM16 float16 (of_int float16 1) = Some 32767 /\
  encode UNORM16 float16 (of_int float16 1) = Some 65535 /\
  encode SNORM8 float16 (of_int float16 1) = Some 127 /\
  of_int float16 32767 = of_int float16 32768.
Proof. repeat split; vm_compute; reflexivity. Qed.

(** The codes of the 8-bit formats survive a round trip through float32:
    for every integer [k] of the range, [k / MAX] is encoded back to
    [k]. *)
Lemma eight_bit_codes_round_trip :
  (forall k : Z, 0 <= k <= 255 ->
     encode UNORM8 float32 (decode UNORM8 float32 k) = Some k) /\
  (forall k : Z, -127 <= k <= 127 ->
     encode SNORM8 float32 (decode SNORM8 float32 k) = Some k).
Proof.
  assert (H : forall f lo n,
             codes_round_trip f float32 lo n = true ->
             forall k, lo <= k < lo + Z.of_nat n ->
                       encode f float32 (decode f float32 k) = Some k).
  { intros f lo n Hall k Hk. unfold codes_round_trip in Hall.
    rewrite forallb_forall in Hall.
    specialize (Hall (Z.to_nat (k - lo))).
    rewrite in_seq in Hall.
    replace (lo + Z.of_nat (Z.to_nat (k - lo))) with k in Hall by lia.
    specialize (Hall ltac:(lia)).
    destruct (encode f float32 (decode f float32 k)) as [k' |]; [| discriminate].
    apply Z.eqb_eq in Hall. congruence. }
  split; intros k Hk.
  - apply (H UNORM8 0 256%nat); [vm_compute; reflexivity | lia].
  - apply (H SNORM8 (-127) 255%nat); [vm_compute; reflexivity | lia].
Qed.

End Quantization.

(** ** NORMAL and TANGENT: the range translation *)

Section NormalTranslation.
Import NumpyFloat Layout Py Blender Assembler Translation Examples.

(** [normal_export_translation], the path of [export_3dmigoto], does
    scale to the UNORM range: [x / 2 + 0.5], [-x / 2 + 0.5] when flipped,
    and [x], [-x] for the other formats. *)
Lemma normal_export_translation_cases (layouts : list BufferLayout)
    (semantic : Semantic) (x : spec_float) :
  (unorm_of layouts semantic = true ->
   normal_export_translation layouts semantic false x
     = add float64 (div float64 x two) half /\
   normal_export_translation layouts semantic true x
     = add float64 (div float64 (neg x) two) half) /\
  (unorm_of layouts semantic = false ->
   normal_export_translation layouts semantic false x = x /\
   normal_export_translation layouts semantic true x = neg x).
Proof.
  unfold normal_export_translation.
  split; intros ->; split; reflexivity.
Qed.

(** Claim C4 at a failing input.  For a corner of normal (0, 0, 1) and a
    NORMAL element of a UNORM format, without any flip,
    [blender_to_migoto_vertices] holds [2 * x - 1], that is (-1, -1, 1, -1),
    before the quantization, and stores the bytes (1, 1, 255, 1); the
    translation [x / 2 + 0.5] of the claim, which
    [normal_export_translation] computes, is (0.5, 0.5, 1).  The TANGENT
    branch does the same. *)
Lemma normal_row_unorm_diverges_from_translation :
  normal_row normal_unorm8 plain_obj (up_loop 0)
    = Ok (map (fun k => CF float16 (of_int float16 k)) [-1; -1; 1; -1]) /\
  tangent_row tangent_unorm8 HonkaiStarRail plain_obj false (fun _ => None) (up_loop 0)
    = Ok (map (fun k => CF float16 (of_int float16 k)) [-1; -1; 1; 1]) /\
  map (fun c => quantize UNORM8 (CF float16 (of_int float16 c))) [-1; -1; 1; -1]
    = map (CI 8 false) [1; 1; 255; 1] /\
  map (normal_export_translation [[(Normal, UNORM8)]] Normal false)
      [fzero; fzero; fone]
    = [half; half; of_int float64 1] /\
  map (fun x => encode UNORM8 float64 x) [half; half; of_int float64 1]
    = [Some 128; Some 128; Some 255].
Proof.
  repeat split; vm_compute; reflexivity.
Qed.

End NormalTranslation.

(** ** BLENDWEIGHT and BLENDINDICES without bone weights *)

Section MissingWeights.
Import NumpyFloat Layout Py Blender Assembler Examples.
Local Open Scope py_scope.

Lemma bind_raises {A B : Type} (m : outcome A) (k : A -> outcome B) :
  raises m = true -> raises (bind m k) = true.
Proof. destruct m; [discriminate | reflexivity]. Qed.

Lemma bind_raises_later {A B : Type} (m : outcome A) (k : A -> outcome B) :
  (forall a, m = Ok a -> raises (k a) = true) -> raises (bind m k) = true.
Proof. intros H. destruct m; [apply H; reflexivity | reflexivity]. Qed.

Lemma weights_none (mesh : Mesh) (obj : Object) :
  deform mesh = None -> weights mesh obj = None.
Proof. unfold weights. intros ->. reflexivity. Qed.

(** Outside the blend branches [weights_np] is left as it is. *)
Lemma element_result_keeps_blend cfg mesh obj main_obj fmt_layout e st br :
  element_result cfg mesh obj main_obj fmt_layout e st = Ok br ->
  classify e (translated_elem_name fmt_layout e) <> BBlendWeight ->
  classify e (translated_elem_name fmt_layout e) <> BBlendIndices ->
  fst br = st_blend st.
Proof.
  unfold element_result.
  destruct (classify e (translated_elem_name fmt_layout e)); intros H Hw Hi;
    try congruence;
    try (match type of H with
         | bind ?m _ = _ => destruct m; cbn in H; [injection H as <-; reflexivity | discriminate]
         end).
  destruct (is_float e); [injection H as <-; reflexivity |].
  destruct (is_int e); [injection H as <-; reflexivity |].
  destruct (of_option NameError (st_result st)); cbn in H;
    [injection H as <-; reflexivity | discriminate].
Qed.

Lemma element_result_blend_raises cfg mesh obj main_obj fmt_layout e st :
  deform mesh = None -> st_blend st = None ->
  (classify e (translated_elem_name fmt_layout e) = BBlendWeight \/
   classify e (translated_elem_name fmt_layout e) = BBlendIndices) ->
  element_result cfg mesh obj main_obj fmt_layout e st = Raise missing_weights.
Proof.
  intros Hd Hst Hc. unfold element_result.
  rewrite (weights_none mesh obj Hd), Hst.
  destruct Hc as [-> | ->]; reflexivity.
Qed.

Lemma element_loop_blend_raises cfg mesh obj main_obj fmt_layout es :
  deform mesh = None ->
  forall st e,
    st_blend st = None -> In e es -> blend_element fmt_layout e ->
    raises (element_loop cfg mesh obj main_obj fmt_layout es st) = true.
Proof.
  intros Hd. induction es as [| e0 es IH]; intros st e Hst Hin Hb; [destruct Hin |].
  cbn [element_loop].
  destruct (skipped e0) eqn:Hsk.
  - destruct Hin as [-> | Hin]; [destruct Hb as [Hb _]; congruence |].
    apply (IH st e); assumption.
  - apply bind_raises_later. intros br Hbr.
    destruct (dtype_of (Format e0)); [| reflexivity]. cbn [of_option bind].
    apply bind_raises_later. intros col _.
    apply bind_raises.
    assert (Hclass :
      classify e0 (translated_elem_name fmt_layout e0) <> BBlendWeight /\
      classify e0 (translated_elem_name fmt_layout e0) <> BBlendIndices).
    { split; intros Hc;
        rewrite (element_result_blend_raises cfg mesh obj main_obj fmt_layout e0 st Hd Hst)
          in Hbr by (auto); discriminate. }
    destruct Hclass as [Hw Hi].
    destruct Hin as [-> | Hin].
    + destruct Hb as [_ [Hc | Hc]]; contradiction.
    + apply (IH _ e); [| assumption | assumption].
      cbn [st_blend].
      rewrite (element_result_keeps_blend _ _ _ _ _ _ _ _ Hbr Hw Hi). exact Hst.
Qed.

Lemma no_fatal_Ok {A : Type} (a : A) : no_fatal (Ok a).
Proof. intros msg H. discriminate. Qed.

Lemma no_fatal_bind {A B : Type} (m : outcome A) (k : A -> outcome B) :
  no_fatal m -> (forall a, no_fatal (k a)) -> no_fatal (bind m k).
Proof.
  intros Hm Hk. destruct m as [a | ex]; cbn; [apply Hk |].
  intros msg H. apply (Hm msg). injection H as ->. reflexivity.
Qed.

Lemma no_fatal_of_option {A : Type} (ex : exn) (o : option A) :
  (forall msg, ex <> Fatal msg) -> no_fatal (of_option ex o).
Proof.
  intros Hex. destruct o; cbn; [apply no_fatal_Ok |].
  intros msg H. injection H as H. exact (Hex msg H).
Qed.

Lemma no_fatal_mapM {A B : Type} (f : A -> outcome B) (l : list A) :
  (forall a, no_fatal (f a)) -> no_fatal (mapM f l).
Proof.
  intros Hf. induction l as [| a l IH]; cbn [mapM]; [apply no_fatal_Ok |].
  apply no_fatal_bind; [apply Hf |]. intros b.
  apply no_fatal_bind; [exact IH |]. intros bs. apply no_fatal_Ok.
Qed.

Ltac no_fatal_step :=
  first
    [ progress cbv zeta
    | apply no_fatal_Ok
    | apply no_fatal_mapM; intros ?
    | apply no_fatal_of_option; intros ?; discriminate
    | apply no_fatal_bind; [| intros ?]
    | intros ? ?; discriminate
    | match goal with
      | |- no_fatal (if ?b then _ else _) => destruct b
      | |- no_fatal (match ?x with _ => _ end) => destruct x
      end ].

Lemma element_result_no_fatal cfg mesh obj main_obj fmt_layout e st :
  classify e (translated_elem_name fmt_layout e) <> BBlendWeight ->
  classify e (translated_elem_name fmt_layout e) <> BBlendIndices ->
  no_fatal (element_result cfg mesh obj main_obj fmt_layout e st).
Proof.
  intros Hw Hi. unfold element_result.
  destruct (classify e (translated_elem_name fmt_layout e)); try congruence;
    repeat first
      [ no_fatal_step
      | progress unfold position_row, normal_row, tangent_row, color_column,
          texcoord_row, set_pair ].
Qed.

Lemma fatal_only_of_no_fatal {A : Type} (m : outcome A) :
  no_fatal m -> fatal_only_unsupported m.
Proof. intros H msg Hm. destruct (H msg Hm). Qed.

Lemma fatal_only_bind {A B : Type} (m : outcome A) (k : A -> outcome B) :
  fatal_only_unsupported m -> (forall a, fatal_only_unsupported (k a)) ->
  fatal_only_unsupported (bind m k).
Proof.
  intros Hm Hk. destruct m as [a | ex]; cbn; [apply Hk |].
  intros msg H. apply Hm. injection H as ->. reflexivity.
Qed.

Lemma fatal_only_dtype {A : Type} (o : option A) :
  fatal_only_unsupported (of_option unsupported_format o).
Proof.
  destruct o; cbn; intros msg H; [discriminate | congruence].
Qed.

Lemma store_no_fatal e t r : no_fatal (store e t r).
Proof. unfold store. repeat no_fatal_step. Qed.

Lemma element_loop_fatal_only cfg mesh obj main_obj fmt_layout es :
  (forall e, In e es -> ~ blend_element fmt_layout e) ->
  forall st, fatal_only_unsupported (element_loop cfg mesh obj main_obj fmt_layout es st).
Proof.
  induction es as [| e0 es IH]; intros Hno st; cbn [element_loop].
  - intros msg H. discriminate.
  - assert (Hrest : forall e, In e es -> ~ blend_element fmt_layout e)
      by (intros e He; apply Hno; right; exact He).
    destruct (skipped e0) eqn:Hsk; [apply IH; exact Hrest |].
    assert (Hc : classify e0 (translated_elem_name fmt_layout e0) <> BBlendWeight /\
                 classify e0 (translated_elem_name fmt_layout e0) <> BBlendIndices).
    { split; intros Hc; apply (Hno e0 (or_introl eq_refl)); split; auto. }
    destruct Hc as [Hw Hi].
    apply fatal_only_bind.
    { apply fatal_only_of_no_fatal, element_result_no_fatal; assumption. }
    intros br. apply fatal_only_bind; [apply fatal_only_dtype |]. intros t.
    apply fatal_only_bind; [apply fatal_only_of_no_fatal, store_no_fatal |]. intros col.
    apply fatal_only_bind; [apply IH; exact Hrest |]. intros rest.
    intros msg H. discriminate.
Qed.

Lemma build_dtype_fatal_only es : fatal_only_unsupported (build_dtype es).
Proof.
  induction es as [| e es IH]; cbn [build_dtype]; [intros msg H; discriminate |].
  destruct (skipped e); [exact IH |].
  apply fatal_only_bind; [apply fatal_only_dtype |]. intros t.
  apply fatal_only_bind; [exact IH |]. intros rest msg H. discriminate.
Qed.

(** Claim C8, as amended.  For a mesh with polygons and without deform
    layer, a layout holding an element that is per-vertex, is no alias of
    an earlier offset and whose semantic is BLENDWEIGHT or BLENDINDICES
    makes the assembly fail.  A layout without such an element never
    raises the missing-weights error, whatever the mesh; BLENDWEIGHT or
    BLENDINDICES elements that are per-instance or aliases are skipped and
    ask for no weights. *)
Theorem missing_weights_fatal_for_assembled_blend_element :
  forall (cfg : Settings) (mesh : Mesh) (obj : Object) (fmt_layout : InputLayout)
         (main_obj : Object),
    (n_polygons mesh <> 0%nat -> deform mesh = None ->
     (exists e, In e (elems fmt_layout) /\ blend_element fmt_layout e) ->
     raises (blender_to_migoto_vertices cfg mesh obj fmt_layout main_obj) = true) /\
    ((forall e, In e (elems fmt_layout) -> ~ blend_element fmt_layout e) ->
     blender_to_migoto_vertices cfg mesh obj fmt_layout main_obj <> Raise missing_weights).
Proof.
  intros cfg mesh obj fmt_layout main_obj. split.
  - intros Hp Hd (e & Hin & Hb). unfold blender_to_migoto_vertices.
    apply bind_raises_later. intros dtype _.
    destruct (Nat.eqb_spec (n_polygons mesh) 0) as [H0 | _]; [contradiction |].
    apply (element_loop_blend_raises cfg mesh obj main_obj fmt_layout _ Hd _ e);
      [reflexivity | exact Hin | exact Hb].
  - intros Hno H.
    assert (Hf : fatal_only_unsupported
                   (blender_to_migoto_vertices cfg mesh obj fmt_layout main_obj)).
    { unfold blender_to_migoto_vertices.
      apply fatal_only_bind; [apply build_dtype_fatal_only |]. intros dtype.
      destruct (n_polygons mesh =? 0)%nat.
      - intros msg Hm. discriminate.
      - apply element_loop_fatal_only. exact Hno. }
    specialize (Hf _ H). discriminate.
Qed.

(** Claim C8 as stated fails: a layout declaring a per-instance
    BLENDWEIGHT element is assembled for a mesh with a polygon and without
    any bone weight; the element is skipped. *)
Lemma per_instance_blendweight_needs_no_weights :
  In blendweight_per_instance (elems instanced_layout) /\
  name blendweight_per_instance = "BLENDWEIGHT"%string /\
  n_polygons tri_mesh = 1%nat /\
  deform tri_mesh = None /\
  raises (blender_to_migoto_vertices plain_cfg tri_mesh plain_obj instanced_layout plain_obj)
    = false.
Proof.
  repeat split; try reflexivity.
  left. reflexivity.
Qed.

(** The theorem applies to the same mesh with a per-vertex BLENDWEIGHT
    element. *)
Lemma missing_weights_fatal_for_assembled_blend_element_witness :
  n_polygons tri_mesh <> 0%nat /\
  deform tri_mesh = None /\
  raises (blender_to_migoto_vertices plain_cfg tri_mesh plain_obj skinned_layout plain_obj)
    = true.
Proof.
  assert (Hp : n_polygons tri_mesh <> 0%nat) by (cbn; discriminate).
  assert (Hd : deform tri_mesh = None) by reflexivity.
  split; [exact Hp |]. split; [exact Hd |].
  apply (proj1 (missing_weights_fatal_for_assembled_blend_element
                  plain_cfg tri_mesh plain_obj skinned_layout plain_obj) Hp Hd).
  exists blendweight_per_vertex. split.
  - right. left. reflexivity.
  - split; [reflexivity | left; reflexivity].
Defined.

End MissingWeights.

(** ** The index builder *)

Section IndexBuilderFacts.
Import NumpyFloat Layout Py Blender Assembler Bytes IndexBuilder Examples.
Local Open Scope py_scope.

(** The assembler reads the flags [FlipMesh] and [FlipNormal] and the
    [flip_v] properties of the main object, never [FlipWinding]. *)
Lemma element_result_ignores_FlipWinding cfg mesh obj main_obj fmt_layout e st b :
  element_result cfg mesh obj (set_FlipWinding b main_obj) fmt_layout e st
  = element_result cfg mesh obj main_obj fmt_layout e st.
Proof. reflexivity. Qed.

Lemma element_loop_ignores_FlipWinding cfg mesh obj main_obj fmt_layout b es :
  forall st,
    element_loop cfg mesh obj (set_FlipWinding b main_obj) fmt_layout es st
    = element_loop cfg mesh obj main_obj fmt_layout es st.
Proof.
  induction es as [| e es IH]; intros st; cbn [element_loop]; [reflexivity |].
  rewrite element_result_ignores_FlipWinding.
  destruct (skipped e); [apply IH |].
  destruct (element_result cfg mesh obj main_obj fmt_layout e st) as [br | ex];
    cbn [bind]; [| reflexivity].
  destruct (of_option unsupported_format (dtype_of (Format e))) as [t | ex];
    cbn [bind]; [| reflexivity].
  destruct (store e t (quantized fmt_layout e (snd br))) as [col | ex];
    cbn [bind]; [| reflexivity].
  rewrite IH. reflexivity.
Qed.

Lemma assembler_ignores_FlipWinding cfg mesh obj main_obj fmt_layout b :
  blender_to_migoto_vertices cfg mesh obj fmt_layout (set_FlipWinding b main_obj)
  = blender_to_migoto_vertices cfg mesh obj fmt_layout main_obj.
Proof.
  unfold blender_to_migoto_vertices.
  destruct (build_dtype (elems fmt_layout)) as [dtype | ex]; cbn [bind]; [| reflexivity].
  destruct (n_polygons mesh =? 0)%nat; [reflexivity |].
  apply element_loop_ignores_FlipWinding.
Qed.

Lemma fliplr_involutive (rows : list (list nat)) : fliplr (fliplr rows) = rows.
Proof.
  unfold fliplr. rewrite map_map.
  induction rows as [| r rows IH]; cbn [map]; [reflexivity |].
  rewrite rev_involutive, IH. reflexivity.
Qed.

(** Claim C2, as amended.  Take a run in which flip-mesh XOR
    flip-winding is false and toggle the flip-winding flag, which makes
    the XOR true: the index rows are the reversed rows of the first run
    and the vertex buffer, records and order, is the one of the first
    run.  The reversal is applied to the indices after the records were
    inserted.  (The run compared with has the same flip-mesh flag: that
    flag mirrors the first axis of the records.) *)
Theorem mesh_to_bin_flip_winding_reverses_rows :
  forall (cfg : Settings) (obj : Object) (mesh : Mesh) (migoto_format : InputLayout)
         (main_obj : Object) (ib : list (list nat)) (vb : list bytes),
    xorb (FlipMesh main_obj) (FlipWinding main_obj) = false ->
    mesh_to_bin cfg obj mesh migoto_format main_obj = Ok (ib, vb) ->
    xorb (FlipMesh (set_FlipWinding (negb (FlipWinding main_obj)) main_obj))
         (FlipWinding (set_FlipWinding (negb (FlipWinding main_obj)) main_obj)) = true /\
    mesh_to_bin cfg obj mesh migoto_format
      (set_FlipWinding (negb (FlipWinding main_obj)) main_obj)
    = Ok (fliplr ib, vb).
Proof.
  intros cfg obj mesh migoto_format main_obj ib vb Hxor Hrun.
  split.
  { cbn [FlipMesh FlipWinding set_FlipWinding].
    destruct (FlipMesh main_obj), (FlipWinding main_obj); cbn in *; congruence. }
  revert Hrun. unfold mesh_to_bin.
  destruct (data_polygons obj =? 0)%nat; [intros [= <- <-]; reflexivity |].
  rewrite assembler_ignores_FlipWinding.
  destruct (blender_to_migoto_vertices cfg mesh obj migoto_format main_obj) as [mv | ex];
    cbn [bind]; [| discriminate].
  destruct (lookup_keys mv mesh) as [ks | ex]; cbn [bind]; [| discriminate].
  destruct (OrderedDict.index_all bytes_eqb [] ks) as [indexed_vertices ib_list].
  rewrite Hxor. cbn [FlipMesh FlipWinding set_FlipWinding].
  replace (xorb (FlipMesh main_obj) (negb (FlipWinding main_obj))) with true
    by (destruct (FlipMesh main_obj), (FlipWinding main_obj); cbn in *; congruence).
  intros [= <- <-]. reflexivity.
Qed.

(** The theorem applies to the triangle with both flags clear: with
    flip-winding set the row (0, 1, 2) becomes (2, 1, 0). *)
Lemma mesh_to_bin_flip_winding_reverses_rows_witness :
  xorb (FlipMesh plain_obj) (FlipWinding plain_obj) = false /\
  exists vb,
    mesh_to_bin plain_cfg plain_obj tri_mesh position_layout plain_obj
      = Ok ([[0; 1; 2]%nat], vb) /\
    mesh_to_bin plain_cfg plain_obj tri_mesh position_layout
      (set_FlipWinding true plain_obj)
      = Ok ([[2; 1; 0]%nat], vb).
Proof.
  split; [reflexivity |].
  eexists. split; [vm_compute; reflexivity |].
  apply (mesh_to_bin_flip_winding_reverses_rows
           plain_cfg plain_obj tri_mesh position_layout plain_obj [[0; 1; 2]%nat]).
  - reflexivity.
  - vm_compute. reflexivity.
Defined.

(** Claim C2 as stated fails.  With the flip-mesh flag alone the XOR is
    true, and the vertex buffer is not the one of the run with both
    flags clear: the first coordinate of every record is negated. *)
Lemma flip_mesh_changes_vertex_buffer :
  xorb (FlipMesh mirrored_obj) (FlipWinding mirrored_obj) = true /\
  exists ib0 vb0 ib1 vb1,
    mesh_to_bin plain_cfg plain_obj tri_mesh position_layout plain_obj = Ok (ib0, vb0) /\
    mesh_to_bin plain_cfg plain_obj tri_mesh position_layout mirrored_obj = Ok (ib1, vb1) /\
    vb1 <> vb0.
Proof.
  split; [reflexivity |].
  do 4 eexists. split; [vm_compute; reflexivity |]. split; [vm_compute; reflexivity |].
  discriminate.
Qed.

(** Claim C1 at a failing input.  The corners of the triangle visit the
    vertices 2, 1, 0.  [mesh_to_bin] looks the record of a corner up at
    [migoto_verts[l.vertex_index]], an array with one row per corner; for
    corner 0 this is the row of corner 2.  The index emitted for corner 0
    is 0, and record 0 of the vertex buffer is the record assembled for
    corner 2, which differs from the one assembled for corner 0. *)
Lemma mesh_to_bin_indexes_record_of_other_corner :
  exists migoto_verts vb r0 r2,
    blender_to_migoto_vertices plain_cfg tri_mesh plain_obj position_layout plain_obj
      = Ok migoto_verts /\
    mesh_to_bin plain_cfg plain_obj tri_mesh position_layout plain_obj
      = Ok ([[0; 1; 2]%nat], vb) /\
    corner_record migoto_verts tri_mesh 0 = Ok r0 /\
    corner_record migoto_verts tri_mesh 2 = Ok r2 /\
    nth_error vb 0 = Some r2 /\
    r0 <> r2.
Proof.
  do 4 eexists.
  split; [vm_compute; reflexivity |].
  split; [vm_compute; reflexivity |].
  split; [vm_compute; reflexivity |].
  split; [vm_compute; reflexivity |].
  split; [reflexivity | discriminate].
Qed.

End IndexBuilderFacts.

(** ** De-duplication with an ordered dictionary *)

Section Deduplication.
Context {K : Type} (eqb : K -> K -> bool).
Hypothesis eqb_spec : forall a b : K, eqb a b = true <-> a = b.


Lemma get_None_not_In (d : OrderedDict.t) (k : K) :
  OrderedDict.get eqb d k = None -> ~ In k (OrderedDict.keys d).
Proof.
  induction d as [| [k' v] d IH]; cbn [OrderedDict.get OrderedDict.keys map fst].
  - intros _ [].
  - destruct (eqb k k') eqn:E; [discriminate |].
    intros H [Hk | Hin].
    + subst k'. rewrite (proj2 (eqb_spec k k) eq_refl) in E. discriminate.
    + exact (IH H Hin).
Qed.

(** In a dictionary whose values count up from [s], the value found for
    a key is [s] plus the position of the key. *)
Lemma get_Some_position (d : OrderedDict.t) (k : K) :
  forall (s i : nat),
    map snd d = seq s (List.length d) ->
    OrderedDict.get eqb d k = Some i ->
    exists j, i = (s + j)%nat /\ nth_error (OrderedDict.keys d) j = Some k.
Proof.
  induction d as [| [k' v] d IH]; intros s i Hv; cbn [OrderedDict.get]; [discriminate |].
  cbn in Hv. injection Hv as Hv0 Hv.
  destruct (eqb k k') eqn:E.
  - intros [= <-]. apply eqb_spec in E. subst k'.
    exists 0%nat. split; [lia | reflexivity].
  - intros H. destruct (IH (S s) i Hv H) as (j & -> & Hj).
    exists (S j). split; [lia | exact Hj].
Qed.

Lemma keys_app (d1 d2 : @OrderedDict.t K) : OrderedDict.keys (d1 ++ d2) = OrderedDict.keys d1 ++ OrderedDict.keys d2.
Proof. unfold OrderedDict.keys. apply map_app. Qed.

Lemma keys_length (d : @OrderedDict.t K) : List.length (OrderedDict.keys d) = List.length d.
Proof. unfold OrderedDict.keys. apply length_map. Qed.

(** One [setdefault(k, len(d))]: the dictionary stays well formed, keeps
    its keys as a prefix, and the index returned is the position of [k];
    a key not met before goes to the end. *)
Lemma setdefault_spec (d d' : OrderedDict.t) (k : K) (i : nat) :
  OrderedDict.well_formed d ->
  OrderedDict.setdefault eqb d k (List.length d) = (d', i) ->
  OrderedDict.well_formed d' /\
  nth_error (OrderedDict.keys d') i = Some k /\
  (i < List.length d')%nat /\
  ((In k (OrderedDict.keys d) /\ d' = d) \/
   (~ In k (OrderedDict.keys d) /\ d' = d ++ [(k, List.length d)] /\ i = List.length d)).
Proof.
  intros [Hnd Hval]. unfold OrderedDict.setdefault.
  destruct (OrderedDict.get eqb d k) as [v |] eqn:Hget.
  - intros [= <- <-].
    destruct (get_Some_position d k 0 v Hval Hget) as (j & -> & Hj).
    cbn [Nat.add].
    assert (Hlt : (j < List.length d)%nat).
    { rewrite <- keys_length. apply nth_error_Some. congruence. }
    repeat split; try assumption.
    left. split; [| reflexivity]. apply (nth_error_In _ _ Hj).
  - intros [= <- <-].
    pose proof (get_None_not_In d k Hget) as Hnew.
    assert (Hwf : OrderedDict.well_formed (d ++ [(k, List.length d)])).
    { split.
      - rewrite keys_app. cbn. apply NoDup_app; [exact Hnd | | ].
        + constructor; [intros [] | constructor].
        + intros x Hx [<- | []]. contradiction.
      - rewrite map_app, Hval, length_app. cbn [map snd List.length].
        rewrite Nat.add_1_r, seq_S. reflexivity. }
    repeat split; try apply Hwf.
    + rewrite keys_app, nth_error_app2 by (rewrite keys_length; lia).
      rewrite keys_length, Nat.sub_diag. reflexivity.
    + rewrite length_app. cbn. lia.
    + right. repeat split; [exact Hnew].
Qed.

Lemma index_all_cons (d : OrderedDict.t) (k : K) (ks : list K) :
  OrderedDict.index_all eqb d (k :: ks)
  = (fst (OrderedDict.index_all eqb
            (fst (OrderedDict.setdefault eqb d k (List.length d))) ks),
     snd (OrderedDict.setdefault eqb d k (List.length d))
     :: snd (OrderedDict.index_all eqb
               (fst (OrderedDict.setdefault eqb d k (List.length d))) ks)).
Proof.
  cbn [OrderedDict.index_all].
  destruct (OrderedDict.setdefault eqb d k (List.length d)) as [d1 i].
  cbn [fst snd].
  destruct (OrderedDict.index_all eqb d1 ks) as [d2 rest]. reflexivity.
Qed.

(** The whole comprehension [[d.setdefault(k, len(d)) for k in ks]]:
    every index returned is the position of its key in the final
    dictionary, whose keys are distinct and extend those of [d]. *)
Lemma index_all_spec (ks : list K) :
  forall (d d' : OrderedDict.t) (idx : list nat),
    OrderedDict.well_formed d ->
    OrderedDict.index_all eqb d ks = (d', idx) ->
    OrderedDict.well_formed d' /\
    (exists suffix, d' = d ++ suffix) /\
    (forall k, In k (OrderedDict.keys d') <-> In k (OrderedDict.keys d) \/ In k ks) /\
    Forall2 (fun k i => nth_error (OrderedDict.keys d') i = Some k) ks idx.
Proof.
  induction ks as [| k ks IH]; intros d d' idx Hwf.
  - cbn [OrderedDict.index_all]. intros [= <- <-].
    split; [exact Hwf |]. split; [exists []; rewrite app_nil_r; reflexivity |].
    split; [intros k; cbn [In]; tauto | constructor].
  - rewrite index_all_cons.
    destruct (OrderedDict.setdefault eqb d k (List.length d)) as [d1 i] eqn:Hset.
    cbn [fst snd].
    destruct (OrderedDict.index_all eqb d1 ks) as [d2 rest] eqn:Hrest.
    cbn [fst snd]. intros [= <- <-].
    destruct (setdefault_spec d d1 k i Hwf Hset) as (Hwf1 & Hnth & Hlt & Hcase).
    destruct (IH d1 d2 rest Hwf1 Hrest) as (Hwf2 & (suffix & Hsuf) & Hin & Hall).
    split; [exact Hwf2 |].
    assert (Hpre : exists s1, d1 = d ++ s1).
    { destruct Hcase as [[_ ->] | (_ & -> & _)];
        [exists []; rewrite app_nil_r; reflexivity | eexists; reflexivity]. }
    destruct Hpre as (s1 & Hs1).
    split; [exists (s1 ++ suffix); rewrite Hsuf, Hs1, app_assoc; reflexivity |].
    split.
    + intros x. rewrite Hin. cbn [In].
      destruct Hcase as [[Hk ->] | (Hk & -> & _)].
      * split; [tauto | intros [H | [<- | H]]; tauto].
      * rewrite keys_app. cbn. rewrite in_app_iff. cbn. tauto.
    + constructor; [| exact Hall].
      rewrite Hsuf, keys_app, nth_error_app1 by (rewrite keys_length; exact Hlt).
      exact Hnth.
Qed.

Lemma index_all_app (ks1 ks2 : list K) :
  forall d : OrderedDict.t,
    OrderedDict.index_all eqb d (ks1 ++ ks2)
    = (fst (OrderedDict.index_all eqb (fst (OrderedDict.index_all eqb d ks1)) ks2),
       snd (OrderedDict.index_all eqb d ks1)
       ++ snd (OrderedDict.index_all eqb (fst (OrderedDict.index_all eqb d ks1)) ks2)).
Proof.
  induction ks1 as [| k ks1 IH]; intros d.
  - cbn [app OrderedDict.index_all fst snd].
    destruct (OrderedDict.index_all eqb d ks2). reflexivity.
  - rewrite <- app_comm_cons, !index_all_cons, IH. reflexivity.
Qed.

(** First-seen order: a key that was not met before gets an index above
    every index handed out so far. *)
Lemma index_all_first_seen (ks1 ks2 : list K) (k : K) :
  ~ In k ks1 ->
  exists (idx1 idx2 : list nat) (i : nat),
    snd (OrderedDict.index_all eqb [] (ks1 ++ k :: ks2)) = idx1 ++ i :: idx2 /\
    List.length idx1 = List.length ks1 /\
    Forall (fun j => (j < i)%nat) idx1.
Proof.
  intros Hnew.
  assert (Hwf0 : OrderedDict.well_formed (@nil (K * nat)))
    by (split; [constructor | reflexivity]).
  destruct (OrderedDict.index_all eqb [] ks1) as [d1 idx1] eqn:H1.
  destruct (index_all_spec ks1 [] d1 idx1 Hwf0 H1) as (Hwf1 & _ & Hin1 & Hall1).
  rewrite index_all_app, H1. cbn [fst snd]. rewrite index_all_cons. cbn [snd].
  destruct (OrderedDict.setdefault eqb d1 k (List.length d1)) as [d2 i] eqn:Hset.
  cbn [fst snd].
  exists idx1, (snd (OrderedDict.index_all eqb d2 ks2)), i.
  split; [reflexivity |].
  split; [symmetry; apply (Forall2_length Hall1) |].
  destruct (setdefault_spec d1 d2 k i Hwf1 Hset) as (_ & _ & _ & Hcase).
  assert (Hi : i = List.length d1).
  { destruct Hcase as [[Hk _] | (_ & _ & Hi)]; [| exact Hi].
    apply Hin1 in Hk. destruct Hk as [[] | Hk]. contradiction. }
  subst i.
  clear - Hall1. induction Hall1 as [| x j xs js Hx _ IH]; constructor; [| exact IH].
  rewrite <- keys_length. apply nth_error_Some. congruence.
Qed.

End Deduplication.

(** ** The two index builders *)

Section SiblingPath.
Import IndexBuilder.
Context {V : Type} (eqb : V -> V -> bool) (vertex_of : nat -> V).
Hypothesis eqb_spec : forall a b : V, eqb a b = true <-> a = b.

Lemma Forall2_map_left {A B C : Type} (f : A -> B) (R : B -> C -> Prop)
    (l : list A) (l' : list C) :
  Forall2 R (map f l) l' -> Forall2 (fun a c => R (f a) c) l l'.
Proof.
  revert l'. induction l as [| a l IH]; intros l' H; inversion H; subst; constructor.
  - assumption.
  - apply IH. assumption.
Qed.

Lemma nth_error_keys_prefix (d suffix : @OrderedDict.t V) (i : nat) (k : V) :
  nth_error (OrderedDict.keys d) i = Some k ->
  nth_error (OrderedDict.keys (d ++ suffix)) i = Some k.
Proof.
  intros H. rewrite keys_app, nth_error_app1; [exact H |].
  apply nth_error_Some. congruence.
Qed.

Lemma export_faces_spec (n_loops : nat) (flip_winding : bool) (polys : list MeshPolygon) :
  forall (d d' : OrderedDict.t) (ib : list (list nat)),
    OrderedDict.well_formed d ->
    export_faces eqb vertex_of n_loops flip_winding d polys = (d', ib) ->
    OrderedDict.well_formed d' /\
    (exists suffix, d' = d ++ suffix) /\
    Forall2
      (fun p face =>
         Forall2 (fun l i => nth_error (OrderedDict.keys d') i = Some (vertex_of l))
                 (poly_loops n_loops p)
                 (if flip_winding then rev face else face))
      polys ib.
Proof.
  induction polys as [| p ps IH]; intros d d' ib Hwf; cbn [export_faces].
  - intros [= <- <-]. split; [exact Hwf |].
    split; [exists []; rewrite app_nil_r; reflexivity | constructor].
  - destruct (OrderedDict.index_all eqb d (map vertex_of (poly_loops n_loops p)))
      as [d1 face] eqn:Hface.
    destruct (export_faces eqb vertex_of n_loops flip_winding d1 ps) as [d2 rest] eqn:Hrest.
    intros [= <- <-].
    destruct (index_all_spec eqb eqb_spec _ d d1 face Hwf Hface)
      as (Hwf1 & (s1 & Hs1) & _ & Hall).
    destruct (IH d1 d2 rest Hwf1 Hrest) as (Hwf2 & (s2 & Hs2) & Hps).
    split; [exact Hwf2 |].
    split; [exists (s1 ++ s2); rewrite Hs2, Hs1, app_assoc; reflexivity |].
    constructor; [| exact Hps].
    assert (Hown : Forall2 (fun l i => nth_error (OrderedDict.keys d2) i = Some (vertex_of l))
                           (poly_loops n_loops p) face).
    { apply Forall2_map_left in Hall.
      eapply Forall2_impl; [| exact Hall].
      intros l i Hl. cbn beta in Hl. rewrite Hs2. apply nth_error_keys_prefix, Hl. }
    destruct flip_winding; [rewrite rev_involutive |]; exact Hown.
Qed.

(** [export_3dmigoto] does what claim C1 says: every index of a face,
    read in traversal order (the face is reversed when the winding is
    flipped), refers to the record built from its own corner, and the
    records of the vertex buffer are pairwise distinct. *)
Lemma export_3dmigoto_indexes_own_corner (n_loops : nat) (flip_winding : bool)
    (polys : list MeshPolygon) (ib : list (list nat)) (vb : list V) :
  export_3dmigoto eqb vertex_of n_loops flip_winding polys = (ib, vb) ->
  NoDup vb /\
  Forall2
    (fun p face =>
       Forall2 (fun l i => nth_error vb i = Some (vertex_of l))
               (poly_loops n_loops p)
               (if flip_winding then rev face else face))
    polys ib.
Proof.
  unfold export_3dmigoto.
  destruct (export_faces eqb vertex_of n_loops flip_winding [] polys) as [d ib0] eqn:H.
  intros [= <- <-].
  assert (Hwf0 : OrderedDict.well_formed (@nil (V * nat)))
    by (split; [constructor | reflexivity]).
  destruct (export_faces_spec n_loops flip_winding polys [] d ib0 Hwf0 H)
    as ((Hnd & _) & _ & Hall).
  split; [exact Hnd | exact Hall].
Qed.

End SiblingPath.

Section MeshToBin.
Import NumpyFloat Layout Py Blender Assembler Bytes IndexBuilder.
Local Open Scope py_scope.

Lemma bytes_eqb_spec (a b : bytes) : bytes_eqb a b = true <-> a = b.
Proof.
  unfold bytes_eqb. destruct (list_eq_dec Byte.byte_eq_dec a b); split; congruence.
Qed.

Lemma mapM_Forall2 {A B : Type} (f : A -> outcome B) (l : list A) :
  forall l', mapM f l = Ok l' -> Forall2 (fun a b => f a = Ok b) l l'.
Proof.
  induction l as [| a l IH]; intros l'; cbn [mapM].
  - intros [= <-]. constructor.
  - destruct (f a) as [b |] eqn:Hb; cbn [bind]; [| discriminate].
    destruct (mapM f l) as [bs |]; cbn [bind]; [| discriminate].
    intros [= <-]. constructor; [exact Hb | apply IH; reflexivity].
Qed.

(** What [mesh_to_bin] guarantees in general: the records of the vertex
    buffer are pairwise distinct, and the index emitted for a corner
    refers to the bytes of row [vertex_index] of [migoto_verts], the row
    of the corner whose loop index is that vertex index. *)
Lemma mesh_to_bin_spec (cfg : Settings) (obj : Object) (mesh : Mesh)
    (migoto_format : InputLayout) (main_obj : Object)
    (ib : list (list nat)) (vb : list bytes) :
  data_polygons obj <> 0%nat ->
  mesh_to_bin cfg obj mesh migoto_format main_obj = Ok (ib, vb) ->
  exists (migoto_verts : table) (ib_list : list nat),
    blender_to_migoto_vertices cfg mesh obj migoto_format main_obj = Ok migoto_verts /\
    NoDup vb /\
    Forall2
      (fun l i =>
         exists r, tobytes migoto_verts (List.length (loops mesh)) (vertex_index l) = Ok r /\
                   nth_error vb i = Some r)
      (loops mesh) ib_list /\
    ib = (if xorb (FlipMesh main_obj) (FlipWinding main_obj)
          then fliplr (fromlist ib_list) else fromlist ib_list).
Proof.
  intros Hp. unfold mesh_to_bin.
  destruct (Nat.eqb_spec (data_polygons obj) 0) as [H0 | _]; [contradiction |].
  destruct (blender_to_migoto_vertices cfg mesh obj migoto_format main_obj) as [mv |];
    cbn [bind]; [| discriminate].
  unfold lookup_keys.
  set (n := List.length (loops mesh)). clearbody n.
  destruct (mapM _ (loops mesh)) as [ks |] eqn:Hks; cbn [bind]; [| discriminate].
  destruct (OrderedDict.index_all bytes_eqb [] ks) as [d ib_list] eqn:Hidx.
  intros [= <- <-].
  assert (Hwf0 : OrderedDict.well_formed (@nil (bytes * nat)))
    by (split; [constructor | reflexivity]).
  destruct (index_all_spec bytes_eqb bytes_eqb_spec ks [] d ib_list Hwf0 Hidx)
    as ((Hnd & _) & _ & _ & Hall).
  exists mv, ib_list. split; [reflexivity |]. split; [exact Hnd |].
  split; [| reflexivity].
  apply mapM_Forall2 in Hks.
  clear - Hks Hall. revert ib_list Hall.
  induction Hks as [| l k ls ks Hk _ IH]; intros ib_list Hall;
    inversion Hall as [| ? i ? rest Hi Hrest]; subst; constructor.
  - exists k. split; [exact Hk | exact Hi].
  - apply IH, Hrest.
Qed.

End MeshToBin.

(** ** [unit_vector] *)

Section UnitVector.
Import NumpyFloat Outline OutlineCalc OutlineExamples.

(** *** Rounding never yields a NaN *)









(** *** The norm *)








(** *** The guard *)

Lemma unit_vector_zero_norm (v : vec) :
  nonzero (norm v) = false -> unit_vector v = zeros_like v.
Proof. intros H. unfold unit_vector, np_divide. rewrite H. reflexivity. Qed.









End UnitVector.

(** ** The overrides of the outline optimizer *)

Section OutlineOverrides.
Import NumpyFloat Layout Py Blender Assembler Outline OutlineCalc Examples OutlineExamples.

Lemma In_setdefault {V : Type} (d : @PyDict.t nat V) (k : nat) (v : V)
    (k0 : nat) (v0 : V) :
  In (k0, v0) (PyDict.setdefault Nat.eqb d k v) -> In (k0, v0) d \/ (k0 = k /\ v0 = v).
Proof.
  unfold PyDict.setdefault.
  induction d as [| [k' v'] d IH]; cbn [PyDict.upsert].
  - intros [H | []]. injection H as <- <-. right. split; reflexivity.
  - destruct (Nat.eqb k k').
    + intros H. left. exact H.
    + intros [H | H]; [left; left; exact H |].
      destruct (IH H) as [Hd | Hv]; [left; right; exact Hd | right; exact Hv].
Qed.

Lemma add_vec_length (a b : vec) :
  List.length a = 3%nat -> List.length b = 3%nat -> List.length (add_vec a b) = 3%nat.
Proof.
  intros Ha Hb. unfold add_vec. rewrite length_map, length_combine, Ha, Hb. reflexivity.
Qed.

Lemma sum_rows_length (rows : list vec) :
  Forall (fun r => List.length r = 3%nat) rows -> List.length (sum_rows rows) = 3%nat.
Proof.
  unfold sum_rows.
  assert (H : forall acc, List.length acc = 3%nat ->
                Forall (fun r => List.length r = 3%nat) rows ->
                List.length (fold_left add_vec rows acc) = 3%nat).
  { induction rows as [| r rows IH]; intros acc Hacc Hrows; cbn [fold_left]; [exact Hacc |].
    inversion Hrows as [| ? ? Hr Hrest]; subst.
    apply IH; [apply add_vec_length; assumption | exact Hrest]. }
  apply H. reflexivity.
Qed.

Lemma of_QVec_length (q : QVec) : List.length (of_QVec q) = 3%nat.
Proof. destruct q as [[x y] z]. reflexivity. Qed.

Section Run.
Variables (einsum_ij_ij : vec -> vec -> spec_float) (arccos : spec_float -> spec_float).

(** The sum of a group has three components. *)
Lemma group_sum_length props mesh pre vertex_group faces s :
  group_sum einsum_ij_ij arccos props mesh pre vertex_group faces = Some s ->
  List.length s = 3%nat.
Proof.
  unfold group_sum.
  set (rows := map of_QVec (connected_rows mesh vertex_group faces)).
  assert (Hrows : Forall (fun r => List.length r = 3%nat) rows).
  { apply Forall_forall. intros r Hr. apply in_map_iff in Hr.
    destruct Hr as (q & <- & _). apply of_QVec_length. }
  destruct (angle_weighted props).
  - destruct (all_some _) as [evs |]; [| discriminate].
    intros [= <-].
    apply sum_rows_length, Forall_forall. intros r Hr.
    apply in_map_iff in Hr. destruct Hr as ([k r0] & <- & Hin).
    apply in_combine_r in Hin. rewrite Forall_forall in Hrows.
    unfold scale. cbn [fst snd]. rewrite length_map. exact (Hrows r0 Hin).
  - intros [= <-]. apply sum_rows_length, Hrows.
Qed.

(** A run of the optimizer: the two coincident vertices of [seam_mesh]
    both get the direction (0, 0, 1). *)
Lemma seam_run :
  optimized_outline_generation einsum_ij_ij arccos seam_mesh seam_props
  = Some [(0%nat, up); (1%nat, up)].
Proof. vm_compute. reflexivity. Qed.

(** A run with a vanishing sum: the normals of [fold_mesh] cancel at the
    coincident vertices and the map stays empty. *)
Lemma fold_run :
  optimized_outline_generation einsum_ij_ij arccos fold_mesh seam_props = Some [].
Proof. vm_compute. reflexivity. Qed.

End Run.


End OutlineOverrides.

(** ** Edge detection: what is done with the candidates of the search *)

Section SeamUpdate.
Import Outline OutlineCalc OutlineExamples.

Lemma mem_add_same (x : nat) (s : PySet.t) : PySet.mem x (PySet.add x s) = true.
Proof.
  unfold PySet.add. destruct (PySet.mem x s) eqn:H; [exact H |].
  unfold PySet.mem. rewrite existsb_app. cbn. rewrite Nat.eqb_refl.
  rewrite orb_true_r. reflexivity.
Qed.

Lemma mem_add_mono (x y : nat) (s : PySet.t) :
  PySet.mem y s = true -> PySet.mem y (PySet.add x s) = true.
Proof.
  intros H. unfold PySet.add. destruct (PySet.mem x s); [exact H |].
  unfold PySet.mem in *. rewrite existsb_app, H. reflexivity.
Qed.

Lemma mem_update_mono (l : list nat) :
  forall (s : PySet.t) (y : nat),
    PySet.mem y s = true -> PySet.mem y (PySet.update s l) = true.
Proof.
  unfold PySet.update.
  induction l as [| x l IH]; intros s y H; cbn [fold_left]; [exact H |].
  apply IH, mem_add_mono, H.
Qed.

Lemma mem_update_In (l : list nat) :
  forall (s : PySet.t) (x : nat), In x l -> PySet.mem x (PySet.update s l) = true.
Proof.
  unfold PySet.update.
  induction l as [| y l IH]; intros s x Hin; [destruct Hin |].
  cbn [fold_left]. destruct Hin as [-> | Hin].
  - apply (mem_update_mono l), mem_add_same.
  - apply IH, Hin.
Qed.

Lemma get_upsert_same {V : Type} (d : @PyDict.t nat V) (k : nat) (def v : V) (f : V -> V) :
  PyDict.get Nat.eqb d k = Some v ->
  PyDict.get Nat.eqb (PyDict.upsert Nat.eqb d k def f) k = Some (f v).
Proof.
  induction d as [| [k' v'] d IH]; cbn [PyDict.get PyDict.upsert]; [discriminate |].
  destruct (Nat.eqb k k') eqn:E.
  - intros [= ->]. cbn [PyDict.get]. rewrite E. reflexivity.
  - intros H. cbn [PyDict.get]. rewrite E. apply IH, H.
Qed.

Lemma get_upsert_other {V : Type} (d : @PyDict.t nat V) (k k0 : nat) (def : V) (f : V -> V) :
  k0 <> k ->
  PyDict.get Nat.eqb (PyDict.upsert Nat.eqb d k def f) k0 = PyDict.get Nat.eqb d k0.
Proof.
  intros Hne.
  induction d as [| [k' v'] d IH]; cbn [PyDict.get PyDict.upsert].
  - destruct (Nat.eqb_spec k0 k); [contradiction | reflexivity].
  - destruct (Nat.eqb_spec k k') as [-> | Hk].
    + cbn [PyDict.get].
      destruct (Nat.eqb_spec k0 k'); [contradiction | reflexivity].
    + cbn [PyDict.get]. rewrite IH. reflexivity.
Qed.

Lemma grows_refl (S : @PyDict.t nat PySet.t) : grows S S.
Proof. intros x s H. exists s. split; [exact H | trivial]. Qed.

Lemma grows_trans (S1 S2 S3 : @PyDict.t nat PySet.t) :
  grows S1 S2 -> grows S2 S3 -> grows S1 S3.
Proof.
  intros H12 H23 x s H.
  destruct (H12 x s H) as (s2 & H2 & M2).
  destruct (H23 x s2 H2) as (s3 & H3 & M3).
  exists s3. split; [exact H3 | intros y Hy; apply M3, M2, Hy].
Qed.

Lemma grows_add_step (c x : nat) (S : @PyDict.t nat PySet.t) :
  grows S
    (match PyDict.get Nat.eqb S x with
     | Some _ => PyDict.upsert Nat.eqb S x [] (PySet.add c)
     | None => S
     end).
Proof.
  destruct (PyDict.get Nat.eqb S x) as [sx |] eqn:Hx; [| apply grows_refl].
  intros y s Hy. destruct (Nat.eq_dec y x) as [-> | Hne].
  - rewrite Hx in Hy. injection Hy as <-.
    exists (PySet.add c sx). split; [apply get_upsert_same; exact Hx |].
    intros z Hz. apply mem_add_mono, Hz.
  - exists s. split; [rewrite get_upsert_other by exact Hne; exact Hy | trivial].
Qed.

Lemma add_to_group_grows (c : nat) (vertex_group : PySet.t) :
  forall S, grows S (add_to_group c vertex_group S).
Proof.
  unfold add_to_group.
  induction vertex_group as [| x xs IH]; intros S; cbn [fold_left]; [apply grows_refl |].
  eapply grows_trans; [apply (grows_add_step c x) | apply IH].
Qed.

(** After [add_to_group] every member with a set holds the candidate. *)
Lemma add_to_group_adds (c : nat) (vertex_group : PySet.t) :
  forall S x s,
    In x vertex_group -> PyDict.get Nat.eqb S x = Some s ->
    exists s', PyDict.get Nat.eqb (add_to_group c vertex_group S) x = Some s' /\
               PySet.mem c s' = true.
Proof.
  induction vertex_group as [| y ys IH]; intros S x s Hin Hget; [destruct Hin |].
  change (add_to_group c (y :: ys) S)
    with (add_to_group c ys
            (match PyDict.get Nat.eqb S y with
             | Some _ => PyDict.upsert Nat.eqb S y [] (PySet.add c)
             | None => S
             end)).
  destruct Hin as [-> | Hin].
  - rewrite Hget.
    pose proof (get_upsert_same S x [] s (PySet.add c) Hget) as H1.
    destruct (add_to_group_grows c ys _ x _ H1) as (s' & Hs' & Hm).
    exists s'. split; [exact Hs' | apply Hm, mem_add_same].
  - destruct (grows_add_step c y S x s Hget) as (s1 & H1 & _).
    apply (IH _ x s1 Hin H1).
Qed.

Lemma merge_candidates_grows mesh d vertex_group closest_group p :
  forall S, grows S (merge_candidates mesh d vertex_group closest_group p S).
Proof.
  unfold merge_candidates.
  induction closest_group as [| c cs IH]; intros S; cbn [fold_left]; [apply grows_refl |].
  eapply grows_trans; [| apply IH].
  destruct (negb (PySet.mem c vertex_group) && in_box p (verts_obj mesh c) d)%bool;
    [apply add_to_group_grows | apply grows_refl].
Qed.

Lemma merge_candidates_merges mesh d vertex_group closest_group p :
  forall S c x s,
    In c closest_group ->
    PySet.mem c vertex_group = false ->
    in_box p (verts_obj mesh c) d = true ->
    In x vertex_group ->
    PyDict.get Nat.eqb S x = Some s ->
    exists s', PyDict.get Nat.eqb (merge_candidates mesh d vertex_group closest_group p S) x
               = Some s' /\
               PySet.mem c s' = true.
Proof.
  induction closest_group as [| c0 cs IH]; intros S c x s Hc Hout Hbox Hx Hget;
    [destruct Hc |].
  change (merge_candidates mesh d vertex_group (c0 :: cs) p S)
    with (merge_candidates mesh d vertex_group cs p
            (if (negb (PySet.mem c0 vertex_group) && in_box p (verts_obj mesh c0) d)%bool
             then add_to_group c0 vertex_group S else S)).
  destruct Hc as [-> | Hc].
  - rewrite Hout, Hbox. cbn [negb andb].
    destruct (add_to_group_adds c vertex_group S x s Hx Hget) as (s1 & H1 & M1).
    destruct (merge_candidates_grows mesh d vertex_group cs p _ x s1 H1) as (s' & Hs' & Hm).
    exists s'. split; [exact Hs' | apply Hm, M1].
  - assert (Hg : grows S
                   (if (negb (PySet.mem c0 vertex_group)
                        && in_box p (verts_obj mesh c0) d)%bool
                    then add_to_group c0 vertex_group S else S)).
    { destruct (negb _ && _)%bool; [apply add_to_group_grows | apply grows_refl]. }
    destruct (Hg x s Hget) as (s1 & H1 & _).
    apply (IH _ c x s1 Hc Hout Hbox Hx H1).
Qed.

(** Claim C7, as amended.  What the edge detection does with the set of
    candidates found by the box search depends on its size only through
    the test [len(closest_group) != 1].  A set of exactly one candidate
    changes nothing: no merge, no mark.  Any other size marks every
    member of the group for local-only repositioning and adds every
    candidate that is outside the group and whose position truly lies
    within the box to the Same_Vertex set of every member.  In the
    calculation a vertex marked local-only gets the computed normal for
    itself only: the entry is stored under its own index and no other
    vertex is stored or marked visited. *)
Theorem seam_update_by_candidate_count :
  forall (mesh : Mesh) (d : Q) (vertex_group closest_group : PySet.t) (p : QVec)
         (st : EdgeState),
    (List.length closest_group = 1%nat ->
     seam_update mesh d vertex_group closest_group p st = st) /\
    (List.length closest_group <> 1%nat ->
     (forall x, In x vertex_group ->
        PySet.mem x (RepositionLocal (seam_update mesh d vertex_group closest_group p st))
        = true) /\
     (forall c x s,
        In c closest_group ->
        PySet.mem c vertex_group = false ->
        in_box p (verts_obj mesh c) d = true ->
        In x vertex_group ->
        PyDict.get Nat.eqb (Same_Vertex st) x = Some s ->
        exists s',
          PyDict.get Nat.eqb
            (Same_Vertex (seam_update mesh d vertex_group closest_group p st)) x = Some s' /\
          PySet.mem c s' = true)) /\
    (forall (RL : PySet.t) (key : nat) (group : PySet.t) (w : vec) (cs : CalcState),
        PySet.mem key RL = true ->
        differs_from_zero w = true ->
        store_wSum (Some RL) key group w cs
        = {| export_outline := PyDict.setdefault Nat.eqb (export_outline cs) key w;
             IteratedValues := IteratedValues cs |}).
Proof.
  intros mesh d vertex_group closest_group p st. split; [| split].
  - intros H1. unfold seam_update. rewrite H1. reflexivity.
  - intros Hne. unfold seam_update.
    destruct (Nat.eqb_spec (List.length closest_group) 1) as [H1 | _]; [contradiction |].
    cbn [RepositionLocal Same_Vertex]. split.
    + intros x Hx. apply mem_update_In, Hx.
    + intros c x s Hc Hout Hbox Hx Hget.
      apply (merge_candidates_merges mesh d vertex_group closest_group p _ c x s);
        assumption.
  - intros RL key group w cs Hkey Hw. unfold store_wSum. rewrite Hw.
    destruct RL as [| r RL]; [discriminate Hkey |].
    rewrite Hkey. reflexivity.
Qed.

(** Claim C7 as stated fails.  In [gap_mesh] the group of vertex 0 is
    flagged as an open seam; its box search yields exactly one candidate,
    vertex 4, whose position lies within the box; vertex 4 is not merged:
    after the edge detection the Same_Vertex set of vertex 0 is still {0}
    (and vertex 0 is not marked local-only). *)
Lemma single_candidate_is_not_merged :
  precision (nearest_edge_distance gap_props) = Some 3 /\
  checkEnclosedFacesVertex [[0; 1; 2]; [0; 2; 3]]%nat [0%nat]
    (initial_Same_Vertex (pre_dictionary gap_props gap_mesh 2)) = false /\
  search_closest_group (pre_dictionary gap_props gap_mesh 2) (verts_obj gap_mesh 0%nat)
    (nearest_edge_distance gap_props) 2 = [4%nat] /\
  in_box (verts_obj gap_mesh 0%nat) (verts_obj gap_mesh 4%nat) (nearest_edge_distance gap_props)
    = true /\
  PyDict.get Nat.eqb
    (Same_Vertex
       (edge_detection gap_props gap_mesh (pre_dictionary gap_props gap_mesh 2) 2
          (initial_Same_Vertex (pre_dictionary gap_props gap_mesh 2)))) 0%nat
    = Some [0%nat] /\
  PySet.mem 0%nat
    (RepositionLocal
       (edge_detection gap_props gap_mesh (pre_dictionary gap_props gap_mesh 2) 2
          (initial_Same_Vertex (pre_dictionary gap_props gap_mesh 2))))
    = false.
Proof.
  repeat split; vm_compute; reflexivity.
Qed.

(** The theorem at a set of two candidates for the group {0} of
    [gap_mesh]: vertex 0 is marked local-only and vertex 4, within the
    box, joins its Same_Vertex set. *)
Lemma seam_update_by_candidate_count_witness :
  List.length [0; 4]%nat <> 1%nat /\
  PySet.mem 0%nat
    (RepositionLocal
       (seam_update gap_mesh (9 # 1000) [0%nat] [0; 4]%nat (0, 0, 0)%Q
          {| Same_Vertex := [(0%nat, [0%nat])]; RepositionLocal := [] |})) = true.
Proof.
  assert (H : List.length [0; 4]%nat <> 1%nat) by (cbn; lia).
  split; [exact H |].
  apply (proj1 (proj1 (proj2 (seam_update_by_candidate_count
                  gap_mesh (9 # 1000) [0%nat] [0; 4]%nat (0, 0, 0)%Q
                  {| Same_Vertex := [(0%nat, [0%nat])]; RepositionLocal := [] |})) H)).
  left. reflexivity.
Defined.

End SeamUpdate.

(** ** Normal accumulation: the weight of a face *)

Section FaceWeights.
Import Outline OutlineCalc OutlineExamples.

(** The row of a face is its normal, whatever the number of group
    members among its corners. *)
Lemma weighted_row_is_face_normal (face_normal : QVec) (influence_restriction : nat) :
  weighted_row face_normal influence_restriction = face_normal.
Proof. reflexivity. Qed.

(** Claim C6 at a failing input.  In [sliver_mesh] the vertices 0 and 1
    form one position group and the triangle has both among its corners
    (n = 2).  The row accumulated for the face is its normal (0, 0, 1);
    scaled by [0.5 ** (1 - 2)] as the claim has it, it would be
    (0, 0, 2).  The product is computed by [numpy.multiply] and dropped. *)
Lemma shared_face_normal_is_not_scaled :
  PyDict.get Nat.eqb
    (initial_Same_Vertex (pre_dictionary sliver_props sliver_mesh 0)) 0%nat
    = Some [0; 1]%nat /\
  List.length (vert0p (Face_Verts sliver_mesh 0%nat) [0; 1]%nat) = 2%nat /\
  connected_rows sliver_mesh [0; 1]%nat [0%nat] = [(0, 0, 1)%Q] /\
  np_multiply (0, 0, 1)%Q (influence_factor 2) = (0, 0, 2)%Q.
Proof.
  repeat split; vm_compute; reflexivity.
Qed.

End FaceWeights.

(** ** [optimize_outlines]: what the call leaves untouched *)

Section OptimizeOutlinesFrame.
Import NumpyFloat Layout Py Exporter.
Local Open Scope py_scope.

Lemma same_frame_refl (r : BufferRow) : same_frame r r.
Proof. repeat split. Qed.

Lemma same_frame_trans (a b c : BufferRow) :
  same_frame a b -> same_frame b c -> same_frame a c.
Proof.
  intros (P1 & N1 & O1 & S1 & L1) (P2 & N2 & O2 & S2 & L2).
  repeat split; congruence.
Qed.

Lemma Forall2_same_frame_refl (buf : list BufferRow) : Forall2 same_frame buf buf.
Proof. induction buf; constructor; [apply same_frame_refl | assumption]. Qed.

Lemma Forall2_same_frame_trans (a b c : list BufferRow) :
  Forall2 same_frame a b -> Forall2 same_frame b c -> Forall2 same_frame a c.
Proof.
  intros Hab. revert c. induction Hab as [| x y xs ys Hxy _ IH]; intros c Hbc.
  - inversion Hbc; subst. constructor.
  - inversion Hbc as [| ? z ? zs Hyz Hrest]; subst.
    constructor; [exact (same_frame_trans _ _ _ Hxy Hyz) | apply IH, Hrest].
Qed.

(** A slice assignment to [[0:3]] keeps the tail and the length. *)
Lemma assign_0_3_tail (dst src t : list cell) :
  assign_0_3 dst src = Some t ->
  skipn 3 t = skipn 3 dst /\ List.length t = List.length dst.
Proof.
  unfold assign_0_3.
  set (head := map (fun p => astype (dtype_of_cell (fst p)) (snd p))
                   (combine (firstn 3 dst) src)).
  destruct (Nat.eqb_spec (List.length (firstn 3 dst)) (List.length src)) as [Hlen | _];
    [| discriminate].
  intros H. assert (Ht : t = head ++ skipn 3 dst) by congruence.
  clear H. subst t.
  assert (Hhead : List.length head = List.length (firstn 3 dst)).
  { unfold head. rewrite length_map, length_combine, <- Hlen. apply Nat.min_id. }
  split.
  - destruct (Nat.le_gt_cases 3 (List.length dst)) as [Hge | Hlt].
    + assert (H3 : List.length head = 3%nat)
        by (rewrite Hhead, length_firstn; lia).
      rewrite skipn_app, H3, Nat.sub_diag.
      rewrite (skipn_all2 head) by lia. reflexivity.
    + rewrite (skipn_all2 dst) by lia. rewrite app_nil_r.
      apply skipn_all2. rewrite Hhead, length_firstn. lia.
  - rewrite length_app, Hhead, <- length_app, firstn_skipn. reflexivity.
Qed.

Lemma assign_rows_frame (src : BufferRow -> list cell) :
  forall (mask : list bool) (buf buf' : list BufferRow),
    List.length mask = List.length buf ->
    assign_rows mask src buf = Ok buf' ->
    Forall2 same_frame buf buf'.
Proof.
  unfold assign_rows.
  induction mask as [| m mask IH]; intros buf buf' Hlen; destruct buf as [| r buf];
    try discriminate Hlen; cbn [combine mapM].
  - intros [= <-]. constructor.
  - cbn [fst snd].
    destruct m.
    + destruct (assign_0_3 (TANGENT r) (src r)) as [t |] eqn:Ht; cbn [of_option bind];
        [| discriminate].
      destruct (mapM _ (combine mask buf)) as [rest |] eqn:Hrest; cbn [bind];
        [| discriminate].
      intros [= <-]. constructor.
      * destruct (assign_0_3_tail _ _ _ Ht) as [Hs Hl].
        unfold same_frame, set_TANGENT. cbn. repeat split; assumption.
      * apply (IH buf rest); [cbn in Hlen; lia | exact Hrest].
    + cbn [bind].
      destruct (mapM _ (combine mask buf)) as [rest |] eqn:Hrest; cbn [bind];
        [| discriminate].
      intros [= <-]. constructor; [apply same_frame_refl |].
      apply (IH buf rest); [cbn in Hlen; lia | exact Hrest].
Qed.

Lemma Forall2_length_eq {A B : Type} (R : A -> B -> Prop) (l : list A) (l' : list B) :
  Forall2 R l l' -> List.length l = List.length l'.
Proof. induction 1; cbn; congruence. Qed.

Lemma average_group_frame (position : list (list cell)) (key : list cell)
    (buf : list BufferRow) :
  List.length position = List.length buf ->
  Forall2 same_frame buf (fst (average_group position key buf)).
Proof.
  intros Hlen. unfold average_group.
  match goal with
  | |- context [group_average ?d ?n] => destruct (group_average d n) as [[avg |] | ex]
  end; cbn [fst]; try apply Forall2_same_frame_refl.
  match goal with
  | |- context [assign_rows ?m ?s buf] => destruct (assign_rows m s buf) as [buf' | ex] eqn:Ha
  end; cbn [fst]; [| apply Forall2_same_frame_refl].
  apply (assign_rows_frame _ _ _ _ (eq_trans (length_map _ _) Hlen) Ha).
Qed.

Lemma average_groups_frame (position : list (list cell)) (keys : list (list cell)) :
  forall buf : list BufferRow,
    List.length position = List.length buf ->
    Forall2 same_frame buf (fst (average_groups position keys buf)).
Proof.
  induction keys as [| key keys IH]; intros buf Hlen; cbn [average_groups fst].
  - apply Forall2_same_frame_refl.
  - pose proof (average_group_frame position key buf Hlen) as H1.
    destruct (snd (average_group position key buf)); [exact H1 |].
    apply (Forall2_same_frame_trans _ _ _ H1), IH.
    rewrite Hlen. apply (Forall2_length_eq _ _ _ H1).
Qed.

(** Claim C10.  Whatever [optimize_outlines] does, and whether it returns
    or raises, the buffer afterwards has the records of the buffer before,
    in the same number and order, and every record has its POSITION, its
    NORMAL and its other fields unchanged and its TANGENT unchanged past
    the first three components.  With the optimization disabled or with an
    empty buffer nothing at all is changed. *)
Theorem optimize_outlines_frame :
  forall (position_buffer : list BufferRow),
    (forall outline_optimization : bool,
        Forall2 same_frame position_buffer
          (fst (optimize_outlines outline_optimization position_buffer))) /\
    optimize_outlines false position_buffer = (position_buffer, None) /\
    (forall outline_optimization : bool,
        optimize_outlines outline_optimization [] = ([], None)).
Proof.
  intros position_buffer. split; [| split].
  - intros flag. unfold optimize_outlines.
    destruct (negb flag); [apply Forall2_same_frame_refl |].
    destruct (List.length position_buffer =? 0)%nat; [apply Forall2_same_frame_refl |].
    match goal with
    | |- context [assign_rows ?m ?s position_buffer] =>
        destruct (assign_rows m s position_buffer) as [buf1 | ex] eqn:Ha
    end; cbn [fst]; [| apply Forall2_same_frame_refl].
    pose proof (assign_rows_frame _ _ _ _ (length_map _ _) Ha) as H1.
    apply (Forall2_same_frame_trans _ _ _ H1), average_groups_frame.
    rewrite length_map. apply (Forall2_length_eq _ _ _ H1).
  - reflexivity.
  - intros flag. unfold optimize_outlines. destruct (negb flag); reflexivity.
Qed.

(** A run: the two records sharing a position get the normalized
    average (0.70710677, 0.70710677, 0) of their normals, the third
    record gets its own normal, and the fourth component of TANGENT
    stays 7. *)
Example optimize_outlines_seam_buffer :
  map Exporter.TANGENT (fst (optimize_outlines true Examples.seam_buffer))
  = [ [CF float32 (S754_finite false 11863283 (-24));
       CF float32 (S754_finite false 11863283 (-24));
       CF float32 (S754_zero false); Examples.f32 7];
      [Examples.f32 0; Examples.f32 0; Examples.f32 1; Examples.f32 7];
      [CF float32 (S754_finite false 11863283 (-24));
       CF float32 (S754_finite false 11863283 (-24));
       CF float32 (S754_zero false); Examples.f32 7] ].
Proof. vm_compute. reflexivity. Qed.

End OptimizeOutlinesFrame.

(* ================================================================== *)
(** * Part III.  Further properties of the exporter                    *)
(* ================================================================== *)

(** ** Splitting and rebasing the intermediate buffers *)

Section IntermediateFiles.
Import Bytes Intermediate.

Lemma slice_bound_nonneg (n : nat) (i : Z) :
  0 <= i -> slice_bound n i = Nat.min n (Z.to_nat i).
Proof.
  intros Hi. unfold slice_bound.
  destruct (Z.ltb_spec i 0); [lia | reflexivity].
Qed.

(** A slice with bounds that are not negative is a [firstn] of a
    [skipn]. *)
Lemma slice_firstn_skipn {A : Type} (data : list A) (i k : Z) :
  0 <= i -> 0 <= k ->
  slice data i (i + k) = firstn (Z.to_nat k) (skipn (Z.to_nat i) data).
Proof.
  intros Hi Hk. unfold slice.
  rewrite !slice_bound_nonneg by lia.
  destruct (Nat.le_gt_cases (List.length data) (Z.to_nat i)) as [Hout | Hin].
  - rewrite !skipn_all2 by lia. rewrite !firstn_nil. reflexivity.
  - rewrite (Nat.min_r _ (Z.to_nat i)) by lia.
    set (rest := skipn (Z.to_nat i) data).
    assert (Hlen : List.length rest = (List.length data - Z.to_nat i)%nat)
      by apply length_skipn.
    destruct (Nat.le_gt_cases (List.length data) (Z.to_nat (i + k))) as [Hall | Hpart].
    + rewrite Nat.min_l by exact Hall.
      rewrite !firstn_all2 by lia. reflexivity.
    + rewrite Nat.min_r by lia. f_equal. lia.
Qed.

Lemma skipn_split {A : Type} (data : list A) (i k : nat) :
  skipn i data = firstn k (skipn i data) ++ skipn (i + k) data.
Proof.
  rewrite Nat.add_comm, <- skipn_skipn. symmetry. apply firstn_skipn.
Qed.

Lemma skipn_length_app {A : Type} (l1 l2 : list A) :
  skipn (List.length l1) (l1 ++ l2) = l2.
Proof. induction l1 as [| a l1 IH]; [reflexivity | exact IH]. Qed.

Lemma firstn_length_app {A : Type} (l1 l2 : list A) :
  firstn (List.length l1) (l1 ++ l2) = l1.
Proof. induction l1 as [| a l1 IH]; [reflexivity | cbn; f_equal; exact IH]. Qed.

(** *** [collect_vb_single] *)

Lemma collect_vb_single_loop_spec (stride : Z) (data : bytes) :
  0 < stride ->
  forall (fuel : nat) (i : Z) (result : bytes),
    0 <= i ->
    (List.length data - Z.to_nat i <= fuel)%nat ->
    collect_vb_single_loop fuel stride data i result
    = Some (result ++ skipn (Z.to_nat i) data).
Proof.
  intros Hs. induction fuel as [| fuel IH]; intros i result Hi Hfuel; cbn [collect_vb_single_loop].
  - destruct (Z.ltb_spec i (Z.of_nat (List.length data))); [lia |].
    rewrite skipn_all2 by lia. rewrite app_nil_r. reflexivity.
  - destruct (Z.ltb_spec i (Z.of_nat (List.length data))).
    + rewrite IH by lia.
      rewrite slice_firstn_skipn by lia.
      rewrite <- app_assoc. do 2 f_equal.
      replace (Z.to_nat (i + stride)) with (Z.to_nat i + Z.to_nat stride)%nat by lia.
      symmetry. apply skipn_split.
    + rewrite skipn_all2 by lia. rewrite app_nil_r. reflexivity.
Qed.

(** X1.  For a positive stride [collect_vb_single] returns the bytes of
    the file unchanged, whatever the stride and whether or not the length
    is a multiple of it; one round per byte is enough for the loop to
    end. *)
Theorem collect_vb_single_returns_file :
  forall (data : bytes) (stride : Z) (fuel : nat),
    0 < stride ->
    (List.length data <= fuel)%nat ->
    collect_vb_single fuel (Some data) stride = Some data.
Proof.
  intros data stride fuel Hs Hfuel. unfold collect_vb_single.
  rewrite collect_vb_single_loop_spec by (cbn; lia).
  reflexivity.
Qed.

Lemma collect_vb_single_returns_file_witness :
  collect_vb_single 3 (Some [Byte.x01; Byte.x02; Byte.x03]) 2
  = Some [Byte.x01; Byte.x02; Byte.x03].
Proof.
  apply collect_vb_single_returns_file; cbn; lia.
Defined.

Lemma collect_vb_single_loop_stuck (stride : Z) (data : bytes) :
  stride <= 0 ->
  forall (fuel : nat) (i : Z) (result : bytes),
    i < Z.of_nat (List.length data) ->
    collect_vb_single_loop fuel stride data i result = None.
Proof.
  intros Hs. induction fuel as [| fuel IH]; intros i result Hi; cbn [collect_vb_single_loop];
    destruct (Z.ltb_spec i (Z.of_nat (List.length data))); try lia; [reflexivity |].
  apply IH. lia.
Qed.

(** X2.  With a stride of zero or less and a file that is not empty the
    loop of [collect_vb_single] never ends: the index does not advance
    past the length, whatever the number of rounds. *)
Theorem collect_vb_single_never_ends :
  forall (data : bytes) (stride : Z) (fuel : nat),
    stride <= 0 ->
    data <> [] ->
    collect_vb_single fuel (Some data) stride = None.
Proof.
  intros data stride fuel Hs Hne. unfold collect_vb_single.
  apply collect_vb_single_loop_stuck; [exact Hs |].
  destruct data; [contradiction | cbn; lia].
Qed.

Lemma collect_vb_single_never_ends_witness :
  collect_vb_single 1000 (Some [Byte.x01]) 0 = None.
Proof.
  apply collect_vb_single_never_ends; [lia | discriminate].
Defined.

(** *** [collect_vb] *)

Lemma collect_vb_loop_spec (ps bs ts : Z) :
  0 <= ps -> 0 <= bs -> 0 <= ts -> 0 < ps + bs + ts ->
  forall (records : list (bytes * bytes * bytes)) (fuel : nat)
         (pre position blend texcoord : bytes),
    Forall (fun r => Z.of_nat (List.length (fst (fst r))) = ps /\
                     Z.of_nat (List.length (snd (fst r))) = bs /\
                     Z.of_nat (List.length (snd r)) = ts) records ->
    (List.length records <= fuel)%nat ->
    collect_vb_loop fuel ps bs ts (pre ++ vb0_bytes records)
      (Z.of_nat (List.length pre)) position blend texcoord
    = Some (position ++ List.concat (map (fun r => fst (fst r)) records),
            blend ++ List.concat (map (fun r => snd (fst r)) records),
            texcoord ++ List.concat (map (fun r => snd r) records)).
Proof.
  intros Hps Hbs Hts Htot.
  induction records as [| [[p b] t] records IH];
    intros fuel pre position blend texcoord Hall Hfuel.
  - unfold vb0_bytes. cbn [map List.concat]. rewrite !app_nil_r.
    destruct fuel; cbn [collect_vb_loop];
      destruct (Z.ltb_spec (Z.of_nat (List.length pre)) (Z.of_nat (List.length pre)));
      try lia; reflexivity.
  - inversion Hall as [| ? ? Hhd Hrest]; subst.
    destruct Hhd as (Hp & Hb & Ht). cbn [fst snd] in Hp, Hb, Ht.
    destruct fuel as [| fuel]; [cbn in Hfuel; lia |].
    cbn [collect_vb_loop].
    set (data := pre ++ vb0_bytes ((p, b, t) :: records)).
    assert (Hdata : data = pre ++ p ++ b ++ t ++ vb0_bytes records).
    { unfold data, vb0_bytes. cbn [map List.concat fst snd].
      rewrite <- !app_assoc. reflexivity. }
    assert (Hlen : Z.of_nat (List.length pre) < Z.of_nat (List.length data)).
    { rewrite Hdata, !length_app. lia. }
    destruct (Z.ltb_spec (Z.of_nat (List.length pre)) (Z.of_nat (List.length data)));
      [| lia].
    assert (Hskip : forall (k : nat) (front : bytes),
               List.length (pre ++ front) = k ->
               forall rest, data = (pre ++ front) ++ rest -> skipn k data = rest).
    { intros k front Hk rest ->. rewrite <- Hk. apply skipn_length_app. }
    assert (S1 : slice data (Z.of_nat (List.length pre)) (Z.of_nat (List.length pre) + ps) = p).
    { rewrite slice_firstn_skipn by lia. rewrite Nat2Z.id.
      replace (List.length pre) with (List.length (pre ++ [])) at 1
        by (rewrite app_nil_r; reflexivity).
      rewrite (Hskip _ [] eq_refl (p ++ b ++ t ++ vb0_bytes records))
        by (rewrite app_nil_r; exact Hdata).
      replace (Z.to_nat ps) with (List.length p) by lia.
      apply firstn_length_app. }
    assert (S2 : slice data (Z.of_nat (List.length pre) + ps)
                       (Z.of_nat (List.length pre) + (ps + bs)) = b).
    { replace (Z.of_nat (List.length pre) + (ps + bs))
        with (Z.of_nat (List.length pre) + ps + bs) by lia.
      rewrite slice_firstn_skipn by lia.
      replace (Z.to_nat (Z.of_nat (List.length pre) + ps)) with (List.length (pre ++ p))
        by (rewrite length_app; lia).
      rewrite (Hskip _ p eq_refl (b ++ t ++ vb0_bytes records))
        by (rewrite Hdata, <- !app_assoc; reflexivity).
      replace (Z.to_nat bs) with (List.length b) by lia. apply firstn_length_app. }
    assert (S3 : slice data (Z.of_nat (List.length pre) + (ps + bs))
                       (Z.of_nat (List.length pre) + (ps + bs + ts)) = t).
    { replace (Z.of_nat (List.length pre) + (ps + bs + ts))
        with (Z.of_nat (List.length pre) + (ps + bs) + ts) by lia.
      rewrite slice_firstn_skipn by lia.
      replace (Z.to_nat (Z.of_nat (List.length pre) + (ps + bs)))
        with (List.length (pre ++ p ++ b)) by (rewrite !length_app; lia).
      rewrite (Hskip _ (p ++ b) eq_refl (t ++ vb0_bytes records))
        by (rewrite Hdata, <- !app_assoc; reflexivity).
      replace (Z.to_nat ts) with (List.length t) by lia. apply firstn_length_app. }
    rewrite S1, S2, S3.
    replace (Z.of_nat (List.length pre) + (ps + bs + ts))
      with (Z.of_nat (List.length (pre ++ p ++ b ++ t)))
      by (rewrite !length_app; lia).
    replace data with ((pre ++ p ++ b ++ t) ++ vb0_bytes records)
      by (rewrite Hdata, <- !app_assoc; reflexivity).
    rewrite IH by (try assumption; cbn in Hfuel; lia).
    cbn [map List.concat fst snd]. rewrite <- !app_assoc. reflexivity.
Qed.

(** X3.  [collect_vb] separates the three parts of every record: for a
    file of whole records, with strides that are not negative and not
    all zero, the three results are the position parts, the blend parts
    and the texcoord parts, each in the order of the records. *)
Theorem collect_vb_splits_records :
  forall (ps bs ts : Z) (records : list (bytes * bytes * bytes)) (fuel : nat),
    0 <= ps -> 0 <= bs -> 0 <= ts -> 0 < ps + bs + ts ->
    Forall (fun r => Z.of_nat (List.length (fst (fst r))) = ps /\
                     Z.of_nat (List.length (snd (fst r))) = bs /\
                     Z.of_nat (List.length (snd r)) = ts) records ->
    (List.length records <= fuel)%nat ->
    collect_vb fuel (Some (vb0_bytes records)) (ps, bs, ts)
    = Some (List.concat (map (fun r => fst (fst r)) records),
            List.concat (map (fun r => snd (fst r)) records),
            List.concat (map (fun r => snd r) records)).
Proof.
  intros ps bs ts records fuel Hps Hbs Hts Htot Hall Hfuel.
  unfold collect_vb.
  exact (collect_vb_loop_spec ps bs ts Hps Hbs Hts Htot records fuel [] [] [] [] Hall Hfuel).
Qed.

Lemma collect_vb_splits_records_witness :
  collect_vb 2
    (Some (vb0_bytes [([Byte.x01; Byte.x02], [Byte.x03], []);
                      ([Byte.x04; Byte.x05], [Byte.x06], [])]))
    (2, 1, 0)
  = Some ([Byte.x01; Byte.x02; Byte.x04; Byte.x05], [Byte.x03; Byte.x06], []).
Proof.
  apply (collect_vb_splits_records 2 1 0
           [([Byte.x01; Byte.x02], [Byte.x03], []);
            ([Byte.x04; Byte.x05], [Byte.x06], [])] 2); try lia.
  - repeat constructor.
  - cbn. lia.
Defined.

(** *** [collect_ib] *)

Lemma byte_of_Z_value (z : Z) : Z.of_N (Byte.to_N (byte_of_Z z)) = z mod 256.
Proof.
  unfold byte_of_Z.
  assert (Hr : 0 <= z mod 256 < 256) by (apply Z.mod_pos_bound; lia).
  destruct (Byte.of_N (Z.to_N (z mod 256))) as [b |] eqn:Hb.
  - apply Byte.to_of_N in Hb. rewrite Hb. apply Z2N.id. lia.
  - apply Byte.of_N_None_iff in Hb. lia.
Qed.

Lemma byte_value_bound (x : Byte.byte) : 0 <= Z.of_N (Byte.to_N x) < 256.
Proof. pose proof (Byte.to_N_bounded x). lia. Qed.

Lemma byte_of_Z_of_value (x : Byte.byte) (v : Z) :
  byte_of_Z (Z.of_N (Byte.to_N x) + 256 * v) = x.
Proof.
  unfold byte_of_Z.
  pose proof (byte_value_bound x) as Hx.
  replace ((Z.of_N (Byte.to_N x) + 256 * v) mod 256) with (Z.of_N (Byte.to_N x)).
  - rewrite N2Z.id, Byte.of_to_N. reflexivity.
  - replace (Z.of_N (Byte.to_N x) + 256 * v) with (Z.of_N (Byte.to_N x) + v * 256) by lia.
    rewrite Z.mod_add by lia.
    symmetry. apply Z.mod_small. exact Hx.
Qed.

Lemma le_value_bound (b : bytes) : 0 <= le_value b < 256 ^ Z.of_nat (List.length b).
Proof.
  induction b as [| x b IH]; cbn [le_value List.length]; [cbn; lia |].
  rewrite Nat2Z.inj_succ, Z.pow_succ_r by lia.
  pose proof (byte_value_bound x). lia.
Qed.

(** Reading back the bytes written for [z] gives [z] reduced to their
    width. *)
Lemma le_value_le_bytes (n : nat) :
  forall z : Z, le_value (le_bytes n z) = z mod 256 ^ Z.of_nat n.
Proof.
  induction n as [| n IH]; intros z; cbn [le_bytes le_value].
  - cbn. rewrite Z.mod_1_r. reflexivity.
  - rewrite byte_of_Z_value, IH, Nat2Z.inj_succ, Z.pow_succ_r by lia.
    symmetry. apply Z.rem_mul_r; [lia |]. apply Z.pow_pos_nonneg; lia.
Qed.

(** Writing the value of a byte string at its width gives the string
    back. *)
Lemma le_bytes_le_value (b : bytes) : le_bytes (List.length b) (le_value b) = b.
Proof.
  induction b as [| x b IH]; cbn [le_bytes le_value List.length]; [reflexivity |].
  rewrite byte_of_Z_of_value. f_equal.
  pose proof (byte_value_bound x) as Hx.
  replace ((Z.of_N (Byte.to_N x) + 256 * le_value b) / 256) with (le_value b); [exact IH |].
  replace (Z.of_N (Byte.to_N x) + 256 * le_value b)
    with (Z.of_N (Byte.to_N x) + le_value b * 256) by lia.
  rewrite Z.div_add by lia.
  rewrite (Z.div_small _ 256) by exact Hx. lia.
Qed.

Lemma le_bytes_length (n : nat) : forall z, List.length (le_bytes n z) = n.
Proof. induction n as [| n IH]; intros z; cbn; [reflexivity | f_equal; apply IH]. Qed.

Lemma index_bytes_cons (v : Z) (idx : list Z) :
  index_bytes (v :: idx) = le_bytes 4 v ++ index_bytes idx.
Proof. reflexivity. Qed.

Lemma index_bytes_length (idx : list Z) :
  List.length (index_bytes idx) = (4 * List.length idx)%nat.
Proof.
  induction idx as [| v idx IH]; [reflexivity |].
  rewrite index_bytes_cons, length_app, le_bytes_length, IH. cbn. lia.
Qed.

Lemma collect_ib_loop_complete (offset : Z) (idx : list Z) :
  Forall (fun v => 0 <= v < 2 ^ 32 /\ 0 <= v + offset < 2 ^ 32) idx ->
  forall (fuel : nat) (pre ib : bytes),
    (List.length idx <= fuel)%nat ->
    collect_ib_loop fuel offset (pre ++ index_bytes idx) (Z.of_nat (List.length pre)) ib
    = Some (inr (ib ++ index_bytes (map (fun v => v + offset) idx))).
Proof.
  induction 1 as [| v idx [Hv Hsh] _ IH]; intros fuel pre ib Hfuel.
  - cbn [index_bytes map List.concat]. rewrite !app_nil_r.
    destruct fuel; cbn [collect_ib_loop];
      destruct (Z.ltb_spec (Z.of_nat (List.length pre)) (Z.of_nat (List.length pre)));
      try lia; reflexivity.
  - destruct fuel as [| fuel]; [cbn in Hfuel; lia |].
    cbn [collect_ib_loop].
    rewrite index_bytes_cons.
    set (data := pre ++ le_bytes 4 v ++ index_bytes idx).
    assert (Hlen : Z.of_nat (List.length pre) < Z.of_nat (List.length data)).
    { unfold data. rewrite !length_app, le_bytes_length. lia. }
    destruct (Z.ltb_spec (Z.of_nat (List.length pre)) (Z.of_nat (List.length data)));
      [| lia].
    assert (Hword : slice data (Z.of_nat (List.length pre)) (Z.of_nat (List.length pre) + 4)
                    = le_bytes 4 v).
    { rewrite slice_firstn_skipn by lia. rewrite Nat2Z.id.
      unfold data. rewrite skipn_length_app.
      replace (Z.to_nat 4) with (List.length (le_bytes 4 v)) by apply le_bytes_length.
      apply firstn_length_app. }
    rewrite Hword. unfold unpack_1I. rewrite le_bytes_length. cbn [Nat.eqb].
    rewrite le_value_le_bytes.
    change (256 ^ Z.of_nat 4) with (2 ^ 32). rewrite Z.mod_small by exact Hv.
    unfold pack_1I.
    destruct (Z.leb_spec 0 (v + offset)); [| lia].
    destruct (Z.ltb_spec (v + offset) (2 ^ 32)); [| lia].
    cbn [andb].
    replace (Z.of_nat (List.length pre) + 4)
      with (Z.of_nat (List.length (pre ++ le_bytes 4 v)))
      by (rewrite length_app, le_bytes_length; lia).
    unfold data. rewrite app_assoc.
    rewrite IH by (cbn in Hfuel; lia).
    cbn [map]. rewrite index_bytes_cons, <- app_assoc. reflexivity.
Qed.

Lemma collect_ib_loop_sound (offset : Z) (data : bytes) :
  forall (fuel : nat) (i : Z) (ib out : bytes),
    0 <= i ->
    collect_ib_loop fuel offset data i ib = Some (inr out) ->
    exists idx : list Z,
      skipn (Z.to_nat i) data = index_bytes idx /\
      Forall (fun v => 0 <= v < 2 ^ 32 /\ 0 <= v + offset < 2 ^ 32) idx /\
      out = ib ++ index_bytes (map (fun v => v + offset) idx).
Proof.
  induction fuel as [| fuel IH]; intros i ib out Hi; cbn [collect_ib_loop];
    destruct (Z.ltb_spec i (Z.of_nat (List.length data))) as [Hin | Hout];
    try discriminate.
  - intros [= <-]. exists []. rewrite skipn_all2 by lia.
    cbn. rewrite app_nil_r. repeat split. constructor.
  - rewrite slice_firstn_skipn by lia.
    set (w := firstn (Z.to_nat 4) (skipn (Z.to_nat i) data)).
    unfold unpack_1I.
    destruct (Nat.eqb_spec (List.length w) 4) as [Hw | _]; [| discriminate].
    unfold pack_1I.
    destruct (Z.leb_spec 0 (le_value w + offset)); [| discriminate].
    destruct (Z.ltb_spec (le_value w + offset) (2 ^ 32)); [| discriminate].
    cbn [andb]. intros Hrun.
    destruct (IH (i + 4) _ out ltac:(lia) Hrun) as (idx & Hrest & Hall & Hout').
    exists (le_value w :: idx).
    split; [| split].
    + rewrite index_bytes_cons, <- Hrest.
      replace (le_bytes 4 (le_value w)) with w
        by (rewrite <- Hw at 1; symmetry; apply le_bytes_le_value).
      replace (Z.to_nat (i + 4)) with (Z.to_nat i + Z.to_nat 4)%nat by lia.
      apply skipn_split.
    + constructor; [| exact Hall].
      pose proof (le_value_bound w) as Hb. rewrite Hw in Hb.
      change (256 ^ Z.of_nat 4) with (2 ^ 32) in Hb.
      split; lia.
    + rewrite Hout'. cbn [map]. rewrite index_bytes_cons, <- app_assoc. reflexivity.
  - intros [= <-]. exists []. rewrite skipn_all2 by lia.
    cbn. rewrite app_nil_r. repeat split. constructor.
Qed.

Lemma collect_ib_loop_ends (offset : Z) (data : bytes) :
  forall (fuel : nat) (i : Z) (ib : bytes),
    0 <= i ->
    (List.length data - Z.to_nat i <= fuel)%nat ->
    collect_ib_loop fuel offset data i ib <> None.
Proof.
  induction fuel as [| fuel IH]; intros i ib Hi Hfuel; cbn [collect_ib_loop];
    destruct (Z.ltb_spec i (Z.of_nat (List.length data))); try lia; try discriminate.
  destruct (unpack_1I _); [discriminate |].
  destruct (pack_1I _); [discriminate |].
  apply IH; lia.
Qed.

(** X4.  [collect_ib] always ends, and it succeeds exactly on the files
    that are a sequence of 32-bit words each of which, shifted by the
    offset, still fits 32 bits; the result then holds the shifted words
    in the same order.  A file with a ragged end or a word that leaves
    the range makes it raise. *)
Theorem collect_ib_rebases_words :
  forall (data : bytes) (offset : Z),
    collect_ib (Some data) offset <> None /\
    forall out : bytes,
      collect_ib (Some data) offset = Some (inr out) <->
      exists idx : list Z,
        data = index_bytes idx /\
        Forall (fun v => 0 <= v < 2 ^ 32 /\ 0 <= v + offset < 2 ^ 32) idx /\
        out = index_bytes (map (fun v => v + offset) idx).
Proof.
  intros data offset. unfold collect_ib. split.
  - apply collect_ib_loop_ends; cbn; lia.
  - intros out. split.
    + intros Hrun.
      destruct (collect_ib_loop_sound offset data _ 0 [] out ltac:(lia) Hrun)
        as (idx & Hd & Hall & Hout).
      exists idx. cbn in Hd. repeat split; assumption.
    + intros (idx & -> & Hall & ->).
      apply (collect_ib_loop_complete offset idx Hall _ [] []).
      rewrite index_bytes_length. lia.
Qed.

End IntermediateFiles.

(** ** The shape key buffer *)

Section ShapeKeyBuffer.
Import NumpyFloat Blender ShapeKeys Examples.

Lemma sk_rows_defined (n : nat) (co : list Vector) :
  List.length co = n ->
  sk_rows n co
  = Some (map (fun p => {| VERTEX_INDEX := Z.of_nat (fst p); POSITION := snd p |})
              (combine (seq 0 n) co)).
Proof.
  intros H. unfold sk_rows. rewrite (proj2 (Nat.eqb_eq _ _) H). reflexivity.
Qed.

Lemma delete_unmoved_from (basis : list Vector) :
  forall (co : list Vector) (s : nat),
    List.length co = List.length basis ->
    delete_unmoved
      (map (fun p => {| VERTEX_INDEX := Z.of_nat (fst p); POSITION := snd p |})
           (combine (seq s (List.length basis)) basis))
      (map (fun p => {| VERTEX_INDEX := Z.of_nat (fst p); POSITION := snd p |})
           (combine (seq s (List.length basis)) co))
    = map (fun p => {| VERTEX_INDEX := Z.of_nat (fst p); POSITION := snd (snd p) |})
          (filter (fun p => negb (position_eqb (snd (snd p)) (fst (snd p))))
                  (combine (seq s (List.length basis)) (combine basis co))).
Proof.
  unfold delete_unmoved.
  induction basis as [| b basis IH]; intros co s Hlen; [reflexivity |].
  destruct co as [| c co]; [discriminate |].
  cbn [List.length seq combine map filter fst snd POSITION].
  cbn in Hlen. injection Hlen as Hlen.
  specialize (IH co (S s) Hlen).
  destruct (position_eqb c b); cbn [negb map snd fst]; [exact IH |].
  f_equal. exact IH.
Qed.

Lemma delete_unmoved_moved (n : nat) (basis co : list Vector) :
  List.length basis = n -> List.length co = n ->
  delete_unmoved
    (map (fun p => {| VERTEX_INDEX := Z.of_nat (fst p); POSITION := snd p |})
         (combine (seq 0 n) basis))
    (map (fun p => {| VERTEX_INDEX := Z.of_nat (fst p); POSITION := snd p |})
         (combine (seq 0 n) co))
  = moved basis co.
Proof.
  intros Hb Hc. subst n. apply delete_unmoved_from. exact Hc.
Qed.

Lemma collect_keys_further (n : nat) (basis : list Vector) :
  List.length basis = n ->
  forall (others : list (list Vector)) (i : nat) (sk_datas : list (list sk_record)),
    i <> 0%nat ->
    Forall (fun co => List.length co = n) others ->
    nth_error sk_datas 0
    = Some (map (fun p => {| VERTEX_INDEX := Z.of_nat (fst p); POSITION := snd p |})
                (combine (seq 0 n) basis)) ->
    collect_keys n i others sk_datas = Some (sk_datas ++ map (moved basis) others).
Proof.
  intros Hb. induction others as [| co others IH]; intros i sk_datas Hi Hall Hhead.
  - cbn. rewrite app_nil_r. reflexivity.
  - inversion Hall as [| ? ? Hco Hrest]; subst.
    cbn [collect_keys]. rewrite (sk_rows_defined _ co Hco).
    destruct (Nat.eqb_spec i 0) as [| _]; [contradiction |]. cbn [negb].
    rewrite Hhead, (delete_unmoved_moved _ basis co eq_refl Hco).
    rewrite IH; [| discriminate | exact Hrest |].
    + rewrite <- app_assoc. reflexivity.
    + destruct sk_datas; [discriminate | exact Hhead].
Qed.

Lemma skipn_repeat_add {A : Type} (x : A) (k n : nat) :
  skipn k (repeat x (k + n)) = repeat x n.
Proof. induction k as [| k IH]; [reflexivity | exact IH]. Qed.

Lemma fill_buffer_further :
  forall (ds : list (list sk_record)) (i : nat) (offset_count : list nat)
         (done : list sk_record) (m : nat),
    i <> 0%nat ->
    fill_buffer i ds
      (offset_count, List.length done,
       done ++ repeat zero_record (list_sum (map (@List.length sk_record) ds) + m))
    = Some (offset_count
              ++ map (fun k => (List.length done + List.length (List.concat (firstn k ds)))%nat)
                     (seq 0 (List.length ds)),
            (List.length done + list_sum (map (@List.length sk_record) ds))%nat,
            done ++ List.concat ds ++ repeat zero_record m).
Proof.
  induction ds as [| d ds IH]; intros i offset_count done m Hi.
  - cbn. rewrite app_nil_r, Nat.add_0_r. reflexivity.
  - cbn [fill_buffer]. destruct (Nat.eqb_spec i 0) as [| _]; [contradiction |].
    cbn [map].
    change (list_sum (List.length d :: map (@List.length sk_record) ds))
      with (List.length d + list_sum (map (@List.length sk_record) ds))%nat.
    set (rest := list_sum (map (@List.length sk_record) ds)).
    unfold assign_slice.
    rewrite length_app, repeat_length.
    destruct (Nat.leb_spec (List.length done + List.length d)
                           (List.length done + (List.length d + rest + m))); [| lia].
    rewrite firstn_length_app.
    replace (skipn (List.length done + List.length d)
               (done ++ repeat zero_record (List.length d + rest + m)))
      with (repeat zero_record (rest + m)).
    2:{ rewrite skipn_app, skipn_all2 by lia. cbn [app].
        replace (List.length done + List.length d - List.length done)%nat
          with (List.length d) by lia.
        replace (List.length d + rest + m)%nat with (List.length d + (rest + m))%nat by lia.
        symmetry. apply skipn_repeat_add. }
    replace (List.length done + List.length d)%nat with (List.length (done ++ d))
      by apply length_app.
    rewrite app_assoc. subst rest.
    rewrite (IH (S i) (offset_count ++ [List.length done]) (done ++ d) m) by discriminate.
    f_equal. f_equal; [f_equal |].
    + rewrite <- app_assoc. f_equal. cbn [List.length seq map app firstn List.concat].
      rewrite Nat.add_0_r. f_equal.
      rewrite <- seq_shift, map_map. apply map_ext. intros k.
      cbn [firstn List.concat]. rewrite !length_app. lia.
    + rewrite length_app. lia.
    + cbn [List.concat]. rewrite <- !app_assoc. reflexivity.
Qed.

(** X5.  For a mesh of [n] vertices with a basis and further shape
    keys, [shapekey_generation] returns the records of the vertices each
    key moves away from the basis, one key after the other and within a
    key in the order of the vertices, followed by [n] zero records: the
    basis is counted in the size of the buffer but never written.  The
    offset of a key is the number of records of the keys before it. *)
Theorem shapekey_generation_layout :
  forall (n : nat) (basis : list Vector) (others : list (list Vector)),
    List.length basis = n ->
    Forall (fun co => List.length co = n) others ->
    shapekey_generation n (Some (basis :: others))
    = Some (map (fun k => List.length (List.concat (map (moved basis) (firstn k others))))
                (seq 0 (List.length others)),
            List.concat (map (moved basis) others) ++ repeat zero_record n).
Proof.
  intros n basis others Hb Hall. unfold shapekey_generation.
  cbn [collect_keys]. rewrite (sk_rows_defined _ basis Hb). cbn [Nat.eqb negb app].
  rewrite (collect_keys_further n basis Hb others 1) by (try assumption; try discriminate; reflexivity).
  cbn [app map list_sum fill_buffer Nat.eqb].
  rewrite length_map, length_combine, length_seq, Hb, Nat.min_id.
  match goal with
  | |- context [repeat zero_record (list_sum (n :: ?l))] =>
      change (list_sum (n :: l)) with (n + list_sum l)%nat;
      rewrite (Nat.add_comm n (list_sum l))
  end.
  pose proof (fill_buffer_further (map (moved basis) others) 1 [] [] n) as H.
  cbn [List.length app Nat.add] in H. rewrite H by discriminate.
  f_equal. f_equal.
  rewrite length_map. apply map_ext. intros k.
  rewrite firstn_map. reflexivity.
Qed.

(** The theorem applies to two vertices and one key that moves the
    second of them: one record, then the two zero records. *)
Lemma shapekey_generation_layout_witness :
  shapekey_generation 2
    (Some [[(fzero, fzero, fzero); (fone, fzero, fzero)];
           [(fzero, fzero, fzero); (fone, fone, fzero)]])
  = Some ([0%nat],
          [{| VERTEX_INDEX := 1; POSITION := (fone, fone, fzero) |};
           zero_record; zero_record]).
Proof.
  apply (shapekey_generation_layout 2
           [(fzero, fzero, fzero); (fone, fzero, fzero)]
           [[(fzero, fzero, fzero); (fone, fone, fzero)]]).
  - reflexivity.
  - repeat constructor.
Defined.

End ShapeKeyBuffer.

(** ** The sub-objects of a part *)

Section SubObjects.
Import Scene.
Context {M : Type} (process_mesh : SceneObject -> SceneObject -> M).

Lemma In_insert_by_name (x y : SceneObject) (l : list SceneObject) :
  In y (insert_by_name x l) <-> y = x \/ In y l.
Proof.
  induction l as [| z l IH]; cbn [insert_by_name].
  - cbn. intuition congruence.
  - destruct (String.ltb (obj_name x) (obj_name z)); cbn [In].
    + intuition congruence.
    + rewrite IH. intuition congruence.
Qed.

Lemma In_sorted_by_name (y : SceneObject) (l : list SceneObject) :
  In y (sorted_by_name l) <-> In y l.
Proof.
  unfold sorted_by_name.
  assert (H : forall acc, In y (fold_left (fun acc x => insert_by_name x acc) l acc)
                          <-> In y l \/ In y acc).
  { induction l as [| x l IH]; intros acc; cbn [fold_left In].
    - tauto.
    - rewrite IH, In_insert_by_name. intuition congruence. }
  rewrite H. cbn. tauto.
Qed.

(** The objects listed for a collection are its mesh objects that pass
    the two filters. *)
Lemma In_listed_objects (flags : Flags) (os : list SceneObject) (o : SceneObject) :
  In o (listed_objects flags os) <-> In o os /\ listed flags o = true.
Proof.
  unfold listed_objects, listed. rewrite In_sorted_by_name.
  destruct (ignore_hidden flags), (only_selected flags); cbn [negb orb];
    rewrite ?filter_In, ?andb_true_iff, ?andb_true_r; tauto.
Qed.

Lemma Collection_nested_ind (P : Collection -> Prop) :
  (forall cname cobjects cchildren,
      Forall P cchildren -> P (mkCollection cname cobjects cchildren)) ->
  forall c, P c.
Proof.
  intros H. fix IH 1. intros [cname cobjects cchildren]. apply H.
  induction cchildren as [| child cs IHcs]; constructor; [apply IH | exact IHcs].
Qed.

Lemma with_main_nonempty (main_obj : SceneObject) (dst : list (SubObj (M := M)))
    (depth : nat) :
  dst <> [] -> with_main process_mesh main_obj dst depth = dst.
Proof. destruct dst; [contradiction | reflexivity]. Qed.

Lemma nested_inv (c : Collection) (d : nat) (c' : Collection) :
  nested c d c' ->
  (d = 0%nat /\ c' = c) \/
  (exists child d', d = S d' /\ In child (children c) /\ nested child d' c').
Proof.
  intros H. destruct H as [c | c child d c' Hin Hn].
  - left. split; reflexivity.
  - right. exists child, d. repeat split; assumption.
Qed.

(** What a call on a collection appends: the listed objects of every
    collection of the tree, each at the depth of its collection. *)
Lemma walk_collection_spec (flags : Flags) (main_obj : SceneObject) (c : Collection) :
  forall (dst : list SubObj) (depth : nat),
  exists added : list SubObj,
    walk_collection process_mesh flags main_obj c dst depth
    = with_main process_mesh main_obj dst depth ++ added /\
    forall e : SubObj,
      In e added <->
      exists (d : nat) (c' : Collection) (o : SceneObject),
        nested c d c' /\ In o (objects c') /\ listed flags o = true /\
        e = sub_obj process_mesh (col_name c') (depth + d) main_obj o.
Proof.
  induction c as [cname cobjects cchildren IHc] using Collection_nested_ind.
  intros dst depth. cbn [walk_collection].
  set (own := map (fun o => sub_obj process_mesh cname depth main_obj o)
                  (listed_objects flags cobjects)).
  set (d0 := with_main process_mesh main_obj dst depth).
  assert (Hd0 : d0 <> []).
  { unfold d0, with_main. destruct dst; cbn; discriminate. }
  assert (Hkids : forall (cs : list Collection), Forall
            (fun c => forall dst depth, exists added,
               walk_collection process_mesh flags main_obj c dst depth
               = with_main process_mesh main_obj dst depth ++ added /\
               forall e, In e added <->
                 exists d c' o, nested c d c' /\ In o (objects c') /\
                   listed flags o = true /\
                   e = sub_obj process_mesh (col_name c') (depth + d) main_obj o) cs ->
            forall (acc : list SubObj), acc <> [] ->
            exists added,
              fold_left (fun dst child =>
                           walk_collection process_mesh flags main_obj child dst (S depth))
                        cs acc = acc ++ added /\
              forall e, In e added <->
                exists child d c' o, In child cs /\ nested child d c' /\
                  In o (objects c') /\ listed flags o = true /\
                  e = sub_obj process_mesh (col_name c') (S depth + d) main_obj o).
  { induction cs as [| child cs IHcs]; intros Hall acc Hacc.
    - exists []. cbn [fold_left]. rewrite app_nil_r. split; [reflexivity |].
      intros e. split; [intros [] | intros (child & _ & _ & _ & [] & _)].
    - inversion Hall as [| ? ? Hchild Hrest]; subst.
      destruct (Hchild acc (S depth)) as (a1 & Hrun1 & Hin1).
      rewrite (with_main_nonempty _ _ _ Hacc) in Hrun1.
      destruct (IHcs Hrest (acc ++ a1)) as (a2 & Hrun2 & Hin2).
      { destruct acc; [contradiction | discriminate]. }
      exists (a1 ++ a2). cbn [fold_left]. rewrite Hrun1, Hrun2, app_assoc.
      split; [reflexivity |].
      intros e. rewrite in_app_iff, Hin1, Hin2. split.
      + intros [(d & c' & o & H) | (ch & d & c' & o & Hch & H)].
        * exists child, d, c', o. split; [left; reflexivity | exact H].
        * exists ch, d, c', o. split; [right; exact Hch | exact H].
      + intros (ch & d & c' & o & [<- | Hch] & H).
        * left. exists d, c', o. exact H.
        * right. exists ch, d, c', o. split; [exact Hch | exact H]. }
  destruct (Hkids cchildren IHc (d0 ++ own)) as (kids & Hrun & Hin).
  { destruct d0; [contradiction | discriminate]. }
  exists (own ++ kids). rewrite Hrun, app_assoc. split; [reflexivity |].
  intros e. rewrite in_app_iff, Hin. unfold own. rewrite in_map_iff. split.
  - intros [(o & <- & Ho) | (child & d & c' & o & Hch & Hn & Ho & Hl & ->)].
    + apply In_listed_objects in Ho. destruct Ho as [Ho Hl].
      exists 0%nat, (mkCollection cname cobjects cchildren), o.
      rewrite Nat.add_0_r. repeat split; try assumption. constructor.
    + exists (S d), c', o. repeat split; try assumption.
      * apply (nested_child _ child); assumption.
      * f_equal. lia.
  - intros (d & c' & o & Hn & Ho & Hl & ->).
    apply nested_inv in Hn. destruct Hn as [[-> ->] | (child & d' & -> & Hch & Hn)].
    + left. exists o. rewrite Nat.add_0_r. split; [reflexivity |].
      apply In_listed_objects. split; assumption.
    + right. exists child, d', c', o. repeat split; try assumption.
      f_equal. lia.
Qed.

(** X6.  Starting from an empty destination, [obj_from_col] puts the
    main object first, with an empty collection name, and after it
    exactly the mesh objects of the collection tree that pass the
    hidden and selected filters, each with the name of its collection
    and with the nesting level of that collection as depth.  Without a
    collection the main object is the only entry. *)
Theorem obj_from_col_lists_tree :
  forall (flags : Flags) (main_obj : SceneObject) (depth : nat),
    obj_from_col process_mesh flags main_obj None [] depth
    = [sub_obj process_mesh "" depth main_obj main_obj] /\
    forall c : Collection,
    exists rest : list SubObj,
      obj_from_col process_mesh flags main_obj (Some c) [] depth
      = sub_obj process_mesh "" depth main_obj main_obj :: rest /\
      forall e : SubObj,
        In e rest <->
        exists (d : nat) (c' : Collection) (o : SceneObject),
          nested c d c' /\ In o (objects c') /\ listed flags o = true /\
          e = sub_obj process_mesh (col_name c') (depth + d) main_obj o.
Proof.
  intros flags main_obj depth. split; [reflexivity |].
  intros c. cbn [obj_from_col].
  destruct (walk_collection_spec flags main_obj c [] depth) as (added & Hrun & Hin).
  exists added. split; [exact Hrun | exact Hin].
Qed.

End SubObjects.

(** ** Format requirements of a mesh *)

Section MeshRequirements.
Import Py Translation Requirements.

Lemma has_In (names : list string) (n : string) : has names n = true <-> In n names.
Proof.
  unfold has. rewrite existsb_exists. split.
  - intros (x & Hx & E). apply String.eqb_eq in E. subst. exact Hx.
  - intros H. exists n. split; [exact H | apply String.eqb_refl].
Qed.

Lemma has_false (names : list string) (n : string) : has names n = false <-> ~ In n names.
Proof.
  rewrite <- has_In. destruct (has names n); split; congruence.
Qed.

Lemma Semantic_eqb_eq (a b : Semantic) : Semantic_eqb a b = true <-> a = b.
Proof. destruct a, b; cbn; split; congruence. Qed.

(** The semantics for which the check raises. *)
Lemma check_semantic_raises (obj : ObjectInfo) (mesh : MeshAttributes)
    (sem : BufferSemantic) :
  raises (check_semantic obj mesh sem) = true <->
  (enum sem = Color /\ ~ In (abs_name sem) (vertex_colors mesh)) \/
  (enum sem = TexCoord /\ ~ In (abs_name sem) (uv_layers mesh)).
Proof.
  unfold check_semantic.
  destruct (Semantic_eqb (enum sem) Color) eqn:EC; cbn [andb].
  - apply Semantic_eqb_eq in EC.
    destruct (has (vertex_colors mesh) (abs_name sem)) eqn:HC; cbn [negb].
    + apply has_In in HC.
      rewrite EC. cbn [Semantic_eqb andb raises].
      split; [discriminate | intros [[_ H] | [H _]]; [contradiction | discriminate]].
    + apply has_false in HC. cbn [raises]. split; [intros _; left; tauto | reflexivity].
  - assert (HnC : enum sem <> Color)
      by (intros H; apply Semantic_eqb_eq in H; congruence).
    destruct (Semantic_eqb (enum sem) TexCoord) eqn:ET; cbn [andb].
    + apply Semantic_eqb_eq in ET.
      destruct (has (uv_layers mesh) (abs_name sem)) eqn:HU; cbn [negb].
      * apply has_In in HU. rewrite ET. cbn [Semantic_eqb raises].
        split; [discriminate | intros [[H _] | [_ H]]; [congruence | contradiction]].
      * apply has_false in HU. cbn [raises]. split; [intros _; right; tauto | reflexivity].
    + assert (HnT : enum sem <> TexCoord)
        by (intros H; apply Semantic_eqb_eq in H; congruence).
      destruct (Semantic_eqb (enum sem) Blendweight); cbn [raises];
        (split; [discriminate | intros [[H _] | [H _]]; contradiction]).
Qed.

Lemma check_all_raises (obj : ObjectInfo) (mesh : MeshAttributes)
    (sems : list BufferSemantic) :
  raises (check_all obj mesh sems) = true <->
  exists sem, In sem sems /\ raises (check_semantic obj mesh sem) = true.
Proof.
  induction sems as [| sem sems IH]; cbn [check_all].
  - cbn. split; [discriminate | intros (_ & [] & _)].
  - destruct (check_semantic obj mesh sem) as [w |] eqn:E; cbn [bind].
    + assert (Hrest : raises (bind (check_all obj mesh sems) (fun ws => Ok (w ++ ws)))
                      = raises (check_all obj mesh sems))
        by (destruct (check_all obj mesh sems); reflexivity).
      rewrite Hrest, IH. split.
      * intros (s & Hs & Hr). exists s. split; [right; exact Hs | exact Hr].
      * intros (s & [<- | Hs] & Hr); [rewrite E in Hr; discriminate |].
        exists s. split; assumption.
    + cbn [raises]. split; [| reflexivity].
      intros _. exists sem. split; [left; reflexivity | rewrite E; reflexivity].
Qed.

Lemma check_semantic_only_Fatal (obj : ObjectInfo) (mesh : MeshAttributes)
    (sem : BufferSemantic) (e : exn) :
  check_semantic obj mesh sem = Raise e -> exists msg, e = Fatal msg.
Proof.
  unfold check_semantic, missing_color, missing_uv.
  repeat match goal with
         | |- context [if ?b then _ else _] => destruct b
         end; intros [=]; subst; eexists; reflexivity.
Qed.

(** X7.  [verify_mesh_requirements] aborts exactly when a buffer that
    is not excluded holds a colour semantic whose attribute the mesh
    lacks, or a texcoord semantic whose uv layer it lacks; what it raises
    is a [Fatal].  Missing vertex groups and vertices with more groups
    than the format supports are only reported as warnings. *)
Theorem verify_mesh_requirements_fatal_iff :
  forall (obj : ObjectInfo) (mesh : MeshAttributes)
         (buffers_format : BuffersFormat) (excluded_buffers : list string),
    (raises (verify_mesh_requirements obj mesh buffers_format excluded_buffers) = true <->
     exists (key : string) (layout : list BufferSemantic) (sem : BufferSemantic),
       In (key, layout) buffers_format /\
       ~ In key excluded_buffers /\
       In sem layout /\
       ((enum sem = Color /\ ~ In (abs_name sem) (vertex_colors mesh)) \/
        (enum sem = TexCoord /\ ~ In (abs_name sem) (uv_layers mesh)))) /\
    (forall e : exn,
        verify_mesh_requirements obj mesh buffers_format excluded_buffers = Raise e ->
        exists msg, e = Fatal msg).
Proof.
  intros obj mesh buffers_format excluded_buffers. unfold verify_mesh_requirements. split.
  - rewrite check_all_raises. unfold semantics_to_check. split.
    + intros (sem & Hin & Hr). apply in_flat_map in Hin.
      destruct Hin as ([key layout] & Hkv & Hsem). cbn [fst snd] in Hsem.
      destruct (has excluded_buffers key) eqn:Hex; [destruct Hsem |].
      exists key, layout, sem. repeat split; try assumption.
      * apply has_false. exact Hex.
      * exact (proj1 (check_semantic_raises obj mesh sem) Hr).
    + intros (key & layout & sem & Hkv & Hex & Hsem & Hcase).
      exists sem. split; [| exact (proj2 (check_semantic_raises obj mesh sem) Hcase)].
      apply in_flat_map. exists (key, layout). split; [exact Hkv |].
      cbn [fst snd]. rewrite (proj2 (has_false _ _) Hex). exact Hsem.
  - generalize (semantics_to_check buffers_format excluded_buffers) as sems.
    induction sems as [| sem sems IH]; intros e; cbn [check_all]; [discriminate |].
    destruct (check_semantic obj mesh sem) as [w |] eqn:E; cbn [bind].
    + destruct (check_all obj mesh sems) as [ws |] eqn:E2; cbn [bind]; [discriminate |].
      intros [= <-]. apply IH. reflexivity.
    + intros [= <-]. apply (check_semantic_only_Fatal obj mesh sem). exact E.
Qed.

End MeshRequirements.

(** ** Index and vertex buffers fit together *)

Section BuffersFit.
Import NumpyFloat Layout Py Blender Assembler Bytes IndexBuilder Examples.
Local Open Scope py_scope.

Lemma Forall2_nth_error_left {A B : Type} (R : A -> B -> Prop) (l : list A) (l' : list B) :
  Forall2 R l l' ->
  forall (k : nat) (a : A) (b : B),
    nth_error l k = Some a -> nth_error l' k = Some b -> R a b.
Proof.
  induction 1 as [| x y l l' Hxy _ IH]; intros k a b Ha Hb.
  - destruct k; discriminate.
  - destruct k as [| k]; cbn in Ha, Hb.
    + injection Ha as <-. injection Hb as <-. exact Hxy.
    + exact (IH k a b Ha Hb).
Qed.

Lemma Forall2_rev {A B : Type} (R : A -> B -> Prop) (l : list A) (l' : list B) :
  Forall2 R l l' -> Forall2 R (rev l) (rev l').
Proof.
  induction 1 as [| x y l l' Hxy _ IH]; cbn [rev]; [constructor |].
  apply Forall2_app; [exact IH | constructor; [exact Hxy | constructor]].
Qed.

Lemma Forall2_map_nth_error {A : Type} (vb : list A) (f : nat -> A)
    (ls face : list nat) :
  Forall2 (fun l i => nth_error vb i = Some (f l)) ls face ->
  map (nth_error vb) face = map (fun l => Some (f l)) ls /\
  Forall (fun i => (i < List.length vb)%nat) face.
Proof.
  induction 1 as [| l i ls face Hli _ [IHm IHf]]; cbn [map];
    [split; [reflexivity | constructor] |].
  split.
  - rewrite Hli, IHm. reflexivity.
  - constructor; [| exact IHf]. apply nth_error_Some. congruence.
Qed.

Section LegacyPath.
Context {V : Type} (eqb : V -> V -> bool) (vertex_of : nat -> V).
Hypothesis eqb_spec : forall a b : V, eqb a b = true <-> a = b.

(** X8.  [export_3dmigoto] with an index buffer: the vertex buffer
    holds no record twice, there is one face per polygon, and reading
    the vertex buffer at the indices of a face gives back the vertices
    of the corners of its polygon, in the order of the corners, reversed
    when the winding is flipped. *)
Theorem export_3dmigoto_faces_read_back :
  forall (n_loops : nat) (flip_winding : bool) (polys : list MeshPolygon)
         (ib : list (list nat)) (vb : list V),
    export_3dmigoto eqb vertex_of n_loops flip_winding polys = (ib, vb) ->
    NoDup vb /\
    List.length ib = List.length polys /\
    forall (k : nat) (p : MeshPolygon) (face : list nat),
      nth_error polys k = Some p ->
      nth_error ib k = Some face ->
      map (nth_error vb) face
      = map (fun l => Some (vertex_of l))
            (if flip_winding then rev (poly_loops n_loops p) else poly_loops n_loops p) /\
      Forall (fun i => (i < List.length vb)%nat) face.
Proof.
  intros n_loops flip_winding polys ib vb Hrun.
  destruct (export_3dmigoto_indexes_own_corner eqb vertex_of eqb_spec
              n_loops flip_winding polys ib vb Hrun) as [Hnd Hall].
  split; [exact Hnd |]. split; [symmetry; exact (Forall2_length Hall) |].
  intros k p face Hp Hf.
  pose proof (Forall2_nth_error_left _ _ _ Hall k p face Hp Hf) as Hface.
  cbn beta in Hface.
  apply Forall2_map_nth_error.
  destruct flip_winding; [| exact Hface].
  apply Forall2_rev in Hface. rewrite rev_involutive in Hface. exact Hface.
Qed.

End LegacyPath.

(** The theorem applies to two triangles that share the corner values 1
    and 2 (a vertex is its corner index modulo 4). *)
Lemma export_3dmigoto_faces_read_back_witness :
  export_3dmigoto Nat.eqb (fun l => (l mod 4)%nat) 6 true
    [{| loop_start := 0; loop_total := 3 |}; {| loop_start := 3; loop_total := 3 |}]
  = ([[2; 1; 0]; [1; 0; 3]]%nat, [0; 1; 2; 3]%nat) /\
  map (nth_error [0; 1; 2; 3]%nat) [1; 0; 3]%nat = [Some 1; Some 0; Some 3]%nat.
Proof.
  split; [reflexivity |].
  exact (proj1 (proj2 (proj2
           (export_3dmigoto_faces_read_back Nat.eqb (fun l => (l mod 4)%nat) Nat.eqb_eq
              6 true
              [{| loop_start := 0; loop_total := 3 |}; {| loop_start := 3; loop_total := 3 |}]
              [[2; 1; 0]; [1; 0; 3]]%nat [0; 1; 2; 3]%nat eq_refl))
           1%nat {| loop_start := 3; loop_total := 3 |} [1; 0; 3]%nat eq_refl eq_refl)).
Defined.

Lemma concat_fromlist_bounded (n : nat) :
  forall l : list nat, (List.length l <= n)%nat -> List.concat (fromlist l) = l.
Proof.
  induction n as [| n IH]; intros l Hl.
  - destruct l; [reflexivity | cbn in Hl; lia].
  - destruct l as [| a [| b [| c r]]]; try reflexivity.
    cbn [fromlist List.concat app]. rewrite IH by (cbn in Hl; lia). reflexivity.
Qed.

Lemma concat_fromlist (l : list nat) : List.concat (fromlist l) = l.
Proof. apply (concat_fromlist_bounded (List.length l)). lia. Qed.

Lemma In_concat_fliplr (rows : list (list nat)) (i : nat) :
  In i (List.concat (fliplr rows)) <-> In i (List.concat rows).
Proof.
  unfold fliplr. rewrite !in_concat. split.
  - intros (r & Hr & Hi). apply in_map_iff in Hr. destruct Hr as (r0 & <- & Hr0).
    exists r0. split; [exact Hr0 | apply in_rev; exact Hi].
  - intros (r & Hr & Hi). exists (rev r). split; [apply in_map; exact Hr |].
    apply in_rev. rewrite rev_involutive. exact Hi.
Qed.

(** X9.  The two buffers [mesh_to_bin] returns fit together: the vertex
    buffer holds no record twice, every index of the index buffer lies
    below the number of records, and every record is referred to by some
    index. *)
Theorem mesh_to_bin_buffers_fit :
  forall (cfg : Settings) (obj : Object) (mesh : Mesh) (migoto_format : InputLayout)
         (main_obj : Object) (ib : list (list nat)) (vb : list bytes),
    mesh_to_bin cfg obj mesh migoto_format main_obj = Ok (ib, vb) ->
    NoDup vb /\
    (forall i : nat, In i (List.concat ib) -> (i < List.length vb)%nat) /\
    (forall (j : nat) (r : bytes),
        nth_error vb j = Some r ->
        exists i : nat, In i (List.concat ib) /\ nth_error vb i = Some r).
Proof.
  intros cfg obj mesh migoto_format main_obj ib vb Hrun.
  destruct (Nat.eq_dec (data_polygons obj) 0) as [H0 | Hp].
  - unfold mesh_to_bin in Hrun. rewrite H0 in Hrun. cbn in Hrun.
    injection Hrun as <- <-.
    split; [constructor |]. split; [intros i [] |].
    intros j r Hj. destruct j; discriminate.
  - revert Hrun. unfold mesh_to_bin.
    destruct (Nat.eqb_spec (data_polygons obj) 0) as [| _]; [contradiction |].
    destruct (blender_to_migoto_vertices cfg mesh obj migoto_format main_obj) as [mv |];
      cbn [bind]; [| discriminate].
    destruct (lookup_keys mv mesh) as [ks |]; cbn [bind]; [| discriminate].
    destruct (OrderedDict.index_all bytes_eqb [] ks) as [d ib_list] eqn:Hidx.
    intros [= <- <-].
    assert (Hwf0 : OrderedDict.well_formed (@nil (bytes * nat)))
      by (split; [constructor | reflexivity]).
    destruct (index_all_spec bytes_eqb bytes_eqb_spec ks [] d ib_list Hwf0 Hidx)
      as ((Hnd & _) & _ & Hkeys & Hall).
    assert (Hmem : forall i, In i (List.concat
                     (if xorb (FlipMesh main_obj) (FlipWinding main_obj)
                      then fliplr (fromlist ib_list) else fromlist ib_list))
                   <-> In i ib_list).
    { intros i. destruct (xorb _ _); [rewrite In_concat_fliplr |];
        rewrite concat_fromlist; reflexivity. }
    split; [exact Hnd |]. split.
    + intros i Hi. apply Hmem in Hi.
      clear - Hall Hi. induction Hall as [| k j ks js Hk _ IH]; [destruct Hi |].
      destruct Hi as [<- | Hi]; [| exact (IH Hi)].
      apply nth_error_Some. congruence.
    + intros j r Hj.
      assert (Hin : In r ks).
      { apply nth_error_In in Hj. apply Hkeys in Hj. destruct Hj as [[] | Hj]. exact Hj. }
      assert (exists i, In i ib_list /\ nth_error (OrderedDict.keys d) i = Some r) as (i & Hi & Hr).
      { clear - Hall Hin. induction Hall as [| k i ks js Hk _ IH]; [destruct Hin |].
        destruct Hin as [-> | Hin].
        - exists i. split; [left; reflexivity | exact Hk].
        - destruct (IH Hin) as (i' & Hi' & Hr'). exists i'. split; [right; exact Hi' | exact Hr']. }
      exists i. split; [apply Hmem; exact Hi | exact Hr].
Qed.

(** The theorem applies to the triangle: three records, the indices 0,
    1 and 2. *)
Lemma mesh_to_bin_buffers_fit_witness :
  exists vb,
    mesh_to_bin plain_cfg plain_obj tri_mesh position_layout plain_obj
      = Ok ([[0; 1; 2]%nat], vb) /\
    NoDup vb.
Proof.
  eexists. split; [vm_compute; reflexivity |].
  refine (proj1 (mesh_to_bin_buffers_fit plain_cfg plain_obj tri_mesh position_layout
                   plain_obj [[0; 1; 2]%nat] _ _)).
  vm_compute. reflexivity.
Defined.

End BuffersFit.

(** ** The assembled array *)

Section AssembledArray.
Import NumpyFloat Layout Py Blender Assembler Exporter Shape Examples.
Local Open Scope py_scope.

Lemma mapM_length {A B : Type} (f : A -> outcome B) (l : list A) (l' : list B) :
  mapM f l = Ok l' -> List.length l' = List.length l.
Proof.
  intros H. apply mapM_Forall2 in H. symmetry. exact (Forall2_length H).
Qed.

Lemma dtype_of_cell_astype (t : field_dtype) (c : cell) : dtype_of_cell (astype t c) = t.
Proof. destruct t, c; reflexivity. Qed.

(** Every branch of the element loop computes one row per loop. *)
Lemma element_result_length cfg mesh obj main_obj fmt_layout e st br :
  element_result cfg mesh obj main_obj fmt_layout e st = Ok br ->
  (forall r, st_result st = Some r -> List.length r = List.length (loops mesh)) ->
  List.length (snd br) = List.length (loops mesh).
Proof.
  unfold element_result. intros H Hprev.
  destruct (classify e (translated_elem_name fmt_layout e)).
  - destruct (mapM _ (loops mesh)) as [r |] eqn:Hr; cbn [bind] in H; [| discriminate].
    injection H as <-. exact (mapM_length _ _ _ Hr).
  - destruct (mapM _ (loops mesh)) as [r |] eqn:Hr; cbn [bind] in H; [| discriminate].
    injection H as <-. exact (mapM_length _ _ _ Hr).
  - destruct (mapM _ (loops mesh)) as [r |] eqn:Hr; cbn [bind] in H; [| discriminate].
    injection H as <-. exact (mapM_length _ _ _ Hr).
  - destruct (ensure_weights_np _ _ _) as [wnp |]; cbn [bind] in H; [| discriminate].
    destruct (mapM _ (loops mesh)) as [r |] eqn:Hr; cbn [bind] in H; [| discriminate].
    injection H as <-. exact (mapM_length _ _ _ Hr).
  - destruct (ensure_weights_np _ _ _) as [wnp |]; cbn [bind] in H; [| discriminate].
    destruct (mapM _ (loops mesh)) as [r |] eqn:Hr; cbn [bind] in H; [| discriminate].
    injection H as <-. exact (mapM_length _ _ _ Hr).
  - unfold color_column in H.
    destruct (of_option KeyError _) as [data |]; cbn [bind] in H; [| discriminate].
    destruct (mapM _ (seq 0 _)) as [r |] eqn:Hr; cbn [bind] in H; [| discriminate].
    injection H as <-. cbn [snd]. rewrite (mapM_length _ _ _ Hr). apply length_seq.
  - destruct (mapM _ (indexed_loops mesh)) as [r |] eqn:Hr; cbn [bind] in H; [| discriminate].
    injection H as <-. cbn [snd]. rewrite (mapM_length _ _ _ Hr).
    unfold indexed_loops. rewrite length_combine, length_seq. apply Nat.min_id.
  - destruct (is_float e); [injection H as <-; apply length_map |].
    destruct (is_int e); [injection H as <-; apply length_map |].
    destruct (st_result st) as [r |]; cbn [of_option bind] in H; [| discriminate].
    injection H as <-. apply Hprev. reflexivity.
Qed.

Lemma quantized_length fmt_layout e (r : column) :
  List.length (quantized fmt_layout e r) = List.length r.
Proof.
  unfold quantized. destruct (String.prefix _ _); [reflexivity | apply length_map].
Qed.

(** The store casts every component to the dtype of the field and
    accepts rows of the width of the field only. *)
Lemma store_shape (e : InputElement) (t : field_dtype) (r col : column) :
  store e t r = Ok col ->
  List.length col = List.length r /\
  Forall (fun row => List.length row = format_len e /\
                     Forall (fun c => dtype_of_cell c = t) row) col.
Proof.
  unfold store. intros H. split; [exact (mapM_length _ _ _ H) |].
  apply mapM_Forall2 in H.
  induction H as [| row row' r col Hrow _ IH]; constructor; [| exact IH].
  destruct (Nat.eqb_spec (List.length row) (format_len e)) as [Hl | _]; [| discriminate].
  injection Hrow as <-. split; [rewrite length_map; exact Hl |].
  apply Forall_forall. intros c Hc. apply in_map_iff in Hc.
  destruct Hc as (c0 & <- & _). apply dtype_of_cell_astype.
Qed.

Lemma element_loop_shape cfg mesh obj main_obj fmt_layout es :
  forall (st : loop_state) (tbl : table),
    (forall r, st_result st = Some r -> List.length r = List.length (loops mesh)) ->
    element_loop cfg mesh obj main_obj fmt_layout es st = Ok tbl ->
    Forall2 (field_of mesh) (filter (fun e => negb (skipped e)) es) tbl.
Proof.
  induction es as [| e es IH]; intros st tbl Hprev; cbn [element_loop filter].
  - intros [= <-]. constructor.
  - destruct (skipped e); cbn [negb]; [apply IH; exact Hprev |].
    destruct (element_result cfg mesh obj main_obj fmt_layout e st) as [br |] eqn:Hbr;
      cbn [bind]; [| discriminate].
    destruct (dtype_of (Format e)) as [t |] eqn:Ht; cbn [of_option bind]; [| discriminate].
    destruct (store e t (quantized fmt_layout e (snd br))) as [col |] eqn:Hcol;
      cbn [bind]; [| discriminate].
    destruct (element_loop cfg mesh obj main_obj fmt_layout es _) as [rest |] eqn:Hrest;
      cbn [bind]; [| discriminate].
    intros [= <-].
    pose proof (element_result_length _ _ _ _ _ _ _ _ Hbr Hprev) as Hlen.
    destruct (store_shape e t _ col Hcol) as [Hclen Hrows].
    constructor.
    + split; [reflexivity |]. cbn [snd]. split.
      * rewrite Hclen, quantized_length. exact Hlen.
      * eapply Forall_impl; [| exact Hrows].
        intros row [Hl Hc]. split; [exact Hl |].
        eapply Forall_impl; [| exact Hc]. intros c Hc'. rewrite Hc'. exact Ht.
    + refine (IH _ rest _ Hrest).
      cbn [st_result]. intros r [= <-]. rewrite quantized_length. exact Hlen.
Qed.

Lemma build_dtype_shape (es : list InputElement) :
  forall dtype,
    build_dtype es = Ok dtype ->
    Forall2 (fun e f => fst f = name e /\ dtype_of (Format e) = Some (fst (snd f)) /\
                        snd (snd f) = format_len e)
            (filter (fun e => negb (skipped e)) es) dtype.
Proof.
  induction es as [| e es IH]; intros dtype; cbn [build_dtype filter].
  - intros [= <-]. constructor.
  - destruct (skipped e); cbn [negb]; [apply IH |].
    destruct (dtype_of (Format e)) as [t |] eqn:Ht; cbn [of_option bind]; [| discriminate].
    destruct (build_dtype es) as [rest |]; cbn [bind]; [| discriminate].
    intros [= <-]. constructor; [cbn; auto | apply IH; reflexivity].
Qed.

(** X10.  The array [blender_to_migoto_vertices] returns has one field
    per element of the layout that is per-vertex and does not reuse an
    offset, in the order of the layout and under the name of the element;
    every field has one row per loop of the mesh, every row has the
    [format_len] components of its element, and every component has the
    dtype chosen for the format of the element. *)
Theorem blender_to_migoto_vertices_shape :
  forall (cfg : Settings) (mesh : Mesh) (obj : Object) (fmt_layout : InputLayout)
         (main_obj : Object) (migoto_verts : table),
    blender_to_migoto_vertices cfg mesh obj fmt_layout main_obj = Ok migoto_verts ->
    Forall2
      (fun e f =>
         fst f = name e /\
         List.length (snd f) = List.length (loops mesh) /\
         Forall (fun row =>
                   List.length row = format_len e /\
                   Forall (fun c => dtype_of (Format e) = Some (dtype_of_cell c)) row)
                (snd f))
      (filter (fun e => negb (skipped e)) (elems fmt_layout)) migoto_verts.
Proof.
  intros cfg mesh obj fmt_layout main_obj migoto_verts.
  unfold blender_to_migoto_vertices.
  destruct (build_dtype (elems fmt_layout)) as [dtype |] eqn:Hd; cbn [bind]; [| discriminate].
  destruct (n_polygons mesh =? 0)%nat.
  - intros [= <-]. apply build_dtype_shape in Hd.
    induction Hd as [| e f es dt (Hn & Ht & Hl) _ IH]; cbn [map]; constructor; [| exact IH].
    cbn [fst snd]. split; [exact Hn |]. split; [apply length_map |].
    apply Forall_forall. intros row Hrow. apply in_map_iff in Hrow.
    destruct Hrow as (l & <- & _). rewrite repeat_length. split; [exact Hl |].
    apply Forall_forall. intros c Hc. apply repeat_spec in Hc. subst c.
    rewrite Ht. destruct (fst (snd f)); reflexivity.
  - intros Hrun.
    refine (element_loop_shape cfg mesh obj main_obj fmt_layout (elems fmt_layout) _ _
              _ Hrun).
    intros r H. discriminate H.
Qed.

(** The theorem applies to the triangle with a POSITION element. *)
Lemma blender_to_migoto_vertices_shape_witness :
  exists migoto_verts,
    blender_to_migoto_vertices plain_cfg tri_mesh plain_obj position_layout plain_obj
      = Ok migoto_verts /\
    Forall2 (field_of tri_mesh) [position_f32] migoto_verts.
Proof.
  eexists. split; [vm_compute; reflexivity |].
  apply (blender_to_migoto_vertices_shape plain_cfg tri_mesh plain_obj position_layout
           plain_obj).
  vm_compute. reflexivity.
Defined.

(** *** Bone weights *)

Lemma In_insert_by_weight (x y : nat * spec_float) (l : list (nat * spec_float)) :
  In y (insert_by_weight x l) <-> y = x \/ In y l.
Proof.
  induction l as [| z l IH]; cbn [insert_by_weight].
  - cbn. intuition congruence.
  - destruct (SFltb (snd z) (snd x)); cbn [In].
    + intuition congruence.
    + rewrite IH. intuition congruence.
Qed.

Lemma In_sort_by_weight (y : nat * spec_float) (l : list (nat * spec_float)) :
  In y (sort_by_weight l) <-> In y l.
Proof.
  unfold sort_by_weight.
  assert (H : forall acc, In y (fold_left (fun acc x => insert_by_weight x acc) l acc)
                          <-> In y l \/ In y acc).
  { induction l as [| x l IH]; intros acc; cbn [fold_left In].
    - tauto.
    - rewrite IH, In_insert_by_weight. intuition congruence. }
  rewrite H. cbn. tauto.
Qed.

Lemma In_combine_seq {A : Type} (l : list A) :
  forall (s i : nat) (x : A),
    In (i, x) (combine (seq s (List.length l)) l) <->
    (s <= i)%nat /\ nth_error l (i - s) = Some x.
Proof.
  induction l as [| a l IH]; intros s i x; cbn [List.length seq combine In].
  - split; [intros [] | intros [_ H]; destruct (i - s)%nat; discriminate].
  - rewrite IH. split.
    + intros [[= <- <-] | [Hle Hn]].
      * rewrite Nat.sub_diag. split; [lia | reflexivity].
      * split; [lia |]. replace (i - s)%nat with (S (i - S s)) by lia. exact Hn.
    + intros [Hle Hn]. destruct (Nat.eq_dec i s) as [-> | Hne].
      * left. rewrite Nat.sub_diag in Hn. cbn in Hn. congruence.
      * right. split; [lia |].
        replace (i - s)%nat with (S (i - S s)) in Hn by lia. exact Hn.
Qed.

(** [masked_vgs] holds the indices of the vertex groups whose name
    starts with MASK. *)
Lemma In_masked_vgs (obj : Object) (g : nat) :
  In g (masked_vgs obj) <->
  exists vg_name, nth_error (vertex_groups obj) g = Some vg_name /\
                  String.prefix "MASK" vg_name = true.
Proof.
  unfold masked_vgs. rewrite in_map_iff. split.
  - intros ([i vg_name] & <- & Hin). apply filter_In in Hin. destruct Hin as [Hin Hp].
    apply In_combine_seq in Hin. destruct Hin as [_ Hn]. rewrite Nat.sub_0_r in Hn.
    exists vg_name. split; assumption.
  - intros (vg_name & Hn & Hp). exists (g, vg_name). split; [reflexivity |].
    apply filter_In. split; [| exact Hp].
    apply In_combine_seq. rewrite Nat.sub_0_r. split; [lia | exact Hn].
Qed.

(** X11.  The weights the assembler works with hold, for every vertex,
    exactly the items of the deform layer whose vertex group does not
    have a name starting with MASK: no weight of a masked group is
    exported and no other weight is dropped at this point. *)
Theorem weights_exclude_masked_groups :
  forall (mesh : Mesh) (obj : Object) (ws : list (list (nat * spec_float))),
    weights mesh obj = Some ws ->
    exists per_vertex_items,
      deform mesh = Some per_vertex_items /\
      Forall2
        (fun items kept =>
           forall p : nat * spec_float,
             In p kept <->
             In p items /\
             ~ exists vg_name, nth_error (vertex_groups obj) (fst p) = Some vg_name /\
                               String.prefix "MASK" vg_name = true)
        per_vertex_items ws.
Proof.
  intros mesh obj ws. unfold weights.
  destruct (deform mesh) as [per_vertex_items |]; [| discriminate].
  intros [= <-]. exists per_vertex_items. split; [reflexivity |].
  induction per_vertex_items as [| items rest IH]; cbn [map]; constructor; [| exact IH].
  intros p. rewrite In_sort_by_weight, filter_In, negb_true_iff.
  rewrite <- In_masked_vgs.
  assert (Hmem : existsb (Nat.eqb (fst p)) (masked_vgs obj) = false
                 <-> ~ In (fst p) (masked_vgs obj)).
  { split.
    - intros Hf Hin. assert (Ht : existsb (Nat.eqb (fst p)) (masked_vgs obj) = true).
      { apply existsb_exists. exists (fst p). split; [exact Hin | apply Nat.eqb_refl]. }
      congruence.
    - intros Hn. destruct (existsb (Nat.eqb (fst p)) (masked_vgs obj)) eqn:E; [| reflexivity].
      apply existsb_exists in E. destruct E as (x & Hx & Hxe).
      apply Nat.eqb_eq in Hxe. subst x. contradiction. }
  rewrite Hmem. tauto.
Qed.

(** The theorem applies to a vertex weighted by a bone and by a mask
    group: the item of the bone alone is kept. *)
Lemma weights_exclude_masked_groups_witness :
  weights masked_mesh masked_obj = Some [[(0%nat, fone)]] /\
  exists per_vertex_items,
    deform masked_mesh = Some per_vertex_items /\
    Forall2
      (fun items kept =>
         forall p : nat * spec_float,
           In p kept <->
           In p items /\
           ~ exists vg_name, nth_error (vertex_groups masked_obj) (fst p) = Some vg_name /\
                             String.prefix "MASK" vg_name = true)
      per_vertex_items [[(0%nat, fone)]].
Proof.
  split; [reflexivity |].
  exact (weights_exclude_masked_groups masked_mesh masked_obj [[(0%nat, fone)]] eq_refl).
Defined.

Lemma sum_row_zeros (n : nat) :
  sum_row (repeat (CF float32 (S754_zero false)) n) = CF float32 (S754_zero false).
Proof.
  unfold sum_row, Assembler.fzero.
  induction n as [| n IH]; [reflexivity | exact IH].
Qed.

(** X12.  With [normalize_weights] set, a vertex without any weight
    gets a NaN in every component of BLENDWEIGHT: its row of zeros is
    divided by its sum, which is zero (by itself for a format of one
    component). *)
Theorem unweighted_vertex_normalizes_to_nan :
  forall (fl : nat) (ws : list (list (nat * spec_float)))
         (wnp : nat * list weight_entry) (l : MeshLoop),
    (1 <= fl)%nat ->
    ensure_weights_np fl (Some ws) None = Ok wnp ->
    nth_error ws (vertex_index l) = Some [] ->
    blendweight_row fl true wnp l = Ok (repeat (CF float32 S754_nan) fl).
Proof.
  intros fl ws wnp l Hfl Hw Hv. cbn [ensure_weights_np] in Hw. injection Hw as <-.
  unfold blendweight_row. cbn [fst snd].
  rewrite nth_error_map, Hv. cbn [option_map of_option bind].
  rewrite Nat.eqb_refl. cbn [negb].
  unfold fill_vertex.
  destruct (Nat.ltb_spec 1 fl) as [Hgt | Hle].
  - cbn [snd]. unfold pad. cbn [firstn List.length map app]. rewrite firstn_nil.
    cbn [app]. rewrite Nat.sub_0_r, map_repeat, sum_row_zeros, map_repeat. reflexivity.
  - assert (fl = 1%nat) as -> by lia. reflexivity.
Qed.

(** The theorem applies to a format of four components and a single
    vertex without weights. *)
Lemma unweighted_vertex_normalizes_to_nan_witness :
  blendweight_row 4 true (4%nat, [fill_vertex 4 []]) (up_loop 0)
  = Ok (repeat (CF float32 S754_nan) 4).
Proof.
  apply (unweighted_vertex_normalizes_to_nan 4 [[]]); [lia | reflexivity | reflexivity].
Defined.

End AssembledArray.

(** ** More on the outline optimizer *)

Section StoredDirections.
Import NumpyFloat Outline OutlineCalc OutlineExamples.

Section Loop.
Variables (einsum_ij_ij : vec -> vec -> spec_float) (arccos : spec_float -> spec_float).

(** One group, stored or not. *)
Lemma store_wSum_normalized props mesh pre by_same items RL key vertex_group s st :
  In (key, vertex_group) items ->
  group_sum einsum_ij_ij arccos props mesh pre vertex_group (get_set by_same key) = Some s ->
  normalized_sums einsum_ij_ij arccos props mesh pre by_same items (export_outline st) ->
  normalized_sums einsum_ij_ij arccos props mesh pre by_same items
    (export_outline (store_wSum RL key vertex_group (unit_vector s) st)).
Proof.
  intros Hin Hs Hst. unfold store_wSum.
  destruct (differs_from_zero (unit_vector s)) eqn:Hd; [| exact Hst].
  assert (Hset : forall d k,
             k = key \/ In k vertex_group ->
             normalized_sums einsum_ij_ij arccos props mesh pre by_same items d ->
             normalized_sums einsum_ij_ij arccos props mesh pre by_same items
               (PyDict.setdefault Nat.eqb d k (unit_vector s))).
  { intros d k Hk Hd0 k0 w0 Hk0. apply In_setdefault in Hk0.
    destruct Hk0 as [Hk0 | [-> ->]]; [exact (Hd0 k0 w0 Hk0) |].
    split; [exact Hd |]. exists key, vertex_group, s. repeat split; assumption. }
  destruct (match RL with Some (x :: r) => PySet.mem key (x :: r) | _ => false end).
  - cbn [export_outline]. apply Hset; [left; reflexivity | exact Hst].
  - assert (Hfold : forall g st0,
               incl g vertex_group ->
               normalized_sums einsum_ij_ij arccos props mesh pre by_same items
                 (export_outline st0) ->
               normalized_sums einsum_ij_ij arccos props mesh pre by_same items
                 (export_outline
                    (fold_left
                       (fun s0 vertexf =>
                          {| export_outline :=
                               PyDict.setdefault Nat.eqb (export_outline s0) vertexf
                                 (unit_vector s);
                             IteratedValues := PySet.add vertexf (IteratedValues s0) |})
                       g st0))).
    { induction g as [| v g IH]; intros st0 Hg Hst0; cbn [fold_left]; [exact Hst0 |].
      apply IH; [intros x Hx; apply Hg; right; exact Hx |].
      cbn [export_outline]. apply Hset; [| exact Hst0].
      right. apply Hg. left. reflexivity. }
    apply Hfold; [intros x Hx; exact Hx | exact Hst].
Qed.

Lemma calc_group_normalized props mesh pre by_same items RL st kv st' :
  In kv items ->
  calc_group einsum_ij_ij arccos props mesh pre by_same RL st kv = Some st' ->
  normalized_sums einsum_ij_ij arccos props mesh pre by_same items (export_outline st) ->
  normalized_sums einsum_ij_ij arccos props mesh pre by_same items (export_outline st').
Proof.
  unfold calc_group. destruct kv as [key vertex_group]. intros Hin.
  destruct (PySet.mem key (IteratedValues st)); [intros [= <-]; exact (fun H => H) |].
  destruct (negb (calculate_all_faces props) && _)%bool;
    [intros [= <-]; exact (fun H => H) |].
  destruct (overlapping_faces props && _)%bool; [intros [= <-]; exact (fun H => H) |].
  unfold group_wSum.
  destruct (group_sum einsum_ij_ij arccos props mesh pre vertex_group (get_set by_same key))
    as [s |] eqn:Hs; [| discriminate].
  cbn [option_map]. intros [= <-] Hst.
  exact (store_wSum_normalized _ _ _ _ _ _ _ _ _ _ Hin Hs Hst).
Qed.

Lemma calc_loop_normalized props mesh pre by_same all RL items :
  forall st st',
    incl items all ->
    calc_loop einsum_ij_ij arccos props mesh pre by_same RL items st = Some st' ->
    normalized_sums einsum_ij_ij arccos props mesh pre by_same all (export_outline st) ->
    normalized_sums einsum_ij_ij arccos props mesh pre by_same all (export_outline st').
Proof.
  induction items as [| kv items IH]; intros st st' Hincl; cbn [calc_loop].
  - intros [= <-]. exact (fun H => H).
  - destruct (calc_group einsum_ij_ij arccos props mesh pre by_same RL st kv)
      as [st1 |] eqn:H1; [| discriminate].
    intros Hrun Hst.
    apply (IH st1 st' (fun x Hx => Hincl x (or_intror Hx)) Hrun).
    exact (calc_group_normalized _ _ _ _ _ _ _ _ _ (Hincl kv (or_introl eq_refl)) H1 Hst).
Qed.

End Loop.

(** X24.  Every direction the loop over the position groups stores is
    the result of [unit_vector] on the weighted normal sum of one of the
    groups, stored under the key of that group or under one of its
    members, and it is not [[0, 0, 0]]. *)
Theorem outline_entries_are_normalized_sums :
  forall (einsum_ij_ij : vec -> vec -> spec_float) (arccos : spec_float -> spec_float)
         (props : OutlineProperties) (mesh : Mesh) (pre : PreDict)
         (by_same_vertex : @PyDict.t nat PySet.t) (RepositionLocal : option PySet.t)
         (items : list (nat * PySet.t)) (st' : CalcState) (k : nat) (w : vec),
    calc_loop einsum_ij_ij arccos props mesh pre by_same_vertex RepositionLocal items
      {| export_outline := []; IteratedValues := [] |} = Some st' ->
    In (k, w) (export_outline st') ->
    differs_from_zero w = true /\
    exists (key : nat) (vertex_group : PySet.t) (s : vec),
      In (key, vertex_group) items /\
      group_sum einsum_ij_ij arccos props mesh pre vertex_group
        (get_set by_same_vertex key) = Some s /\
      w = unit_vector s /\
      (k = key \/ In k vertex_group).
Proof.
  intros einsum_ij_ij arccos props mesh pre by_same RL items st' k w Hrun Hin.
  apply (calc_loop_normalized einsum_ij_ij arccos props mesh pre by_same items RL items
           _ st' (fun x Hx => Hx) Hrun); [| exact Hin].
  intros k0 w0 [].
Qed.

(** The theorem applies to the run on [seam_mesh]: the entry of vertex 1
    is the normalized sum of the group of vertex 0. *)
Lemma outline_entries_are_normalized_sums_witness :
  differs_from_zero up = true /\
  exists (key : nat) (vertex_group : PySet.t) (s : vec),
    In (key, vertex_group) [(0%nat, [0; 1]%nat); (1%nat, [0; 1]%nat)] /\
    group_sum einsum_in_order no_arccos seam_props seam_mesh
      (pre_dictionary seam_props seam_mesh 0) vertex_group
      (get_set [(0%nat, [0; 1]%nat); (1%nat, [0; 1]%nat)] key) = Some s /\
    up = unit_vector s /\
    (1%nat = key \/ In 1%nat vertex_group).
Proof.
  apply (outline_entries_are_normalized_sums einsum_in_order no_arccos seam_props seam_mesh
           (pre_dictionary seam_props seam_mesh 0)
           [(0%nat, [0; 1]%nat); (1%nat, [0; 1]%nat)] None
           [(0%nat, [0; 1]%nat); (1%nat, [0; 1]%nat)]
           {| export_outline := [(0%nat, up); (1%nat, up)];
              IteratedValues := [0; 1]%nat |} 1%nat up).
  - vm_compute. reflexivity.
  - right. left. reflexivity.
Defined.

(** X25.  A group whose weighted normal sum has the norm zero, as
    float64 computes it, stores nothing: the map and the set of visited
    vertices are left as they were. *)
Theorem zero_norm_stores_nothing :
  forall (einsum_ij_ij : vec -> vec -> spec_float) (arccos : spec_float -> spec_float)
         (props : OutlineProperties) (mesh : Mesh) (pre : PreDict)
         (by_same_vertex : @PyDict.t nat PySet.t) (RepositionLocal : option PySet.t)
         (st : CalcState) (key : nat) (vertex_group : PySet.t) (s : vec),
    group_sum einsum_ij_ij arccos props mesh pre vertex_group (get_set by_same_vertex key)
    = Some s ->
    nonzero (norm s) = false ->
    calc_group einsum_ij_ij arccos props mesh pre by_same_vertex RepositionLocal st
      (key, vertex_group)
    = Some st.
Proof.
  intros einsum_ij_ij arccos props mesh pre by_same RL st key vertex_group s Hsum Hz.
  unfold calc_group.
  destruct (PySet.mem key (IteratedValues st)); [reflexivity |].
  destruct (negb (calculate_all_faces props) && _)%bool; [reflexivity |].
  destruct (overlapping_faces props && _)%bool; [reflexivity |].
  unfold group_wSum. rewrite Hsum. cbn [option_map].
  rewrite (unit_vector_zero_norm s Hz).
  pose proof (group_sum_length _ _ _ _ _ _ _ _ Hsum) as Hlen.
  destruct s as [| a [| b [| c [| ? ?]]]]; try discriminate Hlen.
  reflexivity.
Qed.

(** The theorem applies to the group of the coincident vertices of
    [fold_mesh], whose two face normals cancel. *)
Lemma zero_norm_stores_nothing_witness :
  calc_group einsum_in_order no_arccos seam_props fold_mesh
    (pre_dictionary seam_props fold_mesh 0)
    [(0%nat, [0; 1]%nat); (1%nat, [0; 1]%nat)] None
    {| export_outline := []; IteratedValues := [] |} (0%nat, [0; 1]%nat)
  = Some {| export_outline := []; IteratedValues := [] |}.
Proof.
  apply (zero_norm_stores_nothing einsum_in_order no_arccos seam_props fold_mesh
           (pre_dictionary seam_props fold_mesh 0)
           [(0%nat, [0; 1]%nat); (1%nat, [0; 1]%nat)] None
           {| export_outline := []; IteratedValues := [] |} 0%nat [0; 1]%nat
           [zero; zero; zero]).
  - vm_compute. reflexivity.
  - vm_compute. reflexivity.
Defined.

End StoredDirections.

Section ConnectedPoints.
Import Outline Connections.

Lemma find_none_closed (d : @PyDict.t nat PySet.t) :
  find (fun kv => (List.length (PySet.inter (snd kv) (PyDict.keys d)) <? 2)%nat) d = None
  <-> closed d.
Proof.
  unfold closed. rewrite Forall_forall. split.
  - intros H kv Hin. pose proof (find_none _ _ H kv Hin) as Hf. cbn beta in Hf.
    apply Nat.ltb_ge in Hf. exact Hf.
  - intros H. destruct (find _ d) as [kv |] eqn:E; [| reflexivity].
    apply find_some in E. destruct E as [Hin Hlt].
    apply Nat.ltb_lt in Hlt. specialize (H kv Hin). lia.
Qed.

Lemma filter_all {A : Type} (f : A -> bool) (l : list A) :
  (forall x, In x l -> f x = true) -> filter f l = l.
Proof.
  induction l as [| a l IH]; intros H; [reflexivity |].
  cbn [filter]. rewrite (H a (or_introl eq_refl)). f_equal.
  apply IH. intros x Hx. apply H. right. exact Hx.
Qed.

Lemma pop_restrict (d : @PyDict.t nat PySet.t) (entry : nat) :
  NoDup (PyDict.keys d) ->
  PyDict.pop Nat.eqb d entry = restrict (fun k => negb (k =? entry)%nat) d.
Proof.
  unfold restrict. induction d as [| [k v] d IH]; intros Hnd; [reflexivity |].
  cbn [PyDict.pop filter fst]. cbn in Hnd. inversion Hnd as [| ? ? Hk Hrest]; subst.
  rewrite Nat.eqb_sym.
  destruct (Nat.eqb_spec k entry) as [-> | Hne]; cbn [negb].
  - symmetry. apply filter_all. intros [k' v'] Hin. cbn [fst].
    destruct (Nat.eqb_spec k' entry) as [-> | _]; [| reflexivity].
    exfalso. apply Hk. unfold PyDict.keys. apply in_map_iff.
    exists (entry, v'). split; [reflexivity | exact Hin].
  - rewrite IH by exact Hrest. reflexivity.
Qed.

Lemma keys_restrict_incl (keep : nat -> bool) (d : @PyDict.t nat PySet.t) (k : nat) :
  In k (PyDict.keys (restrict keep d)) -> In k (PyDict.keys d) /\ keep k = true.
Proof.
  unfold PyDict.keys, restrict. rewrite !in_map_iff.
  intros ([k' v] & <- & Hin). apply filter_In in Hin. destruct Hin as [Hin Hk].
  split; [exists (k', v); split; [reflexivity | exact Hin] | exact Hk].
Qed.

Lemma NoDup_keys_restrict (keep : nat -> bool) (d : @PyDict.t nat PySet.t) :
  NoDup (PyDict.keys d) -> NoDup (PyDict.keys (restrict keep d)).
Proof.
  unfold PyDict.keys, restrict. induction d as [| [k v] d IH]; intros Hnd; [constructor |].
  cbn in Hnd. inversion Hnd as [| ? ? Hk Hrest]; subst.
  cbn [filter fst]. destruct (keep k); [| exact (IH Hrest)].
  cbn [map fst]. constructor; [| exact (IH Hrest)].
  intros Hin. apply Hk. apply in_map_iff in Hin. destruct Hin as ([k' v'] & Hk' & Hin).
  apply filter_In in Hin. apply in_map_iff. exists (k', v'). tauto.
Qed.

Lemma filter_length_mono {A : Type} (p q : A -> bool) (l : list A) :
  (forall x, In x l -> p x = true -> q x = true) ->
  (List.length (filter p l) <= List.length (filter q l))%nat.
Proof.
  induction l as [| a l IH]; intros H; [cbn; lia |].
  cbn [filter].
  assert (IH' : (List.length (filter p l) <= List.length (filter q l))%nat)
    by (apply IH; intros x Hx; apply H; right; exact Hx).
  destruct (p a) eqn:Hp.
  - rewrite (H a (or_introl eq_refl) Hp). cbn. lia.
  - destruct (q a); cbn; lia.
Qed.

Lemma mem_In (x : nat) (s : PySet.t) : PySet.mem x s = true <-> In x s.
Proof.
  unfold PySet.mem. rewrite existsb_exists. split.
  - intros (y & Hy & E). apply Nat.eqb_eq in E. subst. exact Hy.
  - intros H. exists x. split; [exact H | apply Nat.eqb_refl].
Qed.

(** A point with fewer than two connected points among the keys of [d]
    belongs to no closed restriction of [d]. *)
Lemma weak_entry_not_kept (d : @PyDict.t nat PySet.t) (keep : nat -> bool)
    (entry : nat) (s : PySet.t) :
  In (entry, s) d ->
  (List.length (PySet.inter s (PyDict.keys d)) < 2)%nat ->
  closed (restrict keep d) ->
  keep entry = false.
Proof.
  intros Hin Hweak Hc. destruct (keep entry) eqn:Hk; [| reflexivity]. exfalso.
  unfold closed in Hc. rewrite Forall_forall in Hc.
  assert (Hin' : In (entry, s) (restrict keep d))
    by (apply filter_In; split; [exact Hin | exact Hk]).
  specialize (Hc _ Hin'). cbn [snd] in Hc.
  assert (Hle : (List.length (PySet.inter s (PyDict.keys (restrict keep d)))
                 <= List.length (PySet.inter s (PyDict.keys d)))%nat).
  { unfold PySet.inter. apply filter_length_mono. intros x _ Hx.
    apply mem_In in Hx. apply mem_In. apply (keys_restrict_incl keep d x Hx). }
  lia.
Qed.

Lemma restrict_restrict (p q : nat -> bool) (d : @PyDict.t nat PySet.t) :
  restrict p (restrict q d) = restrict (fun k => q k && p k) d.
Proof.
  unfold restrict. induction d as [| [k v] d IH]; [reflexivity |].
  cbn [filter fst]. destruct (q k); cbn [filter fst andb]; rewrite IH; reflexivity.
Qed.

Lemma restrict_drop_weak (d : @PyDict.t nat PySet.t) (keep : nat -> bool) (entry : nat) :
  keep entry = false ->
  restrict keep (restrict (fun k => negb (k =? entry)%nat) d) = restrict keep d.
Proof.
  intros Hk. rewrite restrict_restrict. unfold restrict. apply filter_ext.
  intros [k v]. cbn [fst].
  destruct (Nat.eqb_spec k entry) as [-> | _]; cbn [negb andb]; [symmetry; exact Hk | reflexivity].
Qed.

Lemma restrict_length (keep : nat -> bool) (d : @PyDict.t nat PySet.t) :
  (List.length (restrict keep d) <= List.length d)%nat.
Proof. unfold restrict. apply filter_length_le. Qed.

Lemma pop_shorter (d : @PyDict.t nat PySet.t) (entry : nat) (s : PySet.t) :
  NoDup (PyDict.keys d) -> In (entry, s) d ->
  S (List.length (PyDict.pop Nat.eqb d entry)) = List.length d.
Proof.
  induction d as [| [k v] d IH]; intros Hnd Hin; [destruct Hin |].
  cbn [PyDict.pop]. cbn in Hnd. inversion Hnd as [| ? ? Hk Hrest]; subst.
  rewrite Nat.eqb_sym.
  destruct (Nat.eqb_spec k entry) as [-> | Hne]; [reflexivity |].
  cbn [List.length]. f_equal. apply IH; [exact Hrest |].
  destruct Hin as [[= <- _] | Hin]; [contradiction | exact Hin].
Qed.

Lemma recursive_connections_fuel_spec (fuel : nat) :
  forall d : @PyDict.t nat PySet.t,
    NoDup (PyDict.keys d) ->
    (List.length d < fuel)%nat ->
    recursive_connections_fuel fuel d = true <->
    closed d \/
    exists keep : nat -> bool,
      (3 <= List.length (restrict keep d))%nat /\ closed (restrict keep d).
Proof.
  induction fuel as [| fuel IH]; intros d Hnd Hfuel; [lia |].
  cbn [recursive_connections_fuel].
  destruct (find _ d) as [[entry s] |] eqn:Hfind.
  - pose proof (find_some _ _ Hfind) as [Hin Hweak]. cbn [snd] in Hweak.
    apply Nat.ltb_lt in Hweak.
    assert (Hopen : ~ closed d).
    { intros Hc. apply find_none_closed in Hc. congruence. }
    pose proof (pop_restrict d entry Hnd) as Hpop.
    pose proof (pop_shorter d entry s Hnd Hin) as Hlen.
    assert (Hcore : forall keep, closed (restrict keep d) ->
                                 restrict keep (PyDict.pop Nat.eqb d entry) = restrict keep d).
    { intros keep Hc. rewrite Hpop. apply restrict_drop_weak.
      exact (weak_entry_not_kept d keep entry s Hin Hweak Hc). }
    destruct (Nat.ltb_spec (List.length (PyDict.pop Nat.eqb d entry)) 3) as [Hsmall | Hbig].
    + split; [discriminate |].
      intros [Hc | (keep & H3 & Hc)]; [contradiction |].
      rewrite <- (Hcore keep Hc) in H3.
      pose proof (restrict_length keep (PyDict.pop Nat.eqb d entry)). lia.
    + rewrite IH; [| rewrite Hpop; apply NoDup_keys_restrict; exact Hnd | lia].
      split.
      * intros [Hc | (keep & H3 & Hc)].
        -- right. exists (fun k => negb (k =? entry)%nat).
           rewrite <- Hpop. split; assumption.
        -- right. exists (fun k => negb (k =? entry)%nat && keep k).
           rewrite <- restrict_restrict, <- Hpop. split; assumption.
      * intros [Hc | (keep & H3 & Hc)]; [contradiction |].
        right. exists keep. rewrite (Hcore keep Hc). split; assumption.
  - split; [| reflexivity]. intros _. left. apply find_none_closed. exact Hfind.
Qed.

(** X14.  [recursive_connections] prunes the points that keep fewer
    than two connected points, and answers whether something is left to
    close a loop: on a dictionary with distinct keys it returns [True]
    exactly when the dictionary is closed as it stands (every point keeps
    two connected points among the keys, which holds for the empty
    dictionary) or some part of it with at least three points is. *)
Theorem recursive_connections_finds_closed_part :
  forall d : @PyDict.t nat PySet.t,
    NoDup (PyDict.keys d) ->
    recursive_connections d = true <->
    closed d \/
    exists keep : nat -> bool,
      (3 <= List.length (restrict keep d))%nat /\ closed (restrict keep d).
Proof.
  intros d Hnd. unfold recursive_connections.
  apply recursive_connections_fuel_spec; [exact Hnd | lia].
Qed.

(** The theorem applies to a triangle of connected points. *)
Lemma recursive_connections_finds_closed_part_witness :
  recursive_connections [(0, [1; 2]); (1, [0; 2]); (2, [0; 1])]%nat = true.
Proof.
  apply (recursive_connections_finds_closed_part
           [(0, [1; 2]); (1, [0; 2]); (2, [0; 1])]%nat).
  - repeat constructor; cbn; intuition discriminate.
  - left. repeat constructor.
Defined.

End ConnectedPoints.

(** ** [optimize_outlines]: records at one position *)

Section Seams.
Import NumpyFloat Layout Py Exporter Examples.
Local Open Scope py_scope.

(** The floats IEEE equality holds for: two zeros, two infinities of
    one sign, or the same finite float. *)
Lemma SFeqb_true_iff (x y : spec_float) :
  SFeqb x y = true <->
  match x, y with
  | S754_zero _, S754_zero _ => True
  | S754_infinity s1, S754_infinity s2 => s1 = s2
  | S754_finite s1 m1 e1, S754_finite s2 m2 e2 => s1 = s2 /\ m1 = m2 /\ e1 = e2
  | _, _ => False
  end.
Proof.
  unfold SFeqb, SFcompare.
  destruct x as [sx | sx | | sx mx ex], y as [sy | sy | | sy my ey];
    try (destruct sx); try (destruct sy); cbn;
    try (split; intros H; solve [discriminate | contradiction | reflexivity | exact I
                                 | destruct H; discriminate]).
  - change (Pos.compare_cont Eq mx my) with (Pos.compare mx my).
    destruct (Z.compare_spec ex ey) as [He | He | He];
      destruct (Pos.compare_spec mx my) as [Hm | Hm | Hm]; cbn [CompOpp];
      split; intros H; try discriminate; try (destruct H as (_ & Hm' & He'); lia);
      subst; repeat split.
  - change (Pos.compare_cont Eq mx my) with (Pos.compare mx my).
    destruct (Z.compare_spec ex ey) as [He | He | He];
      destruct (Pos.compare_spec mx my) as [Hm | Hm | Hm]; cbn [CompOpp];
      split; intros H; try discriminate; try (destruct H as (_ & Hm' & He'); lia);
      subst; repeat split.
Qed.

Lemma SFeqb_sym (x y : spec_float) : SFeqb x y = true -> SFeqb y x = true.
Proof.
  rewrite !SFeqb_true_iff.
  destruct x, y; try tauto; try congruence. intros (-> & -> & ->). repeat split.
Qed.

Lemma SFeqb_trans (x y z : spec_float) :
  SFeqb x y = true -> SFeqb y z = true -> SFeqb x z = true.
Proof.
  rewrite !SFeqb_true_iff.
  destruct x, y; try tauto; destruct z; try tauto; try congruence.
  intros (-> & -> & ->) (-> & -> & ->). repeat split.
Qed.

Lemma row_eqb_sym (a : list cell) : forall b, row_eqb a b = true -> row_eqb b a = true.
Proof.
  induction a as [| x a IH]; intros [| y b]; cbn [row_eqb]; try discriminate; [reflexivity |].
  rewrite !andb_true_iff. intros [H1 H2]. split; [apply SFeqb_sym, H1 | apply IH, H2].
Qed.

Lemma row_eqb_trans (a : list cell) :
  forall b c, row_eqb a b = true -> row_eqb b c = true -> row_eqb a c = true.
Proof.
  induction a as [| x a IH]; intros [| y b] [| z c]; cbn [row_eqb]; try discriminate;
    [reflexivity |].
  rewrite !andb_true_iff. intros [H1 H2] [H3 H4].
  split; [exact (SFeqb_trans _ _ _ H1 H3) | exact (IH _ _ H2 H4)].
Qed.





Lemma nth_error_combine {A B : Type} (l1 : list A) :
  forall (l2 : list B) (i : nat) (a : A) (b : B),
    nth_error l1 i = Some a -> nth_error l2 i = Some b ->
    nth_error (combine l1 l2) i = Some (a, b).
Proof.
  induction l1 as [| x l1 IH]; intros [| y l2] [| i] a b H1 H2; try discriminate.
  - cbn in *. congruence.
  - cbn in *. exact (IH l2 i a b H1 H2).
Qed.

Lemma Forall2_nth_error_ex {A B : Type} (R : A -> B -> Prop) (l : list A) (l' : list B) :
  Forall2 R l l' ->
  forall (i : nat) (a : A),
    nth_error l i = Some a -> exists b, nth_error l' i = Some b /\ R a b.
Proof.
  induction 1 as [| x y l l' Hxy _ IH]; intros [| i] a Ha; try discriminate.
  - injection Ha as <-. exists y. split; [reflexivity | exact Hxy].
  - exact (IH i a Ha).
Qed.

(** A masked slice assignment, row by row. *)
Lemma assign_rows_nth (src : BufferRow -> list cell) (mask : list bool)
    (buf buf' : list BufferRow) (i : nat) (r : BufferRow) (m : bool) :
  assign_rows mask src buf = Ok buf' ->
  nth_error buf i = Some r ->
  nth_error mask i = Some m ->
  exists r',
    nth_error buf' i = Some r' /\
    if m then exists t, assign_0_3 (TANGENT r) (src r) = Some t /\ r' = set_TANGENT r t
    else r' = r.
Proof.
  unfold assign_rows. intros Hrun Hr Hm.
  apply mapM_Forall2 in Hrun.
  destruct (Forall2_nth_error_ex _ _ _ Hrun i (m, r) (nth_error_combine _ _ _ _ _ Hm Hr))
    as (r' & Hr' & Hstep).
  exists r'. split; [exact Hr' |]. cbn [fst snd] in Hstep.
  destruct m.
  - destruct (assign_0_3 (TANGENT r) (src r)) as [t |]; cbn [of_option bind] in Hstep;
      [| discriminate].
    injection Hstep as <-. exists t. split; reflexivity.
  - injection Hstep as <-. reflexivity.
Qed.

















Lemma two_matches {A : Type} (f : A -> bool) (l : list A) :
  forall (i : nat) (x : A),
    (1 <? List.length (filter f l))%nat = true ->
    nth_error l i = Some x ->
    exists (j : nat) (y : A), j <> i /\ nth_error l j = Some y /\ f y = true.
Proof.
  induction l as [| a l IH]; intros i x Hc Hi; [destruct i; discriminate |].
  apply Nat.ltb_lt in Hc. cbn [filter] in Hc.
  destruct i as [| i].
  - assert (Hne : filter f l <> []).
    { destruct (f a); cbn in Hc; intros E; rewrite E in Hc; cbn in Hc; lia. }
    destruct (filter f l) as [| y rest] eqn:E; [contradiction |].
    assert (Hy : In y (filter f l)) by (rewrite E; left; reflexivity).
    apply filter_In in Hy. destruct Hy as [Hin Hfy].
    apply In_nth_error in Hin. destruct Hin as (k & Hk).
    exists (S k), y. split; [discriminate |]. split; [exact Hk | exact Hfy].
  - destruct (f a) eqn:Hfa.
    + exists 0%nat, a. split; [discriminate |]. split; [reflexivity | exact Hfa].
    + destruct (IH i x) as (k & y & Hk & Hy & Hfy);
        [apply Nat.ltb_lt; exact Hc | exact Hi |].
      exists (S k), y. split; [congruence |]. split; [exact Hy | exact Hfy].
Qed.

Lemma average_groups_lone (position : list (list cell)) (keys : list (list cell)) :
  forall (buf buf' : list BufferRow) (i : nat) (ri : BufferRow),
    List.length position = List.length buf ->
    Forall (fun key => nth_error (map (row_eqb key) position) i = Some false) keys ->
    average_groups position keys buf = (buf', None) ->
    nth_error buf i = Some ri ->
    nth_error buf' i = Some ri.
Proof.
  induction keys as [| key keys IH]; intros buf buf' i ri Hlen Hkeys Hrun Hi;
    cbn [average_groups] in Hrun.
  - injection Hrun as <-. exact Hi.
  - inversion Hkeys as [| ? ? Hkey Hrest]; subst.
    destruct (average_group position key buf) as [buf1 e1] eqn:H1. cbn [fst snd] in Hrun.
    destruct e1 as [e |]; [discriminate |].
    assert (Hlen1 : List.length position = List.length buf1).
    { rewrite Hlen.
      pose proof (average_group_frame position key buf Hlen) as Hf.
      rewrite H1 in Hf. exact (Forall2_length_eq _ _ _ Hf). }
    apply (IH buf1 buf' i ri Hlen1 Hrest Hrun).
    unfold average_group in H1.
    match type of H1 with
    | context [group_average ?d ?n] => destruct (group_average d n) as [[avg |] | ex]
    end.
    + match type of H1 with
      | context [assign_rows ?mk ?s buf] =>
          destruct (assign_rows mk s buf) as [buf2 | ex] eqn:Ha
      end; [| discriminate].
      injection H1 as <-.
      destruct (assign_rows_nth _ _ _ _ i ri false Ha Hi Hkey) as (r' & Hr' & ->).
      exact Hr'.
    + injection H1 as <-. exact Hi.
    + discriminate.
Qed.

(** X16.  After [optimize_outlines] a record whose rounded position no
    other record of the buffer has carries its own NORMAL in the first
    three components of TANGENT, cast to the dtype of TANGENT. *)
Theorem optimize_outlines_lone_record :
  forall (position_buffer buf' : list BufferRow) (i : nat) (ri ri' : BufferRow),
    optimize_outlines true position_buffer = (buf', None) ->
    nth_error position_buffer i = Some ri ->
    nth_error buf' i = Some ri' ->
    (forall (j : nat) (rj : BufferRow),
        j <> i -> nth_error position_buffer j = Some rj ->
        row_eqb (map round3 (POSITION ri)) (map round3 (POSITION rj)) = false) ->
    assign_0_3 (TANGENT ri) (firstn 3 (NORMAL ri)) = Some (TANGENT ri').
Proof.
  intros buf buf' i ri ri' Hrun Hi Hi' Hlone.
  unfold optimize_outlines in Hrun. cbn [negb] in Hrun.
  destruct (Nat.eqb_spec (List.length buf) 0) as [H0 | _].
  { destruct buf; [destruct i; discriminate | discriminate]. }
  set (position := map (fun r => map round3 (POSITION r)) buf) in Hrun.
  match type of Hrun with
  | context [assign_rows ?mk ?s buf] =>
      destruct (assign_rows mk s buf) as [buf1 | ex] eqn:Ha
  end; [| discriminate].
  assert (Htrue : nth_error (map (fun _ : BufferRow => true) buf) i = Some true)
    by (rewrite nth_error_map, Hi; reflexivity).
  destruct (assign_rows_nth _ _ _ _ i ri true Ha Hi Htrue) as (ri1 & Hi1 & ti & Hti & ->).
  assert (Hlen1 : List.length position = List.length buf1).
  { unfold position. rewrite length_map.
    exact (Forall2_length_eq _ _ _ (assign_rows_frame _ _ _ _ (length_map _ _) Ha)). }
  assert (Hkeys : Forall (fun key => nth_error (map (row_eqb key) position) i = Some false)
                         (filter (shared position) (unique position))).
  { apply Forall_forall. intros key Hkey. apply filter_In in Hkey.
    destruct Hkey as [_ Hshared]. unfold shared in Hshared.
    assert (Hpi : nth_error position i = Some (map round3 (POSITION ri)))
      by (unfold position; rewrite nth_error_map, Hi; reflexivity).
    rewrite nth_error_map, Hpi. cbn [option_map]. f_equal.
    destruct (row_eqb key (map round3 (POSITION ri))) eqn:Hk; [| reflexivity].
    destruct (two_matches _ _ i _ Hshared Hpi) as (j & pj & Hji & Hpj & Hkj).
    unfold position in Hpj. rewrite nth_error_map in Hpj.
    destruct (nth_error buf j) as [rj |] eqn:Hj; [| discriminate].
    injection Hpj as <-.
    rewrite <- (Hlone j rj Hji Hj).
    symmetry. exact (row_eqb_trans _ _ _ (row_eqb_sym _ _ Hk) Hkj). }
  pose proof (average_groups_lone position _ buf1 buf' i _ Hlen1 Hkeys Hrun Hi1) as Hfin.
  rewrite Hi' in Hfin. injection Hfin as ->. exact Hti.
Qed.

(** The theorem applies to the second record of the example buffer. *)
Lemma optimize_outlines_lone_record_witness :
  assign_0_3 (TANGENT (buffer_row [1; 0; 0] [0; 0; 1] [9; 9; 9; 7]))
             (firstn 3 (NORMAL (buffer_row [1; 0; 0] [0; 0; 1] [9; 9; 9; 7])))
  = Some (TANGENT (nth 1 (fst (optimize_outlines true seam_buffer))
                       (buffer_row [] [] []))).
Proof.
  apply (optimize_outlines_lone_record seam_buffer
           (fst (optimize_outlines true seam_buffer)) 1
           (buffer_row [1; 0; 0] [0; 0; 1] [9; 9; 9; 7])
           (nth 1 (fst (optimize_outlines true seam_buffer)) (buffer_row [] [] []))).
  - vm_compute. reflexivity.
  - reflexivity.
  - vm_compute. reflexivity.
  - intros [| [| [| j]]] rj Hj Hr; try contradiction;
      try (injection Hr as <-; vm_compute; reflexivity).
    destruct j; discriminate Hr.
Defined.

End Seams.

(** ** Vertices at one position *)

Section EquivalenceKeys.
Import Grouping.
Context {K V : Type} (eqb : K -> K -> bool).
Hypothesis eqb_refl : forall a, eqb a a = true.
Hypothesis eqb_sym : forall a b, eqb a b = true -> eqb b a = true.
Hypothesis eqb_trans : forall a b c, eqb a b = true -> eqb b c = true -> eqb a c = true.

Lemma eqb_congr_l (a b c : K) : eqb a b = true -> eqb a c = eqb b c.
Proof.
  intros Hab.
  destruct (eqb a c) eqn:Hac, (eqb b c) eqn:Hbc; try reflexivity.
  - rewrite (eqb_trans _ _ _ (eqb_sym _ _ Hab) Hac) in Hbc. discriminate.
  - rewrite (eqb_trans _ _ _ Hab Hbc) in Hac. discriminate.
Qed.

Lemma get_congr (d : @PyDict.t K V) (k k' : K) :
  eqb k k' = true -> PyDict.get eqb d k = PyDict.get eqb d k'.
Proof.
  intros H. induction d as [| [k1 v1] d IH]; cbn [PyDict.get]; [reflexivity |].
  rewrite (eqb_congr_l k k' k1 H), IH. reflexivity.
Qed.

(** A lookup after [setdefault(k0, default)] followed by a change of
    the value. *)
Lemma get_upsert_equiv (d : @PyDict.t K V) (k0 : K) (default : V) (f : V -> V) (k : K) :
  PyDict.get eqb (PyDict.upsert eqb d k0 default f) k
  = if eqb k k0
    then Some (f (match PyDict.get eqb d k0 with Some g => g | None => default end))
    else PyDict.get eqb d k.
Proof.
  induction d as [| [k1 v1] d IH]; cbn [PyDict.get PyDict.upsert].
  - destruct (eqb k k0); reflexivity.
  - destruct (eqb k0 k1) eqn:E01; cbn [PyDict.get].
    + destruct (eqb k k0) eqn:Ek.
      * rewrite (eqb_trans _ _ _ Ek E01). reflexivity.
      * destruct (eqb k k1) eqn:Ek1; [| reflexivity].
        rewrite (eqb_trans _ _ _ Ek1 (eqb_sym _ _ E01)) in Ek. discriminate.
    + rewrite IH. destruct (eqb k k0) eqn:Ek.
      * destruct (eqb k k1) eqn:Ek1; [| reflexivity].
        rewrite (eqb_trans _ _ _ (eqb_sym _ _ Ek) Ek1) in E01. discriminate.
      * reflexivity.
Qed.

Lemma In_upsert (d : @PyDict.t K V) (k0 : K) (default : V) (f : V -> V) (k : K) (v : V) :
  In (k, v) (PyDict.upsert eqb d k0 default f) -> (exists v', In (k, v') d) \/ k = k0.
Proof.
  induction d as [| [k1 v1] d IH]; cbn [PyDict.upsert].
  - intros [[= <- _] | []]. right. reflexivity.
  - destruct (eqb k0 k1).
    + intros [[= <- _] | H]; left; [exists v1; left; reflexivity | exists v; right; exact H].
    + intros [[= <- <-] | H]; [left; exists v1; left; reflexivity |].
      destruct (IH H) as [(v' & Hv') | ->]; [left; exists v'; right; exact Hv' | right; reflexivity].
Qed.

Lemma keys_differ_upsert (d : @PyDict.t K V) (k0 : K) (default : V) (f : V -> V) :
  keys_differ eqb d -> keys_differ eqb (PyDict.upsert eqb d k0 default f).
Proof.
  induction d as [| [k1 v1] d IH]; cbn [PyDict.upsert keys_differ].
  - intros _. split; [intros k' v' [] | exact I].
  - intros [Hk Hd]. destruct (eqb k0 k1) eqn:E; cbn [keys_differ].
    + split; assumption.
    + split; [| exact (IH Hd)].
      intros k' v' Hin. destruct (In_upsert _ _ _ _ _ _ Hin) as [(v'' & Hv) | ->].
      * exact (Hk k' v'' Hv).
      * destruct (eqb k1 k0) eqn:E'; [| reflexivity].
        rewrite (eqb_sym _ _ E') in E. discriminate.
Qed.

Lemma get_of_In (d : @PyDict.t K V) (k : K) (v : V) :
  keys_differ eqb d -> In (k, v) d -> PyDict.get eqb d k = Some v.
Proof.
  induction d as [| [k1 v1] d IH]; cbn [keys_differ PyDict.get]; [intros _ [] |].
  intros [Hk Hd] [[= <- <-] | Hin].
  - rewrite eqb_refl. reflexivity.
  - destruct (eqb k k1) eqn:E; [| exact (IH Hd Hin)].
    apply eqb_sym in E. rewrite (Hk k v Hin) in E. discriminate.
Qed.

Lemma In_of_get (d : @PyDict.t K V) (k : K) (v : V) :
  PyDict.get eqb d k = Some v -> exists k', In (k', v) d /\ eqb k k' = true.
Proof.
  induction d as [| [k1 v1] d IH]; cbn [PyDict.get]; [discriminate |].
  destruct (eqb k k1) eqn:E.
  - intros [= <-]. exists k1. split; [left; reflexivity | exact E].
  - intros H. destruct (IH H) as (k' & Hin & Hk). exists k'. split; [right; exact Hin | exact Hk].
Qed.

End EquivalenceKeys.

Section SameVertex.
Import Outline Grouping.

Lemma QVec_eqb_refl (a : QVec) : QVec_eqb a a = true.
Proof.
  destruct a as [[x y] z]. unfold QVec_eqb.
  rewrite !(proj2 (Qeq_bool_iff _ _) (Qeq_refl _)). reflexivity.
Qed.

Lemma QVec_eqb_sym (a b : QVec) : QVec_eqb a b = true -> QVec_eqb b a = true.
Proof.
  destruct a as [[x y] z], b as [[x' y'] z']. unfold QVec_eqb.
  rewrite !andb_true_iff, !Qeq_bool_iff. intros [[H1 H2] H3].
  repeat split; symmetry; assumption.
Qed.

Lemma QVec_eqb_trans (a b c : QVec) :
  QVec_eqb a b = true -> QVec_eqb b c = true -> QVec_eqb a c = true.
Proof.
  destruct a as [[x y] z], b as [[x' y'] z'], c as [[x'' y''] z'']. unfold QVec_eqb.
  rewrite !andb_true_iff, !Qeq_bool_iff. intros [[H1 H2] H3] [[H4 H5] H6].
  repeat split; etransitivity; eassumption.
Qed.

Lemma In_add (x v : nat) (s : PySet.t) : In x (PySet.add v s) <-> x = v \/ In x s.
Proof.
  unfold PySet.add. destruct (PySet.mem v s) eqn:E.
  - apply mem_In in E. split; [tauto | intros [-> | H]; assumption].
  - rewrite in_app_iff. cbn. intuition congruence.
Qed.

Section Visit.
Variables (props : OutlineProperties) (mesh : Mesh) (i_nedd : Z).

Lemma visit_vertex_groups (i_poly : nat) (st : PreDict) (vert : nat) (seen : list nat) :
  groups_by_key props mesh st seen ->
  groups_by_key props mesh (visit_vertex props mesh i_nedd i_poly st vert) (seen ++ [vert]).
Proof.
  unfold groups_by_key. intros (Hs & Hd & Hg). unfold visit_vertex.
  destruct (PySet.mem vert (searched_vertex_pos st)) eqn:Hmem;
    cbn [searched_vertex_pos Pos_Same_Vertices].
  - apply mem_In in Hmem. apply Hs in Hmem.
    assert (Hsame : forall v, In v (seen ++ [vert]) <-> In v seen).
    { intros v. rewrite in_app_iff. cbn. intuition congruence. }
    split; [intros v; rewrite Hsame; apply Hs |]. split; [exact Hd |].
    intros k. specialize (Hg k).
    destruct (PyDict.get QVec_eqb (Pos_Same_Vertices st) k) as [g |].
    + intros v. rewrite Hsame. apply Hg.
    + intros v Hv. apply Hg, Hsame, Hv.
  - assert (Hnew : ~ In vert seen).
    { intros H. apply Hs, mem_In in H. congruence. }
    fold (position_key props mesh vert).
    set (k0 := position_key props mesh vert).
    split; [| split].
    + intros v. rewrite In_add, in_app_iff, Hs. cbn. intuition congruence.
    + apply keys_differ_upsert; [exact QVec_eqb_sym | exact Hd].
    + intros k.
      rewrite (get_upsert_equiv QVec_eqb QVec_eqb_sym QVec_eqb_trans).
      destruct (QVec_eqb k k0) eqn:Ek.
      * pose proof (Hg k0) as Hg0.
        intros v. rewrite in_app_iff. cbn [In].
        assert (Hkey : forall w, QVec_eqb (position_key props mesh w) k
                                 = QVec_eqb (position_key props mesh w) k0).
        { intros w.
          destruct (QVec_eqb (position_key props mesh w) k) eqn:E1,
                   (QVec_eqb (position_key props mesh w) k0) eqn:E2; try reflexivity.
          - rewrite (QVec_eqb_trans _ _ _ E1 Ek) in E2. discriminate.
          - rewrite (QVec_eqb_trans _ _ _ E2 (QVec_eqb_sym _ _ Ek)) in E1. discriminate. }
        rewrite Hkey.
        destruct (PyDict.get QVec_eqb (Pos_Same_Vertices st) k0) as [g |].
        -- rewrite In_add, Hg0. split.
           ++ intros [-> | [H1 H2]]; [split; [right; left; reflexivity | apply QVec_eqb_refl] |].
              split; [left; exact H1 | exact H2].
           ++ intros [[H1 | [-> | []]] H2]; [right; split; assumption | left; reflexivity].
        -- rewrite In_add. cbn [In]. split.
           ++ intros [-> | [-> | []]]; (split; [right; left; reflexivity | apply QVec_eqb_refl]).
           ++ intros [[H1 | [-> | []]] H2]; [| left; reflexivity].
              rewrite (Hg0 v H1) in H2. discriminate.
      * specialize (Hg k).
        assert (Hv0 : QVec_eqb k0 k = false).
        { destruct (QVec_eqb k0 k) eqn:E; [| reflexivity].
          rewrite (QVec_eqb_sym _ _ E) in Ek. discriminate. }
        destruct (PyDict.get QVec_eqb (Pos_Same_Vertices st) k) as [g |].
        -- intros v. rewrite Hg, in_app_iff. cbn [In]. split.
           ++ intros [H1 H2]. split; [left; exact H1 | exact H2].
           ++ intros [[H1 | [<- | []]] H2]; [split; assumption |].
              unfold k0 in Hv0. rewrite Hv0 in H2. discriminate.
        -- intros v Hv. apply in_app_iff in Hv. destruct Hv as [Hv | [<- | []]];
             [apply Hg, Hv | exact Hv0].
Qed.

Lemma fold_visit_vertex_groups (i_poly : nat) (vs : list nat) :
  forall (st : PreDict) (seen : list nat),
    groups_by_key props mesh st seen ->
    groups_by_key props mesh
      (fold_left (visit_vertex props mesh i_nedd i_poly) vs st) (seen ++ vs).
Proof.
  induction vs as [| v vs IH]; intros st seen H; cbn [fold_left].
  - rewrite app_nil_r. exact H.
  - replace (seen ++ v :: vs) with ((seen ++ [v]) ++ vs) by (rewrite <- app_assoc; reflexivity).
    apply IH, visit_vertex_groups, H.
Qed.

Lemma fold_polygons_groups (ips : list (nat * MeshPolygon)) :
  forall (st : PreDict) (seen : list nat),
    groups_by_key props mesh st seen ->
    groups_by_key props mesh
      (fold_left
         (fun st ip =>
            fold_left (visit_vertex props mesh i_nedd (fst ip)) (vertices (snd ip)) st)
         ips st)
      (seen ++ flat_map vertices (map snd ips)).
Proof.
  induction ips as [| ip ips IH]; intros st seen H; cbn [fold_left map flat_map].
  - rewrite app_nil_r. exact H.
  - rewrite app_assoc. apply IH, fold_visit_vertex_groups, H.
Qed.

Lemma map_snd_combine_seq {A : Type} (l : list A) :
  forall n, map snd (combine (seq n (List.length l)) l) = l.
Proof.
  induction l as [| a l IH]; intros n; cbn; [reflexivity | rewrite IH; reflexivity].
Qed.

Lemma pre_dictionary_groups :
  groups_by_key props mesh (pre_dictionary props mesh i_nedd)
    (flat_map vertices (polygons mesh)).
Proof.
  unfold pre_dictionary.
  replace (flat_map vertices (polygons mesh))
    with ([] ++ flat_map vertices (map snd (indexed_polygons mesh)))
    by (unfold indexed_polygons; rewrite map_snd_combine_seq; reflexivity).
  apply fold_polygons_groups.
  unfold groups_by_key. cbn. split; [tauto |]. split; [exact I |]. intros _ v [].
Qed.

End Visit.

Lemma get_setdefault {V : Type} (d : @PyDict.t nat V) (k : nat) (val : V) (k0 : nat) :
  PyDict.get Nat.eqb (PyDict.setdefault Nat.eqb d k val) k0
  = match PyDict.get Nat.eqb d k0 with
    | Some g => Some g
    | None => if (k0 =? k)%nat then Some val else None
    end.
Proof.
  unfold PyDict.setdefault. rewrite (get_upsert_equiv Nat.eqb).
  - destruct (k0 =? k)%nat eqn:E.
    + apply Nat.eqb_eq in E. subst k0.
      destruct (PyDict.get Nat.eqb d k); reflexivity.
    + destruct (PyDict.get Nat.eqb d k0); reflexivity.
  - intros a b H. rewrite Nat.eqb_sym. exact H.
  - intros a b c H1 H2. apply Nat.eqb_eq in H1, H2. apply Nat.eqb_eq. congruence.
Qed.

(** One round of lines 324-328: the vertices of [values] that have no
    entry yet get [values]. *)
Lemma get_share_group (values : PySet.t) (v : nat) (vs : list nat) :
  forall S : @PyDict.t nat PySet.t,
    PyDict.get Nat.eqb
      (fold_left (fun S' vertex => PyDict.setdefault Nat.eqb S' vertex values) vs S) v
    = match PyDict.get Nat.eqb S v with
      | Some g => Some g
      | None => if PySet.mem v vs then Some values else None
      end.
Proof.
  induction vs as [| x vs IH]; intros S; cbn [fold_left].
  - destruct (PyDict.get Nat.eqb S v); reflexivity.
  - rewrite IH, get_setdefault.
    change (PySet.mem v (x :: vs)) with ((v =? x)%nat || PySet.mem v vs).
    destruct (PyDict.get Nat.eqb S v); [reflexivity |].
    destruct (v =? x)%nat; reflexivity.
Qed.

Lemma get_share_groups (v : nat) (gs : list PySet.t) :
  forall S : @PyDict.t nat PySet.t,
    PyDict.get Nat.eqb
      (fold_left
         (fun S values =>
            fold_left (fun S' vertex => PyDict.setdefault Nat.eqb S' vertex values) values S)
         gs S) v
    = match PyDict.get Nat.eqb S v with
      | Some g => Some g
      | None => find (PySet.mem v) gs
      end.
Proof.
  induction gs as [| g gs IH]; intros S; cbn [fold_left find].
  - destruct (PyDict.get Nat.eqb S v) eqn:E; exact E.
  - rewrite IH, get_share_group.
    destruct (PyDict.get Nat.eqb S v); [reflexivity |].
    destruct (PySet.mem v g); reflexivity.
Qed.

Lemma In_corner (mesh : Mesh) (v : nat) :
  In v (flat_map vertices (polygons mesh)) <-> corner mesh v.
Proof. unfold corner. apply in_flat_map. Qed.

(** X17. [Same_Vertex] as lines 275-328 build it groups the corners of
    the polygons by position key: a vertex that is a corner of some polygon
    is mapped to the set of all corners whose (rounded) position equals
    its own, whatever the order in which the sets are walked; a vertex of
    no polygon has no entry. *)
Theorem Same_Vertex_groups_by_position
    (props : OutlineProperties) (mesh : Mesh) (i_nedd : Z) (v : nat) :
  let S := initial_Same_Vertex (pre_dictionary props mesh i_nedd) in
  (corner mesh v ->
   exists g, PyDict.get Nat.eqb S v = Some g /\
             forall w, In w g <->
                       corner mesh w /\
                       QVec_eqb (position_key props mesh w) (position_key props mesh v) = true)
  /\ (~ corner mesh v -> PyDict.get Nat.eqb S v = None).
Proof.
  cbn zeta. unfold initial_Same_Vertex. rewrite get_share_groups. cbn [PyDict.get].
  destruct (pre_dictionary_groups props mesh i_nedd) as (_ & Hd & Hg).
  set (d := Pos_Same_Vertices (pre_dictionary props mesh i_nedd)) in *.
  assert (Hgroup : forall g, In g (PyDict.values d) -> In v g ->
            forall w, In w g <->
                      corner mesh w /\
                      QVec_eqb (position_key props mesh w) (position_key props mesh v) = true).
  { intros g Hin Hv. unfold PyDict.values in Hin. apply in_map_iff in Hin.
    destruct Hin as ([k g'] & Hg' & Hin). cbn in Hg'. subst g'.
    pose proof (get_of_In QVec_eqb QVec_eqb_refl QVec_eqb_sym d k g Hd Hin) as Hget.
    specialize (Hg k). rewrite Hget in Hg.
    pose proof (proj2 (proj1 (Hg v) Hv)) as Hvk.
    intros w. rewrite Hg, In_corner. split; intros [H1 H2]; (split; [exact H1 |]).
    - exact (QVec_eqb_trans _ _ _ H2 (QVec_eqb_sym _ _ Hvk)).
    - exact (QVec_eqb_trans _ _ _ H2 Hvk). }
  split.
  - intros Hc.
    assert (Hex : exists g, In g (PyDict.values d) /\ In v g).
    { pose proof (Hg (position_key props mesh v)) as Hk.
      destruct (PyDict.get QVec_eqb d (position_key props mesh v)) as [g |] eqn:Hget.
      - destruct (In_of_get QVec_eqb d _ g Hget) as (k' & Hin & _).
        exists g. split.
        + unfold PyDict.values. apply in_map_iff. exists (k', g). split; [reflexivity | exact Hin].
        + apply Hk. split; [apply In_corner, Hc | apply QVec_eqb_refl].
      - pose proof (QVec_eqb_refl (position_key props mesh v)) as Hr.
        rewrite (Hk v (proj2 (In_corner mesh v) Hc)) in Hr. discriminate. }
    destruct (find (PySet.mem v) (PyDict.values d)) as [g |] eqn:Hf.
    + apply find_some in Hf. destruct Hf as [Hin Hm]. apply mem_In in Hm.
      exists g. split; [reflexivity | exact (Hgroup g Hin Hm)].
    + destruct Hex as (g & Hin & Hv).
      pose proof (find_none _ _ Hf g Hin) as Hn. apply mem_In in Hv. congruence.
  - intros Hc.
    destruct (find (PySet.mem v) (PyDict.values d)) as [g |] eqn:Hf; [| reflexivity].
    apply find_some in Hf. destruct Hf as [Hin Hm]. apply mem_In in Hm.
    exfalso. apply Hc. exact (proj1 (proj1 (Hgroup g Hin Hm v) Hm)).
Qed.

End SameVertex.

(** ** Components, parts and index ranges *)

Section InitializeDataFacts.
Import Initialize.
Context {M : Type} (process_mesh : Scene.SceneObject -> Scene.SceneObject -> M)
        (n_polygons : M -> nat) (lower : string -> string).

Lemma mapM_inr {A B : Type} (f : A -> error + B) (l : list A) :
  forall bs, mapM f l = inr bs -> Forall2 (fun a b => f a = inr b) l bs.
Proof.
  induction l as [| a l IH]; cbn [mapM]; intros bs.
  - intros [= <-]. constructor.
  - destruct (f a) as [e | b] eqn:Ha; cbn [bind]; [discriminate |].
    destruct (mapM f l) as [e | bs'] eqn:Hl; cbn [bind]; [discriminate |].
    intros [= <-]. constructor; [exact Ha | apply IH; reflexivity].
Qed.

Lemma mapM_inr_iff {A B : Type} (f : A -> error + B) (l : list A) :
  (exists bs, mapM f l = inr bs) <-> Forall (fun a => exists b, f a = inr b) l.
Proof.
  induction l as [| a l IH]; cbn [mapM].
  - split; [constructor | exists []; reflexivity].
  - split.
    + intros (bs & H). destruct (f a) as [e | b] eqn:Ha; cbn [bind] in H; [discriminate |].
      destruct (mapM f l) as [e | bs'] eqn:Hl; cbn [bind] in H; [discriminate |].
      constructor; [exists b; exact Ha | apply IH; exists bs'; reflexivity].
    + intros H. inversion H as [| ? ? (b & Hb) Hrest]; subst.
      apply IH in Hrest. destruct Hrest as (bs & Hbs).
      exists (b :: bs). rewrite Hb. cbn [bind]. rewrite Hbs. reflexivity.
Qed.

Lemma TextureData_of_inr (entry : list string) :
  (exists t, TextureData_of entry = inr t) <-> List.length entry = 3%nat.
Proof.
  destruct entry as [| a [| b [| c [| d l]]]]; cbn; split;
    try discriminate; try (intros (t & H); discriminate H); try reflexivity.
  intros _. eexists. reflexivity.
Qed.

Lemma textures_inr (entries : list (list string)) :
  (exists ts, mapM TextureData_of entries = inr ts)
  <-> Forall (fun entry => List.length entry = 3%nat) entries.
Proof.
  rewrite mapM_inr_iff. rewrite !Forall_forall.
  split; intros H e He;
    [exact (proj1 (TextureData_of_inr e) (H e He)) | exact (proj2 (TextureData_of_inr e) (H e He))].
Qed.

(** The loop body runs through exactly for a part that is ready. *)
Lemma make_part_ready (flags : Scene.Flags) (data : BlendData)
    (candidates : list Scene.SceneObject) (current_name : string)
    (component : Hash.Component) (j : nat) (part : string) :
  (exists p, make_part process_mesh n_polygons lower flags data candidates
               current_name component j part = inr p)
  <-> part_ready lower data candidates current_name component j part.
Proof.
  unfold make_part, part_ready.
  destruct (matching_objs candidates (current_name ++ part)) as [| o [| o' l]].
  - split; [intros (p & H); discriminate H | intros ((o & H) & _); discriminate H].
  - destruct (1 <? List.length (matching_collections lower data (current_name ++ part)))%nat
      eqn:Hc.
    + apply Nat.ltb_lt in Hc.
      split; [intros (p & H); discriminate H | intros (_ & H & _); lia].
    + apply Nat.ltb_ge in Hc.
      destruct (nth_error (Hash.texture_hashes component) j) as [entries |] eqn:Ht;
        cbn [bind].
      * destruct (mapM TextureData_of entries) as [e | ts] eqn:Hm; cbn [bind].
        -- split; [intros (p & H); discriminate H |].
           intros (_ & _ & (entries' & [= <-] & Hall) & _).
           apply textures_inr in Hall. destruct Hall as (ts & Hts). congruence.
        -- destruct (nth_error (Hash.object_indexes component) j) as [fi |] eqn:Hi.
           ++ split; [| intros _; eexists; reflexivity].
              intros _. split; [exists o; reflexivity |]. split; [exact Hc |].
              split.
              ** exists entries. split; [reflexivity |]. apply textures_inr.
                 exists ts. exact Hm.
              ** apply nth_error_Some. congruence.
           ++ split; [intros (p & H); discriminate H |].
              intros (_ & _ & _ & H). apply nth_error_Some in H. congruence.
      * split; [intros (p & H); discriminate H |].
        intros (_ & _ & (entries & H & _) & _). discriminate H.
  - split; [intros (p & H); discriminate H | intros ((o'' & H) & _); discriminate H].
Qed.

Lemma make_parts_undrawn (flags : Scene.Flags) (data : BlendData)
    (candidates : list Scene.SceneObject) (current_name : string)
    (component : Hash.Component) (classifications : list string) :
  Hash.draw_vb component = EmptyString ->
  forall j, make_parts process_mesh n_polygons lower flags data candidates
              current_name component j classifications = inr [].
Proof.
  intros Hd. induction classifications as [| part rest IH]; intros j; cbn [make_parts].
  - reflexivity.
  - rewrite Hd. cbn [String.eqb]. apply IH.
Qed.

Lemma make_parts_drawn (flags : Scene.Flags) (data : BlendData)
    (candidates : list Scene.SceneObject) (current_name : string)
    (component : Hash.Component) (classifications : list string) :
  Hash.draw_vb component <> EmptyString ->
  forall j ps,
    make_parts process_mesh n_polygons lower flags data candidates
      current_name component j classifications = inr ps ->
    Forall2 (fun kpart p =>
               make_part process_mesh n_polygons lower flags data candidates
                 current_name component (fst kpart) (snd kpart) = inr p)
            (combine (seq j (List.length classifications)) classifications) ps.
Proof.
  intros Hd. apply String.eqb_neq in Hd.
  induction classifications as [| part rest IH]; intros j ps; cbn [make_parts].
  - intros [= <-]. constructor.
  - rewrite Hd.
    destruct (make_part process_mesh n_polygons lower flags data candidates
                current_name component j part) as [e | p] eqn:Hp; cbn [bind];
      [discriminate |].
    destruct (make_parts process_mesh n_polygons lower flags data candidates
                current_name component (S j) rest) as [e | ps'] eqn:Hps; cbn [bind];
      [discriminate |].
    intros [= <-]. cbn [List.length seq combine]. constructor; [exact Hp |].
    apply IH. exact Hps.
Qed.

Lemma make_parts_ready (flags : Scene.Flags) (data : BlendData)
    (candidates : list Scene.SceneObject) (current_name : string)
    (component : Hash.Component) (classifications : list string) :
  Hash.draw_vb component <> EmptyString ->
  forall j,
    (exists ps, make_parts process_mesh n_polygons lower flags data candidates
                  current_name component j classifications = inr ps)
    <-> (forall k part,
            nth_error classifications k = Some part ->
            part_ready lower data candidates current_name component (j + k) part).
Proof.
  intros Hd. pose proof (proj2 (String.eqb_neq _ _) Hd) as Hd'.
  induction classifications as [| part rest IH]; intros j; cbn [make_parts].
  - split; [intros _ [| k] part' H; discriminate H | intros _; exists []; reflexivity].
  - rewrite Hd'. split.
    + intros (ps & H).
      destruct (make_part process_mesh n_polygons lower flags data candidates
                  current_name component j part) as [e | p] eqn:Hp; cbn [bind] in H;
        [discriminate |].
      destruct (make_parts process_mesh n_polygons lower flags data candidates
                  current_name component (S j) rest) as [e | ps'] eqn:Hps; cbn [bind] in H;
        [discriminate |].
      intros [| k] part' Hk; cbn [nth_error] in Hk.
      * injection Hk as <-. rewrite Nat.add_0_r.
        apply (proj1 (make_part_ready flags data candidates current_name component j part)).
        exists p. exact Hp.
      * replace (j + S k)%nat with (S j + k)%nat by lia.
        apply (proj1 (IH (S j))); [exists ps'; exact Hps | exact Hk].
    + intros H.
      destruct (proj2 (make_part_ready flags data candidates current_name component j part))
        as (p & Hp).
      { rewrite <- (Nat.add_0_r j). apply H. reflexivity. }
      destruct (proj2 (IH (S j))) as (ps & Hps).
      { intros k part' Hk. replace (S j + k)%nat with (j + S k)%nat by lia.
        apply H. exact Hk. }
      exists (p :: ps). rewrite Hp. cbn [bind]. rewrite Hps. reflexivity.
Qed.

Lemma make_component_ready (flags : Scene.Flags) (data : BlendData)
    (candidates : list Scene.SceneObject) (mod_name : string)
    (component : Hash.Component) :
  (exists c, make_component process_mesh n_polygons lower flags data candidates
               mod_name component = inr c)
  <-> (Hash.draw_vb component = EmptyString \/
       forall j part,
         nth_error (Hash.object_classifications component) j = Some part ->
         part_ready lower data candidates (mod_name ++ Hash.component_name component)
           component j part).
Proof.
  unfold make_component.
  destruct (string_dec (Hash.draw_vb component) EmptyString) as [Hd | Hd].
  - rewrite (make_parts_undrawn _ _ _ _ _ _ Hd). cbn [bind].
    split; [intros _; left; exact Hd | intros _; eexists; reflexivity].
  - pose proof (make_parts_ready flags data candidates
                  (mod_name ++ Hash.component_name component) component
                  (Hash.object_classifications component) Hd 0) as Hr.
    cbn [Nat.add] in Hr. split.
    + intros (c & H). right. apply Hr.
      destruct (make_parts process_mesh n_polygons lower flags data candidates
                  (mod_name ++ Hash.component_name component) component 0
                  (Hash.object_classifications component)) as [e | ps]; cbn [bind] in H;
        [discriminate | exists ps; reflexivity].
    + intros [H | H]; [contradiction |].
      apply Hr in H. destruct H as (ps & Hps). rewrite Hps. cbn [bind].
      eexists. reflexivity.
Qed.

(** X18.  When [initialize_data] returns, the hash data is not empty and
    every part of every component that has a [draw_vb] was ready: one
    candidate object has a name that starts with the name of the part, at
    most one collection has, and [hash.json] lists three-valued textures
    and a first index for the part.  The parts of a component without
    [draw_vb] are never looked up in the scene.  (The converse does not
    hold of the code: [process_mesh] can raise inside Blender, which the
    total [process_mesh] of the model does not.) *)
Theorem initialize_data_needs_ready_parts :
  forall (flags : Scene.Flags) (data : BlendData) (mod_name : string)
         (hash_data : list Hash.Component) (components : list Mod.Component),
    initialize_data process_mesh n_polygons lower flags data mod_name hash_data
    = inr components ->
    hash_data <> [] /\
    Forall (fun component =>
              Hash.draw_vb component = EmptyString \/
              forall j part,
                nth_error (Hash.object_classifications component) j = Some part ->
                part_ready lower data (candidate_objs flags data)
                  (mod_name ++ Hash.component_name component) component j part)
           hash_data.
Proof.
  intros flags data mod_name hash_data components Hrun. unfold initialize_data in Hrun.
  destruct hash_data as [| h hs]; [discriminate Hrun |].
  split; [discriminate |].
  assert (Hall : exists cs,
             mapM (make_component process_mesh n_polygons lower flags data
                     (candidate_objs flags data) mod_name) (h :: hs) = inr cs)
    by (exists components; exact Hrun).
  rewrite mapM_inr_iff in Hall. rewrite Forall_forall in *. intros c Hc.
  exact (proj1 (make_component_ready _ _ _ _ c) (Hall c Hc)).
Qed.

Lemma assign_offsets_spec (objs : list (@Scene.SubObj M)) :
  forall (offset : nat) (l1 : list Scene.SubObj) (e : Scene.SubObj) (l2 : list Scene.SubObj),
    assign_offsets n_polygons objs offset = l1 ++ e :: l2 ->
    Scene.index_count e = (n_polygons (Scene.mesh e) * 3)%nat /\
    Scene.index_offset e = (offset + list_sum (map Scene.index_count l1))%nat.
Proof.
  induction objs as [| o objs IH]; intros offset l1 e l2; cbn [assign_offsets].
  - destruct l1; discriminate.
  - destruct l1 as [| x l1]; cbn [app].
    + intros [= <- _]. cbn [Scene.index_count Scene.index_offset Scene.mesh map list_sum fold_right].
      split; [reflexivity | lia].
    + intros [= <- Hrest]. destruct (IH _ _ _ _ Hrest) as [Hc Ho].
      split; [exact Hc |]. rewrite Ho.
      unfold list_sum. cbn [Scene.index_count map fold_right]. lia.
Qed.

Lemma obj_from_col_main (flags : Scene.Flags) (main_obj : Scene.SceneObject)
    (collection : option Scene.Collection) (depth : nat) :
  exists rest,
    Scene.obj_from_col process_mesh flags main_obj collection [] depth
    = Scene.sub_obj process_mesh EmptyString depth main_obj main_obj :: rest.
Proof.
  destruct collection as [c |]; cbn [Scene.obj_from_col].
  - destruct (walk_collection_spec process_mesh flags main_obj c [] depth)
      as (added & -> & _).
    exists added. reflexivity.
  - exists []. reflexivity.
Qed.

Lemma make_part_objects (flags : Scene.Flags) (data : BlendData)
    (candidates : list Scene.SceneObject) (current_name : string)
    (component : Hash.Component) (j : nat) (part : string) (p : Part) :
  make_part process_mesh n_polygons lower flags data candidates
    current_name component j part = inr p ->
  fullname p = (current_name ++ part)%string /\
  exists main_obj,
    matching_objs candidates (current_name ++ part) = [main_obj] /\
    objects p
    = assign_offsets n_polygons
        (Scene.obj_from_col process_mesh flags main_obj
           (hd_error (matching_collections lower data (current_name ++ part))) [] 0) 0.
Proof.
  unfold make_part.
  destruct (matching_objs candidates (current_name ++ part)) as [| o [| o' l]];
    [discriminate | | discriminate].
  destruct (1 <? _)%nat; [discriminate |].
  destruct (nth_error (Hash.texture_hashes component) j) as [entries |]; cbn [bind];
    [| discriminate].
  destruct (mapM TextureData_of entries) as [e | ts]; cbn [bind]; [discriminate |].
  destruct (nth_error (Hash.object_indexes component) j) as [fi |]; [| discriminate].
  intros [= <-]. cbn [fullname objects]. split; [reflexivity |].
  exists o. split; reflexivity.
Qed.

Lemma In_Forall2_right {A B : Type} (R : A -> B -> Prop) (l : list A) (l' : list B) (b : B) :
  Forall2 R l l' -> In b l' -> exists a, In a l /\ R a b.
Proof.
  induction 1 as [| a b' l l' Hab _ IH]; cbn [In]; [contradiction |].
  intros [<- | H].
  - exists a. split; [left; reflexivity | exact Hab].
  - destruct (IH H) as (a' & Ha' & HR). exists a'. split; [right; exact Ha' | exact HR].
Qed.

(** X19.  In the components [initialize_data] builds, every part is
    named after its component and classification, its first object is the
    one candidate whose name starts with the name of the part, with index
    offset 0, and the index ranges of its objects follow one another: each
    object has three indices per polygon of its mesh and starts where the
    objects before it end. *)
Theorem initialize_data_index_ranges :
  forall (flags : Scene.Flags) (data : BlendData) (mod_name : string)
         (hash_data : list Hash.Component) (components : list Mod.Component)
         (c : Mod.Component) (p : Part),
    initialize_data process_mesh n_polygons lower flags data mod_name hash_data
    = inr components ->
    In c components -> In p (Mod.parts c) ->
    (exists part, fullname p = (Mod.fullname c ++ part)%string) /\
    (exists main rest,
        objects p = main :: rest /\
        matching_objs (candidate_objs flags data) (fullname p) = [Scene.obj main] /\
        Scene.index_offset main = 0%nat) /\
    (forall l1 e l2,
        objects p = l1 ++ e :: l2 ->
        Scene.index_count e = (n_polygons (Scene.mesh e) * 3)%nat /\
        Scene.index_offset e = list_sum (map Scene.index_count l1)).
Proof.
  intros flags data mod_name hash_data components c p Hrun Hc Hp.
  unfold initialize_data in Hrun. destruct hash_data as [| h0 hs]; [discriminate |].
  apply mapM_inr in Hrun.
  destruct (In_Forall2_right _ _ _ c Hrun Hc) as (h & _ & Hh).
  unfold make_component in Hh.
  destruct (make_parts process_mesh n_polygons lower flags data (candidate_objs flags data)
              (mod_name ++ Hash.component_name h) h 0 (Hash.object_classifications h))
    as [e | ps] eqn:Hps; cbn [bind] in Hh; [discriminate |].
  injection Hh as <-. cbn [Mod.parts Mod.fullname] in *.
  destruct (string_dec (Hash.draw_vb h) EmptyString) as [Hd | Hd].
  { rewrite (make_parts_undrawn _ _ _ _ _ _ Hd) in Hps. injection Hps as <-.
    contradiction. }
  pose proof (make_parts_drawn _ _ _ _ _ _ Hd _ _ Hps) as Hall.
  destruct (In_Forall2_right _ _ _ p Hall Hp) as ([j part] & _ & Hmk).
  cbn [fst snd] in Hmk.
  destruct (make_part_objects _ _ _ _ _ _ _ _ Hmk) as (Hname & main_obj & Hmatch & Hobjs).
  split; [exists part; exact Hname |].
  split.
  - destruct (obj_from_col_main flags main_obj
                (hd_error (matching_collections lower data
                             ((mod_name ++ Hash.component_name h) ++ part))) 0)
      as (rest & Hrest).
    rewrite Hrest in Hobjs. cbn [assign_offsets] in Hobjs.
    eexists. eexists. split; [exact Hobjs |].
    cbn [Scene.obj Scene.index_offset Scene.sub_obj]. split; [| reflexivity].
    rewrite Hname. exact Hmatch.
  - intros l1 e l2 Hsplit. rewrite Hobjs in Hsplit.
    exact (assign_offsets_spec _ _ _ _ _ Hsplit).
Qed.

End InitializeDataFacts.

Section InitializeDataRun.
Import Initialize SceneExamples.

(** The theorem applies to the run on the example scene. *)
Lemma initialize_data_needs_ready_parts_witness :
  keqing_hash <> [] /\
  Forall (fun component =>
            Hash.draw_vb component = EmptyString \/
            forall j part,
              nth_error (Hash.object_classifications component) j = Some part ->
              part_ready lower_ascii keqing_data (candidate_objs keqing_flags keqing_data)
                ("Keqing" ++ Hash.component_name component) component j part)
         keqing_hash.
Proof.
  apply (initialize_data_needs_ready_parts keqing_mesh (fun n => n) lower_ascii
           keqing_flags keqing_data "Keqing" keqing_hash [keqing_body; keqing_dress]).
  vm_compute. reflexivity.
Defined.

Lemma initialize_data_index_ranges_witness :
  (exists part, fullname keqing_body_part = (Mod.fullname keqing_body ++ part)%string) /\
  (exists main rest,
      objects keqing_body_part = main :: rest /\
      matching_objs (candidate_objs keqing_flags keqing_data) (fullname keqing_body_part)
      = [Scene.obj main] /\
      Scene.index_offset main = 0%nat) /\
  (forall l1 e l2,
      objects keqing_body_part = l1 ++ e :: l2 ->
      Scene.index_count e = (Scene.mesh e * 3)%nat /\
      Scene.index_offset e = list_sum (map Scene.index_count l1)).
Proof.
  apply (initialize_data_index_ranges keqing_mesh (fun n => n) lower_ascii
           keqing_flags keqing_data "Keqing" keqing_hash
           [keqing_body; keqing_dress] keqing_body keqing_body_part).
  - vm_compute. reflexivity.
  - left. reflexivity.
  - left. reflexivity.
Defined.

End InitializeDataRun.

(** ** The vertex count of a merged component *)

Section MergedComponent.
Import Bytes Intermediate Blender ModFolder.
Context {O : Type}.
Variables (offsets : list (string * O))
          (no_ramps delete_intermediate copy_textures : bool)
          (game : GameEnum)
          (current_name : string)
          (object_classifications : list string)
          (texture_hashes : option (list (list (list string))))
          (position_stride blend_stride texcoord_stride : Z).
Hypothesis position_stride_pos : 0 < position_stride.
Hypothesis blend_stride_nonneg : 0 <= blend_stride.
Hypothesis texcoord_stride_nonneg : 0 <= texcoord_stride.


Lemma NoDup_app_disjoint {A : Type} (l l' : list A) (a : A) :
  NoDup (l ++ l') -> In a l -> ~ In a l'.
Proof.
  induction l as [| x l IH]; cbn [app In]; [contradiction |].
  intros Hnd [<- | Hin] Hin'.
  - inversion Hnd as [| ? ? Hx _]; subst. apply Hx, in_or_app. right. exact Hin'.
  - inversion Hnd as [| ? ? _ Hl]; subst. exact (IH Hl Hin Hin').
Qed.

Lemma read_filter_other (f : folder) (name n : string) :
  n <> name ->
  read (filter (fun kv => negb (String.eqb name (fst kv))) f) n = read f n.
Proof.
  intros Hne. induction f as [| [k data] f IH]; cbn [filter read fst]; [reflexivity |].
  destruct (String.eqb_spec name k) as [<- | Hk]; cbn [negb].
  - rewrite IH. destruct (String.eqb_spec n name); [contradiction | reflexivity].
  - cbn [read]. rewrite IH. reflexivity.
Qed.

Lemma read_remove_other (f f' : folder) (name n : string) :
  remove f name = inr f' -> n <> name -> read f' n = read f n.
Proof.
  unfold remove. destruct (read f name); [| discriminate].
  intros [= <-] Hne. apply read_filter_other, Hne.
Qed.

Lemma read_remove_intermediate (p p' : folder) (fullname n : string) :
  remove_intermediate delete_intermediate p fullname = inr p' ->
  (delete_intermediate = true -> ~ In n (intermediate_files fullname)) ->
  read p' n = read p n.
Proof.
  unfold remove_intermediate. destruct delete_intermediate.
  - intros Hrun Hn. specialize (Hn eq_refl). cbn [intermediate_files In] in Hn.
    destruct (remove p (fullname ++ ".vb0")) as [e | p1] eqn:H1; cbn [bind] in Hrun;
      [discriminate |].
    destruct (remove p1 (fullname ++ ".ib")) as [e | p2] eqn:H2; cbn [bind] in Hrun;
      [discriminate |].
    rewrite (read_remove_other _ _ _ n Hrun) by (intros ->; tauto).
    rewrite (read_remove_other _ _ _ n H2) by (intros ->; tauto).
    apply (read_remove_other _ _ _ n H1). intros ->. tauto.
  - intros [= <-] _. reflexivity.
Qed.

(** Copying textures leaves the buffers, the count and the dump folder
    as they are. *)
Lemma copy_textures_loop_frame (fullname : string) (textures : list (list string)) :
  forall st st' : @State O,
    copy_textures_loop no_ramps copy_textures game fullname st textures = inr st' ->
    offset st' = offset st /\ position st' = position st /\ blend st' = blend st /\
    texcoord st' = texcoord st /\ path st' = path st.
Proof.
  induction textures as [| texture rest IH]; intros st st'; cbn [copy_textures_loop].
  - intros [= <-]. repeat split.
  - destruct (copy_texture no_ramps copy_textures game fullname st texture)
      as [e | st1] eqn:H1; cbn [bind]; [discriminate |].
    intros Hrest. apply IH in Hrest.
    assert (Hst1 : offset st1 = offset st /\ position st1 = position st /\
                   blend st1 = blend st /\ texcoord st1 = texcoord st /\
                   path st1 = path st).
    { clear - H1. unfold copy_texture in H1.
      destruct (if no_ramps then _ else _) as [e | ramp]; cbn [bind] in H1;
        [discriminate |].
      destruct ramp; [injection H1 as <-; repeat split |].
      destruct texture as [| t0 [| t1 [| t2 tl]]]; try discriminate.
      destruct (lookup (texture_hashes_written st) t2);
        [injection H1 as <-; repeat split |].
      destruct (if copy_textures then _ else _) as [e | d]; cbn [bind] in H1;
        [discriminate |].
      injection H1 as <-. repeat split. }
    destruct Hrest as (-> & -> & -> & -> & ->). exact Hst1.
Qed.

Lemma whole_length (recs : list (bytes * bytes * bytes)) :
  Forall (whole_record position_stride blend_stride texcoord_stride) recs ->
  Z.of_nat (List.length (List.concat (map (fun r => fst (fst r)) recs)))
  = Z.of_nat (List.length recs) * position_stride.
Proof.
  induction 1 as [| [[p b] t] recs (Hp & _ & _) _ IH]; [reflexivity |].
  cbn [map List.concat List.length fst snd] in *. rewrite length_app. lia.
Qed.

Lemma whole_rounds (recs : list (bytes * bytes * bytes)) :
  Forall (whole_record position_stride blend_stride texcoord_stride) recs -> (List.length recs <= List.length (vb0_bytes recs))%nat.
Proof.
  induction 1 as [| [[p b] t] recs (Hp & _ & _) _ IH]; [cbn; lia |].
  unfold vb0_bytes in *. cbn [map List.concat List.length fst snd] in *.
  rewrite !length_app. lia.
Qed.

(** One round of the loop on an object whose [.vb0] file holds whole
    records. *)
Lemma collect_object_whole (st st' : @State O) (i : nat) (object_name : string)
    (recs : list (bytes * bytes * bytes)) (count : nat) :
  current_object object_classifications i = inr object_name ->
  read (path st) ((current_name ++ object_name) ++ ".vb0") = Some (vb0_bytes recs) ->
  Forall (whole_record position_stride blend_stride texcoord_stride) recs ->
  Z.of_nat (List.length (position st)) = Z.of_nat count * position_stride ->
  collect_object offsets no_ramps delete_intermediate copy_textures game current_name
    object_classifications texture_hashes
    (split_strides position_stride blend_stride texcoord_stride) st i = Some (inr st') ->
  offset st' = offset st + Z.of_nat (count + List.length recs) /\
  position st' = position st ++ List.concat (map (fun r => fst (fst r)) recs) /\
  blend st' = blend st ++ List.concat (map (fun r => snd (fst r)) recs) /\
  texcoord st' = texcoord st ++ List.concat (map (fun r => snd r) recs) /\
  remove_intermediate delete_intermediate (path st) (current_name ++ object_name)
  = inr (path st').
Proof.
  intros Hname Hfile Hwhole Hcount. unfold collect_object. rewrite Hname.
  rewrite Hfile. unfold collect_buffers.
  assert (Hsplit :
            collect_vb (List.length (vb0_bytes recs)) (Some (vb0_bytes recs))
              (position_stride, blend_stride, texcoord_stride)
            = Some (List.concat (map (fun r => fst (fst r)) recs),
                    List.concat (map (fun r => snd (fst r)) recs),
                    List.concat (map (fun r => snd r) recs))).
  { unfold collect_vb.
    exact (collect_vb_loop_spec position_stride blend_stride texcoord_stride
             ltac:(lia) blend_stride_nonneg texcoord_stride_nonneg ltac:(lia)
             recs _ [] [] [] [] Hwhole (whole_rounds recs Hwhole)). }
  rewrite Hsplit.
  destruct (collect_ib _ (offset st)) as [[e | ib] |]; try discriminate.
  intros [= Hrun].
  destruct (remove_intermediate delete_intermediate (path st) (current_name ++ object_name))
    as [e | path'] eqn:Hrm; cbn [bind] in Hrun; [discriminate |].
  destruct (Z.eqb_spec position_stride 0) as [Hz | _]; [lia |].
  destruct (lookup offsets (current_name ++ object_name)) as [o |]; [| discriminate].
  destruct (textures_of texture_hashes i) as [e | textures]; cbn [bind] in Hrun;
    [discriminate |].
  apply copy_textures_loop_frame in Hrun.
  cbn [offset position blend texcoord path] in Hrun.
  destruct Hrun as (Ho & Hp & Hb & Ht & Hpath).
  rewrite Ho, Hp, Hb, Ht, Hpath. repeat split.
  f_equal. rewrite length_app, Nat2Z.inj_add, Hcount, (whole_length recs Hwhole).
  rewrite <- Z.mul_add_distr_r, Z.div_mul by lia. lia.
Qed.

(** The vertices counted for files of [ns] vertices after [before]
    vertices: each file adds the number of vertices collected so far. *)
Lemma counted_cons (before n : nat) (ns : list nat) :
  list_sum (map (fun k => before + list_sum (firstn (S k) (n :: ns)))
                (seq 0 (List.length (n :: ns))))%nat
  = ((before + n)
     + list_sum (map (fun k => (before + n) + list_sum (firstn (S k) ns))
                     (seq 0 (List.length ns))))%nat.
Proof.
  assert (Hcons : forall (a : nat) (l : list nat), list_sum (a :: l) = (a + list_sum l)%nat)
    by reflexivity.
  cbn [List.length seq map]. rewrite Hcons, <- seq_shift, map_map.
  rewrite (map_ext _ (fun k => ((before + n) + list_sum (firstn (S k) ns))%nat)).
  - rewrite firstn_cons, firstn_O, Hcons. change (list_sum []) with 0%nat. lia.
  - intros k. rewrite firstn_cons, Hcons. lia.
Qed.

Lemma collect_objects_whole (files : list (string * list (bytes * bytes * bytes))) :
  forall (st st' : @State O) (first count : nat),
    (forall j object_name recs,
        nth_error files j = Some (object_name, recs) ->
        current_object object_classifications (first + j) = inr object_name /\
        read (path st) ((current_name ++ object_name) ++ ".vb0") = Some (vb0_bytes recs) /\
        Forall (whole_record position_stride blend_stride texcoord_stride) recs) ->
    (delete_intermediate = true ->
     NoDup (flat_map (fun f => intermediate_files (current_name ++ fst f)) files)) ->
    Z.of_nat (List.length (position st)) = Z.of_nat count * position_stride ->
    collect_objects offsets no_ramps delete_intermediate copy_textures game current_name
      object_classifications texture_hashes
      (split_strides position_stride blend_stride texcoord_stride)
      st (seq first (List.length files)) = Some (inr st') ->
    offset st'
    = offset st
      + Z.of_nat (list_sum
                    (map (fun k =>
                            count + list_sum (firstn (S k)
                                                (map (fun f => List.length (snd f)) files)))
                         (seq 0 (List.length files))))%nat /\
    position st'
    = position st ++ List.concat (map (fun r => fst (fst r)) (flat_map snd files)) /\
    blend st'
    = blend st ++ List.concat (map (fun r => snd (fst r)) (flat_map snd files)) /\
    texcoord st'
    = texcoord st ++ List.concat (map (fun r => snd r) (flat_map snd files)).
Proof.
  induction files as [| [object_name recs] files IH];
    intros st st' first count Hfiles Hnd Hcount.
  - cbn. intros [= <-]. rewrite !app_nil_r. repeat split. lia.
  - intros Hrun. cbn [List.length seq collect_objects] in Hrun. revert Hrun.
    destruct (collect_object offsets no_ramps delete_intermediate copy_textures game
                current_name object_classifications texture_hashes
                (split_strides position_stride blend_stride texcoord_stride) st first)
      as [[e | st1] |] eqn:Hstep; try discriminate.
    intros Hrest.
    destruct (Hfiles 0%nat object_name recs eq_refl) as (Hname & Hfile & Hwhole).
    rewrite Nat.add_0_r in Hname.
    destruct (collect_object_whole st st1 first object_name recs count
                Hname Hfile Hwhole Hcount Hstep) as (Ho & Hp & Hb & Ht & Hrm).
    assert (Hcount1 : Z.of_nat (List.length (position st1))
                      = Z.of_nat (count + List.length recs) * position_stride).
    { rewrite Hp, length_app, Nat2Z.inj_add, Hcount, (whole_length recs Hwhole). lia. }
    destruct (IH st1 st' (S first) (count + List.length recs)%nat) as (Ho' & Hp' & Hb' & Ht').
    + intros j name' recs' Hj.
      destruct (Hfiles (S j) name' recs' Hj) as (Hn' & Hf' & Hw').
      split; [replace (S first + j)%nat with (first + S j)%nat by lia; exact Hn' |].
      split; [| exact Hw'].
      rewrite (read_remove_intermediate _ _ _ _ Hrm); [exact Hf' |].
      intros Hdel. specialize (Hnd Hdel). cbn [flat_map fst] in Hnd.
      intros Hin. apply (NoDup_app_disjoint _ _ _ Hnd Hin).
      apply in_flat_map. exists (name', recs'). split.
      * apply nth_error_In with (n := j). exact Hj.
      * cbn [fst intermediate_files]. left. reflexivity.
    + intros Hdel. specialize (Hnd Hdel). cbn [flat_map] in Hnd.
      exact (NoDup_app_remove_l _ _ Hnd).
    + exact Hcount1.
    + exact Hrest.
    + rewrite Ho', Hp', Hb', Ht', Ho, Hp, Hb, Ht. split.
      * change (map (fun f : string * list (bytes * bytes * bytes) => List.length (snd f))
                    ((object_name, recs) :: files))
          with (List.length recs :: map (fun f : string * list (bytes * bytes * bytes) =>
                                           List.length (snd f)) files).
        pose proof (counted_cons count (List.length recs)
                      (map (fun f : string * list (bytes * bytes * bytes) =>
                              List.length (snd f)) files)) as Hc.
        cbn [List.length] in Hc |- *. rewrite length_map in Hc. rewrite Hc. lia.
      * cbn [flat_map snd]. rewrite !map_app, !concat_app, !app_assoc. repeat split.
Qed.

(** X20.  The loop of [generate_mod_folder] over the objects of a
    component with blend data, whose [.vb0] files hold whole records: the
    merged position, blend and texcoord buffers are the parts of the
    records of all files in order, and [offset], which rebases the index
    buffer of the next object and ends up as [total_verts], grows after
    every object by the number of vertices collected so far; after files
    of [n_0, ..., n_(m-1)] vertices it is the sum of the [n_0 + ... + n_k]
    for [k < m]. *)
Theorem generate_mod_folder_counts_vertices :
  forall (files : list (string * list (bytes * bytes * bytes)))
         (dump mod_folder : folder) (written : list (string * string))
         (st' : @State O),
    (forall j object_name recs,
        nth_error files j = Some (object_name, recs) ->
        current_object object_classifications j = inr object_name /\
        read dump ((current_name ++ object_name) ++ ".vb0") = Some (vb0_bytes recs) /\
        Forall (whole_record position_stride blend_stride texcoord_stride) recs) ->
    (delete_intermediate = true ->
     NoDup (flat_map (fun f => intermediate_files (current_name ++ fst f)) files)) ->
    collect_component offsets no_ramps delete_intermediate copy_textures game current_name
      object_classifications texture_hashes
      (split_strides position_stride blend_stride texcoord_stride)
      (List.length files) dump mod_folder written = Some (inr st') ->
    offset st'
    = Z.of_nat (list_sum
                  (map (fun k =>
                          list_sum (firstn (S k)
                                      (map (fun f => List.length (snd f)) files)))
                       (seq 0 (List.length files)))) /\
    position st' = List.concat (map (fun r => fst (fst r)) (flat_map snd files)) /\
    blend st' = List.concat (map (fun r => snd (fst r)) (flat_map snd files)) /\
    texcoord st' = List.concat (map (fun r => snd r) (flat_map snd files)).
Proof.
  intros files dump mod_folder written st' Hfiles Hnd Hrun.
  unfold collect_component in Hrun.
  set (st0 := {| offset := 0; position := []; blend := []; texcoord := [];
                 objects := []; path := dump; destination := mod_folder;
                 texture_hashes_written := written |}) in Hrun.
  destruct (collect_objects_whole files st0 st' 0 0 Hfiles Hnd eq_refl Hrun)
    as (Ho & Hp & Hb & Ht).
  subst st0.
  cbn [offset position blend texcoord] in Ho, Hp, Hb, Ht.
  repeat split; assumption.
Qed.

End MergedComponent.

Section TexturesWritten.
Import Bytes Intermediate Blender ModFolder.
Context {O : Type}.
Variables (offsets : list (string * O))
          (no_ramps delete_intermediate copy_textures : bool)
          (game : GameEnum)
          (current_name : string)
          (object_classifications : list string)
          (texture_hashes : option (list (list (list string))))
          (strides : Strides).

Lemma lookup_None {A : Type} (d : list (string * A)) (k : string) :
  lookup d k = None <-> ~ In k (map fst d).
Proof.
  induction d as [| [k' v] d IH]; cbn [lookup map fst In]; [tauto |].
  destruct (String.eqb_spec k k') as [-> | Hne].
  - split; [discriminate | intros H; exfalso; apply H; left; reflexivity].
  - rewrite IH. split; [intros H [E | Hin]; [congruence | exact (H Hin)] | tauto].
Qed.

Lemma copy_texture_records (fullname : string) (st st' : @State O) (texture : list string) :
  copy_texture no_ramps copy_textures game fullname st texture = inr st' ->
  NoDup (map fst (texture_hashes_written st)) ->
  NoDup (map fst (texture_hashes_written st')) /\
  exists added,
    texture_hashes_written st' = texture_hashes_written st ++ added /\
    (Assembler.is_game game ZenlessZoneZero || Assembler.is_game game HonkaiStarRail = false ->
     added = []).
Proof.
  unfold copy_texture. intros Hrun Hnd.
  assert (Hsame : forall s : @State O,
             texture_hashes_written s = texture_hashes_written st ->
             NoDup (map fst (texture_hashes_written s)) /\
             exists added,
               texture_hashes_written s = texture_hashes_written st ++ added /\
               (Assembler.is_game game ZenlessZoneZero
                || Assembler.is_game game HonkaiStarRail = false -> added = [])).
  { intros s Hs. rewrite Hs. split; [exact Hnd |].
    exists []. rewrite app_nil_r. split; [reflexivity | intros _; reflexivity]. }
  destruct (if no_ramps then _ else _) as [e | ramp]; cbn [bind] in Hrun; [discriminate |].
  destruct ramp; [injection Hrun as <-; apply Hsame; reflexivity |].
  destruct texture as [| t0 [| t1 [| t2 tl]]]; try discriminate.
  destruct (lookup (texture_hashes_written st) t2) eqn:Hl;
    [injection Hrun as <-; apply Hsame; reflexivity |].
  destruct (if copy_textures then _ else _) as [e | dest]; cbn [bind] in Hrun;
    [discriminate |].
  injection Hrun as <-. cbn [texture_hashes_written].
  destruct (Assembler.is_game game ZenlessZoneZero || Assembler.is_game game HonkaiStarRail).
  - split.
    + rewrite map_app. cbn [map fst]. apply NoDup_app; [exact Hnd | repeat constructor; tauto |].
      intros a Ha [<- | []]. apply lookup_None in Hl. contradiction.
    + eexists. split; [reflexivity | discriminate].
  - split; [exact Hnd |]. exists []. rewrite app_nil_r.
    split; [reflexivity | intros _; reflexivity].
Qed.

Lemma copy_textures_loop_records (fullname : string) (textures : list (list string)) :
  forall st st' : @State O,
    copy_textures_loop no_ramps copy_textures game fullname st textures = inr st' ->
    NoDup (map fst (texture_hashes_written st)) ->
    NoDup (map fst (texture_hashes_written st')) /\
    exists added,
      texture_hashes_written st' = texture_hashes_written st ++ added /\
      (Assembler.is_game game ZenlessZoneZero || Assembler.is_game game HonkaiStarRail = false ->
       added = []).
Proof.
  induction textures as [| texture rest IH]; intros st st'; cbn [copy_textures_loop].
  - intros [= <-] Hnd. split; [exact Hnd |]. exists []. rewrite app_nil_r.
    split; [reflexivity | intros _; reflexivity].
  - destruct (copy_texture no_ramps copy_textures game fullname st texture)
      as [e | st1] eqn:H1; cbn [bind]; [discriminate |].
    intros Hrest Hnd.
    destruct (copy_texture_records fullname st st1 texture H1 Hnd) as (Hnd1 & a1 & E1 & G1).
    destruct (IH st1 st' Hrest Hnd1) as (Hnd' & a2 & E2 & G2).
    split; [exact Hnd' |]. exists (a1 ++ a2). split.
    + rewrite E2, E1, app_assoc. reflexivity.
    + intros Hg. rewrite (G1 Hg), (G2 Hg). reflexivity.
Qed.

Lemma collect_object_records (st st' : @State O) (i : nat) :
  collect_object offsets no_ramps delete_intermediate copy_textures game current_name
    object_classifications texture_hashes strides st i = Some (inr st') ->
  NoDup (map fst (texture_hashes_written st)) ->
  NoDup (map fst (texture_hashes_written st')) /\
  exists added,
    texture_hashes_written st' = texture_hashes_written st ++ added /\
    (Assembler.is_game game ZenlessZoneZero || Assembler.is_game game HonkaiStarRail = false ->
     added = []).
Proof.
  unfold collect_object.
  destruct (current_object object_classifications i) as [e | object_name]; [discriminate |].
  destruct (collect_buffers strides st _) as [[[[p b] t] ps] |]; [| discriminate].
  destruct (collect_ib _ (offset st)) as [[e | ib] |]; try discriminate.
  intros [= Hrun].
  destruct (remove_intermediate delete_intermediate (path st) (current_name ++ object_name))
    as [e | path']; cbn [bind] in Hrun; [discriminate |].
  destruct (ps =? 0); [discriminate |].
  destruct (lookup offsets (current_name ++ object_name)) as [o |]; [| discriminate].
  destruct (textures_of texture_hashes i) as [e | textures]; cbn [bind] in Hrun;
    [discriminate |].
  intros Hnd.
  exact (copy_textures_loop_records _ textures _ st' Hrun Hnd).
Qed.

Lemma collect_objects_records (indexes : list nat) :
  forall st st' : @State O,
    NoDup (map fst (texture_hashes_written st)) ->
    collect_objects offsets no_ramps delete_intermediate copy_textures game current_name
      object_classifications texture_hashes strides st indexes = Some (inr st') ->
    NoDup (map fst (texture_hashes_written st')) /\
    exists added,
      texture_hashes_written st' = texture_hashes_written st ++ added /\
      (Assembler.is_game game ZenlessZoneZero || Assembler.is_game game HonkaiStarRail = false ->
       added = []).
Proof.
  induction indexes as [| i indexes IH]; intros st st' Hnd; cbn [collect_objects].
  - intros [= <-]. split; [exact Hnd |]. exists []. rewrite app_nil_r.
    split; [reflexivity | intros _; reflexivity].
  - destruct (collect_object offsets no_ramps delete_intermediate copy_textures game
                current_name object_classifications texture_hashes strides st i)
      as [[e | st1] |] eqn:H1; try discriminate.
    intros Hrest.
    destruct (collect_object_records st st1 i H1 Hnd) as (Hnd1 & a1 & E1 & G1).
    destruct (IH st1 st' Hnd1 Hrest) as (Hnd' & a2 & E2 & G2).
    split; [exact Hnd' |]. exists (a1 ++ a2). split.
    + rewrite E2, E1, app_assoc. reflexivity.
    + intros Hg. rewrite (G1 Hg), (G2 Hg). reflexivity.
Qed.

(** X22.  The record of written texture hashes only grows while the
    objects of a component are collected, and no hash is recorded twice:
    a texture whose hash is in the record is skipped, so the file recorded
    for a hash is the first one met.  Hashes are recorded for Zenless Zone
    Zero and Honkai Star Rail only; for the other games the record stays as
    it was. *)
Theorem generate_mod_folder_records_hash_once :
  forall (n_objects : nat) (dump mod_folder : folder) (written : list (string * string))
         (st' : @State O),
    NoDup (map fst written) ->
    collect_component offsets no_ramps delete_intermediate copy_textures game current_name
      object_classifications texture_hashes strides n_objects dump mod_folder written
    = Some (inr st') ->
    NoDup (map fst (texture_hashes_written st')) /\
    exists added,
      texture_hashes_written st' = written ++ added /\
      (Assembler.is_game game ZenlessZoneZero || Assembler.is_game game HonkaiStarRail = false ->
       added = []).
Proof.
  intros n_objects dump mod_folder written st' Hnd Hrun. unfold collect_component in Hrun.
  exact (collect_objects_records (seq 0 n_objects)
           {| offset := 0; position := []; blend := []; texcoord := [];
              objects := []; path := dump; destination := mod_folder;
              texture_hashes_written := written |} st' Hnd Hrun).
Qed.

End TexturesWritten.

Section MergedComponentRun.
Import Bytes Intermediate Blender ModFolder FolderExamples.

Lemma generate_mod_folder_counts_vertices_witness :
  offset merged_state = 4 /\
  position merged_state
  = [Byte.x01; Byte.x02; Byte.x04; Byte.x05; Byte.x07; Byte.x08] /\
  blend merged_state = [Byte.x03; Byte.x06; Byte.x09] /\
  texcoord merged_state = [].
Proof.
  apply (generate_mod_folder_counts_vertices
           merged_offsets false true false GenshinImpact "Char" ["Head"; "Body"]%string None
           2 1 0 ltac:(lia) ltac:(lia) ltac:(lia)
           merged_files merged_dump [] [] merged_state).
  - intros [| [| j]] object_name recs Hj; cbn in Hj; try (destruct j; discriminate Hj);
      injection Hj as <- <-; (split; [reflexivity |]); (split; [reflexivity |]);
      repeat constructor.
  - intros _. cbn. repeat constructor; cbn; intuition discriminate.
  - vm_compute. reflexivity.
Defined.

Lemma generate_mod_folder_records_hash_once_witness :
  NoDup (map fst (texture_hashes_written recorded_state)) /\
  exists added,
    texture_hashes_written recorded_state = [] ++ added /\
    (Assembler.is_game ZenlessZoneZero ZenlessZoneZero
     || Assembler.is_game ZenlessZoneZero HonkaiStarRail = false ->
     added = []).
Proof.
  apply (generate_mod_folder_records_hash_once
           merged_offsets false true false ZenlessZoneZero "Char" ["Head"; "Body"]%string None
           (split_strides 2 1 0) 2 merged_dump [] [] recorded_state).
  - constructor.
  - vm_compute. reflexivity.
Defined.

End MergedComponentRun.

(** ** One direction per position *)

Section PositionClasses.
Import Outline OutlineCalc Grouping.

Lemma Nat_eqb_sym_true (a b : nat) : (a =? b)%nat = true -> (b =? a)%nat = true.
Proof. rewrite Nat.eqb_sym. exact (fun H => H). Qed.

Lemma Nat_eqb_trans_true (a b c : nat) :
  (a =? b)%nat = true -> (b =? c)%nat = true -> (a =? c)%nat = true.
Proof. rewrite !Nat.eqb_eq. congruence. Qed.

Lemma keys_differ_initial_Same_Vertex (pre : PreDict) :
  keys_differ Nat.eqb (initial_Same_Vertex pre).
Proof.
  unfold initial_Same_Vertex.
  assert (Hinner : forall (values vs : PySet.t) (S : @PyDict.t nat PySet.t),
             keys_differ Nat.eqb S ->
             keys_differ Nat.eqb
               (fold_left (fun S' vertex => PyDict.setdefault Nat.eqb S' vertex values) vs S)).
  { intros values vs. induction vs as [| x vs IH]; intros S HS; cbn [fold_left];
      [exact HS |].
    apply IH. unfold PyDict.setdefault.
    apply keys_differ_upsert; [exact Nat_eqb_sym_true | exact HS]. }
  assert (Houter : forall (gs : list PySet.t) (S : @PyDict.t nat PySet.t),
             keys_differ Nat.eqb S ->
             keys_differ Nat.eqb
               (fold_left
                  (fun S values =>
                     fold_left (fun S' vertex => PyDict.setdefault Nat.eqb S' vertex values)
                               values S)
                  gs S)).
  { induction gs as [| g gs IH]; intros S HS; cbn [fold_left]; [exact HS |].
    apply IH, Hinner, HS. }
  apply Houter. exact I.
Qed.

Lemma In_initial_Same_Vertex (pre : PreDict) (k : nat) (g : PySet.t) :
  In (k, g) (initial_Same_Vertex pre)
  <-> find (PySet.mem k) (PyDict.values (Pos_Same_Vertices pre)) = Some g.
Proof.
  pose proof (get_share_groups k (PyDict.values (Pos_Same_Vertices pre)) []) as Hget.
  cbn [PyDict.get] in Hget. fold (initial_Same_Vertex pre) in Hget.
  split.
  - intros Hin. rewrite <- Hget.
    apply (get_of_In Nat.eqb Nat.eqb_refl Nat_eqb_sym_true);
      [apply keys_differ_initial_Same_Vertex | exact Hin].
  - intros Hf. rewrite <- Hget in Hf.
    destruct (In_of_get Nat.eqb _ _ _ Hf) as (k' & Hin & Hk).
    apply Nat.eqb_eq in Hk. subst k'. exact Hin.
Qed.

Section Classes.
Variables (props : OutlineProperties) (mesh : Mesh) (i_nedd : Z).

Lemma group_members_share_key (k : QVec) (g : PySet.t) (u : nat) :
  In (k, g) (Pos_Same_Vertices (pre_dictionary props mesh i_nedd)) -> In u g ->
  In u (flat_map vertices (polygons mesh)) /\
  QVec_eqb (position_key props mesh u) k = true.
Proof.
  intros Hin Hu.
  destruct (pre_dictionary_groups props mesh i_nedd) as (_ & Hd & Hg).
  pose proof (get_of_In QVec_eqb QVec_eqb_refl QVec_eqb_sym _ k g Hd Hin) as Hget.
  specialize (Hg k). rewrite Hget in Hg. apply Hg, Hu.
Qed.

(** The groups are disjoint: a member is found in its own group. *)
Lemma find_member (k : QVec) (g : PySet.t) (u : nat) :
  In (k, g) (Pos_Same_Vertices (pre_dictionary props mesh i_nedd)) -> In u g ->
  find (PySet.mem u) (PyDict.values (Pos_Same_Vertices (pre_dictionary props mesh i_nedd))) = Some g.
Proof.
  destruct (pre_dictionary_groups props mesh i_nedd) as (_ & Hd & _).
  pose proof group_members_share_key as Hkey.
  set (d := Pos_Same_Vertices (pre_dictionary props mesh i_nedd)) in *.
  clearbody d. revert Hd Hkey.
  induction d as [| [k1 g1] d' IH]; intros Hd Hkey Hin Hu; [contradiction |].
  cbn [PyDict.values map snd find]. cbn [keys_differ] in Hd. destruct Hd as [Hhead Hd'].
  destruct (PySet.mem u g1) eqn:Hm.
  - destruct Hin as [[= -> ->] | Hin]; [reflexivity |].
    exfalso. apply mem_In in Hm.
    destruct (Hkey k1 g1 u (or_introl eq_refl) Hm) as [_ H1].
    destruct (Hkey k g u (or_intror Hin) Hu) as [_ H2].
    pose proof (QVec_eqb_trans _ _ _ (QVec_eqb_sym _ _ H1) H2) as H12.
    rewrite (Hhead k g Hin) in H12. discriminate.
  - destruct Hin as [[= -> ->] | Hin].
    + apply mem_In in Hu. congruence.
    + apply IH; [exact Hd' | | exact Hin | exact Hu].
      intros k' g' u' Hin' Hu'. apply (Hkey k' g' u'); [right; exact Hin' | exact Hu'].
Qed.

Lemma Same_Vertex_key_in_group (k : nat) (g : PySet.t) : In (k, g) (initial_Same_Vertex (pre_dictionary props mesh i_nedd)) -> In k g.
Proof.
  intros Hin. apply In_initial_Same_Vertex, find_some in Hin.
  apply mem_In, Hin.
Qed.

Lemma Same_Vertex_members (k : nat) (g : PySet.t) (u : nat) :
  In (k, g) (initial_Same_Vertex (pre_dictionary props mesh i_nedd)) -> In u g -> In (u, g) (initial_Same_Vertex (pre_dictionary props mesh i_nedd)).
Proof.
  intros Hin Hu. apply In_initial_Same_Vertex in Hin.
  apply In_initial_Same_Vertex.
  apply find_some in Hin. destruct Hin as [Hin _].
  unfold PyDict.values in Hin. apply in_map_iff in Hin.
  destruct Hin as ([key g'] & Hg' & Hin). cbn in Hg'. subst g'.
  exact (find_member key g u Hin Hu).
Qed.

Lemma same_key_same_group (v w : nat) :
  corner mesh v -> corner mesh w ->
  QVec_eqb (position_key props mesh v) (position_key props mesh w) = true ->
  exists g, In (v, g) (initial_Same_Vertex (pre_dictionary props mesh i_nedd)) /\ In w g.
Proof.
  intros Hv Hw Hkey.
  destruct (pre_dictionary_groups props mesh i_nedd) as (_ & _ & Hg).
  set (d := Pos_Same_Vertices (pre_dictionary props mesh i_nedd)) in *.
  specialize (Hg (position_key props mesh v)).
  apply In_corner in Hv. apply In_corner in Hw.
  destruct (PyDict.get QVec_eqb d (position_key props mesh v)) as [g |] eqn:Hget.
  - exists g. destruct (In_of_get QVec_eqb d _ g Hget) as (k' & Hin & _).
    assert (Hvg : In v g) by (apply Hg; split; [exact Hv | apply QVec_eqb_refl]).
    split.
    + apply In_initial_Same_Vertex. exact (find_member k' g v Hin Hvg).
    + apply Hg. split; [exact Hw | exact (QVec_eqb_sym _ _ Hkey)].
  - pose proof (Hg v Hv) as Hn. rewrite QVec_eqb_refl in Hn. discriminate.
Qed.

End Classes.

(** *** The calculation loop on classes *)

Section Loop.
Variables (einsum_ij_ij : vec -> vec -> spec_float) (arccos : spec_float -> spec_float).
Variables (props : OutlineProperties) (mesh : Mesh) (pre : PreDict)
          (by_same_vertex S : @PyDict.t nat PySet.t).
Hypothesis S_keys : keys_differ Nat.eqb S.
Hypothesis S_key_in_group : forall k g, In (k, g) S -> In k g.
Hypothesis S_members : forall k g u, In (k, g) S -> In u g -> In (u, g) S.

Lemma S_group_unique (k : nat) (g g' : PySet.t) : In (k, g) S -> In (k, g') S -> g = g'.
Proof.
  intros H H'.
  pose proof (get_of_In Nat.eqb Nat.eqb_refl Nat_eqb_sym_true S k g S_keys H) as E.
  pose proof (get_of_In Nat.eqb Nat.eqb_refl Nat_eqb_sym_true S k g' S_keys H') as E'.
  congruence.
Qed.


Lemma store_group (w : vec) (g : PySet.t) :
  forall st : CalcState,
    let st' :=
      fold_left
        (fun s vertexf =>
           {| export_outline := PyDict.setdefault Nat.eqb (export_outline s) vertexf w;
              IteratedValues := PySet.add vertexf (IteratedValues s) |})
        g st in
    (forall x, PyDict.get Nat.eqb (export_outline st') x
               = match PyDict.get Nat.eqb (export_outline st) x with
                 | Some y => Some y
                 | None => if PySet.mem x g then Some w else None
                 end) /\
    (forall x, In x (IteratedValues st') <-> In x (IteratedValues st) \/ In x g).
Proof.
  induction g as [| v g IH]; intros st; cbn [fold_left].
  - split; [intros x; destruct (PyDict.get Nat.eqb (export_outline st) x); reflexivity |].
    intros x. cbn. tauto.
  - destruct (IH {| export_outline := PyDict.setdefault Nat.eqb (export_outline st) v w;
                    IteratedValues := PySet.add v (IteratedValues st) |}) as [He Hi].
    cbn [export_outline IteratedValues] in He, Hi. split.
    + intros x. rewrite He, get_setdefault.
      change (PySet.mem x (v :: g)) with ((x =? v)%nat || PySet.mem x g).
      destruct (PyDict.get Nat.eqb (export_outline st) x); [reflexivity |].
      destruct (x =? v)%nat; reflexivity.
    + intros x. rewrite Hi, In_add. cbn [In]. intuition congruence.
Qed.

Lemma calc_group_consistent (st st' : CalcState) (kv : nat * PySet.t) :
  one_entry_per_group S st -> In kv S ->
  calc_group einsum_ij_ij arccos props mesh pre by_same_vertex None st kv = Some st' ->
  one_entry_per_group S st'.
Proof.
  unfold one_entry_per_group. intros [H1 H2] Hin.
  destruct kv as [key vertex_group]. unfold calc_group.
  destruct (PySet.mem key (IteratedValues st)) eqn:Hit; [intros [= <-]; split; assumption |].
  destruct (negb (calculate_all_faces props) && (List.length vertex_group =? 1)%nat);
    [intros [= <-]; split; assumption |].
  destruct (overlapping_faces props && _); [intros [= <-]; split; assumption |].
  destruct (group_wSum einsum_ij_ij arccos props mesh pre vertex_group (get_set by_same_vertex key))
    as [wSum |]; [| discriminate].
  intros [= <-]. unfold store_wSum.
  destruct (differs_from_zero wSum); [| split; assumption].
  cbn match.
  destruct (store_group wSum vertex_group st) as [He Hi].
  set (st' := fold_left _ vertex_group st) in *. clearbody st'.
  assert (Hnot : ~ In key (IteratedValues st)).
  { intros H. apply mem_In in H. congruence. }
  assert (Hnone : forall u, In u vertex_group ->
                            PyDict.get Nat.eqb (export_outline st) u = None).
  { intros u Hu. rewrite (H1 key vertex_group u Hin Hu).
    exact (H2 key vertex_group Hin Hnot). }
  assert (Hsame : forall k g u, In (k, g) S -> In u g ->
                                (In u vertex_group <-> In k vertex_group)).
  { intros k g u Hk Hu. split; intros Hv.
    - pose proof (S_members key vertex_group u Hin Hv) as Hu1.
      pose proof (S_members k g u Hk Hu) as Hu2.
      rewrite (S_group_unique u vertex_group g Hu1 Hu2).
      exact (S_key_in_group k g Hk).
    - pose proof (S_members key vertex_group k Hin Hv) as Hk1.
      rewrite (S_group_unique k vertex_group g Hk1 Hk). exact Hu. }
  split.
  - intros k g u Hk Hu. rewrite !He.
    destruct (PySet.mem u vertex_group) eqn:Hmu.
    + apply mem_In in Hmu.
      pose proof (proj1 (Hsame k g u Hk Hu) Hmu) as Hmk.
      rewrite (Hnone u Hmu), (Hnone k Hmk).
      apply mem_In in Hmk. rewrite Hmk. reflexivity.
    + destruct (PySet.mem k vertex_group) eqn:Hmk.
      * apply mem_In in Hmk. apply (Hsame k g u Hk Hu) in Hmk.
        apply mem_In in Hmk. congruence.
      * rewrite (H1 k g u Hk Hu).
        destruct (PyDict.get Nat.eqb (export_outline st) k); reflexivity.
  - intros k g Hk Hnk. rewrite He.
    assert (Hk1 : ~ In k (IteratedValues st)) by (intros H; apply Hnk, Hi; left; exact H).
    assert (Hk2 : ~ In k vertex_group) by (intros H; apply Hnk, Hi; right; exact H).
    rewrite (H2 k g Hk Hk1).
    destruct (PySet.mem k vertex_group) eqn:Hmk; [| reflexivity].
    apply mem_In in Hmk. contradiction.
Qed.

Lemma calc_loop_consistent (items : list (nat * PySet.t)) :
  forall st st' : CalcState,
    one_entry_per_group S st -> incl items S ->
    calc_loop einsum_ij_ij arccos props mesh pre by_same_vertex None items st = Some st' ->
    one_entry_per_group S st'.
Proof.
  induction items as [| kv items IH]; intros st st' Hc Hincl; cbn [calc_loop].
  - intros [= <-]. exact Hc.
  - destruct (calc_group einsum_ij_ij arccos props mesh pre by_same_vertex None st kv) as [st1 |] eqn:H1;
      [| discriminate].
    apply IH.
    + exact (calc_group_consistent st st1 kv Hc (Hincl kv (or_introl eq_refl)) H1).
    + intros x Hx. apply Hincl. right. exact Hx.
Qed.

Lemma calc_loop_one_entry_per_group (st' : CalcState) (k : nat) (g : PySet.t) (u : nat) :
  calc_loop einsum_ij_ij arccos props mesh pre by_same_vertex None S
    {| export_outline := []; IteratedValues := [] |} = Some st' ->
  In (k, g) S -> In u g ->
  PyDict.get Nat.eqb (export_outline st') u = PyDict.get Nat.eqb (export_outline st') k.
Proof.
  intros Hrun Hk Hu.
  assert (Hc : one_entry_per_group S st').
  { apply (calc_loop_consistent S {| export_outline := []; IteratedValues := [] |} st');
      [| intros x Hx; exact Hx | exact Hrun].
    split; intros; reflexivity. }
  exact (proj1 Hc k g u Hk Hu).
Qed.

End Loop.

(** X21.  Without edge detection the outline optimizer gives the corners
    of one position one direction: two polygon corners whose position keys
    are equal have the same entry in the map it returns, or both have
    none. *)
Theorem outline_one_direction_per_position :
  forall (einsum_ij_ij : vec -> vec -> spec_float) (arccos : spec_float -> spec_float)
         (mesh : Mesh) (props : OutlineProperties)
         (export : @PyDict.t nat vec) (v w : nat),
    detect_edges props && toggle_rounding_outline props = false ->
    optimized_outline_generation einsum_ij_ij arccos mesh props = Some export ->
    corner mesh v -> corner mesh w ->
    QVec_eqb (position_key props mesh v) (position_key props mesh w) = true ->
    PyDict.get Nat.eqb export v = PyDict.get Nat.eqb export w.
Proof.
  intros einsum_ij_ij arccos mesh props export v w Hedges Hrun Hv Hw Hkey.
  unfold optimized_outline_generation in Hrun. rewrite Hedges in Hrun.
  destruct (Pos_Same_Vertices (pre_dictionary props mesh 0)); [discriminate |].
  cbn [Same_Vertex] in Hrun.
  destruct (calc_loop _ _ _ _ _ _ _ _ _) as [st' |] eqn:Hloop; [| discriminate].
  injection Hrun as <-.
  destruct (same_key_same_group props mesh 0 v w Hv Hw Hkey) as (g & Hin & Hwg).
  symmetry.
  exact (calc_loop_one_entry_per_group einsum_ij_ij arccos props mesh _ _ _
           (keys_differ_initial_Same_Vertex _)
           (Same_Vertex_key_in_group props mesh 0)
           (Same_Vertex_members props mesh 0)
           st' v g w Hloop Hin Hwg).
Qed.

(** The theorem applies to the run on [seam_mesh]: the coincident
    vertices 0 and 1 have the same entry. *)
Lemma outline_one_direction_per_position_witness :
  PyDict.get Nat.eqb [(0%nat, OutlineExamples.up); (1%nat, OutlineExamples.up)] 0%nat
  = PyDict.get Nat.eqb [(0%nat, OutlineExamples.up); (1%nat, OutlineExamples.up)] 1%nat.
Proof.
  apply (outline_one_direction_per_position
           OutlineExamples.einsum_in_order OutlineExamples.no_arccos
           OutlineExamples.seam_mesh OutlineExamples.seam_props
           [(0%nat, OutlineExamples.up); (1%nat, OutlineExamples.up)] 0%nat 1%nat).
  - reflexivity.
  - vm_compute. reflexivity.
  - eexists. split; [left; reflexivity | cbn; tauto].
  - eexists. split; [right; left; reflexivity | cbn; tauto].
  - vm_compute. reflexivity.
Defined.

End PositionClasses.

(** ** What edge detection leaves alone *)

Section EdgeDetectionGrowth.
Import Outline.

Lemma keys_upsert_present {V : Type} (d : @PyDict.t nat V) (k : nat) (def : V) (f : V -> V) :
  PyDict.get Nat.eqb d k <> None ->
  PyDict.keys (PyDict.upsert Nat.eqb d k def f) = PyDict.keys d.
Proof.
  unfold PyDict.keys.
  induction d as [| [k' v'] d IH]; cbn [PyDict.get PyDict.upsert map fst].
  - intros H. contradiction.
  - destruct (Nat.eqb k k'); intros H; cbn [map fst]; [reflexivity |].
    rewrite (IH H). reflexivity.
Qed.

Lemma add_to_group_keys (c : nat) (vertex_group : PySet.t) :
  forall S, PyDict.keys (add_to_group c vertex_group S) = PyDict.keys S.
Proof.
  unfold add_to_group.
  induction vertex_group as [| x xs IH]; intros S; cbn [fold_left]; [reflexivity |].
  rewrite IH.
  match goal with
  | |- context [match ?g with Some _ => _ | None => _ end] => destruct g eqn:Hx
  end; [| reflexivity].
  apply keys_upsert_present. intros Hn.
  pose proof (eq_trans (eq_sym Hx) Hn) as E. discriminate E.
Qed.

Lemma merge_candidates_keys mesh d vertex_group closest_group p :
  forall S, PyDict.keys (merge_candidates mesh d vertex_group closest_group p S)
            = PyDict.keys S.
Proof.
  unfold merge_candidates.
  induction closest_group as [| c cs IH]; intros S; cbn [fold_left]; [reflexivity |].
  rewrite IH.
  destruct (negb (PySet.mem c vertex_group) && in_box p (verts_obj mesh c) d)%bool;
    [apply add_to_group_keys | reflexivity].
Qed.

Lemma In_update (l : list nat) :
  forall (s : PySet.t) (x : nat), In x (PySet.update s l) -> In x s \/ In x l.
Proof.
  unfold PySet.update.
  induction l as [| y l IH]; intros s x; cbn [fold_left In]; [tauto |].
  intros H. apply IH in H. rewrite In_add in H.
  destruct H as [[-> | H] | H]; tauto.
Qed.

Lemma detect_group_only_adds props mesh pre i_nedd (st : EdgeState) (vertex_group : PySet.t) :
  let st' := detect_group props mesh pre i_nedd st vertex_group in
  grows (Same_Vertex st) (Same_Vertex st') /\
  PyDict.keys (Same_Vertex st') = PyDict.keys (Same_Vertex st) /\
  (forall v, In v (RepositionLocal st') -> In v (RepositionLocal st) \/ In v vertex_group).
Proof.
  cbn zeta. unfold detect_group.
  assert (Hsame : grows (Same_Vertex st) (Same_Vertex st) /\
                  PyDict.keys (Same_Vertex st) = PyDict.keys (Same_Vertex st) /\
                  (forall v, In v (RepositionLocal st) ->
                             In v (RepositionLocal st) \/ In v vertex_group)).
  { split; [apply grows_refl |]. split; [reflexivity | tauto]. }
  destruct (checkEnclosedFacesVertex _ _ _); [exact Hsame |].
  destruct vertex_group as [| vertex rest]; [exact Hsame |].
  unfold seam_update.
  destruct (List.length _ =? 1)%nat; [exact Hsame |].
  cbn [Same_Vertex RepositionLocal].
  split; [apply merge_candidates_grows |].
  split; [apply merge_candidates_keys |].
  intros v. apply In_update.
Qed.

(** X23.  Edge detection only adds: every vertex keeps its entry of
    [Same_Vertex] and every set keeps its members, no entry appears or
    disappears, and a vertex marked for local repositioning is a member of
    one of the position groups. *)
Theorem edge_detection_only_adds :
  forall (props : OutlineProperties) (mesh : Mesh) (pre : PreDict) (i_nedd : Z)
         (S0 : @PyDict.t nat PySet.t),
    grows S0 (Same_Vertex (edge_detection props mesh pre i_nedd S0)) /\
    PyDict.keys (Same_Vertex (edge_detection props mesh pre i_nedd S0)) = PyDict.keys S0 /\
    forall v : nat,
      In v (RepositionLocal (edge_detection props mesh pre i_nedd S0)) ->
      exists vertex_group : PySet.t,
        In vertex_group (PyDict.values (Pos_Same_Vertices pre)) /\ In v vertex_group.
Proof.
  intros props mesh pre i_nedd S0. unfold edge_detection.
  set (groups := PyDict.values (Pos_Same_Vertices pre)).
  assert (H : forall (gs : list PySet.t) (st : EdgeState),
             let st' := fold_left (detect_group props mesh pre i_nedd) gs st in
             grows (Same_Vertex st) (Same_Vertex st') /\
             PyDict.keys (Same_Vertex st') = PyDict.keys (Same_Vertex st) /\
             (forall v, In v (RepositionLocal st') ->
                        In v (RepositionLocal st) \/ exists g, In g gs /\ In v g)).
  { induction gs as [| g gs IH]; intros st; cbn zeta; cbn [fold_left].
    - split; [apply grows_refl |]. split; [reflexivity | tauto].
    - destruct (detect_group_only_adds props mesh pre i_nedd st g) as (G1 & K1 & R1).
      destruct (IH (detect_group props mesh pre i_nedd st g)) as (G2 & K2 & R2).
      split; [exact (grows_trans _ _ _ G1 G2) |].
      split; [rewrite K2; exact K1 |].
      intros v Hv. destruct (R2 v Hv) as [Hr | (g' & Hg' & Hvg)].
      + destruct (R1 v Hr) as [Hr' | Hvg]; [left; exact Hr' |].
        right. exists g. split; [left; reflexivity | exact Hvg].
      + right. exists g'. split; [right; exact Hg' | exact Hvg]. }
  destruct (H groups {| Same_Vertex := S0; RepositionLocal := [] |}) as (G & K & R).
  cbn [Same_Vertex RepositionLocal] in G, K, R.
  split; [exact G |]. split; [exact K |].
  intros v Hv. destruct (R v Hv) as [[] | Hex]. exact Hex.
Qed.

End EdgeDetectionGrowth.
